(* ===== verification/_CoqProject ===== *)
-Q . S2P
Prelude.v
CppStd.v
RocksStatus.v
Store.v
World.v
QueryString.v
Crow.v
HttpParser.v
HttpExecute.v
HttpTotal.v
HttpSafe.v
Trie.v
TrieFacts.v
RouteParams.v
RouteTags.v
RouteTagsFacts.v
StaticFiles.v
Router.v
RouterFacts.v
TaskTimer.v
Connection.v
ConnectionFacts.v
Service.v
Ledger.v
ServiceFacts.v
Instances.v
Transfer.v
Api.v
ApiFacts.v
Wallet.v
Machine.v
Concurrent.v
App.v
ConcurrentFacts.v
Schedules.v
ConcurrentProps.v
QueryFacts.v
Base64.v
Multipart.v
MultipartFacts.v
Json.v
JsonParser.v
JsonFacts.v
JsonWrite.v
JsonProps.v
JsonRoundtrip.v
HttpRoundtrip.v
Sha1.v
Sha1Facts.v
WebSocket.v
WebSocketFacts.v
WebSocketFrames.v
WebSocketServe.v
WebSocketProps.v
Mustache.v
Templates.v
TemplateParse.v
TemplateLines.v
TemplateRender.v
TemplateBlocks.v
TemplateProps.v
Server.v
ServerFacts.v
Worker.v
WorkerFacts.v
WorkerProps.v
Requests.v
Exchanges.v
