(* ===== verification/Prelude.v ===== *)
(** * Digital wallet service: a verification development

    The program is a small wallet server in C++: four REST routes (create an account, transfer,
    read a balance, list the events) over a RocksDB store, an event log in a file, and a state
    machine that carries out transfers (src/src/).  It is served by the web framework Crow, which
    the repository holds as one header (src/lib/crowapi/crow_all.h).  The development models
    both as executable definitions, component by component, and proves what makes them correct;
    where the code does not do what it means to, it proves what it does instead.  A file named
    below without a path is a file of this directory, "crow" stands for crow_all.h.

    ** How the parts interact

    The acceptor gives a connection to a worker thread.  The connection feeds the bytes it reads
    to the HTTP parser, whose callbacks gather a request; the request goes to the router, which
    finds the rule of the URL in a search tree and calls the handler; a handler of the wallet
    reads or writes the store, or queues a command and toggles the state machine.  The response
    it fills is ended by the connection's completion handler, which writes it.  Each part is
    modelled against the parts it calls: as definitions it composes, or as parameters where the
    code has a template argument or a callback.

    ** Foundations

    - Prelude: the outcomes of a C++ computation (a value, an exception, undefined behaviour, a
      failed assertion, waiting), programs as trees of atomic accesses to a shared state, and the
      rewriting database that runs them.
    - CppStd: [int] at its width, [std::stoi], [std::atoi], [std::to_string], stream output.
    - Store: RocksDB's Get and Put as a type class with the laws db.h documents, and two
      instances; Instances: a concrete platform on which the programs are run.
    - RocksStatus: [rocksdb::Status] of status.h.

    ** The wallet (src/src/)

    - World: Config.h, Command.hpp, Event.hpp, MessageQueue.h and the fields of Service.h; the
      shared state of the process.
    - Service: Service.cpp and ConcreteServiceState.cpp, [toggle] and the handlers of the three
      states, every access to shared state one atomic step.  Ledger is the abstract
      specification (accounts, transfers, events and their replay); ServiceFacts and Transfer
      prove that a transfer refines it, and what happens where it cannot; Machine proves that
      [toggle] follows the state machine and ends, over any store.
    - Api: main.cpp, the handlers of the routes and the account-number generator.  ApiFacts and
      Wallet prove that any sequence of requests is answered as an abstract wallet answers it,
      that money is conserved, that the log replays to the balances, and that account numbers
      are not reused, across restarts.
    - App: the routes, and that the router serves them as a table.
    - Concurrent: requests served by several threads, any interleaving of the atomic steps.
      ConcurrentFacts and ConcurrentProps prove that transfers are serialisable and always
      answered; Schedules makes runs of several threads from runs of one, and with it
      ConcurrentProps shows that for any transfers there are schedules that lose money or swap
      answers.

    ** Crow

    - Crow: methods, headers, [request], [response].
    - QueryString: [query_string], the URL decoded in its buffer; QueryFacts: its round trip, for
      names and values of any bytes but NUL.
    - HttpParser, HttpExecute: [http_parser_execute], a definition per case of its switch.
      HttpTotal: it ends on every input; HttpSafe: its assertions hold; HttpRoundtrip: a
      request that is printed is parsed to the events of its parts, whatever its header lines but
      those the parser acts on.
    - Trie, Router: the search tree, rules, [validate] and [handle].  TrieFacts: the search tree of
      URLs without parameters; RouteParams: that of any URLs; RouterFacts: a router is an ordered
      table of rules, with parameters or without.
    - RouteTags: the types of a URL's parameters as numbers, computed by the compiler and at run
      time, and the arguments of a handler; RouteTagsFacts: a handler gets the values of its URL.
    - StaticFiles: [sanitize_filename], and that it confines the path.
    - Connection: [HTTPParser] and [Connection]; ConnectionFacts: its invariant; Server: the
      connections of the wallet; ServerFacts: what holds of them whatever a client sends, and
      the inputs that go wrong; Requests and Exchanges: a client that sends well-formed requests
      in turn is sent the answers of the handlers, byte by byte.
    - TaskTimer, Worker: deadlines, the acceptor, the worker threads and their cached date;
      WorkerFacts, WorkerProps: queues are balanced, tasks run on live connections only, and the
      stale identifier that breaks a deadline.
    - Sha1: [sha1::SHA1]; Sha1Facts: it computes FIPS 180-4's digest of any message.
    - WebSocket: the upgrade of a connection and [websocket::Connection], its reads and writes as
      steps; WebSocketFacts: what holds of every reachable state; WebSocketFrames: the frames of
      RFC 6455; WebSocketServe, WebSocketProps: the frames of a client are the calls of the
      handlers, however they are fragmented, and the inputs and orders that go wrong.
    - Mustache: the parser of templates and [render_internal], with the loader of partials.
      Templates: templates as trees, what they are printed and rendered to; TemplateParse,
      TemplateLines, TemplateRender, TemplateProps: the code does what the trees describe, with
      dotted names and texts that hold single brackets; TemplateBlocks: what it does with blocks
      that are not balanced.
    - Base64, Multipart, Json, JsonParser, JsonWrite: library code of Crow that a handler can
      use.  Base64, MultipartFacts and JsonRoundtrip prove round trips; JsonFacts and JsonProps
      prove that the JSON parser and the reading of its values stay inside of the buffer, for
      any text.

    ** Groups of theorems

    Refinement (requests, exchanges, transfers, router, search tree, frames, templates,
    serialisability), the types of a handler's arguments, equivalence with a standard (SHA-1),
    invariants and safety (money, log, account numbers, freed connections, assertions, buffers, paths),
    termination and liveness (toggle, the parser, transfers under any schedule), round trips
    (requests, parameters, Base 64, multipart, JSON), and errors: for a misbehaviour of the code,
    a theorem with the inputs, the states or the schedules that show it.

    ** Bounds and fuel

    - [int] has 32 bits and its overflow is undefined; [size_t] and the counters of the parser
      wrap around; identifiers of tasks and the queues' lengths have their width.
    - [toggle] has the fuel [process_depth]; Machine shows that it never uses it up.
    - The loops of [http_parser_execute] have fuel by the length of the input; HttpTotal.
    - The recursion of the JSON parser has three for each character and two; JsonFacts.  Its
      other loops have the length of the buffer.
    - The loop of [parse_body] has a turn for each part and one more; it does not end on some
      inputs, which MultipartFacts shows.
    - The loops over a URL's characters have one turn for each and one more; those over the digits
      of a tag, twenty-six, for a [uint64_t] has twenty-five digits in base 6; RouteTagsFacts.
    - Rendering has a turn for each tag and calls with what is left of them, which is enough for a
      template with balanced blocks; the parser's loops have two more than the text has characters,
      and end; TemplateProps.
    - Loops of Base64, QueryString and StaticFiles run over the input they are given, and their
      theorems include that they answer.

    ** Abstractions

    A hash table is the list of its entries, in the order it is iterated in.  A critical section
    of a mutex that protects data accessed only under it is one step.  Operations of asio are
    events that complete in any order the connection allows.  Exceptions of the standard library
    are the values of [exn].

    ** Not modelled

    - RocksDB itself, Boost's archives, UUIDs and lexical_cast: not in the repository as source,
      or headers of a library that is linked as a binary; they are parameters with documented
      laws.  The other headers under lib/rocksdb/ declare what the wallet does not call.
    - Crow's middleware and cookies, CORS, compression, TLS, blueprints with prefixes of their own
      and what a dynamic rule does besides accepting its handler and giving
      it its arguments: the wallet does not use them.
    - Logging, command-line and signal handling, the user's tick function: input and output
      without a state of their own.
    - [remote_endpoint], which [handle] calls to log the client's address and which can throw on a
      socket that is gone.
    - Printing a JSON value to a stream, and a double's comparison with one. *)

From Stdlib Require Import ZArith Lia.
From stdpp Require Import base tactics option strings list gmap.

(** ** Results of a C++ computation *)

(** The exceptions the wallet's code, Crow and the libraries they call can raise. *)
Inductive exn : Type :=
| invalid_argument
| out_of_range
| archive_exception
| bad_lexical_cast
| bad_function_call
| runtime_error (what : string)
| invalid_template (msg : string).

#[global] Instance exn_eq_dec : EqDecision exn.
Proof. solve_decision. Defined.

(** The undefined behaviours the model distinguishes. *)
Inductive undefined : Type :=
| signed_overflow
| atoi_out_of_range
| out_of_bounds
| null_pointer
| use_after_free
| uninitialised.

#[global] Instance undefined_eq_dec : EqDecision undefined.
Proof. solve_decision. Defined.

(** What one run of a piece of code ends in: a value, an exception that
    propagates, undefined behaviour, a failed [assert] (the process aborts), a
    call that waits and cannot proceed in this state, or no fuel left in a
    recursive call. *)
Inductive outcome (A : Type) : Type :=
| Val (a : A)
| Throw (e : exn)
| Undef (u : undefined)
| Aborted
| Blocked
| OutOfFuel.

Arguments Val {A} a.
Arguments Throw {A} e.
Arguments Undef {A} u.
Arguments Aborted {A}.
Arguments Blocked {A}.
Arguments OutOfFuel {A}.

(** ** Strings *)

Lemma string_app_cons c (a b : string) : String c a +:+ b = String c (a +:+ b).
Proof. done. Qed.

Lemma string_app_assoc (a b c : string) : (a +:+ b) +:+ c = a +:+ (b +:+ c).
Proof. induction a as [|x a IH]; [done|]. exact (f_equal (String x) IH). Qed.

Lemma string_app_nil_r (a : string) : a +:+ "" = a.
Proof. induction a as [|x a IH]; [done|]. exact (f_equal (String x) IH). Qed.

Lemma string_app_inj (a b c : string) : a +:+ b = a +:+ c → b = c.
Proof. induction a as [|x a IH]; [done|]. intros E. apply IH. by injection E. Qed.

(** ** Programs as sequences of atomic steps over a shared state

    A program is a tree of atomic accesses to a shared state [W].  [run] executes
    one program alone, which gives its sequential meaning; the interleaving of
    several threads steps their atoms one at a time (file Concurrent). *)

#[warnings="-register-all"]
Inductive prog (W A : Type) : Type :=
| Done (a : A)
| Atom (f : W → outcome (prog W A) * W).

Arguments Done {W A} a.
Arguments Atom {W A} f.

(** The induction principle that reaches below the atoms. *)
Lemma prog_rect_atoms {W A} (P : prog W A → Prop)
    (HD : ∀ a, P (Done a))
    (HA : ∀ f, (∀ w, match (f w).1 with Val p => P p | _ => True end) → P (Atom f)) :
  ∀ p, P p.
Proof.
  fix IH 1. intros [a|f]; [apply HD|].
  apply HA. intros w. destruct (f w) as [o w']. simpl.
  destruct o as [p| | | | |]; [apply IH|exact I..].
Qed.

Section Prog.
Context {W : Type}.

(** Change the type of a result that is no value. *)
Definition outcome_map {A B} (g : A → B) (o : outcome A) : outcome B :=
  match o with
  | Val a => Val (g a)
  | Throw e => Throw e
  | Undef u => Undef u
  | Aborted => Aborted
  | Blocked => Blocked
  | OutOfFuel => OutOfFuel
  end.

Fixpoint prog_bind {A B} (p : prog W A) (k : A → prog W B) : prog W B :=
  match p with
  | Done a => k a
  | Atom f => Atom (λ w, let '(o, w') := f w in (outcome_map (λ q, prog_bind q k) o, w'))
  end.

(** Run a program alone to its end. *)
Fixpoint run {A} (p : prog W A) (w : W) : outcome A * W :=
  match p with
  | Done a => (Val a, w)
  | Atom f =>
      match f w with
      | (Val q, w') => run q w'
      | (Throw e, w') => (Throw e, w')
      | (Undef u, w') => (Undef u, w')
      | (Aborted, w') => (Aborted, w')
      | (Blocked, w') => (Blocked, w')
      | (OutOfFuel, w') => (OutOfFuel, w')
      end
  end.

(** The atoms the program texts are written with. *)
Definition gets {A} (g : W → A) : prog W A := Atom (λ w, (Val (Done (g w)), w)).
Definition modify (g : W → W) : prog W unit := Atom (λ w, (Val (Done tt), g w)).
Definition update {A} (g : W → A * W) : prog W A :=
  Atom (λ w, let '(a, w') := g w in (Val (Done a), w')).
Definition throw {A} (e : exn) : prog W A := Atom (λ w, (Throw e, w)).
Definition undef {A} (u : undefined) : prog W A := Atom (λ w, (Undef u, w)).
Definition abort {A} : prog W A := Atom (λ w, (Aborted, w)).
Definition no_fuel {A} : prog W A := Atom (λ w, (OutOfFuel, w)).

(** Wait until [g] gives a successor state: the step is not enabled before. *)
Definition await {A} (g : W → option (A * W)) : prog W A :=
  Atom (λ w, match g w with
             | Some (a, w') => (Val (Done a), w')
             | None => (Blocked, w)
             end).

(** A pure C++ expression that may throw. *)
Definition lift_exn {A} (r : sum exn A) : prog W A :=
  match r with inl e => throw e | inr a => Done a end.

(** A pure C++ expression with undefined behaviour where it has no value. *)
Definition lift_ub {A} (u : undefined) (r : option A) : prog W A :=
  match r with None => undef u | Some a => Done a end.

(** A critical section of a mutex that protects only data accessed under that
    mutex: one atomic step. *)
Definition critical {A} (p : prog W A) : prog W A :=
  Atom (λ w, let '(o, w') := run p w in (outcome_map Done o, w')).

(** RAII: run [cleanup] when the scope is left, normally or by an exception. *)
Fixpoint on_exit {A} (cleanup : W → W) (p : prog W A) : prog W A :=
  match p with
  | Done a => Atom (λ w, (Val (Done a), cleanup w))
  | Atom f =>
      Atom (λ w, match f w with
                 | (Throw e, w') => (Throw e, cleanup w')
                 | (o, w') => (outcome_map (on_exit cleanup) o, w')
                 end)
  end.

(** [try { p } catch (...) { h }]. *)
Fixpoint catch {A} (h : exn → prog W A) (p : prog W A) : prog W A :=
  match p with
  | Done a => Done a
  | Atom f =>
      Atom (λ w, match f w with
                 | (Throw e, w') => (Val (h e), w')
                 | (o, w') => (outcome_map (catch h) o, w')
                 end)
  end.
End Prog.

Declare Scope prog_scope.
Delimit Scope prog_scope with prog.
Notation "x ← p ; q" := (prog_bind p (λ x, q))
  (at level 20, p at level 100, q at level 200, right associativity) : prog_scope.
Notation "' pat ← p ; q" := (prog_bind p (λ x, match x with pat => q end))
  (at level 20, pat pattern, p at level 100, q at level 200, right associativity) : prog_scope.
Notation "p ;; q" := (prog_bind p (λ _, q))
  (at level 100, q at level 200, right associativity) : prog_scope.

(** *** Pure code that ends in an outcome *)

Definition outcome_bind {A B} (o : outcome A) (k : A → outcome B) : outcome B :=
  match o with
  | Val a => k a
  | Throw e => Throw e
  | Undef u => Undef u
  | Aborted => Aborted
  | Blocked => Blocked
  | OutOfFuel => OutOfFuel
  end.

Declare Scope outcome_scope.
Delimit Scope outcome_scope with outcome.
Notation "x ← p ; q" := (outcome_bind p (λ x, q))
  (at level 20, p at level 100, q at level 200, right associativity) : outcome_scope.
Notation "' pat ← p ; q" := (outcome_bind p (λ x, match x with pat => q end))
  (at level 20, pat pattern, p at level 100, q at level 200, right associativity) : outcome_scope.

(** ** Running composed programs *)

Section Run.
Context {W : Type}.
Local Open Scope prog_scope.

(** Continue after a run. *)
Definition and_then {A B} (r : outcome A * W) (k : A → W → outcome B * W) : outcome B * W :=
  match r with
  | (Val a, w) => k a w
  | (Throw e, w) => (Throw e, w)
  | (Undef u, w) => (Undef u, w)
  | (Aborted, w) => (Aborted, w)
  | (Blocked, w) => (Blocked, w)
  | (OutOfFuel, w) => (OutOfFuel, w)
  end.

Lemma run_bind {A B} (p : prog W A) (k : A → prog W B) w :
  run (prog_bind p k) w = and_then (run p w) (λ a, run (k a)).
Proof.
  revert w. induction p as [a|f IH] using prog_rect_atoms; intros w; [done|].
  simpl. specialize (IH w). destruct (f w) as [[q| | | | |] w']; simpl in *; auto.
Qed.

Lemma run_done {A} (a : A) (w : W) : run (Done a) w = (Val a, w).
Proof. done. Qed.
Lemma run_gets {A} (g : W → A) w : run (gets g) w = (Val (g w), w).
Proof. done. Qed.
Lemma run_modify (g : W → W) w : run (modify g) w = (Val tt, g w).
Proof. done. Qed.
Lemma run_update {A} (g : W → A * W) w : run (update g) w = (Val (g w).1, (g w).2).
Proof. simpl. by destruct (g w). Qed.
Lemma run_throw {A} e w : run (@throw W A e) w = (Throw e, w).
Proof. done. Qed.
Lemma run_await {A} (g : W → option (A * W)) w :
  run (await g) w = match g w with Some (a, w') => (Val a, w') | None => (Blocked, w) end.
Proof. simpl. by destruct (g w) as [[]|]. Qed.
Lemma run_lift_exn {A} (r : sum exn A) (w : W) :
  run (lift_exn r) w = match r with inl e => (Throw e, w) | inr a => (Val a, w) end.
Proof. by destruct r. Qed.
Lemma run_lift_ub {A} u (r : option A) (w : W) :
  run (lift_ub u r) w = match r with None => (Undef u, w) | Some a => (Val a, w) end.
Proof. by destruct r. Qed.
Lemma run_critical {A} (p : prog W A) w : run (critical p) w = run p w.
Proof. simpl. by destruct (run p w) as [[] ?]. Qed.

Lemma run_on_exit {A} c (p : prog W A) w :
  run (on_exit c p) w =
  match run p w with
  | (Val a, w') => (Val a, c w')
  | (Throw e, w') => (Throw e, c w')
  | r => r
  end.
Proof.
  revert w. induction p as [a|f IH] using prog_rect_atoms; intros w; [done|].
  simpl. specialize (IH w). destruct (f w) as [[q| | | | |] w']; simpl in *; auto.
Qed.

Lemma run_catch {A} h (p : prog W A) w :
  run (catch h p) w =
  match run p w with
  | (Throw e, w') => run (h e) w'
  | r => r
  end.
Proof.
  revert w. induction p as [a|f IH] using prog_rect_atoms; intros w; [done|].
  simpl. specialize (IH w). destruct (f w) as [[q| | | | |] w']; simpl in *; auto.
Qed.

(** *** What every atom of a program preserves

    [atoms_preserve I p]: whatever other threads do between the atoms of [p], as
    long as they keep [I], every atom of [p] keeps [I]. *)
Fixpoint atoms_preserve (I : W → Prop) {A} (p : prog W A) : Prop :=
  match p with
  | Done _ => True
  | Atom f =>
      ∀ w, I w → I (f w).2 ∧ match (f w).1 with Val q => atoms_preserve I q | _ => True end
  end.

Lemma atoms_preserve_bind I {A B} (p : prog W A) (k : A → prog W B) :
  atoms_preserve I p → (∀ a, atoms_preserve I (k a)) → atoms_preserve I (prog_bind p k).
Proof.
  intros Hp Hk. induction p as [a|f IH] using prog_rect_atoms; [apply Hk|].
  intros w Hw. destruct (Hp w Hw) as [H1 H2]. specialize (IH w).
  simpl. destruct (f w) as [[q| | | | |] w']; simpl in *; auto.
Qed.

Lemma atoms_preserve_run I {A} (p : prog W A) w :
  atoms_preserve I p → I w → I (run p w).2.
Proof.
  revert w. induction p as [a|f IH] using prog_rect_atoms; intros w Hp Hw; [done|].
  destruct (Hp w Hw) as [H1 H2]. specialize (IH w). simpl.
  destruct (f w) as [[q| | | | |] w']; simpl in *; auto.
Qed.

Lemma atoms_preserve_critical I {A} (p : prog W A) :
  (∀ w, I w → I (run p w).2) → atoms_preserve I (critical p).
Proof.
  intros Hp w Hw. specialize (Hp w Hw). simpl. destruct (run p w) as [[] w']; done.
Qed.

Lemma atoms_preserve_on_exit I c {A} (p : prog W A) :
  (∀ w, I w → I (c w)) → atoms_preserve I p → atoms_preserve I (on_exit c p).
Proof.
  intros Hc Hp. induction p as [a|f IH] using prog_rect_atoms.
  - intros w Hw. simpl. auto.
  - intros w Hw. destruct (Hp w Hw) as [H1 H2]. specialize (IH w).
    simpl. destruct (f w) as [[q| | | | |] w']; simpl in *; auto.
Qed.

Lemma atoms_preserve_catch I {A} h (p : prog W A) :
  (∀ e, atoms_preserve I (h e)) → atoms_preserve I p → atoms_preserve I (catch h p).
Proof.
  intros Hh Hp. induction p as [a|f IH] using prog_rect_atoms; [done|].
  intros w Hw. destruct (Hp w Hw) as [H1 H2]. specialize (IH w).
  simpl. destruct (f w) as [[q| | | | |] w']; simpl in *; auto.
Qed.
End Run.

Create Rewrite HintDb run.
#[export] Hint Rewrite @run_bind @run_done @run_gets @run_modify @run_update @run_throw
  @run_await @run_lift_exn @run_lift_ub @run_critical @run_on_exit @run_catch : run.

(** Symbolic execution of a program text, up to the next unknown result. *)
Ltac run_step := autorewrite with run; cbn [and_then outcome_map fst snd].
Ltac run_simpl := repeat (progress run_step).
