(* ===== verification/CppStd.v ===== *)
(** * The part of the C++ language and standard library the wallet uses

    [int] as a 32-bit two's complement integer (an operation whose exact result does
    not fit has no value: signed overflow is undefined), [std::stoi], [std::atoi],
    [std::to_string], and stream output with [std::setw] and [std::setfill]. *)

From Stdlib Require Import ZArith Lia Ascii String DecimalString DecimalN DecimalPos.
From stdpp Require Import base tactics option strings list.
From S2P Require Import Prelude.

Local Open Scope Z_scope.

(** ** [int] *)

Definition INT_MIN : Z := - 2 ^ 31.
Definition INT_MAX : Z := 2 ^ 31 - 1.

Definition in_int (z : Z) : bool := (INT_MIN <=? z) && (z <=? INT_MAX).

Lemma in_int_spec z : in_int z = true ↔ INT_MIN ≤ z ≤ INT_MAX.
Proof. unfold in_int. rewrite andb_true_iff, !Z.leb_le. lia. Qed.

(** [a + b], [a - b] and [a++] on [int]: no value on overflow. *)
Definition int_add (a b : Z) : option Z := if in_int (a + b) then Some (a + b) else None.
Definition int_sub (a b : Z) : option Z := if in_int (a - b) then Some (a - b) else None.
Definition int_incr (a : Z) : option Z := int_add a 1.

(** The conversion to [uint16_t]. *)
Definition to_uint16 (z : Z) : Z := z mod 2 ^ 16.

Lemma to_uint16_range z : 0 ≤ to_uint16 z < 2 ^ 16.
Proof. apply Z.mod_pos_bound. lia. Qed.

(** ** Characters *)

Definition char_code (c : ascii) : Z := Z.of_N (N_of_ascii c).

(** [isspace] in the "C" locale: tab, LF, VT, FF, CR and space. *)
Definition isspace (c : ascii) : bool :=
  ((9 <=? char_code c) && (char_code c <=? 13)) || (char_code c =? 32).

Definition digit_value (c : ascii) : option Z :=
  if (48 <=? char_code c) && (char_code c <=? 57) then Some (char_code c - 48) else None.

(** ** Parsing numbers *)

Fixpoint skip_spaces (s : string) : string :=
  match s with
  | String c r => if isspace c then skip_spaces r else s
  | EmptyString => EmptyString
  end.

(** The value of the longest prefix of digits, [None] when there is no digit and none
    was read before. *)
Fixpoint read_digits (acc : option Z) (s : string) : option Z :=
  match s with
  | String c r =>
      match digit_value c with
      | Some d => read_digits (Some (10 * default 0 acc + d)) r
      | None => acc
      end
  | EmptyString => acc
  end.

(** [strtol(s, _, 10)] before saturation: [None] when no conversion is made. *)
Definition strtol (s : string) : option Z :=
  match skip_spaces s with
  | String "-" r => Z.opp <$> read_digits None r
  | String "+" r => read_digits None r
  | r => read_digits None r
  end.

(** [std::stoi] *)
Definition stoi (s : string) : exn + Z :=
  match strtol s with
  | None => inl invalid_argument
  | Some z => if in_int z then inr z else inl out_of_range
  end.

(** [std::atoi]: 0 when there is no number, undefined when it does not fit. *)
Definition atoi (s : string) : option Z :=
  match strtol s with
  | None => Some 0
  | Some z => if in_int z then Some z else None
  end.

(** ** Printing numbers *)

Definition decimal (n : N) : string := NilZero.string_of_uint (N.to_uint n).

(** [std::to_string(int)] and [os << int] *)
Definition to_string (z : Z) : string :=
  if z <? 0 then String "-" (decimal (Z.to_N (- z))) else decimal (Z.to_N z).

(** [os << std::setw(w) << std::setfill(c)] before an output [s] (adjusted right). *)
Fixpoint fill (c : ascii) (n : nat) (s : string) : string :=
  match n with O => s | S n' => String c (fill c n' s) end.

Definition setw_fill (w : nat) (c : ascii) (s : string) : string :=
  fill c (w - String.length s) s.

(** [std::endl] *)
Definition endl : string := String "010" EmptyString.

(** ** Round trips *)

Section Digits.
Import Decimal.

(** The value of a sequence of digits after [acc]. *)
Fixpoint uint_val (acc : Z) (d : uint) : Z :=
  match d with
  | Nil => acc
  | D0 d => uint_val (10 * acc) d
  | D1 d => uint_val (10 * acc + 1) d
  | D2 d => uint_val (10 * acc + 2) d
  | D3 d => uint_val (10 * acc + 3) d
  | D4 d => uint_val (10 * acc + 4) d
  | D5 d => uint_val (10 * acc + 5) d
  | D6 d => uint_val (10 * acc + 6) d
  | D7 d => uint_val (10 * acc + 7) d
  | D8 d => uint_val (10 * acc + 8) d
  | D9 d => uint_val (10 * acc + 9) d
  end.

Lemma uint_val_pos d p : uint_val (Z.pos p) d = Z.pos (Pos.of_uint_acc d p).
Proof.
  revert p. induction d; intros p; cbn [uint_val Pos.of_uint_acc]; [done|..];
    rewrite <- IHd; f_equal; lia.
Qed.

Lemma uint_val_zero d : uint_val 0 d = Z.of_N (Pos.of_uint d).
Proof.
  induction d; cbn [uint_val Pos.of_uint]; [done|exact IHd|..];
    change (10 * 0) with 0; rewrite Z.add_0_l, uint_val_pos; done.
Qed.

Lemma read_digits_char c r acc v :
  digit_value c = Some v →
  read_digits (Some acc) (String c r) = read_digits (Some (10 * acc + v)) r.
Proof. intros E. cbn [read_digits]. by rewrite E. Qed.

Lemma read_digits_uint acc d :
  read_digits (Some acc) (NilEmpty.string_of_uint d) = Some (uint_val acc d).
Proof.
  revert acc. induction d; intros acc; cbn [NilEmpty.string_of_uint]; [done|..];
    (erewrite read_digits_char by (vm_compute; reflexivity)); rewrite IHd; cbn [uint_val];
    do 2 f_equal; lia.
Qed.

End Digits.

(** The first character of a printed natural number is a digit. *)
Lemma decimal_head n : ∃ c r v, decimal n = String c r ∧ digit_value c = Some v.
Proof.
  unfold decimal. destruct (N.to_uint n) as [|d|d|d|d|d|d|d|d|d|d];
    cbn [NilZero.string_of_uint NilEmpty.string_of_uint]; do 3 eexists; split; reflexivity.
Qed.

Lemma read_digits_decimal n : read_digits None (decimal n) = Some (Z.of_N n).
Proof.
  destruct (decimal_head n) as (c & r & v & E & Ev).
  assert (read_digits None (decimal n) = read_digits (Some 0) (decimal n)) as ->.
  { rewrite E. cbn [read_digits]. by rewrite Ev. }
  unfold decimal, NilZero.string_of_uint.
  destruct (N.to_uint n) eqn:Eu; [|rewrite read_digits_uint, uint_val_zero, <- Eu;
    do 2 f_equal; apply DecimalN.Unsigned.of_to..].
  exfalso. destruct n as [|p]; [discriminate|].
  apply (DecimalPos.Unsigned.to_uint_nonnil p). exact Eu.
Qed.

(** No sign and no space begins a digit. *)
Lemma digit_value_inv c v :
  digit_value c = Some v → isspace c = false ∧ c ≠ "-"%char ∧ c ≠ "+"%char ∧ 0 ≤ v ≤ 9.
Proof.
  unfold digit_value, isspace. intros E.
  destruct (48 <=? char_code c) eqn:E1, (char_code c <=? 57) eqn:E2; simplify_eq/=.
  apply Z.leb_le in E1, E2. repeat split; [|intros ->; by vm_compute in E1..|lia|lia].
  apply orb_false_iff; rewrite andb_false_iff, !Z.leb_gt, Z.eqb_neq. lia.
Qed.

Lemma strtol_digits s c r v :
  s = String c r → digit_value c = Some v → strtol s = read_digits None s.
Proof.
  intros -> E. destruct (digit_value_inv _ _ E) as (Hs & Hm & Hp & _).
  unfold strtol. cbn [skip_spaces]. rewrite Hs.
  destruct c as [[] [] [] [] [] [] [] []]; try reflexivity; congruence.
Qed.

Lemma strtol_decimal n : strtol (decimal n) = Some (Z.of_N n).
Proof.
  destruct (decimal_head n) as (c & r & v & E & Ev).
  rewrite (strtol_digits _ c r v E Ev). apply read_digits_decimal.
Qed.

Lemma strtol_to_string z : strtol (to_string z) = Some z.
Proof.
  unfold to_string. destruct (z <? 0) eqn:E.
  - apply Z.ltb_lt in E. unfold strtol.
    change (skip_spaces (String "-" ?s)) with (String "-" s). simpl.
    rewrite read_digits_decimal. simpl. f_equal. lia.
  - apply Z.ltb_ge in E. rewrite strtol_decimal. f_equal. lia.
Qed.

(** [std::stoi] reads back what [std::to_string] prints. *)
Lemma stoi_to_string z : in_int z = true → stoi (to_string z) = inr z.
Proof. intros H. unfold stoi. by rewrite strtol_to_string, H. Qed.

Lemma stoi_in_int s z : stoi s = inr z → in_int z = true.
Proof.
  unfold stoi. destruct (strtol s); [|done]. by destruct (in_int z0) eqn:E; intros; simplify_eq.
Qed.

(** A number printed after an explicit sign, as the event log does. *)
Lemma stoi_plus z : 0 ≤ z → in_int z = true → stoi (String "+" (to_string z)) = inr z.
Proof.
  intros Hz H. unfold stoi, strtol. simpl. unfold to_string.
  rewrite (proj2 (Z.ltb_ge z 0)) by done. rewrite read_digits_decimal, Z2N.id by done.
  by rewrite H.
Qed.

Lemma stoi_minus z : 0 ≤ z → in_int z = true → stoi (String "-" (to_string z)) = inr (- z).
Proof.
  intros Hz H. unfold stoi, strtol. simpl. unfold to_string.
  rewrite (proj2 (Z.ltb_ge z 0)) by done. rewrite read_digits_decimal, Z2N.id by done.
  simpl. apply in_int_spec in H. rewrite (proj2 (in_int_spec _)); [done|].
  unfold INT_MIN, INT_MAX in *. lia.
Qed.

Lemma to_string_inj a b : to_string a = to_string b → a = b.
Proof.
  intros E. apply (f_equal strtol) in E. rewrite !strtol_to_string in E. congruence.
Qed.

(** *** Padding *)

Lemma read_digits_fill n s : read_digits (Some 0) (fill "0" n s) = read_digits (Some 0) s.
Proof. induction n as [|n IH]; [done|]. simpl. exact IH. Qed.

Lemma read_digits_setw w z : 0 ≤ z →
  read_digits (Some 0) (setw_fill w "0" (to_string z)) = Some z.
Proof.
  intros Hz. unfold setw_fill. rewrite read_digits_fill. unfold to_string.
  rewrite (proj2 (Z.ltb_ge z 0)) by done.
  destruct (decimal_head (Z.to_N z)) as (c & r & v & E & Ev).
  assert (read_digits (Some 0) (decimal (Z.to_N z)) = read_digits None (decimal (Z.to_N z))) as ->.
  { rewrite E. cbn [read_digits]. by rewrite Ev. }
  rewrite read_digits_decimal. f_equal. lia.
Qed.

(** Zero-padded numbers determine the number. *)
Lemma setw_fill_inj w a b : 0 ≤ a → 0 ≤ b →
  setw_fill w "0" (to_string a) = setw_fill w "0" (to_string b) → a = b.
Proof.
  intros Ha Hb E. apply (f_equal (read_digits (Some 0))) in E.
  rewrite !read_digits_setw in E by done. congruence.
Qed.

Lemma length_fill c n s : String.length (fill c n s) = (n + String.length s)%nat.
Proof. induction n as [|n IH]; simpl; [done|]. by rewrite IH. Qed.

Lemma length_setw_fill w c s : String.length (setw_fill w c s) = Nat.max w (String.length s).
Proof. unfold setw_fill. rewrite length_fill. lia. Qed.
