(* ===== verification/RocksStatus.v ===== *)
(** * The result type of the store: [rocksdb::Status]

    lib/rocksdb/status.h: the codes, the constructors, the classification predicates,
    and the copy, move and comparison operators defined inline in the header.  The
    constructor that formats a message and [ToString] are compiled into the library
    (no source in the repository): the message they build is a parameter. *)

From stdpp Require Import base tactics strings.

Inductive Code : Type :=
| kOk | kNotFound | kCorruption | kNotSupported | kInvalidArgument | kIOError
| kMergeInProgress | kIncomplete | kShutdownInProgress | kTimedOut | kAborted | kBusy
| kExpired | kTryAgain | kCompactionTooLarge | kColumnFamilyDropped.

Inductive SubCode : Type :=
| kNone | kMutexTimeout | kLockTimeout | kLockLimit | kNoSpace | kDeadlock | kStaleFile
| kMemoryLimit | kSpaceLimit | kPathNotFound | KMergeOperandsInsufficientCapacity
| kManualCompactionPaused | kOverwritten | kTxnNotPrepared | kIOFenced.

Inductive Severity : Type :=
| kNoError | kSoftError | kHardError | kFatalError | kUnrecoverableError.

#[global] Instance Code_eq_dec : EqDecision Code.
Proof. solve_decision. Defined.
#[global] Instance SubCode_eq_dec : EqDecision SubCode.
Proof. solve_decision. Defined.
#[global] Instance Severity_eq_dec : EqDecision Severity.
Proof. solve_decision. Defined.

(** The protected fields; [state_] is the optional message. *)
Record Status : Type := MkStatus {
  code_ : Code;
  subcode_ : SubCode;
  sev_ : Severity;
  retryable_ : bool;
  data_loss_ : bool;
  scope_ : N;
  state_ : option string
}.

#[global] Instance Status_eq_dec : EqDecision Status.
Proof. solve_decision. Defined.

Module Status.
(** [Status()] and [Status(Code, SubCode)] *)
Definition default_status : Status := MkStatus kOk kNone kNoError false false 0 None.
Definition of_code (c : Code) (sc : SubCode) : Status :=
  MkStatus c sc kNoError false false 0 None.
Definition of_flags (c : Code) (sc : SubCode) (retryable data_loss : bool) (scope : N) : Status :=
  MkStatus c sc kNoError retryable data_loss scope None.

(** The static constructors without a message. *)
Definition OK : Status := default_status.
Definition OkOverwritten : Status := of_code kOk kOverwritten.
Definition NotFound (msg : SubCode) : Status := of_code kNotFound msg.
Definition Corruption (msg : SubCode) : Status := of_code kCorruption msg.
Definition NotSupported (msg : SubCode) : Status := of_code kNotSupported msg.
Definition InvalidArgument (msg : SubCode) : Status := of_code kInvalidArgument msg.
Definition IOError (msg : SubCode) : Status := of_code kIOError msg.
Definition MergeInProgress (msg : SubCode) : Status := of_code kMergeInProgress msg.
Definition Incomplete (msg : SubCode) : Status := of_code kIncomplete msg.
Definition ShutdownInProgress (msg : SubCode) : Status := of_code kShutdownInProgress msg.
Definition Aborted (msg : SubCode) : Status := of_code kAborted msg.
Definition Busy (msg : SubCode) : Status := of_code kBusy msg.
Definition TimedOut (msg : SubCode) : Status := of_code kTimedOut msg.
Definition Expired (msg : SubCode) : Status := of_code kExpired msg.
Definition TryAgain (msg : SubCode) : Status := of_code kTryAgain msg.
Definition CompactionTooLarge (msg : SubCode) : Status := of_code kCompactionTooLarge msg.
Definition ColumnFamilyDropped (msg : SubCode) : Status := of_code kColumnFamilyDropped msg.
Definition NoSpace : Status := of_code kIOError kNoSpace.
Definition MemoryLimit : Status := of_code kAborted kMemoryLimit.
Definition SpaceLimit : Status := of_code kIOError kSpaceLimit.
Definition PathNotFound : Status := of_code kIOError kPathNotFound.
Definition TxnNotPrepared : Status := of_code kInvalidArgument kTxnNotPrepared.

(** The classification predicates. *)
Definition is_code (s : Status) (c : Code) : bool := bool_decide (code_ s = c).
Definition is_sub (s : Status) (c : SubCode) : bool := bool_decide (subcode_ s = c).

Definition ok (s : Status) : bool := is_code s kOk.
Definition IsOkOverwritten (s : Status) : bool := is_code s kOk && is_sub s kOverwritten.
Definition IsNotFound (s : Status) : bool := is_code s kNotFound.
Definition IsCorruption (s : Status) : bool := is_code s kCorruption.
Definition IsNotSupported (s : Status) : bool := is_code s kNotSupported.
Definition IsInvalidArgument (s : Status) : bool := is_code s kInvalidArgument.
Definition IsIOError (s : Status) : bool := is_code s kIOError.
Definition IsMergeInProgress (s : Status) : bool := is_code s kMergeInProgress.
Definition IsIncomplete (s : Status) : bool := is_code s kIncomplete.
Definition IsShutdownInProgress (s : Status) : bool := is_code s kShutdownInProgress.
Definition IsTimedOut (s : Status) : bool := is_code s kTimedOut.
Definition IsAborted (s : Status) : bool := is_code s kAborted.
Definition IsLockLimit (s : Status) : bool := is_code s kAborted && is_sub s kLockLimit.
Definition IsBusy (s : Status) : bool := is_code s kBusy.
Definition IsDeadlock (s : Status) : bool := is_code s kBusy && is_sub s kDeadlock.
Definition IsExpired (s : Status) : bool := is_code s kExpired.
Definition IsTryAgain (s : Status) : bool := is_code s kTryAgain.
Definition IsCompactionTooLarge (s : Status) : bool := is_code s kCompactionTooLarge.
Definition IsColumnFamilyDropped (s : Status) : bool := is_code s kColumnFamilyDropped.
Definition IsNoSpace (s : Status) : bool := is_code s kIOError && is_sub s kNoSpace.
Definition IsMemoryLimit (s : Status) : bool := is_code s kAborted && is_sub s kMemoryLimit.
Definition IsPathNotFound (s : Status) : bool :=
  (is_code s kIOError || is_code s kNotFound) && is_sub s kPathNotFound.
Definition IsManualCompactionPaused (s : Status) : bool :=
  is_code s kIncomplete && is_sub s kManualCompactionPaused.
Definition IsTxnNotPrepared (s : Status) : bool :=
  is_code s kInvalidArgument && is_sub s kTxnNotPrepared.
Definition IsIOFenced (s : Status) : bool := is_code s kIOError && is_sub s kIOFenced.

(** Copy construction and assignment: the fields, the message copied. *)
Definition copy (s : Status) : Status :=
  MkStatus (code_ s) (subcode_ s) (sev_ s) (retryable_ s) (data_loss_ s) (scope_ s) (state_ s).

(** [Status(const Status&, Severity)] *)
Definition with_severity (s : Status) (sev : Severity) : Status :=
  MkStatus (code_ s) (subcode_ s) sev (retryable_ s) (data_loss_ s) (scope_ s) (state_ s).

(** Move assignment [*this = std::move(s)] between distinct objects: the new value of
    [*this] and what is left in [s]; the moved-from [unique_ptr] is null. *)
Definition move_assign (this s : Status) : Status * Status :=
  (copy s, MkStatus kOk kNone kNoError false false 0 None).

(** [operator==] compares the codes only. *)
Definition eqb (s t : Status) : bool := bool_decide (code_ s = code_ t).

Global Instance equiv_status : Equiv Status := λ s t, eqb s t = true.

Lemma equiv_code s t : s ≡ t ↔ code_ s = code_ t.
Proof. unfold equiv, equiv_status, eqb. by rewrite bool_decide_eq_true. Qed.

Global Instance equiv_status_equivalence : Equivalence (≡@{Status}).
Proof.
  split.
  - intros s. by apply equiv_code.
  - intros s t. rewrite !equiv_code. done.
  - intros s t u. rewrite !equiv_code. congruence.
Qed.

Global Instance ok_proper : Proper ((≡) ==> (=)) ok.
Proof. intros s t E%equiv_code. unfold ok, is_code. by rewrite E. Qed.

Global Instance IsNotFound_proper : Proper ((≡) ==> (=)) IsNotFound.
Proof. intros s t E%equiv_code. unfold IsNotFound, is_code. by rewrite E. Qed.

(** What the wallet relies on: a moved status arrives unchanged, and what is left
    behind reads as success. *)
Lemma move_assign_spec this s :
  (move_assign this s).1 = s ∧ (move_assign this s).2 = OK.
Proof. destruct s. done. Qed.

Lemma ok_true s : ok s = true ↔ s ≡ OK.
Proof. rewrite equiv_code. unfold ok, is_code. by rewrite bool_decide_eq_true. Qed.

Lemma IsNotFound_not_ok s : IsNotFound s = true → ok s = false.
Proof.
  unfold IsNotFound, ok, is_code. rewrite bool_decide_eq_true, bool_decide_eq_false. congruence.
Qed.
End Status.
