(* ===== verification/Store.v ===== *)
(** * Interfaces to the code outside the repository

    RocksDB's [DB::Get] and [DB::Put] (their implementation is linked from
    librocksdb.a), as a type class of operations and a type class of the laws
    lib/rocksdb/db.h documents for them; a reliable store is one whose operations do
    not fail.  Two instances: a finite map, and a map whose operations fail on a
    schedule, on which the error paths are run. *)

From stdpp Require Import base tactics option strings list gmap.
From S2P Require Import Prelude.
From S2P Require Import RocksStatus.

(** [Get] returns the status and the value it stored through its out-parameter, if it
    stored one.  Both operations may change the store's own state: a failure can be
    transient. *)
Class KVStore (db : Type) : Type := {
  kv_get : db → string → db * (Status * option string);
  kv_put : db → string → string → db * Status
}.

(** What db.h says of the two operations, over the contents [kv_view] of the store. *)
Class KVLaws (db : Type) `{KVStore db} : Type := {
  kv_view : db → gmap string string;
  (** [Get] is a const method of the contents *)
  kv_get_view d k : kv_view (kv_get d k).1 = kv_view d;
  (** OK is returned only for a present key, with its value stored *)
  kv_get_ok d k :
    Status.ok (kv_get d k).2.1 = true →
    (kv_get d k).2.2 = kv_view d !! k ∧ is_Some (kv_view d !! k);
  (** OK of [Put]: the entry for the key is set to the value *)
  kv_put_ok d k v :
    Status.ok (kv_put d k v).2 = true →
    kv_view (kv_put d k v).1 = <[k := v]> (kv_view d);
  (** no [Put] touches another key *)
  kv_put_other d k v j :
    j ≠ k → kv_view (kv_put d k v).1 !! j = kv_view d !! j
}.

(** A store on which no operation fails. *)
Class KVReliable (db : Type) `{KVLaws db} : Prop := {
  kv_get_found d k v :
    kv_view d !! k = Some v → Status.ok (kv_get d k).2.1 = true;
  kv_get_absent d k :
    kv_view d !! k = None → Status.IsNotFound (kv_get d k).2.1 = true;
  kv_put_succeeds d k v : Status.ok (kv_put d k v).2 = true
}.

(** ** A finite map *)

#[export] Instance gmap_store : KVStore (gmap string string) := {
  kv_get d k :=
    match d !! k with
    | Some v => (d, (Status.OK, Some v))
    | None => (d, (Status.NotFound kNone, None))
    end;
  kv_put d k v := (<[k := v]> d, Status.OK)
}.

#[export] Instance gmap_store_laws : KVLaws (gmap string string).
Proof.
  refine {| kv_view := id |}; simpl.
  - intros d k. by destruct (d !! k).
  - intros d k. destruct (d !! k) eqn:E; simpl; [by eauto|done].
  - done.
  - intros d k v j Hj. by rewrite lookup_insert_ne.
Defined.

#[export] Instance gmap_store_reliable : KVReliable (gmap string string).
Proof. split; simpl; intros d k; intros; by simplify_option_eq. Qed.

(** ** A map whose operations fail on a schedule

    [faults] says, for each operation in turn, whether it fails with an I/O error
    that changes nothing; no entry left means success. *)
Record FaultyDB : Type := MkFaultyDB {
  contents : gmap string string;
  faults : list bool
}.

Definition next_fault (d : FaultyDB) : bool * FaultyDB :=
  match faults d with
  | [] => (false, d)
  | b :: bs => (b, MkFaultyDB (contents d) bs)
  end.

#[export] Instance faulty_store : KVStore FaultyDB := {
  kv_get d k :=
    let '(b, d') := next_fault d in
    if b then (d', (Status.IOError kNone, None))
    else match contents d' !! k with
         | Some v => (d', (Status.OK, Some v))
         | None => (d', (Status.NotFound kNone, None))
         end;
  kv_put d k v :=
    let '(b, d') := next_fault d in
    if b then (d', Status.IOError kNone)
    else (MkFaultyDB (<[k := v]> (contents d')) (faults d'), Status.OK)
}.

#[export] Instance faulty_store_laws : KVLaws FaultyDB.
Proof.
  refine {| kv_view := contents |}; simpl; intros [m fs] k;
    destruct fs as [|[] fs]; simpl; intros; try done;
    try (destruct (m !! k); simpl in *; eauto; done);
    by rewrite lookup_insert_ne.
Defined.
