(* ===== verification/World.v ===== *)
(** * The state of the wallet service

    src/Config.h, src/Command.hpp, src/Event.hpp, src/MessageQueue.h, src/Service.h:
    the data, the pure operations on it, and the shared state of the process. *)

From Stdlib Require Import ZArith.
From stdpp Require Import base tactics option strings list gmap.
From S2P Require Import Prelude.
From S2P Require Import CppStd.
From S2P Require Import RocksStatus.
From S2P Require Import Store.

(** ** Config.h *)

Record Config : Type := MkConfig {
  db_path : string;
  seed_file : string;
  event_log : string;
  port : Z
}.

Module Config.
(** The default member initialisers. *)
Definition defaults : Config :=
  MkConfig "./data/walletdb" "./data/account-seed.dat" "./data/event-log.txt" 18080.

(** The constructor reads four environment variables; [std::atoi] of a number that
    does not fit is undefined. *)
Definition init (getenv : string → option string) : option Config :=
  let c := defaults in
  let db := default (db_path c) (getenv "WALLET_DB_PATH") in
  let seed := default (seed_file c) (getenv "WALLET_SEED_FILE") in
  let log := default (event_log c) (getenv "WALLET_EVENT_LOG") in
  p ← match getenv "WALLET_PORT" with
      | Some env => atoi env
      | None => Some (port c)
      end;
  Some (MkConfig db seed log p).
End Config.

(** ** Command.hpp *)

Record Command : Type := MkCommand {
  tx_id : string;
  account1 : string;
  account2 : string;
  cmd_amount : string;
  cmd_action : string
}.

#[global] Instance Command_eq_dec : EqDecision Command.
Proof. solve_decision. Defined.

Module Command.
(** [Command() = default] *)
Definition empty : Command := MkCommand "" "" "" "" "".

(** The constructor with four arguments; [id] is what [generateID] returned. *)
Definition make (acc1 acc2 amount action id : string) : Command :=
  MkCommand id acc1 acc2 amount action.

(** [operator<<] *)
Definition print (c : Command) : string :=
  tx_id c +:+ " " +:+ account1 c +:+ " " +:+ account2 c +:+ " " +:+ cmd_amount c
  +:+ " " +:+ cmd_action c.
End Command.

(** ** Event.hpp *)

Record Event : Type := MkEvent {
  ev_action : string;
  ev_account : string;
  ev_amount : string;
  parent_tx_id : string
}.

#[global] Instance Event_eq_dec : EqDecision Event.
Proof. solve_decision. Defined.

Module Event.
(** [Event()] *)
Definition empty : Event := MkEvent "" "" "" "".

(** [operator<<] *)
Definition print (e : Event) : string :=
  parent_tx_id e +:+ " " +:+ ev_account e +:+ " " +:+ ev_amount e +:+ " " +:+ ev_action e.

(** [toString] *)
Definition toString (e : Event) : string :=
  "Transaction ID: " +:+ parent_tx_id e +:+ " Action: " +:+ ev_action e +:+
  " Account: " +:+ ev_account e +:+ " Amount: " +:+ ev_amount e +:+ endl.

(** [serialize]: the fields in the order the archive visits them. *)
Definition fields (e : Event) : list string :=
  [ev_action e; ev_account e; ev_amount e; parent_tx_id e].
End Event.

(** ** MessageQueue.h

    The deque, its front first.  [_mutex] protects nothing else, so each member is one
    atomic step; [receive] waits while the deque is empty. *)
Module MessageQueue.
Section MessageQueue.
Context {T : Type}.

(** [_messages.push_back(std::move(msg))] *)
Definition send (msg : T) (messages : list T) : list T := messages ++ [msg].

(** [_messages.back()], then [pop_back()] *)
Definition receive (messages : list T) : option (T * list T) :=
  match last messages with
  | Some msg => Some (msg, removelast messages)
  | None => None
  end.
End MessageQueue.
End MessageQueue.

(** ** Service.h *)

(** The singletons [currentState] points to. *)
Inductive ServiceState : Type := ServiceListen | ServiceValidate | ServiceApply.

#[global] Instance ServiceState_eq_dec : EqDecision ServiceState.
Proof. solve_decision. Defined.

(** [getStateName] *)
Definition getStateName (s : ServiceState) : string :=
  match s with
  | ServiceListen => "LISTEN"
  | ServiceValidate => "VALIDATE"
  | ServiceApply => "APPLY"
  end.

(** [cv_m] is whether the mutex is held, [cv] counts the calls of [notify_all]. *)
Record Service (db : Type) : Type := MkService {
  accountDB : db;
  status : Status;
  command_queue : list Command;
  currentState : ServiceState;
  command_to_process : Command;
  cv : nat;
  cv_m : bool
}.

Arguments MkService {db} _ _ _ _ _ _ _.
Arguments accountDB {db} _.
Arguments status {db} _.
Arguments command_queue {db} _.
Arguments currentState {db} _.
Arguments command_to_process {db} _.
Arguments cv {db} _.
Arguments cv_m {db} _.

(** ** The libraries under the service

    Boost's UUID generator and text archives, [rocksdb::Status::ToString], and whether
    the file system lets a path be opened for writing. *)
Class Platform : Type := {
  uuid_state : Type;
  uuid_generate : uuid_state → string * uuid_state;
  Status_ToString : Status → string;
  (** the bytes [oa << int] writes, and what [ia >> int] reads *)
  save_int : Z → string;
  load_int : string → option Z;
  (** the bytes [oa << eventA << eventB] writes, and what [ia >> event1 >> event2]
      reads at the start of a file *)
  save_events : Event → Event → string;
  load_events : string → option (Event * Event);
  fs_writable : string → bool
}.

(** What Boost documents: loading gives back what was saved, whatever follows it. *)
Class PlatformLaws `{Platform} : Prop := {
  load_save_int z : in_int z = true → load_int (save_int z) = Some z;
  load_save_events a b rest : load_events (save_events a b +:+ rest) = Some (a, b)
}.

(** ** The whole process

    The service, the files, the entropy the UUID generators draw from, and what was
    printed. *)
Record World (db : Type) `{Platform} : Type := MkWorld {
  service : Service db;
  fs : gmap string string;
  uuids : uuid_state;
  cout : list string;
  cerr : list string
}.

Arguments MkWorld {db _} _ _ _ _ _.
Arguments service {db _} _.
Arguments fs {db _} _.
Arguments uuids {db _} _.
Arguments cout {db _} _.
Arguments cerr {db _} _.

(** *** Field updates *)
Section Updates.
Context {db : Type} `{Platform}.

Definition with_service (f : Service db → Service db) (w : World db) : World db :=
  MkWorld (f (service w)) (fs w) (uuids w) (cout w) (cerr w).
Definition with_fs (f : gmap string string → gmap string string) (w : World db) : World db :=
  MkWorld (service w) (f (fs w)) (uuids w) (cout w) (cerr w).
Definition with_uuids (u : uuid_state) (w : World db) : World db :=
  MkWorld (service w) (fs w) u (cout w) (cerr w).
Definition print_cout (s : string) (w : World db) : World db :=
  MkWorld (service w) (fs w) (uuids w) (cout w ++ [s]) (cerr w).
Definition print_cerr (s : string) (w : World db) : World db :=
  MkWorld (service w) (fs w) (uuids w) (cout w) (cerr w ++ [s]).

Definition set_accountDB (d : db) (s : Service db) : Service db :=
  MkService d (status s) (command_queue s) (currentState s) (command_to_process s) (cv s) (cv_m s).
Definition set_status (st : Status) (s : Service db) : Service db :=
  MkService (accountDB s) st (command_queue s) (currentState s) (command_to_process s) (cv s) (cv_m s).
Definition set_command_queue (q : list Command) (s : Service db) : Service db :=
  MkService (accountDB s) (status s) q (currentState s) (command_to_process s) (cv s) (cv_m s).
Definition set_currentState (st : ServiceState) (s : Service db) : Service db :=
  MkService (accountDB s) (status s) (command_queue s) st (command_to_process s) (cv s) (cv_m s).
Definition set_command_to_process (c : Command) (s : Service db) : Service db :=
  MkService (accountDB s) (status s) (command_queue s) (currentState s) c (cv s) (cv_m s).
Definition notify_all (s : Service db) : Service db :=
  MkService (accountDB s) (status s) (command_queue s) (currentState s) (command_to_process s) (S (cv s)) (cv_m s).
Definition set_cv_m (b : bool) (s : Service db) : Service db :=
  MkService (accountDB s) (status s) (command_queue s) (currentState s) (command_to_process s) (cv s) b.
End Updates.
