(* ===== verification/QueryString.v ===== *)
(** * Query strings

    lib/crowapi/crow_all.h, [qs_strncmp] to [qs_scanvalue] and the class
    [crow::query_string]: the URL is one NUL-terminated buffer, a key/value pair is a
    pointer into it, and values are decoded in place.

    A buffer is the list of its bytes with the terminator; a pointer is an index; the
    functions that only read take the bytes from the pointer on.  Reading past the end of
    the buffer has no value ([None]). *)

From Stdlib Require Import ZArith Lia Ascii String.
From stdpp Require Import base tactics option strings list.
From S2P Require Import Prelude.
From S2P Require Import CppStd.

Local Open Scope Z_scope.

Abbreviation bytes := (list ascii).
Definition nul : ascii := Ascii.zero.

(** [CROW_QS_ISHEX], [CROW_QS_HEX2DEC], [CROW_QS_ISQSCHR] *)
Definition ISHEX (x : ascii) : bool :=
  let c := char_code x in
  ((48 <=? c) && (c <=? 57)) || ((65 <=? c) && (c <=? 70)) || ((97 <=? c) && (c <=? 102)).

Definition HEX2DEC (x : ascii) : Z :=
  let c := char_code x in
  if (48 <=? c) && (c <=? 57) then c - 48
  else if (65 <=? c) && (c <=? 70) then c - 55
  else if (97 <=? c) && (c <=? 102) then c - 87
  else 0.

Definition ISQSCHR (x : ascii) : bool :=
  negb (Ascii.eqb x "=" || Ascii.eqb x "#" || Ascii.eqb x "&" || Ascii.eqb x nul).

(** A value stored to an [unsigned char] or a [char]. *)
Definition to_char (z : Z) : ascii := ascii_of_N (Z.to_N (z mod 256)).

(** ** Reading: strlen, strcspn, C strings *)

(** The index of the first byte of [s] that is in [reject] or NUL. *)
Fixpoint strcspn (s : bytes) (reject : bytes) : nat :=
  match s with
  | [] => 0
  | c :: r => if bool_decide (c ∈ reject) || Ascii.eqb c nul then 0 else S (strcspn r reject)
  end.

(** [std::string(p)]: the bytes before the terminator. *)
Fixpoint c_str (s : bytes) : bytes :=
  match s with
  | [] => []
  | c :: r => if Ascii.eqb c nul then [] else c :: c_str r
  end.

(** ** qs_strncmp *)

(** One character of either string, decoded, and the rest. *)
Definition qs_char (s : bytes) : option (ascii * bytes) :=
  c ← head s;
  let r := tail s in
  let u := if ISQSCHR c then c else nul in
  let u := if Ascii.eqb u "+" then " "%char else u in
  if Ascii.eqb u "%" then
    unyb ← head r;
    lnyb ← head (tail r);
    Some (if ISHEX unyb && ISHEX lnyb then to_char (HEX2DEC unyb * 16 + HEX2DEC lnyb) else nul,
          tail (tail r))
  else Some (u, r).

Fixpoint qs_strncmp (s qs : bytes) (n : nat) : option Z :=
  match n with
  | O => c ← head qs; Some (if ISQSCHR c then -1 else 0)
  | S n' =>
      '(u1, s') ← qs_char s;
      '(u2, qs') ← qs_char qs;
      if negb (Ascii.eqb u1 u2) then Some (char_code u1 - char_code u2)
      else if Ascii.eqb u1 nul then Some 0
      else qs_strncmp s' qs' n'
  end.

(** ** qs_decode *)

(** The loop, with the number of iterations it can still make; [i] and [j] are the two
    indices, counted from the start of the buffer. *)
Fixpoint qs_decode_loop (fuel : nat) (buf : bytes) (i j : nat) : option bytes :=
  match fuel with
  | O => None
  | S fuel =>
      c ← buf !! j;
      if ISQSCHR c then
        if Ascii.eqb c "+" then qs_decode_loop fuel (<[i := " "%char]> buf) (S i) (S j)
        else if Ascii.eqb c "%" then
          c1 ← buf !! (j + 1)%nat;
          if negb (ISHEX c1) then Some (<[i := nul]> buf)
          else
            c2 ← buf !! (j + 2)%nat;
            if negb (ISHEX c2) then Some (<[i := nul]> buf)
            else qs_decode_loop fuel (<[i := to_char (HEX2DEC c1 * 16 + HEX2DEC c2)]> buf)
                   (S i) (S (j + 2))
        else qs_decode_loop fuel (<[i := c]> buf) (S i) (S j)
      else Some (<[i := nul]> buf)
  end.

(** [qs_decode(p)]: every iteration advances [j], so the length of the buffer bounds
    their number. *)
Definition qs_decode (buf : bytes) (p : nat) : option bytes :=
  qs_decode_loop (S (length buf)) buf p p.

(** ** qs_parse *)

Definition MAX_KEY_VALUE_PAIRS_COUNT : nat := 256.

(** The [while] loop: the pointers stored in [qs_kv], at most [n] of them. *)
Fixpoint qs_split (n : nat) (buf : bytes) (p : nat) : option (list nat) :=
  match n with
  | O => Some []
  | S n' =>
      let j := strcspn (drop p buf) ["&"%char] in
      c ← buf !! (p + j)%nat;
      if Ascii.eqb c nul then Some [p]
      else rest ← qs_split n' buf (p + j + 1); Some (p :: rest)
  end.

(** The body of the [for] loop: decode the value of the pair at [p] in place. *)
Definition qs_decode_pair (buf : bytes) (p : nat) : option bytes :=
  let q := (p + strcspn (drop p buf) ["="; "&"; "#"]%char)%nat in
  c ← buf !! q;
  if Ascii.eqb c "&" || Ascii.eqb c nul then Some (<[q := nul]> buf)
  else qs_decode buf (S q).

Fixpoint qs_decode_pairs (buf : bytes) (ps : list nat) : option bytes :=
  match ps with
  | [] => Some buf
  | p :: ps => buf' ← qs_decode_pair buf p; qs_decode_pairs buf' ps
  end.

Definition qs_parse (buf : bytes) (qs_kv_size : nat) : option (bytes * list nat) :=
  let p := strcspn buf ["?"; "#"]%char in
  c ← buf !! p;
  if Ascii.eqb c nul then Some (buf, [])
  else
    kv ← qs_split qs_kv_size buf (S p);
    buf' ← qs_decode_pairs buf kv;
    Some (buf', kv).

(** ** qs_k2v *)

(** The value of the [nth] pair whose key is [key]: a pointer, none ([nullptr]), or a
    read out of bounds. *)
Fixpoint qs_k2v (key : bytes) (buf : bytes) (kv : list nat) (nth : nat) : option (option nat) :=
  match kv with
  | [] => Some None
  | p :: kv =>
      r ← qs_strncmp (key ++ [nul]) (drop p buf) (length key);
      if r =? 0 then
        match nth with
        | O =>
            let skip := strcspn (drop p buf) ["="%char] in
            c ← buf !! (p + skip)%nat;
            Some (Some (if Ascii.eqb c "=" then p + skip + 1 else p + skip)%nat)
        | S nth => qs_k2v key buf kv nth
        end
      else qs_k2v key buf kv nth
  end.

(** ** crow::query_string *)

Record query_string : Type := MkQueryString {
  url_ : bytes;                   (** the buffer, terminator included *)
  key_value_pairs_ : list nat
}.

(** The default constructor. *)
Definition query_string_empty : query_string := MkQueryString [nul] [].

(** [query_string(std::string url)] *)
Definition query_string_of (url : bytes) : option query_string :=
  match url with
  | [] => Some query_string_empty
  | _ =>
      '(buf, kv) ← qs_parse (url ++ [nul]) MAX_KEY_VALUE_PAIRS_COUNT;
      Some (MkQueryString buf kv)
  end.

(** [get]: the value as the caller reads it, a C string. *)
Definition qs_get (qs : query_string) (name : bytes) : option (option bytes) :=
  r ← qs_k2v name (url_ qs) (key_value_pairs_ qs) 0;
  Some (option_map (λ p, c_str (drop p (url_ qs))) r).

(** On strings, as the handlers call it. *)
Definition param (qs : query_string) (name : string) : option (option string) :=
  r ← qs_get qs (list_ascii_of_string name);
  Some (option_map string_of_list_ascii r).

Definition parse_url (url : string) : option query_string :=
  query_string_of (list_ascii_of_string url).

(** *** Values that are lists and dictionaries *)

(** [qs_dict_name2kv]: the key between the brackets and the value of the pair that is reached
    when [nth] has come down to zero. *)
Fixpoint qs_dict_name2kv (dict_name : bytes) (buf : bytes) (kv : list nat) (nth : Z)
    : option (bytes * bytes) :=
  match kv with
  | [] => None
  | p :: kv =>
      let item := drop p buf in
      if bool_decide (take (length dict_name) (c_str item) = dict_name) then
        let past (skip : nat) (c : ascii) :=
          if bool_decide (item !! skip = Some c) then S skip else skip in
        let skip_to_eq := past (strcspn item ["="%char]) "="%char in
        let skip_to_brace_open := past (strcspn item ["["%char]) "["%char in
        let skip_to_brace_close := strcspn item ["]"%char] in
        if (skip_to_brace_open <=? skip_to_brace_close)%nat && (0 <? skip_to_brace_open)%nat &&
           (0 <? skip_to_brace_close)%nat && (nth =? 0) then
          Some (take (skip_to_brace_close - skip_to_brace_open) (drop skip_to_brace_open item),
                c_str (drop skip_to_eq item))
        else qs_dict_name2kv dict_name buf kv (nth - 1)
      else qs_dict_name2kv dict_name buf kv nth
  end.

(** The [while] of [get_list], from [count] on. *)
Fixpoint get_list_from (fuel : nat) (plus : bytes) (qs : query_string) (count : nat)
    : option (list bytes) :=
  match fuel with
  | O => None
  | S fuel =>
      element ← qs_k2v plus (url_ qs) (key_value_pairs_ qs) count;
      match element with
      | None => Some []
      | Some p =>
          rest ← get_list_from fuel plus qs (S count);
          Some (c_str (drop p (url_ qs)) :: rest)
      end
  end.

(** [get_list]; there are no more values than pairs. *)
Definition get_list (qs : query_string) (name : bytes) (use_brackets : bool) : option (list bytes) :=
  get_list_from (S (length (key_value_pairs_ qs)))
    (name ++ if use_brackets then ["["; "]"]%char else []) qs 0.

(** [std::unordered_map::insert] keeps what is there. *)
Definition dict_insert (kv : bytes * bytes) (d : list (bytes * bytes)) : list (bytes * bytes) :=
  if bool_decide (kv.1 ∈ d.*1) then d else d ++ [kv].

Fixpoint get_dict_from (fuel : nat) (name : bytes) (qs : query_string) (count : Z)
    (ret : list (bytes * bytes)) : option (list (bytes * bytes)) :=
  match fuel with
  | O => None
  | S fuel =>
      match qs_dict_name2kv name (url_ qs) (key_value_pairs_ qs) count with
      | Some element => get_dict_from fuel name qs (count + 1) (dict_insert element ret)
      | None => Some ret
      end
  end.
Definition get_dict (qs : query_string) (name : bytes) : option (list (bytes * bytes)) :=
  get_dict_from (S (length (key_value_pairs_ qs))) name qs 0 [].

(** *** Removing pairs *)

(** [str_item.substr(0, prefix.size()) == prefix] *)
Definition has_prefix (qs : query_string) (prefix : bytes) (p : nat) : bool :=
  bool_decide (take (length prefix) (c_str (drop p (url_ qs))) = prefix).
Definition set_pairs (kv : list nat) (qs : query_string) : query_string := MkQueryString (url_ qs) kv.

Fixpoint erase_first (f : nat → bool) (kv : list nat) : list nat :=
  match kv with
  | [] => []
  | p :: kv => if f p then kv else p :: erase_first f kv
  end.
Definition erase_all (f : nat → bool) (kv : list nat) : list nat := List.filter (λ p, negb (f p)) kv.

Definition pop (qs : query_string) (name : bytes) : option (option bytes * query_string) :=
  ret ← qs_get qs name;
  Some (ret,
    match ret with
    | None => qs
    | Some _ => set_pairs (erase_first (has_prefix qs (name ++ ["="%char])) (key_value_pairs_ qs)) qs
    end).

Definition pop_list (qs : query_string) (name : bytes) (use_brackets : bool)
    : option (list bytes * query_string) :=
  ret ← get_list qs name use_brackets;
  Some (ret,
    match ret with
    | [] => qs
    | _ =>
        let prefix := name ++ (if use_brackets then ["["; "]"; "="]%char else ["="%char]) in
        set_pairs (erase_all (has_prefix qs prefix) (key_value_pairs_ qs)) qs
    end).

Definition pop_dict (qs : query_string) (name : bytes)
    : option (list (bytes * bytes) * query_string) :=
  ret ← get_dict qs name;
  Some (ret,
    match ret with
    | [] => qs
    | _ => set_pairs (erase_all (has_prefix qs (name ++ ["["%char])) (key_value_pairs_ qs)) qs
    end).

(** [str_element.substr(0, str_element.find('='))] *)
Fixpoint before_eq (s : bytes) : bytes :=
  match s with
  | [] => []
  | c :: s => if Ascii.eqb c "=" then [] else c :: before_eq s
  end.
Definition keys (qs : query_string) : list bytes :=
  (λ p, before_eq (c_str (drop p (url_ qs)))) <$> key_value_pairs_ qs.

(** [clear] *)
Definition qs_clear (qs : query_string) : query_string := MkQueryString [nul] [].

(** [operator<<] *)
Definition print_query_string (qs : query_string) : bytes :=
  list_ascii_of_string "[ " ++
  List.concat (imap (λ i p, (if Nat.eqb i 0 then [] else list_ascii_of_string ", ") ++
                            c_str (drop p (url_ qs))) (key_value_pairs_ qs)) ++
  list_ascii_of_string " ]".

(** *** qs_scanvalue

    The bytes stored at [val], for a buffer of [val_len] bytes: none when the function returns
    a null pointer.  [strncpy] pads with NUL to the length it is given. *)
Fixpoint scan_pairs (fuel : nat) (key : bytes) (qs : bytes) : option bytes :=
  match fuel with
  | O => None
  | S fuel =>
      c ← head qs;
      if Ascii.eqb c "#" || Ascii.eqb c nul then Some qs
      else
        r ← qs_strncmp (key ++ [nul]) qs (length key);
        if r =? 0 then Some qs else scan_pairs fuel key (drop (S (strcspn qs ["&"%char])) qs)
  end.

Definition strncpy (src : bytes) (n : nat) : bytes :=
  let s := take n (c_str src) in s ++ replicate (n - length s) nul.

(** [val] is a buffer of [val_len] bytes; with [val_len = 0] the length [val_len - 1] wraps. *)
Definition qs_scanvalue (key qs val : bytes) : option (option bytes) :=
  let skip := strcspn qs ["?"%char] in
  c ← qs !! skip;
  let qs := if Ascii.eqb c "?" then drop (S skip) qs else qs in
  qs ← scan_pairs (S (length qs)) key qs;
  c ← head qs;
  if Ascii.eqb c nul then Some None
  else
    let qs := drop (strcspn qs ["="; "&"; "#"]%char) qs in
    c ← head qs;
    if Ascii.eqb c "=" then
      let qs := tail qs in
      let n := (strcspn qs ["&"; "="; "#"]%char + 1)%nat in
      let n := match length val with O => n | S m => Nat.min m n end in
      if (n <=? length val)%nat then
        val ← qs_decode (strncpy qs n ++ drop n val) 0;
        Some (Some val)
      else None
    else Some (Some (match val with [] => [] | _ => <[0%nat := nul]> val end)).
