(* ===== verification/Crow.v ===== *)
(** * HTTP requests and responses

    lib/crowapi/crow_all.h: the case-insensitive header map, [HTTPMethod] with its tables,
    [routing_params], [crow::request] and [crow::response]. *)

From Stdlib Require Import ZArith Lia Ascii String.
From stdpp Require Import base tactics option strings list.
From S2P Require Import Prelude.
From S2P Require Import CppStd.
From S2P Require Import QueryString.

(** ** HTTPMethod *)

Inductive HTTPMethod : Type :=
| Delete | Get | Head | Post | Put | Connect | Options | Trace | Patch | Purge | Copy
| Lock | MkCol | Move | Propfind | Proppatch | Search | Unlock | Bind | Rebind | Unbind
| Acl | Report | MkActivity | Checkout | Merge | MSearch | Notify | Subscribe
| Unsubscribe | MkCalendar | Link | Unlink | Source.

#[global] Instance HTTPMethod_eq_dec : EqDecision HTTPMethod.
Proof. solve_decision. Defined.

(** The enumerators in the order of their values. *)
Definition all_methods : list HTTPMethod :=
  [Delete; Get; Head; Post; Put; Connect; Options; Trace; Patch; Purge; Copy; Lock;
   MkCol; Move; Propfind; Proppatch; Search; Unlock; Bind; Rebind; Unbind; Acl; Report;
   MkActivity; Checkout; Merge; MSearch; Notify; Subscribe; Unsubscribe; MkCalendar;
   Link; Unlink; Source].

Definition InternalMethodCount : nat := length all_methods.

(** The value of an enumerator: its position. *)
Definition method_value (m : HTTPMethod) : nat :=
  match m with
  | Delete => 0 | Get => 1 | Head => 2 | Post => 3 | Put => 4 | Connect => 5
  | Options => 6 | Trace => 7 | Patch => 8 | Purge => 9 | Copy => 10 | Lock => 11
  | MkCol => 12 | Move => 13 | Propfind => 14 | Proppatch => 15 | Search => 16
  | Unlock => 17 | Bind => 18 | Rebind => 19 | Unbind => 20 | Acl => 21 | Report => 22
  | MkActivity => 23 | Checkout => 24 | Merge => 25 | MSearch => 26 | Notify => 27
  | Subscribe => 28 | Unsubscribe => 29 | MkCalendar => 30 | Link => 31 | Unlink => 32
  | Source => 33
  end.

(** [static_cast<HTTPMethod>(v)]; no enumerator from [InternalMethodCount] on. *)
Definition method_of_value (v : nat) : option HTTPMethod := all_methods !! v.

Definition method_strings : list string :=
  ["DELETE"; "GET"; "HEAD"; "POST"; "PUT"; "CONNECT"; "OPTIONS"; "TRACE"; "PATCH";
   "PURGE"; "COPY"; "LOCK"; "MKCOL"; "MOVE"; "PROPFIND"; "PROPPATCH"; "SEARCH";
   "UNLOCK"; "BIND"; "REBIND"; "UNBIND"; "ACL"; "REPORT"; "MKACTIVITY"; "CHECKOUT";
   "MERGE"; "M-SEARCH"; "NOTIFY"; "SUBSCRIBE"; "UNSUBSCRIBE"; "MKCALENDAR"; "LINK";
   "UNLINK"; "SOURCE"].

(** [method_name]; [None] is a value from [InternalMethodCount] on. *)
Definition method_name (m : option HTTPMethod) : string :=
  match m with
  | Some m => default "invalid" (method_strings !! method_value m)
  | None => "invalid"
  end.

(** [black_magic::is_equ_p] on two C strings. *)
Fixpoint is_equ_p (a b : string) (n : nat) : bool :=
  match a, b with
  | EmptyString, EmptyString => true && Nat.eqb n 0
  | EmptyString, _ | _, EmptyString => false
  | String x a', String y b' =>
      match n with
      | O => true
      | S n' => if Ascii.eqb x y then is_equ_p a' b' n' else false
      end
  end.

(** The table of [method_from_string], tried in order. *)
Definition method_table : list (string * nat * HTTPMethod) :=
  [("GET", 3, Get); ("DELETE", 6, Delete); ("HEAD", 4, Head); ("POST", 4, Post);
   ("PUT", 3, Put); ("OPTIONS", 7, Options); ("CONNECT", 7, Connect);
   ("TRACE", 5, Trace); ("PATCH", 5, Patch); ("PURGE", 5, Purge); ("COPY", 4, Copy);
   ("LOCK", 4, Lock); ("MKCOL", 5, MkCol); ("MOVE", 4, Move);
   ("PROPFIND", 8, Propfind); ("PROPPATCH", 9, Proppatch); ("SEARCH", 6, Search);
   ("UNLOCK", 6, Unlock); ("BIND", 4, Bind); ("REBIND", 6, Rebind);
   ("UNBIND", 6, Unbind); ("ACL", 3, Acl); ("REPORT", 6, Report);
   ("MKACTIVITY", 10, MkActivity); ("CHECKOUT", 8, Checkout); ("MERGE", 5, Merge);
   ("MSEARCH", 7, MSearch); ("NOTIFY", 6, Notify); ("SUBSCRIBE", 9, Subscribe);
   ("UNSUBSCRIBE", 11, Unsubscribe); ("MKCALENDAR", 10, MkCalendar); ("LINK", 4, Link);
   ("UNLINK", 6, Unlink); ("SOURCE", 6, Source)].

(** [method_from_string] *)
Definition method_from_string (str : string) : exn + HTTPMethod :=
  match List.find (λ '(name, n, _), is_equ_p str name n) method_table with
  | Some (_, _, m) => inr m
  | None => inl (runtime_error "invalid http method")
  end.

(** ** Header maps

    [ci_map], an [unordered_multimap] with case-insensitive keys.  Its iteration order is
    unspecified; the model keeps the insertion order. *)

Definition toupper (c : ascii) : ascii :=
  if ((97 <=? char_code c) && (char_code c <=? 122))%Z
  then to_char (char_code c - 32) else c.

(** [boost::iequals] *)
Fixpoint iequals (l r : string) : bool :=
  match l, r with
  | EmptyString, EmptyString => true
  | String a l', String b r' => Ascii.eqb (toupper a) (toupper b) && iequals l' r'
  | _, _ => false
  end.

Abbreviation ci_map := (list (string * string)).

Definition ci_count (headers : ci_map) (key : string) : nat :=
  length (List.filter (λ kv, iequals kv.1 key) headers).
Definition ci_emplace (headers : ci_map) (key value : string) : ci_map :=
  headers ++ [(key, value)].
Definition ci_erase (headers : ci_map) (key : string) : ci_map :=
  List.filter (λ kv, negb (iequals kv.1 key)) headers.

(** [crow::get_header_value] *)
Definition get_header_value (headers : ci_map) (key : string) : string :=
  match List.find (λ kv, iequals kv.1 key) headers with
  | Some kv => kv.2
  | None => ""
  end.

(** ** crow::request *)

Record request : Type := MkRequest {
  req_method : HTTPMethod;
  raw_url : string;
  req_url : string;
  url_params : query_string;
  req_headers : ci_map;
  req_body : string;
  http_ver_major : Z;
  http_ver_minor : Z;
  keep_alive : bool;
  close_connection : bool;
  upgrade : bool
}.

Definition check_version (r : request) (major minor : Z) : bool :=
  ((http_ver_major r =? major) && (http_ver_minor r =? minor))%Z.

(** ** crow::response *)

(** [struct static_file_info]: the path, and the size when [stat] succeeded. *)
Record static_file_info : Type := MkFileInfo { fi_path : string; fi_stat : option Z }.
Definition no_file : static_file_info := MkFileInfo "" None.

Record response : Type := MkResponse {
  code : Z;
  body : string;
  headers : ci_map;
  skip_body : bool;
  manual_length_header : bool;
  completed_ : bool;
  file_info : static_file_info
}.

Module Response.
(** [response()], [response(int)], [response(std::string)], [response(int, std::string)] *)
Definition empty : response := MkResponse 200 "" [] false false false no_file.
Definition of_code (c : Z) : response := MkResponse c "" [] false false false no_file.
Definition of_body (b : string) : response := MkResponse 200 b [] false false false no_file.
Definition of_code_body (c : Z) (b : string) : response := MkResponse c b [] false false false no_file.

Definition set_header (key value : string) (r : response) : response :=
  MkResponse (code r) (body r) (ci_emplace (ci_erase (headers r) key) key value)
    (skip_body r) (manual_length_header r) (completed_ r) (file_info r).
Definition add_header (key value : string) (r : response) : response :=
  MkResponse (code r) (body r) (ci_emplace (headers r) key value)
    (skip_body r) (manual_length_header r) (completed_ r) (file_info r).
Definition set_code (c : Z) (r : response) : response :=
  MkResponse c (body r) (headers r) (skip_body r) (manual_length_header r) (completed_ r)
    (file_info r).
Definition set_skip_body (b : bool) (r : response) : response :=
  MkResponse (code r) (body r) (headers r) b (manual_length_header r) (completed_ r)
    (file_info r).

(** [operator=(response&& r)]: [skip_body] and [manual_length_header] stay as they are. *)
Definition move_assign (this r : response) : response :=
  MkResponse (code r) (body r) (headers r) (skip_body this) (manual_length_header this)
    (completed_ r) (file_info r).

(** [clear] *)
Definition clear (r : response) : response :=
  MkResponse 200 "" [] (skip_body r) (manual_length_header r) false no_file.

Definition redirect (location : string) (r : response) : response :=
  set_header "Location" location (set_code 307 r).
Definition redirect_perm (location : string) (r : response) : response :=
  set_header "Location" location (set_code 308 r).
Definition moved (location : string) (r : response) : response :=
  set_header "Location" location (set_code 302 r).
Definition moved_perm (location : string) (r : response) : response :=
  set_header "Location" location (set_code 301 r).

Definition write (part : string) (r : response) : response :=
  MkResponse (code r) (body r +:+ part) (headers r) (skip_body r) (manual_length_header r)
    (completed_ r) (file_info r).

(** [end()]: the response after it, and whether the completion handler is called. *)
Definition end_ (r : response) : response * bool :=
  if completed_ r then (r, false)
  else
    let r1 := MkResponse (code r) (body r) (headers r) (skip_body r)
                (manual_length_header r) true (file_info r) in
    if skip_body r1 then
      let r2 := set_header "Content-Length" (to_string (Z.of_nat (String.length (body r1)))) r1 in
      (MkResponse (code r2) "" (headers r2) (skip_body r2) true (completed_ r2) (file_info r2), true)
    else (r1, true).
(** [is_static_type] *)
Definition is_static_type (r : response) : bool := negb (String.eqb (fi_path (file_info r)) "").

(** The map of media types, by extension. *)
Definition mime_types : list (string * string) :=
  [("shtml", "text/html"); ("htm", "text/html"); ("html", "text/html"); ("css", "text/css");
   ("xml", "text/xml"); ("gif", "image/gif"); ("jpg", "image/jpeg"); ("jpeg", "image/jpeg");
   ("js", "application/javascript"); ("atom", "application/atom+xml");
   ("rss", "application/rss+xml"); ("mml", "text/mathml"); ("txt", "text/plain");
   ("jad", "text/vnd.sun.j2me.app-descriptor"); ("wml", "text/vnd.wap.wml");
   ("htc", "text/x-component"); ("avif", "image/avif"); ("png", "image/png");
   ("svgz", "image/svg+xml"); ("svg", "image/svg+xml"); ("tiff", "image/tiff");
   ("tif", "image/tiff"); ("wbmp", "image/vnd.wap.wbmp"); ("webp", "image/webp");
   ("ico", "image/x-icon"); ("jng", "image/x-jng"); ("bmp", "image/x-ms-bmp");
   ("woff", "font/woff"); ("woff2", "font/woff2"); ("ear", "application/java-archive");
   ("war", "application/java-archive"); ("jar", "application/java-archive");
   ("json", "application/json"); ("hqx", "application/mac-binhex40");
   ("doc", "application/msword"); ("pdf", "application/pdf"); ("ai", "application/postscript");
   ("eps", "application/postscript"); ("ps", "application/postscript");
   ("rtf", "application/rtf"); ("m3u8", "application/vnd.apple.mpegurl");
   ("kml", "application/vnd.google-earth.kml+xml");
   ("kmz", "application/vnd.google-earth.kmz"); ("xls", "application/vnd.ms-excel");
   ("eot", "application/vnd.ms-fontobject"); ("ppt", "application/vnd.ms-powerpoint");
   ("odg", "application/vnd.oasis.opendocument.graphics");
   ("odp", "application/vnd.oasis.opendocument.presentation");
   ("ods", "application/vnd.oasis.opendocument.spreadsheet");
   ("odt", "application/vnd.oasis.opendocument.text");
   ("pptx", "application/vnd.openxmlformats-officedocument.presentationml.presentation");
   ("xlsx", "application/vnd.openxmlformats-officedocument.spreadsheetml.sheet");
   ("docx", "application/vnd.openxmlformats-officedocument.wordprocessingml.document");
   ("wmlc", "application/vnd.wap.wmlc"); ("wasm", "application/wasm");
   ("7z", "application/x-7z-compressed"); ("cco", "application/x-cocoa");
   ("jardiff", "application/x-java-archive-diff"); ("jnlp", "application/x-java-jnlp-file");
   ("run", "application/x-makeself"); ("pm", "application/x-perl");
   ("pl", "application/x-perl"); ("pdb", "application/x-pilot");
   ("prc", "application/x-pilot"); ("rar", "application/x-rar-compressed");
   ("rpm", "application/x-redhat-package-manager"); ("sea", "application/x-sea");
   ("swf", "application/x-shockwave-flash"); ("sit", "application/x-stuffit");
   ("tk", "application/x-tcl"); ("tcl", "application/x-tcl");
   ("crt", "application/x-x509-ca-cert"); ("pem", "application/x-x509-ca-cert");
   ("der", "application/x-x509-ca-cert"); ("xpi", "application/x-xpinstall");
   ("xhtml", "application/xhtml+xml"); ("xspf", "application/xspf+xml");
   ("zip", "application/zip"); ("dll", "application/octet-stream");
   ("exe", "application/octet-stream"); ("bin", "application/octet-stream");
   ("deb", "application/octet-stream"); ("dmg", "application/octet-stream");
   ("img", "application/octet-stream"); ("iso", "application/octet-stream");
   ("msm", "application/octet-stream"); ("msp", "application/octet-stream");
   ("msi", "application/octet-stream"); ("kar", "audio/midi"); ("midi", "audio/midi");
   ("mid", "audio/midi"); ("mp3", "audio/mpeg"); ("ogg", "audio/ogg"); ("m4a", "audio/x-m4a");
   ("ra", "audio/x-realaudio"); ("3gp", "video/3gpp"); ("3gpp", "video/3gpp");
   ("ts", "video/mp2t"); ("mp4", "video/mp4"); ("mpg", "video/mpeg"); ("mpeg", "video/mpeg");
   ("mov", "video/quicktime"); ("webm", "video/webm"); ("flv", "video/x-flv");
   ("m4v", "video/x-m4v"); ("mng", "video/x-mng"); ("asf", "video/x-ms-asf");
   ("asx", "video/x-ms-asf"); ("wmv", "video/x-ms-wmv"); ("avi", "video/x-msvideo")]%string.

(** What follows the last dot; the whole string when there is none. *)
Fixpoint after_last_dot (acc s : string) : string :=
  match s with
  | String "." s => after_last_dot s s
  | String _ s => after_last_dot acc s
  | EmptyString => acc
  end.
Definition extension (path : string) : string := after_last_dot path path.

Definition set_file_info (i : static_file_info) (r : response) : response :=
  MkResponse (code r) (body r) (headers r) (skip_body r) (manual_length_header r) (completed_ r) i.

(** [set_static_file_info_unsafe(path)], [st] being what [stat] gives; the second result
    says whether the completion handler is called. *)
Definition set_static_file_info_unsafe (st : option Z) (path : string) (r : response) :
    response * bool :=
  match st with
  | Some size =>
      let r := add_header "Content-Length" (to_string size)
                 (set_code 200 (set_file_info (MkFileInfo path st) r)) in
      let ext := extension path in
      (if String.eqb ext "" then r
       else match List.find (λ m, String.eqb m.1 ext) mime_types with
            | Some m => add_header "Content-Type" m.2 r
            | None => add_header "Content-Type" "text/plain" r
            end, false)
  | None => end_ (set_code 404 (set_file_info no_file r))
  end.
End Response.
