(* ===== verification/HttpParser.v ===== *)
(** * The HTTP parser: data and tables

    lib/crowapi/crow_all.h, [http_parser] and what surrounds it: the states, the error
    numbers, the parser's fields at their width, the character tables and the URL automaton
    [parse_url_char]. *)

From Stdlib Require Import ZArith Lia Ascii String.
From stdpp Require Import base tactics option strings list.
From S2P Require Import Prelude.
From S2P Require Import CppStd.
From S2P Require Import QueryString.
From S2P Require Import Crow.

Local Open Scope Z_scope.

(** ** Flags *)

Definition F_CHUNKED : Z := Z.shiftl 1 0.
Definition F_CONNECTION_KEEP_ALIVE : Z := Z.shiftl 1 1.
Definition F_CONNECTION_CLOSE : Z := Z.shiftl 1 2.
Definition F_TRAILING : Z := Z.shiftl 1 3.
Definition F_UPGRADE : Z := Z.shiftl 1 4.
Definition F_SKIPBODY : Z := Z.shiftl 1 5.
Definition F_CONTENTLENGTH : Z := Z.shiftl 1 6.

(** [flags & f] as a condition. *)
Definition has_flag (flags f : Z) : bool := negb (Z.land flags f =? 0).

(** ** Error numbers *)

Inductive http_errno : Type :=
| CHPE_OK
| CHPE_CB_message_begin | CHPE_CB_url | CHPE_CB_header_field | CHPE_CB_header_value
| CHPE_CB_headers_complete | CHPE_CB_body | CHPE_CB_message_complete | CHPE_CB_status
| CHPE_INVALID_EOF_STATE | CHPE_HEADER_OVERFLOW | CHPE_CLOSED_CONNECTION
| CHPE_INVALID_VERSION | CHPE_INVALID_STATUS | CHPE_INVALID_METHOD | CHPE_INVALID_URL
| CHPE_INVALID_HOST | CHPE_INVALID_PORT | CHPE_INVALID_PATH | CHPE_INVALID_QUERY_STRING
| CHPE_INVALID_FRAGMENT | CHPE_LF_EXPECTED | CHPE_INVALID_HEADER_TOKEN
| CHPE_INVALID_CONTENT_LENGTH | CHPE_UNEXPECTED_CONTENT_LENGTH | CHPE_INVALID_CHUNK_SIZE
| CHPE_INVALID_CONSTANT | CHPE_INVALID_INTERNAL_STATE | CHPE_STRICT | CHPE_UNKNOWN
| CHPE_INVALID_TRANSFER_ENCODING.

#[global] Instance http_errno_eq_dec : EqDecision http_errno.
Proof. solve_decision. Defined.

(** ** States *)

Inductive state : Type :=
| s_dead
| s_start_req
| s_req_method
| s_req_spaces_before_url
| s_req_schema
| s_req_schema_slash
| s_req_schema_slash_slash
| s_req_server_start
| s_req_server
| s_req_server_with_at
| s_req_path
| s_req_query_string_start
| s_req_query_string
| s_req_http_start
| s_req_http_H
| s_req_http_HT
| s_req_http_HTT
| s_req_http_HTTP
| s_req_http_I
| s_req_http_IC
| s_req_http_major
| s_req_http_dot
| s_req_http_minor
| s_req_http_end
| s_req_line_almost_done
| s_header_field_start
| s_header_field
| s_header_value_discard_ws
| s_header_value_discard_ws_almost_done
| s_header_value_discard_lws
| s_header_value_start
| s_header_value
| s_header_value_lws
| s_header_almost_done
| s_chunk_size_start
| s_chunk_size
| s_chunk_parameters
| s_chunk_size_almost_done
| s_headers_almost_done
| s_headers_done
| s_chunk_data
| s_chunk_data_almost_done
| s_chunk_data_done
| s_body_identity
| s_body_identity_eof
| s_message_done.

#[global] Instance state_eq_dec : EqDecision state.
Proof. solve_decision. Defined.

(** [CROW_PARSING_HEADER]: the states up to [s_headers_done]. *)
Definition PARSING_HEADER (s : state) : bool :=
  match s with
  | s_chunk_data | s_chunk_data_almost_done | s_chunk_data_done | s_body_identity
  | s_body_identity_eof | s_message_done => false
  | _ => true
  end.

Inductive header_states : Type :=
| h_general | h_C | h_CO | h_CON
| h_matching_connection | h_matching_proxy_connection | h_matching_content_length
| h_matching_transfer_encoding | h_matching_upgrade
| h_connection | h_content_length | h_content_length_num | h_content_length_ws
| h_transfer_encoding | h_upgrade
| h_matching_transfer_encoding_token_start | h_matching_transfer_encoding_chunked
| h_matching_transfer_encoding_token
| h_matching_connection_keep_alive | h_matching_connection_close
| h_transfer_encoding_chunked | h_connection_keep_alive | h_connection_close.

#[global] Instance header_states_eq_dec : EqDecision header_states.
Proof. solve_decision. Defined.

(** ** struct http_parser *)

Record http_parser : Type := MkParser {
  flags : Z;                      (** 7 bits *)
  p_state : state;
  header_state : header_states;
  index : Z;                      (** 5 bits *)
  uses_transfer_encoding : bool;
  allow_chunked_length : bool;
  lenient_http_headers : bool;
  p_nread : Z;                    (** 32 bits *)
  content_length_u64 : N;         (** 64 bits *)
  qs_point : Z;                   (** unsigned long *)
  http_major : Z;
  http_minor : Z;
  p_method : HTTPMethod;
  p_errno : http_errno;
  p_upgrade : bool
}.

(** [parser->content_length] as a number. *)
Definition content_length (r : http_parser) : Z := Z.of_N (content_length_u64 r).

Definition ULLONG_MAX : Z := 2 ^ 64 - 1.

(** [http_parser_init]: everything zero but the state. *)
Definition http_parser_init : http_parser :=
  MkParser 0 s_start_req h_general 0 false false false 0 0%N 0 0 0 Delete CHPE_OK false.

(** Assignments to one field. *)
Definition set_flags (v : Z) (r : http_parser) : http_parser :=
  MkParser v (p_state r) (header_state r) (index r) (uses_transfer_encoding r)
    (allow_chunked_length r) (lenient_http_headers r) (p_nread r) (content_length_u64 r)
    (qs_point r) (http_major r) (http_minor r) (p_method r) (p_errno r) (p_upgrade r).
Definition set_state (v : state) (r : http_parser) : http_parser :=
  MkParser (flags r) v (header_state r) (index r) (uses_transfer_encoding r)
    (allow_chunked_length r) (lenient_http_headers r) (p_nread r) (content_length_u64 r)
    (qs_point r) (http_major r) (http_minor r) (p_method r) (p_errno r) (p_upgrade r).
Definition set_header_state (v : header_states) (r : http_parser) : http_parser :=
  MkParser (flags r) (p_state r) v (index r) (uses_transfer_encoding r)
    (allow_chunked_length r) (lenient_http_headers r) (p_nread r) (content_length_u64 r)
    (qs_point r) (http_major r) (http_minor r) (p_method r) (p_errno r) (p_upgrade r).
(** A 5-bit field. *)
Definition set_index (v : Z) (r : http_parser) : http_parser :=
  MkParser (flags r) (p_state r) (header_state r) (v mod 32) (uses_transfer_encoding r)
    (allow_chunked_length r) (lenient_http_headers r) (p_nread r) (content_length_u64 r)
    (qs_point r) (http_major r) (http_minor r) (p_method r) (p_errno r) (p_upgrade r).
Definition set_uses_transfer_encoding (v : bool) (r : http_parser) : http_parser :=
  MkParser (flags r) (p_state r) (header_state r) (index r) v
    (allow_chunked_length r) (lenient_http_headers r) (p_nread r) (content_length_u64 r)
    (qs_point r) (http_major r) (http_minor r) (p_method r) (p_errno r) (p_upgrade r).
Definition set_nread (v : Z) (r : http_parser) : http_parser :=
  MkParser (flags r) (p_state r) (header_state r) (index r) (uses_transfer_encoding r)
    (allow_chunked_length r) (lenient_http_headers r) v (content_length_u64 r)
    (qs_point r) (http_major r) (http_minor r) (p_method r) (p_errno r) (p_upgrade r).
Definition set_content_length (v : Z) (r : http_parser) : http_parser :=
  MkParser (flags r) (p_state r) (header_state r) (index r) (uses_transfer_encoding r)
    (allow_chunked_length r) (lenient_http_headers r) (p_nread r) (Z.to_N (v mod 2 ^ 64))
    (qs_point r) (http_major r) (http_minor r) (p_method r) (p_errno r) (p_upgrade r).
Definition set_qs_point (v : Z) (r : http_parser) : http_parser :=
  MkParser (flags r) (p_state r) (header_state r) (index r) (uses_transfer_encoding r)
    (allow_chunked_length r) (lenient_http_headers r) (p_nread r) (content_length_u64 r)
    v (http_major r) (http_minor r) (p_method r) (p_errno r) (p_upgrade r).
Definition set_version (major minor : Z) (r : http_parser) : http_parser :=
  MkParser (flags r) (p_state r) (header_state r) (index r) (uses_transfer_encoding r)
    (allow_chunked_length r) (lenient_http_headers r) (p_nread r) (content_length_u64 r)
    (qs_point r) major minor (p_method r) (p_errno r) (p_upgrade r).
Definition set_method (v : HTTPMethod) (r : http_parser) : http_parser :=
  MkParser (flags r) (p_state r) (header_state r) (index r) (uses_transfer_encoding r)
    (allow_chunked_length r) (lenient_http_headers r) (p_nread r) (content_length_u64 r)
    (qs_point r) (http_major r) (http_minor r) v (p_errno r) (p_upgrade r).
Definition set_http_errno (v : http_errno) (r : http_parser) : http_parser :=
  MkParser (flags r) (p_state r) (header_state r) (index r) (uses_transfer_encoding r)
    (allow_chunked_length r) (lenient_http_headers r) (p_nread r) (content_length_u64 r)
    (qs_point r) (http_major r) (http_minor r) (p_method r) v (p_upgrade r).
Definition set_upgrade (v : bool) (r : http_parser) : http_parser :=
  MkParser (flags r) (p_state r) (header_state r) (index r) (uses_transfer_encoding r)
    (allow_chunked_length r) (lenient_http_headers r) (p_nread r) (content_length_u64 r)
    (qs_point r) (http_major r) (http_minor r) (p_method r) (p_errno r) v.

(** ** Character classes *)

Definition cr : ascii := "013"%char.
Definition lf : ascii := "010"%char.
Definition tab : ascii := "009"%char.
Definition ff : ascii := "012"%char.

(** [CROW_LOWER(c)]: the code with bit 5 set. *)
Definition LOWER (c : ascii) : ascii := to_char (Z.lor (char_code c) 32).
Definition IS_ALPHA (c : ascii) : bool :=
  (char_code "a" <=? char_code (LOWER c)) && (char_code (LOWER c) <=? char_code "z").
Definition IS_NUM (c : ascii) : bool :=
  (char_code "0" <=? char_code c) && (char_code c <=? char_code "9").
Definition IS_ALPHANUM (c : ascii) : bool := IS_ALPHA c || IS_NUM c.
Definition IS_MARK (c : ascii) : bool :=
  bool_decide (c ∈ ["-"; "_"; "."; "!"; "~"; "*"; "'"; "("; ")"]%char).
Definition IS_USERINFO_CHAR (c : ascii) : bool :=
  IS_ALPHANUM c || IS_MARK c || bool_decide (c ∈ ["%"; ";"; ":"; "&"; "="; "+"; "$"; ","]%char).
Definition IS_HEADER_CHAR (ch : ascii) : bool :=
  Ascii.eqb ch cr || Ascii.eqb ch lf || Ascii.eqb ch tab ||
  ((31 <? char_code ch) && negb (char_code ch =? 127)).

(** [normal_url_char], a bit per character; the bytes not listed are zero. *)
Definition normal_url_char : list Z :=
  [0; 0; 0; 0;
   Z.lor 2 (Z.lor 4 (Z.lor 16 (Z.lor 32 (Z.lor 64 128))));
   255; 255;
   Z.lor 1 (Z.lor 2 (Z.lor 4 (Z.lor 8 (Z.lor 16 (Z.lor 32 64)))));
   255; 255; 255; 255; 255; 255; 255;
   Z.lor 1 (Z.lor 2 (Z.lor 4 (Z.lor 8 (Z.lor 16 (Z.lor 32 64)))))].

(** [CROW_BIT_AT] *)
Definition BIT_AT (a : list Z) (i : Z) : bool :=
  negb (Z.land (default 0 (a !! Z.to_nat (Z.shiftr i 3))) (Z.shiftl 1 (Z.land i 7)) =? 0).
Definition IS_URL_CHAR (c : ascii) : bool := BIT_AT normal_url_char (char_code c).

(** [tokens]: a token character lowercased, or NUL; the characters that map to
    themselves, the letters, and nothing from 127 on. *)
Definition TOKEN (c : ascii) : ascii :=
  if IS_ALPHA c then LOWER c
  else if IS_NUM c ||
          bool_decide (c ∈ ["!"; "#"; "$"; "%"; "&"; "'"; "*"; "+"; "-"; "."; "^"; "_"; "`";
                            "|"; "~"]%char) then c
  else nul.
Definition is_token (c : ascii) : bool := negb (Ascii.eqb (TOKEN c) nul).

(** [unhex]: the table has 256 entries and initialisers for the first 128 only. *)
Definition unhex (c : ascii) : Z :=
  let v := char_code c in
  if 128 <=? v then 0
  else if (48 <=? v) && (v <=? 57) then v - 48
  else if (65 <=? v) && (v <=? 70) then v - 55
  else if (97 <=? v) && (v <=? 102) then v - 87
  else -1.

(** ** parse_url_char

    [point] is [p - url_mark], what the automaton stores at a question mark. *)
Definition parse_url_char (s : state) (ch : ascii) (point : Z) (parser : http_parser) :
    state * http_parser :=
  if Ascii.eqb ch " " || Ascii.eqb ch cr || Ascii.eqb ch lf then (s_dead, parser)
  else if Ascii.eqb ch tab || Ascii.eqb ch ff then (s_dead, parser)
  else
  let server :=
    if Ascii.eqb ch "/" then (s_req_path, parser)
    else if Ascii.eqb ch "?" then (s_req_query_string_start, set_qs_point point parser)
    else if Ascii.eqb ch "@" then (s_req_server_with_at, parser)
    else if IS_USERINFO_CHAR ch || Ascii.eqb ch "[" || Ascii.eqb ch "]"
    then (s_req_server, parser)
    else (s_dead, parser) in
  match s with
  | s_req_spaces_before_url =>
      if Ascii.eqb ch "/" || Ascii.eqb ch "*" then (s_req_path, parser)
      else if IS_ALPHA ch then (s_req_schema, parser)
      else (s_dead, parser)
  | s_req_schema =>
      if IS_ALPHA ch then (s, parser)
      else if Ascii.eqb ch ":" then (s_req_schema_slash, parser)
      else (s_dead, parser)
  | s_req_schema_slash =>
      if Ascii.eqb ch "/" then (s_req_schema_slash_slash, parser) else (s_dead, parser)
  | s_req_schema_slash_slash =>
      if Ascii.eqb ch "/" then (s_req_server_start, parser) else (s_dead, parser)
  | s_req_server_with_at => if Ascii.eqb ch "@" then (s_dead, parser) else server
  | s_req_server_start | s_req_server => server
  | s_req_path =>
      if IS_URL_CHAR ch then (s, parser)
      else if Ascii.eqb ch "?" then (s_req_query_string_start, set_qs_point point parser)
      else (s_dead, parser)
  | s_req_query_string_start | s_req_query_string =>
      if IS_URL_CHAR ch then (s_req_query_string, parser)
      else if Ascii.eqb ch "?" then (s_req_query_string, parser)
      else (s_dead, parser)
  | _ => (s_dead, parser)
  end.

(** ** Names and descriptions of the errors *)

(** A quotation mark. *)
Definition dquote : string := String "034"%char "".

(** [http_strerror_tab] *)
Definition http_strerror (e : http_errno) : string * string :=
  match e with
  | CHPE_OK => ("CHPE_OK", "success")
  | CHPE_CB_message_begin =>
      ("CHPE_CB_message_begin", "the on_message_begin callback failed")
  | CHPE_CB_url => ("CHPE_CB_url", "the " +:+ dquote +:+ "on_url" +:+ dquote +:+ " callback failed")
  | CHPE_CB_header_field =>
      ("CHPE_CB_header_field", "the " +:+ dquote +:+ "on_header_field" +:+ dquote +:+ " callback failed")
  | CHPE_CB_header_value =>
      ("CHPE_CB_header_value", "the " +:+ dquote +:+ "on_header_value" +:+ dquote +:+ " callback failed")
  | CHPE_CB_headers_complete =>
      ("CHPE_CB_headers_complete", "the " +:+ dquote +:+ "on_headers_complete" +:+ dquote +:+ " callback failed")
  | CHPE_CB_body => ("CHPE_CB_body", "the " +:+ dquote +:+ "on_body" +:+ dquote +:+ " callback failed")
  | CHPE_CB_message_complete =>
      ("CHPE_CB_message_complete", "the " +:+ dquote +:+ "on_message_complete" +:+ dquote +:+ " callback failed")
  | CHPE_CB_status => ("CHPE_CB_status", "the " +:+ dquote +:+ "on_status" +:+ dquote +:+ " callback failed")
  | CHPE_INVALID_EOF_STATE => ("CHPE_INVALID_EOF_STATE", "stream ended at an unexpected time")
  | CHPE_HEADER_OVERFLOW =>
      ("CHPE_HEADER_OVERFLOW", "too many header bytes seen; overflow detected")
  | CHPE_CLOSED_CONNECTION =>
      ("CHPE_CLOSED_CONNECTION", "data received after completed connection: close message")
  | CHPE_INVALID_VERSION => ("CHPE_INVALID_VERSION", "invalid HTTP version")
  | CHPE_INVALID_STATUS => ("CHPE_INVALID_STATUS", "invalid HTTP status code")
  | CHPE_INVALID_METHOD => ("CHPE_INVALID_METHOD", "invalid HTTP method")
  | CHPE_INVALID_URL => ("CHPE_INVALID_URL", "invalid URL")
  | CHPE_INVALID_HOST => ("CHPE_INVALID_HOST", "invalid host")
  | CHPE_INVALID_PORT => ("CHPE_INVALID_PORT", "invalid port")
  | CHPE_INVALID_PATH => ("CHPE_INVALID_PATH", "invalid path")
  | CHPE_INVALID_QUERY_STRING => ("CHPE_INVALID_QUERY_STRING", "invalid query string")
  | CHPE_INVALID_FRAGMENT => ("CHPE_INVALID_FRAGMENT", "invalid fragment")
  | CHPE_LF_EXPECTED => ("CHPE_LF_EXPECTED", "LF character expected")
  | CHPE_INVALID_HEADER_TOKEN =>
      ("CHPE_INVALID_HEADER_TOKEN", "invalid character in header")
  | CHPE_INVALID_CONTENT_LENGTH =>
      ("CHPE_INVALID_CONTENT_LENGTH", "invalid character in content-length header")
  | CHPE_UNEXPECTED_CONTENT_LENGTH =>
      ("CHPE_UNEXPECTED_CONTENT_LENGTH", "unexpected content-length header")
  | CHPE_INVALID_CHUNK_SIZE =>
      ("CHPE_INVALID_CHUNK_SIZE", "invalid character in chunk size header")
  | CHPE_INVALID_CONSTANT => ("CHPE_INVALID_CONSTANT", "invalid constant string")
  | CHPE_INVALID_INTERNAL_STATE =>
      ("CHPE_INVALID_INTERNAL_STATE", "encountered unexpected internal state")
  | CHPE_STRICT => ("CHPE_STRICT", "strict mode assertion failed")
  | CHPE_UNKNOWN => ("CHPE_UNKNOWN", "an unknown error occurred")
  | CHPE_INVALID_TRANSFER_ENCODING =>
      ("CHPE_INVALID_TRANSFER_ENCODING", "request has invalid transfer-encoding")
  end%string.

Definition http_errno_name (e : http_errno) : string := (http_strerror e).1.
Definition http_errno_description (e : http_errno) : string := (http_strerror e).2.
