(* ===== verification/HttpExecute.v ===== *)
(** * The HTTP parser: http_parser_execute

    lib/crowapi/crow_all.h, [http_parser_execute]: the macros that run callbacks, set marks
    and count header bytes, a definition per case of the [switch], the two loops, the
    prologue and the epilogue.  A statement updates the parser, the function's local
    variables and the application's data, and falls through to the next statement or leaves
    by [break], [goto reexecute], [goto error], [return] or a failed [assert].

    The callbacks are those of an application: they may read the parser; the two that start
    and end a message may change it as well (crow clears the parser while it answers). *)

From Stdlib Require Import ZArith Lia Ascii String.
From stdpp Require Import base tactics option strings list.
From S2P Require Import Prelude.
From S2P Require Import CppStd.
From S2P Require Import QueryString.
From S2P Require Import Crow.
From S2P Require Import HttpParser.

Local Open Scope Z_scope.

(** ** Settings, local variables, statements *)

(** The callbacks that take bytes. *)
Inductive data_event : Type := ev_header_field | ev_header_value | ev_url | ev_body.
(** The callbacks that take none and are run by [CROW_CALLBACK_NOTIFY]. *)
Inductive notify_event : Type := ev_message_begin | ev_message_complete.

#[global] Instance data_event_eq_dec : EqDecision data_event.
Proof. solve_decision. Defined.

Record http_parser_settings (U : Type) : Type := MkSettings {
  on_notify : notify_event → http_parser → U → Z * http_parser * U;
  on_data : data_event → http_parser → bytes → U → Z * U;
  on_headers_complete : http_parser → U → Z * U
}.

Arguments MkSettings {U}.
Arguments on_notify {U}.
Arguments on_data {U}.
Arguments on_headers_complete {U}.

Definition data_errno (ev : data_event) : http_errno :=
  match ev with
  | ev_header_field => CHPE_CB_header_field
  | ev_header_value => CHPE_CB_header_value
  | ev_url => CHPE_CB_url
  | ev_body => CHPE_CB_body
  end.

Definition notify_errno (ev : notify_event) : http_errno :=
  match ev with
  | ev_message_begin => CHPE_CB_message_begin
  | ev_message_complete => CHPE_CB_message_complete
  end.

(** The local variables; pointers into the data are offsets from its start. *)
Record vars : Type := MkVars {
  v_p : nat;
  v_nread : Z;                   (** 32 bits *)
  v_ch : ascii;
  v_h_state : header_states;
  v_lenient : bool;
  v_allow_chunked_length : bool;
  v_url_start_mark : option nat;
  v_mark : data_event → option nat
}.

Record exec (U : Type) : Type := MkExec { ps : http_parser; vs : vars; us : U }.
Arguments MkExec {U}.
Arguments ps {U}.
Arguments vs {U}.
Arguments us {U}.

(** How a statement leaves. *)
Inductive leave : Type :=
| Break
| Reexecute
| GotoError
| Return (n : nat)
| AssertFailed
| NoFuel.

Section Execute.
Context {U : Type}.
Variable settings : http_parser_settings U.
Variable data : bytes.
(** The address of [data], which [qs_point] depends on when no mark is set. *)
Variable addr : Z.
Variable max_header_size : Z.

Definition len : nat := length data.
Definition at_ (i : nat) : ascii := nth i data nul.

Definition stmt : Type := exec U → exec U * option leave.

Definition seq (s1 s2 : stmt) : stmt := λ e,
  match s1 e with
  | (e', None) => s2 e'
  | r => r
  end.

Definition leave_by (l : leave) : stmt := λ e, (e, Some l).
Definition skip : stmt := λ e, (e, None).
Definition break : stmt := leave_by Break.
Definition reexecute : stmt := leave_by Reexecute.
Definition goto_error : stmt := leave_by GotoError.
Definition assert (b : bool) : stmt := if b then skip else leave_by AssertFailed.

(** Read the parser, or a local variable. *)
Definition with_parser (k : http_parser → stmt) : stmt := λ e, k (ps e) e.
Definition with_vars (k : vars → stmt) : stmt := λ e, k (vs e) e.
(** Assign to fields of the parser, or to local variables. *)
Definition assign (f : http_parser → http_parser) : stmt :=
  λ e, (MkExec (f (ps e)) (vs e) (us e), None).
Definition local (f : vars → vars) : stmt :=
  λ e, (MkExec (ps e) (f (vs e)) (us e), None).

Definition set_p (i : nat) (v : vars) : vars :=
  MkVars i (v_nread v) (v_ch v) (v_h_state v) (v_lenient v) (v_allow_chunked_length v)
    (v_url_start_mark v) (v_mark v).
Definition set_v_nread (n : Z) (v : vars) : vars :=
  MkVars (v_p v) n (v_ch v) (v_h_state v) (v_lenient v) (v_allow_chunked_length v)
    (v_url_start_mark v) (v_mark v).
Definition set_ch (c : ascii) (v : vars) : vars :=
  MkVars (v_p v) (v_nread v) c (v_h_state v) (v_lenient v) (v_allow_chunked_length v)
    (v_url_start_mark v) (v_mark v).
Definition set_h_state (h : header_states) (v : vars) : vars :=
  MkVars (v_p v) (v_nread v) (v_ch v) h (v_lenient v) (v_allow_chunked_length v)
    (v_url_start_mark v) (v_mark v).
Definition set_url_start_mark (m : option nat) (v : vars) : vars :=
  MkVars (v_p v) (v_nread v) (v_ch v) (v_h_state v) (v_lenient v) (v_allow_chunked_length v)
    m (v_mark v).
Definition set_mark (ev : data_event) (m : option nat) (v : vars) : vars :=
  MkVars (v_p v) (v_nread v) (v_ch v) (v_h_state v) (v_lenient v) (v_allow_chunked_length v)
    (v_url_start_mark v) (λ ev', if decide (ev' = ev) then m else v_mark v ev').

Declare Scope stmt_scope.
Delimit Scope stmt_scope with stmt.
Bind Scope stmt_scope with stmt.
Local Notation "s1 ;; s2" := (seq s1 s2) (at level 100, s2 at level 200, right associativity).
Local Notation "'state:=' s" := (assign (set_state s)) (at level 9, s at level 9).

(** [CROW_SET_ERRNO] *)
Definition SET_ERRNO (e : http_errno) : stmt :=
  with_vars (λ v, assign (λ r, set_http_errno e (set_nread (v_nread v) r))).

(** [CROW_SET_ERRNO(e); goto error;] *)
Definition fail (e : http_errno) : stmt := SET_ERRNO e ;; goto_error.

(** After a callback: out if it failed. *)
Definition return_on_errno (er : nat) : stmt :=
  with_parser (λ r, if decide (p_errno r = CHPE_OK) then skip else leave_by (Return er)).

(** [CROW_CALLBACK_NOTIFY_] *)
Definition CALLBACK_NOTIFY_ (ev : notify_event) (er : nat) : stmt :=
  with_parser (λ r, assert (bool_decide (p_errno r = CHPE_OK))) ;;
  λ e,
    let '(rc, r, u) := on_notify settings ev (ps e) (us e) in
    let e1 := MkExec r (vs e) u in
    ((if rc =? 0 then skip else SET_ERRNO (notify_errno ev)) ;;
     return_on_errno er) e1.

Definition CALLBACK_NOTIFY (ev : notify_event) : stmt :=
  with_vars (λ v, CALLBACK_NOTIFY_ ev (v_p v + 1)).
Definition CALLBACK_NOTIFY_NOADVANCE (ev : notify_event) : stmt :=
  with_vars (λ v, CALLBACK_NOTIFY_ ev (v_p v)).

(** [CROW_CALLBACK_DATA_]; [over] is how far [LEN] reaches past [p]. *)
Definition CALLBACK_DATA_ (ev : data_event) (over er : nat) : stmt :=
  with_parser (λ r, assert (bool_decide (p_errno r = CHPE_OK))) ;;
  λ e,
    match v_mark (vs e) ev with
    | None => (e, None)
    | Some m =>
        let '(rc, u) :=
          on_data settings ev (ps e) (take (v_p (vs e) + over - m) (drop m data)) (us e) in
        ((if rc =? 0 then skip else SET_ERRNO (data_errno ev)) ;;
         return_on_errno er ;;
         local (set_mark ev None)) (MkExec (ps e) (vs e) u)
    end.

Definition CALLBACK_DATA (ev : data_event) : stmt :=
  with_vars (λ v, CALLBACK_DATA_ ev 0 (v_p v + 1)).
Definition CALLBACK_DATA_NOADVANCE (ev : data_event) : stmt :=
  with_vars (λ v, CALLBACK_DATA_ ev 0 (v_p v)).

(** [CROW_MARK] *)
Definition MARK (ev : data_event) : stmt :=
  local (λ v, match v_mark v ev with Some _ => v | None => set_mark ev (Some (v_p v)) v end).
Definition MARK_url_start : stmt :=
  local (λ v, match v_url_start_mark v with
              | Some _ => v
              | None => set_url_start_mark (Some (v_p v)) v
              end).

(** [CROW_COUNT_HEADER_SIZE] *)
Definition COUNT_HEADER_SIZE (n : nat) : stmt :=
  local (λ v, set_v_nread ((v_nread v + Z.of_nat n mod 2 ^ 32) mod 2 ^ 32) v) ;;
  with_vars (λ v, if max_header_size <? v_nread v then fail CHPE_HEADER_OVERFLOW else skip).

(** [CROW_STRICT_CHECK] *)
Definition STRICT_CHECK (cond : bool) : stmt := if cond then fail CHPE_STRICT else skip.

(** ** The request line *)

Definition eqc (a b : ascii) : bool := Ascii.eqb a b.

Definition exec_dead (ch : ascii) : stmt :=
  if eqc ch cr || eqc ch lf then break else fail CHPE_CLOSED_CONNECTION.

(** The method a first letter starts. *)
Definition first_method (ch : ascii) : option HTTPMethod :=
  if eqc ch "A" then Some Acl
  else if eqc ch "B" then Some Bind
  else if eqc ch "C" then Some Connect
  else if eqc ch "D" then Some Delete
  else if eqc ch "G" then Some Get
  else if eqc ch "H" then Some Head
  else if eqc ch "L" then Some Lock
  else if eqc ch "M" then Some MkCol
  else if eqc ch "N" then Some Notify
  else if eqc ch "O" then Some Options
  else if eqc ch "P" then Some Post
  else if eqc ch "R" then Some Report
  else if eqc ch "S" then Some Subscribe
  else if eqc ch "T" then Some Trace
  else if eqc ch "U" then Some Unlock
  else None.

Definition exec_start_req (ch : ascii) : stmt :=
  if eqc ch cr || eqc ch lf then break else
  assign (λ r, set_content_length ULLONG_MAX (set_uses_transfer_encoding false (set_flags 0 r))) ;;
  if negb (IS_ALPHA ch) then fail CHPE_INVALID_METHOD else
  assign (λ r, set_index 1 (set_method Delete r)) ;;
  match first_method ch with
  | None => fail CHPE_INVALID_METHOD
  | Some m =>
      assign (set_method m) ;;
      state:= s_req_method ;;
      CALLBACK_NOTIFY ev_message_begin ;;
      break
  end.

(** The table of [s_req_method]: what a letter out of place makes of the method. *)
Definition other_method (m : HTTPMethod) (index : Z) (ch : ascii) : option HTTPMethod :=
  match m, index with
  | Post, 1 =>
      if eqc ch "U" then Some Put else if eqc ch "A" then Some Patch
      else if eqc ch "R" then Some Propfind else None
  | Put, 2 => if eqc ch "R" then Some Purge else None
  | Connect, 1 => if eqc ch "H" then Some Checkout else None
  | Connect, 2 => if eqc ch "P" then Some Copy else None
  | MkCol, 1 =>
      if eqc ch "O" then Some Move else if eqc ch "E" then Some Merge
      else if eqc ch "-" then Some MSearch else None
  | MkCol, 2 => if eqc ch "A" then Some MkActivity else None
  | MkCol, 3 => if eqc ch "A" then Some MkCalendar else None
  | Subscribe, 1 =>
      if eqc ch "E" then Some Search else if eqc ch "O" then Some Source else None
  | Report, 2 => if eqc ch "B" then Some Rebind else None
  | Propfind, 4 => if eqc ch "P" then Some Proppatch else None
  | Lock, 1 => if eqc ch "I" then Some Link else None
  | Unlock, 2 =>
      if eqc ch "S" then Some Unsubscribe else if eqc ch "B" then Some Unbind else None
  | Unlock, 3 => if eqc ch "I" then Some Unlink else None
  | _, _ => None
  end.

(** [matcher[i]] of a C string. *)
Definition c_at (s : string) (i : Z) : ascii := default nul (String.get (Z.to_nat i) s).

Definition exec_req_method (ch : ascii) : stmt :=
  if eqc ch nul then fail CHPE_INVALID_METHOD else
  with_parser (λ r,
    let matcher := default "" (method_strings !! method_value (p_method r)) in
    if eqc ch " " && eqc (c_at matcher (index r)) nul then state:= s_req_spaces_before_url
    else if eqc ch (c_at matcher (index r)) then skip
    else if ((char_code "A" <=? char_code ch) && (char_code ch <=? char_code "Z")) || eqc ch "-"
    then
      match other_method (p_method r) (index r) ch with
      | Some m => assign (set_method m)
      | None => fail CHPE_INVALID_METHOD
      end
    else fail CHPE_INVALID_METHOD) ;;
  assign (λ r, set_index (index r + 1) r) ;;
  break.

(** [parser->state = parse_url_char(...)], and the check after it. *)
Definition step_url (ch : ascii) : stmt :=
  with_vars (λ v,
    let point := match v_url_start_mark v with
                 | Some m => Z.of_nat (v_p v) - Z.of_nat m
                 | None => (addr + Z.of_nat (v_p v)) mod 2 ^ 64
                 end in
    assign (λ r, let '(s, r') := parse_url_char (p_state r) ch point r in set_state s r')) ;;
  with_parser (λ r, if decide (p_state r = s_dead) then fail CHPE_INVALID_URL else skip).

Definition exec_req_spaces_before_url (ch : ascii) : stmt :=
  if eqc ch " " then break else
  MARK ev_url ;;
  MARK_url_start ;;
  with_parser (λ r, if decide (p_method r = Connect) then state:= s_req_server_start else skip) ;;
  step_url ch ;;
  break.

Definition exec_req_schema (ch : ascii) : stmt :=
  if eqc ch " " || eqc ch cr || eqc ch lf then fail CHPE_INVALID_URL
  else step_url ch ;; break.

Definition exec_req_url (ch : ascii) : stmt :=
  if eqc ch " " then
    state:= s_req_http_start ;;
    CALLBACK_DATA ev_url ;;
    break
  else if eqc ch cr || eqc ch lf then
    with_parser (λ r,
      if decide (p_method r = Get) then skip
      else state:= s_dead ;; fail CHPE_INVALID_VERSION) ;;
    assign (set_version 0 9) ;;
    state:= (if eqc ch cr then s_req_line_almost_done else s_header_field_start) ;;
    CALLBACK_DATA ev_url ;;
    break
  else step_url ch ;; break.

Definition exec_req_http_start (ch : ascii) : stmt :=
  if eqc ch " " then break
  else if eqc ch "H" then state:= s_req_http_H ;; break
  else with_parser (λ r,
    if eqc ch "I" && bool_decide (p_method r = Source) then state:= s_req_http_I ;; break
    else fail CHPE_INVALID_CONSTANT).

Definition exec_req_http_H (ch : ascii) : stmt :=
  STRICT_CHECK (negb (eqc ch "T")) ;; state:= s_req_http_HT ;; break.
Definition exec_req_http_HT (ch : ascii) : stmt :=
  STRICT_CHECK (negb (eqc ch "T")) ;; state:= s_req_http_HTT ;; break.
Definition exec_req_http_HTT (ch : ascii) : stmt :=
  STRICT_CHECK (negb (eqc ch "P")) ;; state:= s_req_http_HTTP ;; break.
Definition exec_req_http_I (ch : ascii) : stmt :=
  STRICT_CHECK (negb (eqc ch "C")) ;; state:= s_req_http_IC ;; break.
Definition exec_req_http_IC (ch : ascii) : stmt :=
  STRICT_CHECK (negb (eqc ch "E")) ;; state:= s_req_http_HTTP ;; break.
Definition exec_req_http_HTTP (ch : ascii) : stmt :=
  STRICT_CHECK (negb (eqc ch "/")) ;; state:= s_req_http_major ;; break.

(** [ch - '0'] *)
Definition digit (ch : ascii) : Z := char_code ch - char_code "0".

Definition exec_req_http_major (ch : ascii) : stmt :=
  if negb (IS_NUM ch) then fail CHPE_INVALID_VERSION else
  assign (λ r, set_version (digit ch) (http_minor r) r) ;;
  state:= s_req_http_dot ;;
  break.

Definition exec_req_http_dot (ch : ascii) : stmt :=
  if negb (eqc ch ".") then fail CHPE_INVALID_VERSION else
  state:= s_req_http_minor ;;
  break.

Definition exec_req_http_minor (ch : ascii) : stmt :=
  if negb (IS_NUM ch) then fail CHPE_INVALID_VERSION else
  assign (λ r, set_version (http_major r) (digit ch) r) ;;
  state:= s_req_http_end ;;
  break.

Definition exec_req_http_end (ch : ascii) : stmt :=
  if eqc ch cr then state:= s_req_line_almost_done ;; break
  else if eqc ch lf then state:= s_header_field_start ;; break
  else fail CHPE_INVALID_VERSION.

Definition exec_req_line_almost_done (ch : ascii) : stmt :=
  if negb (eqc ch lf) then fail CHPE_LF_EXPECTED else
  state:= s_header_field_start ;;
  break.

(** ** Header fields *)

Definition exec_header_field_start (ch : ascii) : stmt :=
  if eqc ch cr then state:= s_headers_almost_done ;; break
  else if eqc ch lf then state:= s_headers_almost_done ;; reexecute
  else
    let c := TOKEN ch in
    if eqc c nul then fail CHPE_INVALID_HEADER_TOKEN else
    MARK ev_header_field ;;
    assign (set_index 0) ;;
    state:= s_header_field ;;
    assign (set_header_state
      (if eqc c "c" then h_C
       else if eqc c "p" then h_matching_proxy_connection
       else if eqc c "t" then h_matching_transfer_encoding
       else if eqc c "u" then h_matching_upgrade
       else h_general)) ;;
    break.

(** One more character of a name, or of a value, compared with the literal: [general] on a
    mismatch, [matched] at its last character. *)
Definition match_literal (literal : string) (i : Z) (c : ascii)
    (general stay matched : header_states) : header_states :=
  if (Z.of_nat (String.length literal) <? i) || negb (eqc c (c_at literal i)) then general
  else if i =? Z.of_nat (String.length literal) - 1 then matched
  else stay.

Definition match_header (literal : string) (c : ascii) (matched : header_states)
    (r : http_parser) : http_parser :=
  let r := set_index (index r + 1) r in
  set_header_state
    (match_literal literal (index r) c h_general (header_state r) matched) r.

(** The bytes after [p] that are tokens, [n] of them at most. *)
Fixpoint skip_tokens (n p : nat) : nat :=
  match n with
  | O => p
  | S n' => if is_token (at_ (p + 1)) then skip_tokens n' (p + 1) else p
  end.

(** [p + CROW_MIN(left, max_header_size)] *)
Definition pe_of (p : nat) : nat :=
  p + Z.to_nat (Z.min (Z.of_nat (len - p)) max_header_size).

(** The switch on [header_state] in [s_header_field]. *)
Definition header_field_char (ch c : ascii) : stmt :=
  with_parser (λ r,
    match header_state r with
    | h_general => local (λ v, set_p (skip_tokens (pe_of (v_p v) - (v_p v + 1)) (v_p v)) v)
    | h_C =>
        assign (λ r, set_header_state (if eqc c "o" then h_CO else h_general)
                       (set_index (index r + 1) r))
    | h_CO =>
        assign (λ r, set_header_state (if eqc c "n" then h_CON else h_general)
                       (set_index (index r + 1) r))
    | h_CON =>
        assign (λ r, set_header_state
                       (if eqc c "n" then h_matching_connection
                        else if eqc c "t" then h_matching_content_length
                        else h_general)
                       (set_index (index r + 1) r))
    | h_matching_connection => assign (match_header "connection" c h_connection)
    | h_matching_proxy_connection => assign (match_header "proxy-connection" c h_connection)
    | h_matching_content_length => assign (match_header "content-length" c h_content_length)
    | h_matching_transfer_encoding =>
        assign (match_header "transfer-encoding" c h_transfer_encoding) ;;
        with_parser (λ r, if decide (header_state r = h_transfer_encoding)
                          then assign (set_uses_transfer_encoding true) else skip)
    | h_matching_upgrade => assign (match_header "upgrade" c h_upgrade)
    | h_connection | h_content_length | h_transfer_encoding | h_upgrade =>
        if negb (eqc ch " ") then assign (set_header_state h_general) else skip
    | _ => assert false
    end).

(** [for (; p != data + len; p++)] in [s_header_field]. *)
Fixpoint header_field_loop (fuel : nat) : stmt :=
  with_vars (λ v,
    if Nat.eqb (v_p v) len then skip else
    match fuel with
    | O => leave_by NoFuel
    | S fuel' =>
        let ch := at_ (v_p v) in
        local (set_ch ch) ;;
        let c := TOKEN ch in
        if eqc c nul then skip else
        header_field_char ch c ;;
        local (λ v, set_p (v_p v + 1) v) ;;
        header_field_loop fuel'
    end).

Definition exec_header_field : stmt :=
  with_vars (λ v0,
    let start := v_p v0 in
    header_field_loop len ;;
    with_vars (λ v,
      if Nat.eqb (v_p v) len then
        local (set_p (v_p v - 1)) ;;
        COUNT_HEADER_SIZE (v_p v - 1 - start) ;;
        break
      else
        COUNT_HEADER_SIZE (v_p v - start) ;;
        if eqc (v_ch v) ":" then
          state:= s_header_value_discard_ws ;;
          CALLBACK_DATA ev_header_field ;;
          break
        else fail CHPE_INVALID_HEADER_TOKEN)).

(** ** Header values *)

Definition exec_header_value_start (ch : ascii) : stmt :=
  MARK ev_header_value ;;
  state:= s_header_value ;;
  assign (set_index 0) ;;
  let c := LOWER ch in
  with_parser (λ r,
    match header_state r with
    | h_upgrade =>
        assign (λ r, set_header_state h_general (set_flags (Z.lor (flags r) F_UPGRADE) r))
    | h_transfer_encoding =>
        assign (set_header_state
          (if eqc c "c" then h_matching_transfer_encoding_chunked
           else h_matching_transfer_encoding_token))
    | h_matching_transfer_encoding_token_start => skip
    | h_content_length =>
        if negb (IS_NUM ch) then fail CHPE_INVALID_CONTENT_LENGTH
        else if has_flag (flags r) F_CONTENTLENGTH then fail CHPE_UNEXPECTED_CONTENT_LENGTH
        else assign (λ r, set_header_state h_content_length_num
                            (set_content_length (digit ch)
                               (set_flags (Z.lor (flags r) F_CONTENTLENGTH) r)))
    | h_content_length_ws => skip
    | h_connection =>
        if eqc c "k" then assign (set_header_state h_matching_connection_keep_alive)
        else if eqc c "c" then assign (set_header_state h_matching_connection_close)
        else if eqc c " " || eqc c tab then skip
        else assign (set_header_state h_general)
    | _ => assign (set_header_state h_general)
    end) ;;
  break.

(** Falls through to [s_header_value_start]. *)
Definition exec_header_value_discard_ws (ch : ascii) : stmt :=
  if eqc ch " " || eqc ch tab then break
  else if eqc ch cr then state:= s_header_value_discard_ws_almost_done ;; break
  else if eqc ch lf then state:= s_header_value_discard_lws ;; break
  else exec_header_value_start ch.

(** [for (; p != pe; p++)] of [h_general]: [n] is [pe - p]. *)
Fixpoint skip_value (n : nat) : stmt :=
  match n with
  | O => skip
  | S n' =>
      with_vars (λ v,
        let ch := at_ (v_p v) in
        local (set_ch ch) ;;
        if eqc ch cr || eqc ch lf then local (set_p (v_p v - 1))
        else if negb (v_lenient v) && negb (IS_HEADER_CHAR ch)
        then fail CHPE_INVALID_HEADER_TOKEN
        else local (set_p (v_p v + 1)) ;; skip_value n')
  end.

(** [if (p == data + len) --p;] *)
Definition step_back : stmt :=
  local (λ v, if Nat.eqb (v_p v) len then set_p (v_p v - 1) v else v).

Definition set_h (h : header_states) : stmt := local (set_h_state h).
Definition store_h_state : stmt := with_vars (λ v, assign (set_header_state (v_h_state v))).

Definition value_content_length_num (ch : ascii) : stmt :=
  if eqc ch " " then set_h h_content_length_ws
  else if negb (IS_NUM ch) then
    SET_ERRNO CHPE_INVALID_CONTENT_LENGTH ;; store_h_state ;; goto_error
  else
    with_parser (λ r,
      let t := (content_length r * 10 mod 2 ^ 64 + digit ch) mod 2 ^ 64 in
      if (ULLONG_MAX - 10) / 10 <? content_length r then
        SET_ERRNO CHPE_INVALID_CONTENT_LENGTH ;; store_h_state ;; goto_error
      else assign (set_content_length t)).

Definition match_value (literal : string) (c : ascii) (general stay matched : header_states) :
    stmt :=
  assign (λ r, set_index (index r + 1) r) ;;
  with_parser (λ r, set_h (match_literal literal (index r) c general stay matched)).

(** The switch on [h_state] in [s_header_value]. *)
Definition header_value_char (ch c : ascii) : stmt :=
  with_vars (λ v,
    match v_h_state v with
    | h_general => skip_value (pe_of (v_p v) - v_p v) ;; step_back
    | h_connection | h_transfer_encoding => assert false
    | h_content_length =>
        if eqc ch " " then skip
        else set_h h_content_length_num ;; value_content_length_num ch
    | h_content_length_num => value_content_length_num ch
    | h_content_length_ws =>
        if eqc ch " " then skip
        else SET_ERRNO CHPE_INVALID_CONTENT_LENGTH ;; store_h_state ;; goto_error
    | h_matching_transfer_encoding_token_start =>
        if eqc c "c" then set_h h_matching_transfer_encoding_chunked
        else if is_token c then set_h h_matching_transfer_encoding_token
        else if eqc c " " || eqc c tab then skip
        else set_h h_general
    | h_matching_transfer_encoding_chunked =>
        match_value "chunked" c h_matching_transfer_encoding_token
          h_matching_transfer_encoding_chunked h_transfer_encoding_chunked
    | h_matching_transfer_encoding_token =>
        if eqc ch "," then
          set_h h_matching_transfer_encoding_token_start ;; assign (set_index 0)
        else skip
    | h_matching_connection_keep_alive =>
        match_value "keep-alive" c h_general
          h_matching_connection_keep_alive h_connection_keep_alive
    | h_matching_connection_close =>
        match_value "close" c h_general h_matching_connection_close h_connection_close
    | h_transfer_encoding_chunked =>
        if negb (eqc ch " ") then set_h h_matching_transfer_encoding_token else skip
    | h_connection_keep_alive | h_connection_close =>
        if negb (eqc ch " ") then set_h h_general else skip
    | _ => state:= s_header_value ;; set_h h_general
    end).

(** [for (; p != data + len; p++)] in [s_header_value]. *)
Fixpoint header_value_loop (start fuel : nat) : stmt :=
  with_vars (λ v,
    if Nat.eqb (v_p v) len then skip else
    match fuel with
    | O => leave_by NoFuel
    | S fuel' =>
        let ch := at_ (v_p v) in
        local (set_ch ch) ;;
        if eqc ch cr then
          state:= s_header_almost_done ;;
          store_h_state ;;
          CALLBACK_DATA ev_header_value
        else if eqc ch lf then
          state:= s_header_almost_done ;;
          COUNT_HEADER_SIZE (v_p v - start) ;;
          store_h_state ;;
          CALLBACK_DATA_NOADVANCE ev_header_value ;;
          reexecute
        else if negb (v_lenient v) && negb (IS_HEADER_CHAR ch)
        then fail CHPE_INVALID_HEADER_TOKEN
        else
          header_value_char ch (LOWER ch) ;;
          local (λ v, set_p (v_p v + 1) v) ;;
          header_value_loop start fuel'
    end).

Definition exec_header_value : stmt :=
  with_vars (λ v0,
    let start := v_p v0 in
    with_parser (λ r, set_h (header_state r)) ;;
    header_value_loop start len ;;
    store_h_state ;;
    step_back ;;
    with_vars (λ v, COUNT_HEADER_SIZE (v_p v - start)) ;;
    break).

Definition exec_header_almost_done (ch : ascii) : stmt :=
  if negb (eqc ch lf) then fail CHPE_LF_EXPECTED else
  state:= s_header_value_lws ;;
  break.

Definition exec_header_value_lws (ch : ascii) : stmt :=
  if eqc ch " " || eqc ch tab then
    with_parser (λ r,
      if decide (header_state r = h_content_length_num)
      then assign (set_header_state h_content_length_ws) else skip) ;;
    state:= s_header_value_start ;;
    reexecute
  else
    with_parser (λ r,
      match header_state r with
      | h_connection_keep_alive =>
          assign (λ r, set_flags (Z.lor (flags r) F_CONNECTION_KEEP_ALIVE) r)
      | h_connection_close => assign (λ r, set_flags (Z.lor (flags r) F_CONNECTION_CLOSE) r)
      | h_transfer_encoding_chunked => assign (λ r, set_flags (Z.lor (flags r) F_CHUNKED) r)
      | _ => skip
      end) ;;
    state:= s_header_field_start ;;
    reexecute.

Definition exec_header_value_discard_ws_almost_done (ch : ascii) : stmt :=
  STRICT_CHECK (negb (eqc ch lf)) ;; state:= s_header_value_discard_lws ;; break.

Definition exec_header_value_discard_lws (ch : ascii) : stmt :=
  if eqc ch " " || eqc ch tab then state:= s_header_value_discard_ws ;; break
  else
    MARK ev_header_value ;;
    state:= s_header_field_start ;;
    CALLBACK_DATA_NOADVANCE ev_header_value ;;
    reexecute.

(** ** The end of the headers *)

(** [Transfer-Encoding] together with [Content-Length]. *)
Definition check_lengths : stmt :=
  with_vars (λ v, with_parser (λ r,
    if uses_transfer_encoding r && has_flag (flags r) F_CONTENTLENGTH then
      if has_flag (flags r) F_CHUNKED then
        if negb (v_allow_chunked_length v) then fail CHPE_UNEXPECTED_CONTENT_LENGTH else skip
      else if negb (v_lenient v) then fail CHPE_UNEXPECTED_CONTENT_LENGTH else skip
    else skip)).

(** [parser->nread = nread; return p - data + over;] *)
Definition return_p (over : nat) : stmt :=
  with_vars (λ v, assign (set_nread (v_nread v)) ;; leave_by (Return (v_p v + over))).

(** The call of [on_headers_complete]. *)
Definition call_headers_complete : stmt := λ e,
  let '(rc, u) := on_headers_complete settings (ps e) (us e) in
  (match rc with
   | 0 => skip
   | 1 => assign (λ r, set_flags (Z.lor (flags r) F_SKIPBODY) r)
   | 2 => assign (λ r, set_flags (Z.lor (flags r) F_SKIPBODY) (set_upgrade true r))
   | _ => SET_ERRNO CHPE_CB_headers_complete ;; return_p 0
   end) (MkExec (ps e) (vs e) u).

Definition exec_headers_almost_done (ch : ascii) : stmt :=
  STRICT_CHECK (negb (eqc ch lf)) ;;
  with_parser (λ r,
    if has_flag (flags r) F_TRAILING then CALLBACK_NOTIFY ev_message_complete ;; break
    else
      check_lengths ;;
      state:= s_headers_done ;;
      assign (λ r, set_upgrade (has_flag (flags r) F_UPGRADE || bool_decide (p_method r = Connect))
                     r) ;;
      call_headers_complete ;;
      with_parser (λ r, if decide (p_errno r = CHPE_OK) then skip else return_p 0) ;;
      reexecute).

(** [parser->nread = 0; nread = 0;] *)
Definition reset_nread : stmt := assign (set_nread 0) ;; local (set_v_nread 0).

Definition exec_headers_done (ch : ascii) : stmt :=
  STRICT_CHECK (negb (eqc ch lf)) ;;
  reset_nread ;;
  with_vars (λ v, with_parser (λ r,
    if p_upgrade r then CALLBACK_NOTIFY ev_message_complete ;; return_p 1
    else
      (if has_flag (flags r) F_SKIPBODY then CALLBACK_NOTIFY ev_message_complete
       else if has_flag (flags r) F_CHUNKED then state:= s_chunk_size_start
       else if uses_transfer_encoding r then
         if negb (v_lenient v) then SET_ERRNO CHPE_INVALID_TRANSFER_ENCODING ;; return_p 0
         else state:= s_body_identity_eof
       else if content_length r =? 0 then CALLBACK_NOTIFY ev_message_complete
       else if negb (content_length r =? ULLONG_MAX) then state:= s_body_identity
       else CALLBACK_NOTIFY ev_message_complete) ;;
      break)).

(** ** The body *)

(** [CROW_MIN(parser->content_length, (data + len) - p)] *)
Definition to_read (r : http_parser) (v : vars) : Z :=
  Z.min (content_length r) (Z.of_nat (len - v_p v)).

(** [content_length -= to_read; p += to_read - 1;] *)
Definition take_body (n : Z) : stmt :=
  assign (λ r, set_content_length (content_length r - n) r) ;;
  local (λ v, set_p (Z.to_nat (Z.of_nat (v_p v) + n - 1)) v).

Definition exec_body_identity : stmt :=
  with_vars (λ v, with_parser (λ r,
    let n := to_read r v in
    assert (negb (content_length r =? 0) && negb (content_length r =? ULLONG_MAX)) ;;
    MARK ev_body ;;
    take_body n)) ;;
  with_vars (λ v, with_parser (λ r,
    if content_length r =? 0 then
      state:= s_message_done ;;
      CALLBACK_DATA_ ev_body 1 (v_p v) ;;
      reexecute
    else break)).

Definition exec_body_identity_eof : stmt :=
  MARK ev_body ;; local (set_p (len - 1)) ;; break.

Definition exec_message_done : stmt := CALLBACK_NOTIFY ev_message_complete ;; break.

(** [assert(parser->flags & F_CHUNKED)] *)
Definition assert_chunked : stmt := with_parser (λ r, assert (has_flag (flags r) F_CHUNKED)).

Definition exec_chunk_size_start (ch : ascii) : stmt :=
  with_vars (λ v, assert (v_nread v =? 1)) ;;
  assert_chunked ;;
  if unhex ch =? -1 then fail CHPE_INVALID_CHUNK_SIZE else
  assign (set_content_length (unhex ch)) ;;
  state:= s_chunk_size ;;
  break.

Definition exec_chunk_size (ch : ascii) : stmt :=
  assert_chunked ;;
  if eqc ch cr then state:= s_chunk_size_almost_done ;; break
  else if unhex ch =? -1 then
    if eqc ch ";" || eqc ch " " then state:= s_chunk_parameters ;; break
    else fail CHPE_INVALID_CHUNK_SIZE
  else
    with_parser (λ r,
      let t := (content_length r * 16 mod 2 ^ 64 + unhex ch) mod 2 ^ 64 in
      if (ULLONG_MAX - 16) / 16 <? content_length r then fail CHPE_INVALID_CONTENT_LENGTH
      else assign (set_content_length t)) ;;
    break.

Definition exec_chunk_parameters (ch : ascii) : stmt :=
  assert_chunked ;;
  if eqc ch cr then state:= s_chunk_size_almost_done ;; break else break.

Definition exec_chunk_size_almost_done (ch : ascii) : stmt :=
  assert_chunked ;;
  STRICT_CHECK (negb (eqc ch lf)) ;;
  reset_nread ;;
  with_parser (λ r,
    if content_length r =? 0 then
      assign (λ r, set_flags (Z.lor (flags r) F_TRAILING) r) ;;
      state:= s_header_field_start
    else state:= s_chunk_data) ;;
  break.

Definition exec_chunk_data : stmt :=
  with_vars (λ v, with_parser (λ r,
    let n := to_read r v in
    assert_chunked ;;
    assert (negb (content_length r =? 0) && negb (content_length r =? ULLONG_MAX)) ;;
    MARK ev_body ;;
    take_body n)) ;;
  with_parser (λ r,
    if content_length r =? 0 then state:= s_chunk_data_almost_done else skip) ;;
  break.

Definition exec_chunk_data_almost_done (ch : ascii) : stmt :=
  assert_chunked ;;
  with_parser (λ r, assert (content_length r =? 0)) ;;
  STRICT_CHECK (negb (eqc ch cr)) ;;
  state:= s_chunk_data_done ;;
  CALLBACK_DATA ev_body ;;
  break.

Definition exec_chunk_data_done (ch : ascii) : stmt :=
  assert_chunked ;;
  STRICT_CHECK (negb (eqc ch lf)) ;;
  reset_nread ;;
  state:= s_chunk_size_start ;;
  break.

(** ** The switch and the loops *)

Definition exec_state (s : state) (ch : ascii) : stmt :=
  match s with
  | s_dead => exec_dead ch
  | s_start_req => exec_start_req ch
  | s_req_method => exec_req_method ch
  | s_req_spaces_before_url => exec_req_spaces_before_url ch
  | s_req_schema | s_req_schema_slash | s_req_schema_slash_slash | s_req_server_start =>
      exec_req_schema ch
  | s_req_server | s_req_server_with_at | s_req_path | s_req_query_string_start
  | s_req_query_string => exec_req_url ch
  | s_req_http_start => exec_req_http_start ch
  | s_req_http_H => exec_req_http_H ch
  | s_req_http_HT => exec_req_http_HT ch
  | s_req_http_HTT => exec_req_http_HTT ch
  | s_req_http_I => exec_req_http_I ch
  | s_req_http_IC => exec_req_http_IC ch
  | s_req_http_HTTP => exec_req_http_HTTP ch
  | s_req_http_major => exec_req_http_major ch
  | s_req_http_dot => exec_req_http_dot ch
  | s_req_http_minor => exec_req_http_minor ch
  | s_req_http_end => exec_req_http_end ch
  | s_req_line_almost_done => exec_req_line_almost_done ch
  | s_header_field_start => exec_header_field_start ch
  | s_header_field => exec_header_field
  | s_header_value_discard_ws => exec_header_value_discard_ws ch
  | s_header_value_start => exec_header_value_start ch
  | s_header_value => exec_header_value
  | s_header_almost_done => exec_header_almost_done ch
  | s_header_value_lws => exec_header_value_lws ch
  | s_header_value_discard_ws_almost_done => exec_header_value_discard_ws_almost_done ch
  | s_header_value_discard_lws => exec_header_value_discard_lws ch
  | s_headers_almost_done => exec_headers_almost_done ch
  | s_headers_done => exec_headers_done ch
  | s_body_identity => exec_body_identity
  | s_body_identity_eof => exec_body_identity_eof
  | s_message_done => exec_message_done
  | s_chunk_size_start => exec_chunk_size_start ch
  | s_chunk_size => exec_chunk_size ch
  | s_chunk_parameters => exec_chunk_parameters ch
  | s_chunk_size_almost_done => exec_chunk_size_almost_done ch
  | s_chunk_data => exec_chunk_data
  | s_chunk_data_almost_done => exec_chunk_data_almost_done ch
  | s_chunk_data_done => exec_chunk_data_done ch
  end.

(** [reexecute: switch (parser->state)] *)
Fixpoint exec_switch (fuel : nat) : stmt := λ e,
  match exec_state (p_state (ps e)) (v_ch (vs e)) e with
  | (e', Some Reexecute) =>
      match fuel with
      | O => (e', Some NoFuel)
      | S fuel' => exec_switch fuel' e'
      end
  | r => r
  end.

(** A byte is executed again this often at most. *)
Definition max_reexecute : nat := 3.

(** What the loop does with one byte. *)
Definition exec_byte : stmt :=
  with_vars (λ v, local (set_ch (at_ (v_p v)))) ;;
  with_parser (λ r, if PARSING_HEADER (p_state r) then COUNT_HEADER_SIZE 1 else skip) ;;
  exec_switch max_reexecute.

(** [for (p=data; p != data + len; p++)] *)
Fixpoint exec_loop (fuel : nat) : stmt := λ e,
  if Nat.eqb (v_p (vs e)) len then (e, None)
  else
    match exec_byte e with
    | (e', Some Break) =>
        match fuel with
        | O => (e', Some NoFuel)
        | S fuel' => exec_loop fuel' (MkExec (ps e') (set_p (v_p (vs e') + 1) (vs e')) (us e'))
        end
    | r => r
    end.

(** ** http_parser_execute *)

(** What a call ends in: the number of bytes it returns, or no value. *)
Inductive parse_result : Type :=
| Parsed (n : nat)
| ParseAborted
| ParseNoFuel.

Definition result_of (r : exec U * option leave) : http_parser * U * parse_result :=
  let '(e, l) := r in
  (ps e, us e,
   match l with
   | Some (Return n) => Parsed n
   | Some NoFuel => ParseNoFuel
   | _ => ParseAborted
   end).

(** [len == 0] *)
Definition execute_eof : stmt :=
  with_parser (λ r,
    match p_state r with
    | s_body_identity_eof =>
        CALLBACK_NOTIFY_NOADVANCE ev_message_complete ;; leave_by (Return 0)
    | s_dead | s_start_req => leave_by (Return 0)
    | _ => SET_ERRNO CHPE_INVALID_EOF_STATE ;; leave_by (Return 1)
    end).

(** The marks a call starts with. *)
Definition initial_mark (s : state) (ev : data_event) : option nat :=
  match ev, s with
  | ev_header_field, s_header_field => Some 0%nat
  | ev_header_value, s_header_value => Some 0%nat
  | ev_url, (s_req_path | s_req_schema | s_req_schema_slash | s_req_schema_slash_slash
            | s_req_server_start | s_req_server | s_req_server_with_at
            | s_req_query_string_start | s_req_query_string) => Some 0%nat
  | _, _ => None
  end.

Definition initial_vars (r : http_parser) : vars :=
  MkVars 0 (p_nread r) nul h_general (lenient_http_headers r) (allow_chunked_length r) None
    (initial_mark (p_state r)).

(** At most one mark is set. *)
Definition one_mark (v : vars) : bool :=
  (length (List.filter (λ ev, bool_decide (is_Some (v_mark v ev)))
             [ev_header_field; ev_header_value; ev_url; ev_body]) <=? 1)%nat.

(** After the loop has run out of bytes. *)
Definition execute_end : stmt :=
  with_vars (λ v, assert (one_mark v)) ;;
  CALLBACK_DATA_NOADVANCE ev_header_field ;;
  CALLBACK_DATA_NOADVANCE ev_header_value ;;
  CALLBACK_DATA_NOADVANCE ev_url ;;
  CALLBACK_DATA_NOADVANCE ev_body ;;
  with_vars (λ v, assign (set_nread (v_nread v))) ;;
  leave_by (Return len).

(** [error:] *)
Definition execute_error : stmt :=
  with_parser (λ r, if decide (p_errno r = CHPE_OK) then SET_ERRNO CHPE_UNKNOWN else skip) ;;
  return_p 0.

(** The loop, then its end or [error:]. *)
Definition execute_bytes : stmt := λ e,
  match exec_loop len e with
  | (e', None) => execute_end e'
  | (e', Some GotoError) => execute_error e'
  | r => r
  end.

Definition http_parser_execute (r : http_parser) (u : U) : http_parser * U * parse_result :=
  let e := MkExec r (initial_vars r) u in
  if decide (p_errno r ≠ CHPE_OK) then (r, u, Parsed 0)
  else result_of ((if Nat.eqb len 0 then execute_eof else execute_bytes) e).

End Execute.

(** [http_body_is_final] *)
Definition http_body_is_final (r : http_parser) : bool := bool_decide (p_state r = s_message_done).

(** [CROW_HTTP_MAX_HEADER_SIZE] *)
Definition HTTP_MAX_HEADER_SIZE : Z := 80 * 1024.
