(* ===== verification/HttpTotal.v ===== *)
(** * The HTTP parser always answers

    A weakest-precondition calculus for the statements of file HttpExecute, and the proof
    that [http_parser_execute] comes to an end on every input, from every state and with
    every application, and never claims more bytes than it was given. *)

From Stdlib Require Import ZArith Lia Ascii String.
From stdpp Require Import base tactics option strings list.
From S2P Require Import Prelude.
From S2P Require Import CppStd.
From S2P Require Import QueryString.
From S2P Require Import Crow.
From S2P Require Import HttpParser.
From S2P Require Import HttpExecute.

(** ** Weakest preconditions *)

Section WP.
Context {U : Type}.

Abbreviation post := (exec U → option leave → Prop).

Definition wp (s : stmt (U:=U)) (Q : post) (e : exec U) : Prop := Q (s e).1 (s e).2.

(** What the rest of a sequence has to establish. *)
Definition then_ (s : stmt (U:=U)) (Q : post) : post :=
  λ e l, match l with None => wp s Q e | Some _ => Q e l end.

Lemma wp_seq s1 s2 Q e : wp s1 (then_ s2 Q) e → wp (seq s1 s2) Q e.
Proof. unfold wp, then_, seq. by destruct (s1 e) as [e' [l|]]. Qed.

Lemma wp_mono s (Q1 Q2 : post) e : wp s Q1 e → (∀ e' l, Q1 e' l → Q2 e' l) → wp s Q2 e.
Proof. unfold wp. auto. Qed.

Lemma wp_and s (Q1 Q2 : post) e : wp s Q1 e → wp s Q2 e → wp s (λ e l, Q1 e l ∧ Q2 e l) e.
Proof. done. Qed.

Lemma wp_skip (Q : post) e : Q e None → wp skip Q e.
Proof. done. Qed.
Lemma wp_leave (Q : post) l e : Q e (Some l) → wp (leave_by l) Q e.
Proof. done. Qed.
Lemma wp_assign f (Q : post) r v u :
  Q (MkExec (f r) v u) None → wp (assign f) Q (MkExec r v u).
Proof. done. Qed.
Lemma wp_local f (Q : post) r v u : Q (MkExec r (f v) u) None → wp (local f) Q (MkExec r v u).
Proof. done. Qed.
Lemma wp_with_parser k (Q : post) r v u :
  wp (k r) Q (MkExec r v u) → wp (with_parser k) Q (MkExec r v u).
Proof. done. Qed.
Lemma wp_with_vars k (Q : post) r v u :
  wp (k v) Q (MkExec r v u) → wp (with_vars k) Q (MkExec r v u).
Proof. done. Qed.

Lemma wp_if (b : bool) s1 s2 (Q : post) e :
  (b = true → wp s1 Q e) → (b = false → wp s2 Q e) → wp (if b then s1 else s2) Q e.
Proof. destruct b; auto. Qed.
Lemma wp_decide (P : Prop) `{Decision P} s1 s2 (Q : post) e :
  (P → wp s1 Q e) → (¬ P → wp s2 Q e) → wp (if decide P then s1 else s2) Q e.
Proof. destruct (decide P); auto. Qed.
Lemma wp_assert (b : bool) (Q : post) e :
  (b = true → Q e None) → (b = false → Q e (Some AssertFailed)) → wp (assert b) Q e.
Proof. destruct b; intros H1 H2; [by apply H1|by apply H2]. Qed.
End WP.

(** One step of symbolic execution. *)
Ltac wp1 :=
  lazymatch goal with
  | |- wp (seq _ _) _ _ => apply wp_seq
  | |- wp skip _ _ => apply wp_skip
  | |- wp (leave_by _) _ _ => apply wp_leave
  | |- wp break _ _ => apply wp_leave
  | |- wp reexecute _ _ => apply wp_leave
  | |- wp goto_error _ _ => apply wp_leave
  | |- wp (assign _) _ _ => apply wp_assign
  | |- wp (local _) _ _ => apply wp_local
  | |- wp (with_parser _) _ _ => apply wp_with_parser; cbv beta
  | |- wp (with_vars _) _ _ => apply wp_with_vars; cbv beta
  | |- wp (if decide _ then _ else _) _ _ => apply wp_decide; intros ?
  | |- wp (if ?b then _ else _) _ _ =>
      lazymatch type of b with bool => apply wp_if; intros ? end
  | |- wp (assert _) _ _ => apply wp_assert; intros ?
  | |- wp (let x := _ in _) _ _ => cbv zeta
  | |- wp (match ?x with _ => _ end) _ _ => destruct x eqn:?
  | |- then_ _ _ _ (Some _) => unfold then_ at 1
  | |- then_ _ _ _ None => unfold then_ at 1
  end.
Ltac wps := repeat wp1.

(** Fields of a known state. *)
Ltac fields :=
  cbn [ps vs us v_p v_nread v_ch v_h_state v_lenient v_allow_chunked_length v_url_start_mark
       v_mark set_p set_v_nread set_ch set_h_state set_url_start_mark set_mark
       flags p_state header_state index uses_transfer_encoding p_nread content_length content_length_u64
       p_method p_errno p_upgrade
       set_flags set_state set_header_state set_index set_uses_transfer_encoding set_nread
       set_content_length set_qs_point set_version set_method set_http_errno
       set_upgrade] in *.

(** ** Callbacks *)

Section Callbacks.
Context {U : Type}.
Variable settings : http_parser_settings U.
Variable data : bytes.

Lemma wp_SET_ERRNO err (Q : exec U → option leave → Prop) r v u :
  Q (MkExec (set_http_errno err (set_nread (v_nread v) r)) v u) None →
  wp (SET_ERRNO err) Q (MkExec r v u).
Proof. done. Qed.

Lemma wp_fail err (Q : exec U → option leave → Prop) r v u :
  Q (MkExec (set_http_errno err (set_nread (v_nread v) r)) v u) (Some GotoError) →
  wp (fail err) Q (MkExec r v u).
Proof. done. Qed.

Lemma wp_NOTIFY_ ev er (Q : exec U → option leave → Prop) r v u :
  (p_errno r ≠ CHPE_OK → Q (MkExec r v u) (Some AssertFailed)) →
  (∀ rc r' u', p_errno r = CHPE_OK → on_notify settings ev r u = (rc, r', u') →
     p_errno r' = CHPE_OK → Q (MkExec r' v u') None) →
  (∀ r' u', p_errno r' ≠ CHPE_OK → Q (MkExec r' v u') (Some (Return er))) →
  wp (CALLBACK_NOTIFY_ settings ev er) Q (MkExec r v u).
Proof.
  intros HA HN HR.
  unfold wp, CALLBACK_NOTIFY_, return_on_errno, seq, with_parser, skip, leave_by. cbn.
  destruct (decide (p_errno r = CHPE_OK)) as [Ho|Ho].
  2:{ rewrite bool_decide_eq_false_2 by done. by apply HA. }
  rewrite bool_decide_eq_true_2 by done. cbn.
  destruct (on_notify settings ev r u) as [[rc r'] u'] eqn:E.
  destruct (rc =? 0)%Z; cbn; [|destruct ev; cbn; by apply HR].
  case_decide; eauto.
Qed.

Lemma wp_DATA_ ev over er (Q : exec U → option leave → Prop) r v u :
  (p_errno r ≠ CHPE_OK → Q (MkExec r v u) (Some AssertFailed)) →
  (v_mark v ev = None → Q (MkExec r v u) None) →
  (∀ u', Q (MkExec r (set_mark ev None v) u') None) →
  (∀ r' u', p_errno r' ≠ CHPE_OK → Q (MkExec r' v u') (Some (Return er))) →
  wp (CALLBACK_DATA_ settings data ev over er) Q (MkExec r v u).
Proof.
  intros HA HM HN HR.
  unfold wp, CALLBACK_DATA_, return_on_errno, seq, with_parser, skip, leave_by, local. cbn.
  destruct (decide (p_errno r = CHPE_OK)) as [Ho|Ho].
  2:{ rewrite bool_decide_eq_false_2 by done. by apply HA. }
  rewrite bool_decide_eq_true_2 by done. cbn.
  destruct (v_mark v ev) as [m|] eqn:E; [|by apply HM].
  destruct (on_data settings ev _ _ _) as [rc u'].
  destruct (rc =? 0)%Z; cbn; [|destruct ev; cbn; by apply HR].
  rewrite Ho. cbn. apply HN.
Qed.

Lemma wp_COUNT max n (Q : exec U → option leave → Prop) r v u :
  let k := ((v_nread v + Z.of_nat n mod 2 ^ 32) mod 2 ^ 32)%Z in
  Q (MkExec r (set_v_nread k v) u) None →
  (∀ r', Q (MkExec r' (set_v_nread k v) u) (Some GotoError)) →
  wp (COUNT_HEADER_SIZE max n) Q (MkExec r v u).
Proof.
  intros k HN HE. unfold COUNT_HEADER_SIZE. repeat wp1; [apply HE|apply HN].
Qed.

Lemma wp_MARK ev (Q : exec U → option leave → Prop) r v u :
  (v_mark v ev = None → Q (MkExec r (set_mark ev (Some (v_p v)) v) u) None) →
  (∀ m, v_mark v ev = Some m → Q (MkExec r v u) None) →
  wp (MARK ev) Q (MkExec r v u).
Proof. intros HN HS. unfold MARK, wp, local. cbn. destruct (v_mark v ev) eqn:E; eauto. Qed.

Lemma wp_MARK_url_start (Q : exec U → option leave → Prop) r v u :
  (∀ m, Q (MkExec r (set_url_start_mark m v) u) None) →
  wp MARK_url_start Q (MkExec r v u).
Proof.
  intros HQ. unfold MARK_url_start, wp, local. cbn.
  destruct (v_url_start_mark v) eqn:E; [|apply HQ].
  specialize (HQ (v_url_start_mark v)). by destruct v.
Qed.

Lemma wp_STRICT cond (Q : exec U → option leave → Prop) r v u :
  (cond = false → Q (MkExec r v u) None) →
  (∀ r', Q (MkExec r' v u) (Some GotoError)) →
  wp (STRICT_CHECK cond) Q (MkExec r v u).
Proof. intros HN HE. unfold STRICT_CHECK. destruct cond; [apply HE|by apply HN]. Qed.

Definition skip_body_of (upgrade : bool) (r : http_parser) : http_parser :=
  set_flags (Z.lor (flags r) F_SKIPBODY) (if upgrade then set_upgrade true r else r).

Lemma wp_headers_complete (Q : exec U → option leave → Prop) r v u :
  (∀ r' u', r' = r ∨ (∃ b, r' = skip_body_of b r) → Q (MkExec r' v u') None) →
  (∀ r' u', p_errno r' ≠ CHPE_OK → Q (MkExec r' v u') (Some (Return (v_p v)))) →
  wp (call_headers_complete settings) Q (MkExec r v u).
Proof.
  intros HN HE. unfold call_headers_complete, wp. cbn.
  destruct (on_headers_complete settings r u) as [rc u'].
  set (s := seq (SET_ERRNO CHPE_CB_headers_complete) (return_p 0)).
  assert (Herr : Q (s (MkExec r v u')).1 (s (MkExec r v u')).2).
  { cbn. rewrite Nat.add_0_r. by apply HE. }
  destruct rc as [|[[]|[]|]|]; try exact Herr; cbn; apply HN; [by left|..]; right.
  - by exists true.
  - by exists false.
Qed.
End Callbacks.

(** Symbolic execution, callbacks included. *)
Ltac run1 :=
  lazymatch goal with
  | |- wp (CALLBACK_NOTIFY_ _ _ _) _ _ => apply wp_NOTIFY_; intros
  | |- wp (CALLBACK_NOTIFY _ _) _ _ => unfold CALLBACK_NOTIFY
  | |- wp (CALLBACK_DATA_ _ _ _ _ _) _ _ => apply wp_DATA_; intros
  | |- wp (CALLBACK_DATA _ _ _) _ _ => unfold CALLBACK_DATA
  | |- wp (CALLBACK_DATA_NOADVANCE _ _ _) _ _ => unfold CALLBACK_DATA_NOADVANCE
  | |- wp (SET_ERRNO _) _ _ => apply wp_SET_ERRNO
  | |- wp (fail _) _ _ => apply wp_fail
  | |- wp (COUNT_HEADER_SIZE _ _) _ _ => apply wp_COUNT; intros
  | |- wp (STRICT_CHECK _) _ _ => apply wp_STRICT; intros
  | |- wp (MARK _) _ _ => apply wp_MARK; intros
  | |- wp MARK_url_start _ _ => apply wp_MARK_url_start; intros
  | |- wp (call_headers_complete _) _ _ => apply wp_headers_complete; intros
  | |- wp reset_nread _ _ => unfold reset_nread
  | |- wp (return_p _) _ _ => unfold return_p
  | |- wp store_h_state _ _ => unfold store_h_state
  | |- wp (set_h _) _ _ => unfold set_h
  | |- wp assert_chunked _ _ => unfold assert_chunked
  | _ => wp1
  end.
Ltac runs := repeat (run1; cbn [ps vs us]).

Ltac nats := repeat match goal with
  | H : (_ =? _)%nat = true |- _ => apply Nat.eqb_eq in H
  | H : (_ =? _)%nat = false |- _ => apply Nat.eqb_neq in H
  end.

(** ** Termination *)

Section Total.
Context {U : Type}.
Variable settings : http_parser_settings U.
Variable data : bytes.
Variable addr max_header_size : Z.

Abbreviation len := (len data).

(** How often a state may still execute the byte again. *)
Definition rank (s : state) : nat :=
  match s with
  | s_header_value_lws | s_header_value_discard_lws => 3
  | s_header_field_start => 2
  | s_headers_almost_done | s_header_value | s_body_identity => 1
  | _ => 0
  end.

(** What a case of the switch ends in, entered at [p] with rank [k]. *)
Definition leaves (p k : nat) (e : exec U) (l : option leave) : Prop :=
  match l with
  | Some Break => (p ≤ v_p (vs e) < len)%nat
  | Some Reexecute => (p ≤ v_p (vs e) < len)%nat ∧ (rank (p_state (ps e)) < k)%nat
  | Some GotoError => (v_p (vs e) ≤ len)%nat
  | Some (Return n) => (n ≤ len)%nat
  | Some AssertFailed => True
  | _ => False
  end.

(** What a piece of a case does: it moves on within the data or ends. *)
Definition moves (p : nat) (s : state) (e : exec U) (l : option leave) : Prop :=
  match l with
  | None => (p ≤ v_p (vs e) ≤ len)%nat ∧ p_state (ps e) = s
  | l => leaves p (rank s) e l
  end.

Ltac done_leaves :=
  unfold leaves, moves in *; fields; cbn [rank] in *; try done; try lia; try (split; [lia|]);
  try done; try lia.

Lemma exec_header_value_start_leaves ch e k :
  (v_p (vs e) < len)%nat → wp (exec_header_value_start ch) (leaves (v_p (vs e)) k) e.
Proof.
  destruct e as [r v u]. intros Hp. fields. unfold exec_header_value_start.
  runs; done_leaves.
Qed.
Ltac start := intros Hp; match goal with e : exec U |- _ => destruct e as [r v u] end; fields.
Ltac run_leaves := runs; fields; done_leaves.

Lemma exec_headers_almost_done_leaves ch (e : exec U) :
  (v_p (vs e) < len)%nat →
  wp (exec_headers_almost_done settings ch) (leaves (v_p (vs e)) 1) e.
Proof.
  start. unfold exec_headers_almost_done, check_lengths. runs; fields; done_leaves.
  all: match goal with H : _ ∨ (∃ _, _) |- _ => destruct H as [->|[[] ->]] end;
    unfold skip_body_of; done_leaves.
Qed.

Lemma step_url_moves ch (e : exec U) :
  (v_p (vs e) < len)%nat →
  wp (step_url addr ch)
    (λ e' l, match l with
             | None => v_p (vs e') = v_p (vs e)
             | Some GotoError => v_p (vs e') = v_p (vs e)
             | _ => False
             end) e.
Proof.
  start. unfold step_url. runs; done.
Qed.

Lemma exec_simple_leaves s ch (e : exec U) :
  (v_p (vs e) < len)%nat →
  match s with
  | s_header_field | s_header_value | s_req_spaces_before_url | s_req_schema
  | s_req_schema_slash | s_req_schema_slash_slash | s_req_server_start
  | s_req_server | s_req_server_with_at | s_req_path | s_req_query_string_start
  | s_req_query_string | s_body_identity | s_chunk_data => True
  | _ => wp (exec_state settings data addr max_header_size s ch)
           (leaves (v_p (vs e)) (rank s)) e
  end.
Proof.
  start. destruct s; cbn [exec_state]; try exact I.
  all: try (by apply exec_header_value_start_leaves).
  all: try (by apply exec_headers_almost_done_leaves).
  all: unfold exec_dead, exec_start_req, exec_req_method, exec_req_http_start,
    exec_req_http_H, exec_req_http_HT, exec_req_http_HTT, exec_req_http_HTTP,
    exec_req_http_I, exec_req_http_IC, exec_req_http_major, exec_req_http_dot,
    exec_req_http_minor, exec_req_http_end, exec_req_line_almost_done,
    exec_header_field_start, exec_header_value_discard_ws, exec_header_almost_done,
    exec_header_value_lws, exec_header_value_discard_ws_almost_done,
    exec_header_value_discard_lws, exec_headers_done,
    exec_body_identity_eof, exec_message_done, exec_chunk_size_start, exec_chunk_size,
    exec_chunk_parameters, exec_chunk_size_almost_done,
    exec_chunk_data_almost_done, exec_chunk_data_done.
  all: try (run_leaves; fail).
  repeat wp1; [done_leaves..|]. by apply exec_header_value_start_leaves.
Qed.
Lemma exec_url_leaves s ch (e : exec U) :
  (v_p (vs e) < len)%nat →
  s = s_req_spaces_before_url ∨ s ∈ [s_req_schema; s_req_schema_slash; s_req_schema_slash_slash;
    s_req_server_start; s_req_server; s_req_server_with_at; s_req_path;
    s_req_query_string_start; s_req_query_string] →
  wp (exec_state settings data addr max_header_size s ch) (leaves (v_p (vs e)) 0) e.
Proof.
  intros Hp Hs.
  assert (Hurl : ∀ e' : exec U, v_p (vs e') = v_p (vs e) →
    wp (seq (step_url addr ch) break) (leaves (v_p (vs e)) 0) e').
  { intros e' E. apply wp_seq. eapply wp_mono; [apply step_url_moves; lia|].
    intros e1 [[]|]; rewrite ?E; cbn; lia. }
  destruct e as [r v u]; fields.
  destruct Hs as [->|Hs]; [|repeat (apply elem_of_cons in Hs as [->|Hs])]; try by apply elem_of_nil in Hs.
  all: cbn [exec_state]; unfold exec_req_spaces_before_url, exec_req_schema, exec_req_url.
  all: repeat lazymatch goal with
       | |- wp (seq (step_url _ _) break) _ _ => apply Hurl; reflexivity
       | _ => run1
       end; done_leaves.
Qed.
Lemma exec_body_leaves s ch (e : exec U) :
  (v_p (vs e) < len)%nat → s = s_body_identity ∨ s = s_chunk_data →
  wp (exec_state settings data addr max_header_size s ch) (leaves (v_p (vs e)) (rank s)) e.
Proof.
  start. intros [->| ->]; cbn [exec_state]; unfold exec_body_identity, exec_chunk_data, take_body;
    runs; fields; unfold leaves; fields; cbn [rank]; try done; unfold to_read in *; fields.
  all: repeat match goal with
       | H : _ && _ = true |- _ => apply andb_true_iff in H as [? ?]
       | H : negb _ = true |- _ => apply negb_true_iff, Z.eqb_neq in H
       end; unfold content_length in *; try (split; [|lia]); lia.
Qed.

Lemma pe_of_bounds p : (p ≤ len)%nat → (p ≤ pe_of data max_header_size p ≤ len)%nat.
Proof. intros Hp. unfold pe_of. lia. Qed.

Lemma skip_tokens_bounds n p : (p ≤ skip_tokens data n p ≤ p + n)%nat.
Proof.
  revert p. induction n as [|n IH]; intros p; cbn; [lia|].
  case_match; [specialize (IH (p + 1)%nat)|]; lia.
Qed.

Lemma header_field_char_moves ch c (e : exec U) :
  (v_p (vs e) < len)%nat →
  wp (header_field_char data max_header_size ch c)
    (λ e' l, match l with
             | None => (v_p (vs e) ≤ v_p (vs e') < len)%nat ∧ p_state (ps e') = p_state (ps e)
             | Some l => l = AssertFailed
             end) e.
Proof.
  start. unfold header_field_char, match_header.
  pose proof (pe_of_bounds (v_p v)) as Hpe.
  pose proof (skip_tokens_bounds (pe_of data max_header_size (v_p v) - (v_p v + 1)) (v_p v)).
  runs; fields; try done; try lia. split; [lia|done].
Qed.

Lemma header_field_loop_moves fuel (e : exec U) :
  (v_p (vs e) ≤ len)%nat → (len - v_p (vs e) ≤ fuel)%nat →
  wp (header_field_loop data max_header_size fuel)
    (λ e' l, match l with
             | None => (v_p (vs e) ≤ v_p (vs e') ≤ len)%nat ∧ p_state (ps e') = p_state (ps e)
             | Some l => l = AssertFailed
             end) e.
Proof.
  revert e. induction fuel as [|fuel IH]; intros [r v u]; fields; intros Hp Hf;
    cbn [header_field_loop]; repeat wp1; fields;
    repeat match goal with
           | H : (_ =? _)%nat = true |- _ => apply Nat.eqb_eq in H
           | H : (_ =? _)%nat = false |- _ => apply Nat.eqb_neq in H
           end; try (split; [lia|done]); [lia|].
  eapply wp_mono; [apply header_field_char_moves; cbn; lia|].
  intros [r1 v1 u1] [l|]; fields; cbn; [intros ->; done|intros [Hp1 Hs1]].
  do 2 wp1. cbn. eapply wp_mono; [apply IH; cbn; lia|].
  intros e2 [l|]; cbn; [done|intros [Hp2 Hs2]]. split; [lia|congruence].
Qed.

Lemma exec_header_field_leaves k (e : exec U) :
  (v_p (vs e) < len)%nat →
  wp (exec_header_field settings data max_header_size) (leaves (v_p (vs e)) k) e.
Proof.
  start. unfold exec_header_field. do 2 wp1.
  eapply wp_mono; [apply header_field_loop_moves; cbn; lia|].
  intros [r1 v1 u1] [l|]; cbn; [intros ->; done|intros [Hp1 Hs1]].
  runs; fields; nats; unfold leaves; fields; lia.
Qed.

(** Inside the value loop: [start ≤ p], and the state is the one before. *)
Definition in_value (p : nat) (s : state) (e : exec U) (l : option leave) : Prop :=
  match l with
  | None => (p ≤ v_p (vs e) ≤ len)%nat ∧ p_state (ps e) = s
  | Some GotoError => (v_p (vs e) ≤ len)%nat
  | Some AssertFailed => True
  | _ => False
  end.

Lemma skip_value_moves n p s (e : exec U) :
  (p ≤ v_p (vs e))%nat → (v_p (vs e) + n ≤ len)%nat → p_state (ps e) = s →
  (v_p (vs e) = p → (0 < n)%nat → eqc (at_ data p) cr || eqc (at_ data p) lf = false) →
  wp (skip_value data n) (in_value p s) e.
Proof.
  revert e. induction n as [|n IH]; intros [r v u]; fields; intros Hp Hn Hs Hfirst;
    cbn [skip_value].
  - wp1. cbn. split; [lia|done].
  - runs; fields; unfold in_value; fields; try lia.
    + destruct (decide (v_p v = p)) as [E|E]; [|split; [lia|done]].
      rewrite E in *. rewrite Hfirst in H by lia. done.
    + apply IH; cbn; [lia..|done|lia].
Qed.

Lemma header_value_char_moves ch c (e : exec U) :
  (v_p (vs e) < len)%nat → eqc (at_ data (v_p (vs e))) cr || eqc (at_ data (v_p (vs e))) lf = false →
  wp (header_value_char data max_header_size ch c)
    (λ e' l, match l with
             | None => (v_p (vs e) ≤ v_p (vs e') < len)%nat
             | Some GotoError => (v_p (vs e') ≤ len)%nat
             | Some AssertFailed => True
             | _ => False
             end) e.
Proof.
  start. intros Hch. pose proof (pe_of_bounds (v_p v)) as Hpe.
  unfold header_value_char, value_content_length_num, match_value.
  runs; fields; try done; try lia.
  all: eapply wp_mono; [apply (skip_value_moves _ (v_p v) (p_state r)); fields; auto; lia|].
  all: intros [r1 v1 u1] [[]|]; cbn; try done.
  intros [Hp1 Hs1]. unfold step_back. runs; fields.
  case_match; nats; cbn; lia.
Qed.

Lemma header_value_loop_leaves start fuel (e : exec U) :
  (v_p (vs e) ≤ len)%nat → (len - v_p (vs e) ≤ fuel)%nat →
  wp (header_value_loop settings data max_header_size start fuel)
    (λ e' l, match l with
             | None => (v_p (vs e) ≤ v_p (vs e') ≤ len)%nat
             | Some Break => False
             | l => leaves (v_p (vs e)) 1 e' l
             end) e.
Proof.
  revert e. induction fuel as [|fuel IH]; intros [r v u]; fields; intros Hp Hf;
    cbn [header_value_loop]; do 2 wp1; intros; nats; [by wp1; cbn; lia|wp1; lia|by wp1; cbn; lia|].
  runs; nats; unfold leaves; fields; cbn [rank]; try done; try lia; try (split; lia).
  eapply wp_mono; [apply header_value_char_moves; cbn; [lia|by rewrite H0, H1]|].
  intros [r1 v1 u1] [[]|]; cbn; try done; intros Hp1.
  do 2 wp1. cbn. eapply wp_mono; [apply IH; cbn; lia|].
  intros e2 [[]|]; cbn; try done; lia.
Qed.

Lemma exec_header_value_leaves (e : exec U) :
  (v_p (vs e) < len)%nat →
  wp (exec_header_value settings data max_header_size) (leaves (v_p (vs e)) 1) e.
Proof.
  start. unfold exec_header_value. runs; fields.
  eapply wp_mono; [apply header_value_loop_leaves; cbn; lia|].
  intros [r1 v1 u1] [[]|]; cbn; try done; intros Hp1.
  unfold step_back. runs; unfold leaves; fields; nats; case_match; nats; cbn; lia.
Qed.

(** Every case of the switch moves on, or executes the byte again in a state of a lower
    rank, or ends; none falls through. *)
Lemma exec_state_leaves s ch (e : exec U) :
  (v_p (vs e) < len)%nat →
  wp (exec_state settings data addr max_header_size s ch) (leaves (v_p (vs e)) (rank s)) e.
Proof.
  intros Hp. pose proof (exec_simple_leaves s ch e Hp) as H.
  destruct s; try exact H; try (apply exec_url_leaves; [done|]; rewrite ?elem_of_cons; tauto);
    try (apply exec_body_leaves; auto; fail).
  - by apply exec_header_field_leaves.
  - by apply exec_header_value_leaves.
Qed.

Lemma exec_switch_leaves fuel (e : exec U) :
  (v_p (vs e) < len)%nat → (rank (p_state (ps e)) ≤ fuel)%nat →
  wp (exec_switch settings data addr max_header_size fuel)
    (λ e' l, l ≠ Some Reexecute ∧ leaves (v_p (vs e)) 0 e' l) e.
Proof.
  revert e. induction fuel as [|fuel IH]; intros e Hp Hf; unfold wp; cbn [exec_switch];
    pose proof (exec_state_leaves (p_state (ps e)) (v_ch (vs e)) e Hp) as H; unfold wp in H;
    destruct (exec_state _ _ _ _ _ _ e) as [e' [[]|]]; cbn in H |- *; try (split; [done|lia]).
  all: try done; try lia.
  destruct H as [Hp' Hr]. pose proof (IH e' ltac:(lia) ltac:(lia)) as [H1 H2].
  split; [done|]. revert H2. destruct (exec_switch _ _ _ _ _ e').2 as [[]|]; cbn; lia.
Qed.

Lemma exec_byte_leaves (e : exec U) :
  (v_p (vs e) < len)%nat →
  wp (exec_byte settings data addr max_header_size)
    (λ e' l, l ≠ Some Reexecute ∧ leaves (v_p (vs e)) 0 e' l) e.
Proof.
  destruct e as [r v u]. intros Hp. fields. unfold exec_byte. runs; fields; try (split; [done|cbn; lia]).
  all: (eapply wp_mono; [apply exec_switch_leaves; [done|cbn; unfold max_reexecute; destruct (p_state r); cbn; lia]|done]).
Qed.

Lemma exec_loop_ends fuel (e : exec U) :
  (v_p (vs e) ≤ len)%nat → (len - v_p (vs e) ≤ fuel)%nat →
  wp (exec_loop settings data addr max_header_size fuel)
    (λ e' l, match l with
             | None => v_p (vs e') = len
             | Some GotoError => (v_p (vs e') ≤ len)%nat
             | Some (Return n) => (n ≤ len)%nat
             | Some AssertFailed => True
             | _ => False
             end) e.
Proof.
  revert e. induction fuel as [|fuel IH]; intros e Hp Hf; unfold wp; cbn [exec_loop];
    destruct (Nat.eqb_spec (v_p (vs e)) len) as [E|E]; try done; [lia|].
  pose proof (exec_byte_leaves e ltac:(lia)) as [H1 H2]. 
  destruct (exec_byte _ _ _ _ e) as [e' [[]|]]; cbn in *; try done; try lia.
  apply IH; cbn; lia.
Qed.
End Total.

Section Answer.
Context {U : Type}.
Variable settings : http_parser_settings U.

(** C15: the parser answers every call.  From every state of the parser, with every
    application and on every input, [http_parser_execute] comes to its end (the model's
    fuel, the length of the input for each loop and three executions of one byte again, is
    never used up), or fails an [assert]; and it never returns more bytes than it was given,
    but for the 1 it returns when the connection ends in the middle of a message. *)
Theorem execute_answers (data : bytes) (addr max_header_size : Z) (r : http_parser) (u : U) :
  match (http_parser_execute settings data addr max_header_size r u).2 with
  | Parsed n => (n ≤ length data)%nat ∨ data = [] ∧ n = 1%nat
  | ParseAborted => True
  | ParseNoFuel => False
  end.
Proof.
  unfold http_parser_execute. case_decide; [cbn; lia|].
  set (e := MkExec r (initial_vars r) u).
  destruct (Nat.eqb_spec (len data) 0) as [E|E].
  - assert (H1 : wp (execute_eof settings)
      (λ e' l, match (result_of (e', l)).2 with
               | Parsed n => (n ≤ 1)%nat | ParseAborted => True | ParseNoFuel => False end) e).
    { unfold execute_eof, CALLBACK_NOTIFY_NOADVANCE, e. runs; fields; cbn; try done; lia. }
    unfold wp in H1. rewrite <- surjective_pairing in H1.
    destruct (result_of _) as [? [n| |]]; cbn in *; [|done..].
    destruct data; [|done]. destruct n as [|[]]; auto; lia.
  - assert (H1 : wp (execute_bytes settings data addr max_header_size)
      (λ e' l, match (result_of (e', l)).2 with
               | Parsed n => (n ≤ len data)%nat | ParseAborted => True
               | ParseNoFuel => False end) e).
    { pose proof (exec_loop_ends settings data addr max_header_size (len data) e) as H1.
      unfold wp, execute_bytes in *. specialize (H1 ltac:(cbn; lia) ltac:(cbn; lia)).
      destruct (exec_loop _ _ _ _ _ e) as [[r' v' u'] [[]|]]; cbn in H1; try done.
      - change (wp execute_error (λ e' l, match (result_of (e', l)).2 with
               | Parsed n => (n ≤ len data)%nat | ParseAborted => True
               | ParseNoFuel => False end) (MkExec r' v' u')).
        unfold execute_error. runs; fields; cbn; lia.
      - change (wp (execute_end settings data) (λ e' l, match (result_of (e', l)).2 with
               | Parsed n => (n ≤ len data)%nat | ParseAborted => True
               | ParseNoFuel => False end) (MkExec r' v' u')).
        unfold execute_end. runs; fields; cbn in *; try done; lia. }
    unfold wp in H1. rewrite <- surjective_pairing in H1.
    destruct (result_of _) as [? [n| |]]; cbn in *; auto.
Qed.
End Answer.
