(* ===== verification/HttpSafe.v ===== *)
(** * The HTTP parser's assertions

    The invariant behind the [assert]s of [http_parser_execute], and the proof that none
    of them fails on an input without NUL bytes, whatever way it is cut into pieces. *)

From Stdlib Require Import ZArith Lia Ascii String.
From stdpp Require Import base tactics option strings list.
From S2P Require Import Prelude.
From S2P Require Import CppStd.
From S2P Require Import QueryString.
From S2P Require Import Crow.
From S2P Require Import HttpParser.
From S2P Require Import HttpExecute.
From S2P Require Import HttpTotal.

Local Open Scope Z_scope.

(** ** The invariant *)

(** What [header_state] can be inside a header's name, and inside its value. *)
Definition in_name (h : header_states) : bool :=
  match h with
  | h_general | h_C | h_CO | h_CON | h_matching_connection | h_matching_proxy_connection
  | h_matching_content_length | h_matching_transfer_encoding | h_matching_upgrade
  | h_connection | h_content_length | h_transfer_encoding | h_upgrade => true
  | _ => false
  end.
Definition in_header_value (h : header_states) : bool :=
  match h with h_connection | h_transfer_encoding => false | _ => true end.

(** Inside a URL; inside a body. *)
Definition in_url (s : state) : bool :=
  match s with
  | s_req_path | s_req_schema | s_req_schema_slash | s_req_schema_slash_slash
  | s_req_server_start | s_req_server | s_req_server_with_at
  | s_req_query_string_start | s_req_query_string => true
  | _ => false
  end.
Definition in_body (s : state) : bool :=
  match s with
  | s_body_identity | s_body_identity_eof | s_chunk_data | s_chunk_data_almost_done => true
  | _ => false
  end.

(** What holds of the parser in each state. *)
Definition state_ok (r : http_parser) : Prop :=
  match p_state r with
  | s_header_field => in_name (header_state r) = true
  | s_header_value | s_header_almost_done | s_header_value_lws | s_header_value_start =>
      in_header_value (header_state r) = true
  | s_chunk_size_start | s_chunk_data_done => has_flag (flags r) F_CHUNKED = true
  | s_chunk_size | s_chunk_parameters | s_chunk_size_almost_done =>
      has_flag (flags r) F_CHUNKED = true ∧ content_length r < ULLONG_MAX
  | s_chunk_data =>
      has_flag (flags r) F_CHUNKED = true ∧ 0 < content_length r < ULLONG_MAX
  | s_chunk_data_almost_done =>
      has_flag (flags r) F_CHUNKED = true ∧ content_length r = 0
  | s_body_identity => 0 < content_length r < ULLONG_MAX
  | _ => True
  end.

(** Between two calls. *)
Definition parser_ok (r : http_parser) : Prop :=
  p_errno r = CHPE_OK →
  content_length r < 2 ^ 64 ∧ state_ok r ∧ (p_state r = s_chunk_size_start → p_nread r = 0).

(** What [HTTPParser::clear] does to the parser. *)
Definition restart (r : http_parser) : http_parser :=
  set_version 0 0 (set_qs_point 0 (set_state s_start_req r)).

(** An application that leaves the parser alone, or restarts it at the start or the end of
    a message. *)
Definition restarts {U} (settings : http_parser_settings U) : Prop :=
  ∀ ev r u, (on_notify settings ev r u).1.2 = r ∨ (on_notify settings ev r u).1.2 = restart r.

Section Safe.
Context {U : Type}.
Variable settings : http_parser_settings U.
Hypothesis Hcb : restarts settings.
Variable data : bytes.
Hypothesis Hnul : nul ∉ data.
Variable addr max_header_size : Z.

Abbreviation len := (len data).

(** A mark is set in the states that read what it marks. *)
Definition may_mark (s : state) (ev : data_event) : bool :=
  match ev with
  | ev_header_field => match s with s_header_field => true | _ => false end
  | ev_header_value => match s with s_header_value => true | _ => false end
  | ev_url => in_url s
  | ev_body => in_body s
  end.
Definition marks_ok (s : state) (m : data_event → option nat) : Prop :=
  ∀ ev, m ev ≠ None → may_mark s ev = true.

(** At the head of the loop ([k] is 0) and at the switch ([k] is 1). *)
Record inv (k : Z) (r : http_parser) (v : vars) : Prop := MkInv {
  inv_errno : p_errno r = CHPE_OK;
  inv_length : content_length r < 2 ^ 64;
  inv_state : state_ok r;
  inv_marks : marks_ok (p_state r) (v_mark v);
  inv_nread : p_state r = s_chunk_size_start → v_nread v = k
}.

(** What a statement of a case leaves behind. *)
Definition keeps (e : exec U) (l : option leave) : Prop :=
  match l with
  | Some Break => inv 0 (ps e) (vs e)
  | Some Reexecute => inv 1 (ps e) (vs e) ∧ v_ch (vs e) ≠ nul
  | Some (Return _) => parser_ok (ps e)
  | Some GotoError => True
  | _ => False
  end.
Lemma u64_lt x : Z.of_N (Z.to_N (x mod 2 ^ 64)) < 2 ^ 64.
Proof. pose proof (Z.mod_pos_bound x (2 ^ 64)). lia. Qed.

Ltac marks :=
  match goal with
  | Hm : marks_ok _ _ |- marks_ok _ _ =>
      let ev := fresh in
      intros ev; specialize (Hm ev); destruct ev; cbn in *; first [done|assumption|auto; fail]
  end.

Ltac keep :=
  unfold keeps, parser_ok; fields; try done; intros;
  try (split; [|done]);
  try (constructor; fields; unfold state_ok in *; fields; cbn [in_header_value in_name];
       try done; try assumption; try apply u64_lt; try marks; try lia;
       try (repeat case_match; done);
       try (repeat case_match; marks);
       try (match goal with Hst : p_state _ = _ |- _ => rewrite Hst in *; first [done|marks] end)).

(** Enter a case: [Hst] is the state. *)
Ltac enter :=
  match goal with e : exec U |- _ => destruct e as [r v u] end; cbn [ps vs us];
  let Hst := fresh "Hst" in
  match goal with |- _ = _ → inv _ _ _ → _ => intros Hst [Ho Hl Hs Hm Hn] end; cbn [ps vs us] in *.

(** The state is known. *)
Ltac in_state :=
  repeat match goal with
  | Hst : p_state _ = _, H : state_ok _ |- _ => unfold state_ok in H; rewrite Hst in H
  | Hst : p_state _ = ?s, H : marks_ok (p_state _) _ |- _ => rewrite Hst in H
  | Hst : p_state _ = ?s, H : p_state _ = s_chunk_size_start → _ |- _ => rewrite Hst in H
  end.

Lemma LOWER_space ch : eqc (LOWER ch) " " || eqc (LOWER ch) tab = true → ch = nul ∨ ch = " "%char.
Proof. destruct ch as [[] [] [] [] [] [] [] []]; vm_compute; auto; discriminate. Qed.

Lemma exec_header_value_start_keeps s ch (e : exec U) :
  p_state (ps e) = s → inv 1 (ps e) (vs e) → ch ≠ nul →
  s = s_header_value_start ∨ s = s_header_value_discard_ws ∧ eqc ch " " || eqc ch tab = false →
  wp (exec_header_value_start ch) keeps e.
Proof.
  enter. intros Hch Hst2. unfold exec_header_value_start.
  destruct Hst2 as [->|[-> Hsp]]; in_state.
  all: runs; fields; keep.
  all: try (match goal with E : header_state _ = _ |- _ => by rewrite E in * end).
  all: try (destruct (LOWER_space ch) as [->| ->]; [assumption|done|done]).
Qed.
Lemma no_marks s m ev :
  marks_ok s m → (∀ ev, may_mark s ev = false) → m ev = None.
Proof.
  intros Hm Hs. specialize (Hm ev). specialize (Hs ev). destruct (m ev); [|done].
  rewrite Hm in Hs; done.
Qed.

(** A callback at the start or the end of a message. *)
Lemma notify_keeps k ev s2 r v u :
  inv k r v → p_state r ≠ s_chunk_size_start → (∀ ev, may_mark (p_state r) ev = false) →
  (∀ r' u', inv 0 r' v → r' = r ∨ r' = restart r → wp s2 keeps (MkExec r' v u')) →
  wp (CALLBACK_NOTIFY settings ev) (then_ s2 keeps) (MkExec r v u).
Proof.
  intros [Ho Hl Hs Hm Hn] Hst Hv Hs2. unfold CALLBACK_NOTIFY. wp1. apply wp_NOTIFY_; cbn; [done| |by intros ? ? ? ?].
  intros rc r' u' _ E _. assert (Hr : r' = r ∨ r' = restart r).
  { pose proof (Hcb ev r u) as Hr. by rewrite E in Hr. }
  apply Hs2; [|done]. destruct Hr as [->| ->].
  - by constructor.
  - constructor; [done..| |done]. intros ev'. by rewrite (no_marks (p_state r)).
Qed.

Ltac notifies :=
  repeat lazymatch goal with
  | |- wp (CALLBACK_NOTIFY _ _) (then_ _ _) _ =>
      apply (notify_keeps 1); [| | |let r := fresh "r" in let u := fresh "u" in
        let Hi := fresh "Hi" in let Hr := fresh "Hr" in intros r u Hi Hr]
  | _ => run1
  end.

(** The URL automaton moves between the states of a URL, or dies. *)
Lemma parse_url_char_in_url s ch point r :
  in_url (parse_url_char s ch point r).1 = true ∨ (parse_url_char s ch point r).1 = s_dead.
Proof.
  unfold parse_url_char. destruct s; repeat case_match; cbn; auto.
Qed.
Lemma parse_url_char_frame s ch point r :
  (parse_url_char s ch point r).2 = r ∨ (parse_url_char s ch point r).2 = set_qs_point point r.
Proof. unfold parse_url_char. destruct s; repeat case_match; cbn; auto. Qed.

Lemma in_url_ok r v :
  p_errno r = CHPE_OK → content_length r < 2 ^ 64 → in_url (p_state r) = true →
  (∀ ev, v_mark v ev ≠ None → ev = ev_url) → inv 0 r v.
Proof.
  intros Ho Hl Hs Hv.
  constructor; [done|done| | |].
  - unfold state_ok. by destruct (p_state r).
  - intros ev Hev. by rewrite (Hv ev Hev).
  - by intros E; rewrite E in Hs.
Qed.

Lemma step_url_keeps ch (e : exec U) :
  p_errno (ps e) = CHPE_OK → content_length (ps e) < 2 ^ 64 →
  (∀ ev, v_mark (vs e) ev ≠ None → ev = ev_url) →
  wp (seq (step_url addr ch) break) keeps e.
Proof.
  destruct e as [r v u]; cbn [ps vs us]. intros Ho Hl Hv. unfold step_url.
  do 5 wp1; wp1; cbv zeta; wp1; [by runs|].
  set (point := match v_url_start_mark v with Some _ => _ | None => _ end) in *.
  pose proof (parse_url_char_in_url (p_state r) ch point r) as Hs.
  pose proof (parse_url_char_frame (p_state r) ch point r) as Hr.
  destruct (parse_url_char (p_state r) ch point r) as [s r']; cbn in *.
  runs. apply in_url_ok; cbn.
  - by destruct Hr as [->| ->].
  - by destruct Hr as [->| ->].
  - by destruct Hs.
  - done.
Qed.

Lemma exec_url_keeps s ch (e : exec U) :
  p_state (ps e) = s → inv 1 (ps e) (vs e) →
  s = s_req_spaces_before_url ∨ in_url s = true →
  wp (exec_state settings data addr max_header_size s ch) keeps e.
Proof.
  enter. intros Hurl.
  assert (Hev : ∀ ev, v_mark v ev ≠ None → ev = ev_url).
  { intros ev Hev. specialize (Hm ev Hev). rewrite Hst in Hm.
    destruct Hurl as [->|]; [|destruct s]; by destruct ev. }
  destruct s; destruct Hurl; try done; in_state; cbn [exec_state];
    unfold exec_req_spaces_before_url, exec_req_schema, exec_req_url.
  all: repeat lazymatch goal with
       | |- wp (seq (step_url _ _) break) _ _ => apply step_url_keeps
       | _ => run1
       end; fields; keep.
  all: case_decide; [done|by apply Hev].
Qed.

Lemma unhex_bounds ch : -1 ≤ unhex ch ≤ 15.
Proof.
  unfold unhex.
  repeat match goal with |- context [if ?b then _ else _] => destruct b eqn:? end; lia.
Qed.

(** A chunk's size stays below the overflow test. *)
Lemma chunk_size_lt r x :
  content_length r < 2 ^ 64 → -1 ≤ x ≤ 15 → (x =? -1) = false →
  ((ULLONG_MAX - 16) / 16 <? content_length r) = false →
  content_length (set_content_length ((content_length r * 16 mod 2 ^ 64 + x) mod 2 ^ 64) r)
    < ULLONG_MAX.
Proof.
  intros Hl Hx Hx1 Ho. apply Z.ltb_ge in Ho. apply Z.eqb_neq in Hx1.
  assert (0 ≤ content_length r) by (unfold content_length; lia).
  change ((ULLONG_MAX - 16) / 16) with 1152921504606846974 in Ho. unfold ULLONG_MAX.
  unfold content_length at 1. cbn [content_length_u64 set_content_length].
  rewrite (Z.mod_small (content_length r * 16)) by lia.
  rewrite (Z.mod_small (content_length r * 16 + x)) by lia.
  rewrite (Z.mod_small (content_length r * 16 + x)) by lia.
  rewrite Z2N.id; lia.
Qed.

Ltac bools := repeat match goal with
  | H : _ && _ = true |- _ => apply andb_true_iff in H as [? ?]
  | H : _ && _ = false |- _ => apply andb_false_iff in H as [?|?]
  | H : negb _ = true |- _ => apply negb_true_iff in H
  | H : negb _ = false |- _ => apply negb_false_iff in H
  | H : (_ =? _) = true |- _ => apply Z.eqb_eq in H
  | H : (_ =? _) = false |- _ => apply Z.eqb_neq in H
  end.

Lemma content_length_set x r : content_length (set_content_length x r) = x mod 2 ^ 64.
Proof.
  unfold content_length. cbn. rewrite Z2N.id; [done|].
  pose proof (Z.mod_pos_bound x (2 ^ 64)). lia.
Qed.

Lemma exec_chunk_keeps s (e : exec U) :
  p_state (ps e) = s → inv 1 (ps e) (vs e) →
  s ∈ [s_chunk_size_start; s_chunk_size; s_chunk_parameters; s_chunk_size_almost_done;
       s_chunk_data_almost_done; s_chunk_data_done] →
  wp (exec_state settings data addr max_header_size s (v_ch (vs e))) keeps e.
Proof.
  enter. intros Hin. pose proof (unhex_bounds (v_ch v)) as Hu.
  repeat (apply elem_of_cons in Hin as [->|Hin]); [..|by apply elem_of_nil in Hin];
    in_state; cbn [exec_state].
  all: unfold exec_chunk_size_start, exec_chunk_size, exec_chunk_parameters,
    exec_chunk_size_almost_done, exec_chunk_data_almost_done, exec_chunk_data_done.
  all: runs; fields; keep.
  all: destruct_and?; bools; try (try specialize (Hn eq_refl); congruence).
  - split; [done|]. change (content_length (set_content_length (unhex (v_ch v)) r) < ULLONG_MAX).
    rewrite content_length_set, Z.mod_small; unfold ULLONG_MAX; lia.
  - rewrite Hst. split; [done|]. apply chunk_size_lt; [done|lia|by apply Z.eqb_neq|done].
  - split; [done|].
    change (0 < content_length r < ULLONG_MAX). match goal with H : _ ≠ 0 |- _ => change (content_length r ≠ 0) in H end.
    unfold content_length in *; lia.
Qed.

Lemma exec_simple_keeps s (e : exec U) :
  p_state (ps e) = s → inv 1 (ps e) (vs e) → v_ch (vs e) ≠ nul →
  match s with
  | s_header_field | s_header_value | s_header_value_discard_ws | s_header_value_start
  | s_headers_done | s_message_done | s_headers_almost_done | s_start_req
  | s_body_identity | s_chunk_data | s_req_spaces_before_url
  | s_chunk_size_start | s_chunk_size | s_chunk_parameters | s_chunk_size_almost_done
  | s_chunk_data_almost_done | s_chunk_data_done => True
  | _ => if in_url s then True
         else wp (exec_state settings data addr max_header_size s (v_ch (vs e))) keeps e
  end.
Proof.
  enter. intros Hch. destruct s; in_state; try exact I; cbn [exec_state in_url].
  all: unfold exec_dead, exec_req_method, exec_req_http_start,
    exec_req_http_H, exec_req_http_HT, exec_req_http_HTT, exec_req_http_HTTP,
    exec_req_http_I, exec_req_http_IC, exec_req_http_major, exec_req_http_dot,
    exec_req_http_minor, exec_req_http_end, exec_req_line_almost_done,
    exec_header_field_start, exec_header_almost_done,
    exec_header_value_lws, exec_header_value_discard_ws_almost_done,
    exec_header_value_discard_lws, exec_body_identity_eof.
  all: runs; fields; keep.
Qed.
Lemma exec_start_req_keeps (e : exec U) :
  p_state (ps e) = s_start_req → inv 1 (ps e) (vs e) →
  wp (exec_start_req settings (v_ch (vs e))) keeps e.
Proof.
  enter. in_state. unfold exec_start_req. notifies; fields; keep. by destruct ev.
Qed.

Lemma exec_headers_almost_done_keeps (e : exec U) :
  p_state (ps e) = s_headers_almost_done → inv 1 (ps e) (vs e) → v_ch (vs e) ≠ nul →
  wp (exec_headers_almost_done settings (v_ch (vs e))) keeps e.
Proof.
  enter. intros Hch. unfold exec_headers_almost_done, check_lengths.
  notifies; try by constructor.
  all: cbn [ps vs us].
  all: try (rewrite Hst; by intros []). all: try by rewrite Hst.
  all: in_state.
  all: try (match goal with H : _ ∨ (∃ _, _) |- _ => destruct H as [->|[[] ->]] end;
            unfold skip_body_of).
  all: fields; keep.
Qed.

Lemma exec_headers_done_keeps (e : exec U) :
  p_state (ps e) = s_headers_done → inv 1 (ps e) (vs e) →
  wp (exec_headers_done settings (v_ch (vs e))) keeps e.
Proof.
  enter. unfold exec_headers_done.
  notifies; fields; rewrite ?Hst; try done; try (by intros []);
    try (by constructor; fields; rewrite ?Hst in *).
  all: in_state; keep.
  - apply Hi.
  - split; [apply Hi|done].
  - change (0 < content_length r < ULLONG_MAX).
    repeat match goal with
    | H : negb (content_length (set_nread 0 r) =? _) = _ |- _ =>
        change (negb (content_length r =? ULLONG_MAX) = true) in H
    | H : (content_length (set_nread 0 r) =? 0) = _ |- _ =>
        change ((content_length r =? 0) = false) in H
    end.
    bools. unfold content_length, ULLONG_MAX in *. lia.
Qed.

Lemma exec_message_done_keeps (e : exec U) :
  p_state (ps e) = s_message_done → inv 1 (ps e) (vs e) →
  wp (exec_message_done settings) keeps e.
Proof.
  enter. unfold exec_message_done. notifies; cbn [ps vs us]; try done; try by constructor.
  all: rewrite Hst; first [done|by intros []].
Qed.

(** [take_body] leaves less than there was. *)
Lemma take_body_length r v :
  0 < content_length r < ULLONG_MAX →
  0 ≤ (content_length r - to_read data r v) mod 2 ^ 64 < ULLONG_MAX.
Proof. intros Hl. unfold to_read, ULLONG_MAX in *. rewrite Z.mod_small; lia. Qed.

Lemma exec_body_keeps s (e : exec U) :
  p_state (ps e) = s → inv 1 (ps e) (vs e) → v_ch (vs e) ≠ nul →
  s = s_body_identity ∨ s = s_chunk_data →
  wp (exec_state settings data addr max_header_size s (v_ch (vs e))) keeps e.
Proof.
  enter. intros Hch Hs2. assert (Hcl : 0 < content_length r < ULLONG_MAX).
  { destruct Hs2 as [->| ->]; in_state; tauto. }
  pose proof (take_body_length r v Hcl) as Hb.
  destruct Hs2 as [->| ->]; in_state; cbn [exec_state];
    unfold exec_body_identity, exec_chunk_data, take_body; runs; keep.
  all: rewrite ?Hst;
    repeat match goal with
    | |- context [content_length (set_state ?st ?r')] =>
        change (content_length (set_state st r')) with (content_length r')
    end; rewrite ?content_length_set in *; bools; destruct_and?.
  all: try congruence; try (repeat split; congruence || lia).
  all: lia.
Qed.

Lemma at_not_nul p : (p < len)%nat → at_ data p ≠ nul.
Proof.
  intros Hp E. apply Hnul. rewrite <- E. unfold at_. apply list_elem_of_In, nth_In. exact Hp.
Qed.

Lemma match_literal_in literal i c (P : header_states → bool) general stay matched :
  P general = true → P stay = true → P matched = true →
  P (match_literal literal i c general stay matched) = true.
Proof. intros. unfold match_literal. by repeat case_match. Qed.

(** Inside a header's name. *)
Definition name_inv (e : exec U) : Prop :=
  p_errno (ps e) = CHPE_OK ∧ content_length (ps e) < 2 ^ 64 ∧
  p_state (ps e) = s_header_field ∧ in_name (header_state (ps e)) = true ∧
  marks_ok s_header_field (v_mark (vs e)).

Lemma header_field_char_keeps ch c (e : exec U) :
  name_inv e →
  wp (header_field_char data max_header_size ch c) (λ e' l, l = None ∧ name_inv e') e.
Proof.
  destruct e as [r v u]. unfold name_inv; cbn [ps vs us]. intros (Ho & Hl & Hst & Hs & Hm).
  unfold header_field_char, match_header. runs;
    try discriminate Hs;
    (split; [done|]); cbn; 
    try match goal with E : header_state ?r = _ |- context [header_state ?r] => rewrite E end;
    repeat split; try done; try (repeat case_match; done);
    try (by apply match_literal_in).
Qed.

Lemma header_field_loop_keeps fuel (e : exec U) :
  name_inv e → (v_p (vs e) ≤ len)%nat → (len - v_p (vs e) ≤ fuel)%nat →
  wp (header_field_loop data max_header_size fuel)
    (λ e' l, l = None ∧ name_inv e') e.
Proof.
  revert e. induction fuel as [|fuel IH]; intros [r v u] Hi Hp Hf; cbn in Hp, Hf;
    cbn [header_field_loop]; repeat wp1; try done; nats; [lia|].
  eapply wp_mono; [apply wp_and;
    [apply header_field_char_moves; cbn; lia|apply header_field_char_keeps; exact Hi]|].
  intros [r1 v1 u1] [l|]; cbn; [by intros [_ [? _]]|]. intros [[Hp1 _] [_ Hi1]].
  do 2 wp1. cbn. apply IH; [exact Hi1|cbn; lia..].
Qed.

Lemma exec_header_field_keeps (e : exec U) :
  (v_p (vs e) < len)%nat → p_state (ps e) = s_header_field → inv 1 (ps e) (vs e) →
  wp (exec_header_field settings data max_header_size) keeps e.
Proof.
  intros Hp. enter. in_state. unfold exec_header_field. do 2 wp1.
  eapply wp_mono; [apply (header_field_loop_keeps len (MkExec r v u));
    [by repeat split|cbn in *; lia..]|].
  intros [r1 v1 u1] l [-> (Ho1 & Hl1 & Hst1 & Hs1 & Hm1)]. cbn in *.
  runs; keep.
Qed.

(** Inside a header's value, and where its loop ends. *)
Definition value_inv (s : state) (e : exec U) : Prop :=
  p_errno (ps e) = CHPE_OK ∧ content_length (ps e) < 2 ^ 64 ∧ p_state (ps e) = s ∧
  in_header_value (v_h_state (vs e)) = true ∧ marks_ok s (v_mark (vs e)).
Definition value_or_error (e : exec U) (l : option leave) : Prop :=
  (l = None ∧ value_inv s_header_value e) ∨ l = Some GotoError.

Lemma skip_value_keeps n (e : exec U) :
  value_inv s_header_value e → wp (skip_value data n) value_or_error e.
Proof.
  revert e. induction n as [|n IH]; intros [r v u] Hi; cbn [skip_value].
  - by left.
  - runs; [by left|by right|]. by apply IH.
Qed.

Lemma header_value_char_keeps ch c (e : exec U) :
  value_inv s_header_value e →
  wp (header_value_char data max_header_size ch c) value_or_error e.
Proof.
  destruct e as [r v u]. intros Hi. pose proof Hi as (Ho & Hl & Hst & Hs & Hm). cbn in Ho, Hl, Hst, Hs, Hm.
  unfold header_value_char, value_content_length_num, match_value. runs; try discriminate Hs;
    try (by right); try (by left); try (left; split; [done|]; repeat split; cbn; try done;
      try apply u64_lt; try (by apply match_literal_in);
      try (match goal with E : v_h_state ?v = _ |- context [v_h_state ?v] => by rewrite E end);
      fail).
  eapply wp_mono; [by apply skip_value_keeps|]. intros [r1 v1 u1] l [[-> Hi1]| ->]; [|by right].
  unfold then_, step_back. runs. left. split; [done|]. by case_match.
Qed.

Lemma header_value_loop_keeps start fuel (e : exec U) :
  value_inv s_header_value e → (v_p (vs e) ≤ len)%nat → (len - v_p (vs e) ≤ fuel)%nat →
  wp (header_value_loop settings data max_header_size start fuel)
    (λ e' l, match l with
             | None => value_inv s_header_value e' ∨ value_inv s_header_almost_done e'
             | Some Break => False
             | l => keeps e' l
             end) e.
Proof.
  revert e. induction fuel as [|fuel IH]; intros [r v u] Hi Hp Hf;
    pose proof Hi as (Ho & Hl & Hst & Hs & Hm); cbn in *;
    cbn [header_value_loop]; do 2 wp1; intros; nats; [by wp1; left|lia|by wp1; left|].
  assert (Hch : at_ data (v_p v) ≠ nul) by (apply at_not_nul; lia).
  runs; nats; try done; try (by right; repeat split; cbn; try marks); try (by keep).
  eapply wp_mono; [apply wp_and; [apply header_value_char_moves|apply header_value_char_keeps]|];
    [cbn; lia|cbn; by rewrite H0, H1|done|].
  intros [r1 v1 u1] l [Hp1 [[-> Hi1]| ->]]; [|done]. cbn in Hp1. cbn.
  do 2 wp1. cbn. apply IH; [done|cbn; lia..].
Qed.

Lemma exec_header_value_keeps (e : exec U) :
  (v_p (vs e) < len)%nat → p_state (ps e) = s_header_value → inv 1 (ps e) (vs e) →
  wp (exec_header_value settings data max_header_size) keeps e.
Proof.
  intros Hp. enter. in_state. cbn in Hp. unfold exec_header_value. runs.
  eapply wp_mono; [apply header_value_loop_keeps; [|cbn; lia..]|].
  { repeat split; done. }
  intros [r1 v1 u1] [[]|]; try done.
  unfold then_, step_back.
  intros [(Ho1 & Hl1 & Hst1 & Hs1 & Hm1)|(Ho1 & Hl1 & Hst1 & Hs1 & Hm1)]; cbn in *.
  all: runs; keep; try (by case_match).
  all: rewrite Hst1; by case_match.
Qed.

(** ** Every case, every byte, every call *)

Lemma exec_discard_ws_keeps (e : exec U) :
  p_state (ps e) = s_header_value_discard_ws → inv 1 (ps e) (vs e) → v_ch (vs e) ≠ nul →
  wp (exec_header_value_discard_ws (v_ch (vs e))) keeps e.
Proof.
  intros Hst Hi Hch. unfold exec_header_value_discard_ws. destruct e as [r v u]. cbn in *.
  apply wp_if; [|intros Hsp].
  2: apply wp_if; [|intros _; apply wp_if]; try intros _.
  4: by eapply exec_header_value_start_keeps; eauto.
  all: intros; destruct Hi as [Ho Hl Hs Hm Hn]; in_state; runs; keep.
Qed.

Lemma exec_state_keeps (e : exec U) :
  (v_p (vs e) < len)%nat → inv 1 (ps e) (vs e) → v_ch (vs e) ≠ nul →
  wp (exec_state settings data addr max_header_size (p_state (ps e)) (v_ch (vs e))) keeps e.
Proof.
  intros Hp Hi Hch. pose proof (exec_simple_keeps _ e eq_refl Hi Hch) as H.
  destruct (p_state (ps e)) eqn:Hst; try exact H;
    try (by apply exec_url_keeps; auto); try (by apply exec_body_keeps; auto);
    try (apply exec_chunk_keeps; auto; rewrite !elem_of_cons; tauto).
  - by apply exec_start_req_keeps.
  - by apply exec_header_field_keeps.
  - by apply exec_discard_ws_keeps.
  - cbn [exec_state]. eapply exec_header_value_start_keeps; eauto.
  - by apply exec_header_value_keeps.
  - by apply exec_headers_almost_done_keeps.
  - by apply exec_headers_done_keeps.
  - by apply exec_message_done_keeps.
Qed.

Lemma exec_switch_keeps fuel (e : exec U) :
  (v_p (vs e) < len)%nat → inv 1 (ps e) (vs e) → v_ch (vs e) ≠ nul →
  wp (exec_switch settings data addr max_header_size fuel)
    (λ e' l, l = Some NoFuel ∨ keeps e' l) e.
Proof.
  revert e. induction fuel as [|fuel IH]; intros e Hp Hi Hch; unfold wp; cbn [exec_switch];
    pose proof (exec_state_keeps e Hp Hi Hch) as H;
    pose proof (exec_state_leaves settings data addr max_header_size (p_state (ps e))
                  (v_ch (vs e)) e Hp) as H1; unfold wp in H, H1;
    destruct (exec_state _ _ _ _ _ _ e) as [e' [[]|]]; cbn in H, H1 |- *; auto.
  destruct H as [Hi' Hch']. apply IH; [lia|done|done].
Qed.

Lemma exec_byte_keeps (e : exec U) :
  (v_p (vs e) < len)%nat → inv 0 (ps e) (vs e) →
  wp (exec_byte settings data addr max_header_size) (λ e' l, l = Some NoFuel ∨ keeps e' l) e.
Proof.
  destruct e as [r v u]. cbn. intros Hp [Ho Hl Hs Hm Hn].
  assert (Hch : at_ data (v_p v) ≠ nul) by by apply at_not_nul.
  unfold exec_byte. runs; try (by right).
  all: apply exec_switch_keeps; [done| |done]; constructor; fields; try done.
  - intros E. by rewrite (Hn E).
  - intros E. by rewrite E in *.
Qed.

Lemma exec_loop_keeps fuel (e : exec U) :
  (v_p (vs e) ≤ len)%nat → inv 0 (ps e) (vs e) →
  wp (exec_loop settings data addr max_header_size fuel)
    (λ e' l, match l with
             | None => inv 0 (ps e') (vs e')
             | Some AssertFailed => False
             | Some (Return _) => parser_ok (ps e')
             | _ => True
             end) e.
Proof.
  revert e. induction fuel as [|fuel IH]; intros e Hp Hi; unfold wp; cbn [exec_loop];
    destruct (Nat.eqb_spec (v_p (vs e)) len) as [E|E]; try done;
    pose proof (exec_byte_keeps e ltac:(lia) Hi) as H;
    pose proof (exec_byte_leaves settings data addr max_header_size e ltac:(lia)) as [_ H1];
    unfold wp in H; destruct (exec_byte _ _ _ _ e) as [e' [[]|]]; cbn in *;
    destruct H as [H|H]; try done.
  apply IH; cbn; [lia|]. destruct H as [Ho Hl Hs Hm Hn]. by constructor.
Qed.

Lemma marks_one s m :
  marks_ok s m →
  (length (List.filter (λ ev, bool_decide (is_Some (m ev)))
     [ev_header_field; ev_header_value; ev_url; ev_body]) ≤ 1)%nat.
Proof.
  intros Hm. pose proof (Hm ev_header_field) as H1. pose proof (Hm ev_header_value) as H2.
  pose proof (Hm ev_url) as H3. pose proof (Hm ev_body) as H4. cbn in *.
  destruct (m ev_header_field), (m ev_header_value), (m ev_url), (m ev_body); cbn; try lia.
  all: exfalso; repeat match goal with H : Some _ ≠ None → _ |- _ => specialize (H ltac:(done)) end.
  all: destruct s; done.
Qed.
Lemma execute_end_keeps (e : exec U) :
  inv 0 (ps e) (vs e) →
  wp (execute_end settings data)
    (λ e' l, ∃ n, l = Some (Return n) ∧ parser_ok (ps e')) e.
Proof.
  destruct e as [r v u]; cbn. intros [Ho Hl Hs Hm Hn]. pose proof (marks_one _ _ Hm) as H1.
  unfold execute_end. runs; cbn [ps vs us]; try (by exfalso; congruence).
  all: try (eexists; split; [done|]; intros E; fields; first [by exfalso|done]).
  unfold one_mark in *. apply Nat.leb_nle in H. lia.
Qed.

Lemma execute_eof_keeps (e : exec U) :
  inv 0 (ps e) (vs e) →
  wp (execute_eof settings) (λ e' l, ∃ n, l = Some (Return n) ∧ parser_ok (ps e')) e.
Proof.
  destruct e as [r v u]; cbn. intros [Ho Hl Hs Hm Hn].
  unfold execute_eof, CALLBACK_NOTIFY_NOADVANCE. runs; cbn [ps vs us]; try done.
  all: eexists; split; [done|]; intros E; fields; try done.
  all: try (pose proof (Hcb ev_message_complete r u) as Hr; rewrite H0 in Hr; cbn in Hr;
            destruct Hr as [->| ->]; unfold state_ok; fields; rewrite ?Heqs; done).
  all: try (unfold state_ok; rewrite Heqs; done).
Qed.

Lemma execute_keeps r u :
  parser_ok r →
  ∃ n, (http_parser_execute settings data addr max_header_size r u).2 = Parsed n ∧
       parser_ok (http_parser_execute settings data addr max_header_size r u).1.1.
Proof.
  intros Hok. unfold http_parser_execute. case_decide as Ho; [by exists 0%nat|].
  assert (Ho' : p_errno r = CHPE_OK) by (destruct (decide (p_errno r = CHPE_OK)); [done|by destruct Ho]).
  destruct (Hok Ho') as (Hl & Hs & Hn). set (e := MkExec r (initial_vars r) u).
  assert (Hi : inv 0 (ps e) (vs e)).
  { constructor; cbn; try done. intros ev. destruct (p_state r), ev; cbn; done. }
  destruct (Nat.eqb_spec len 0) as [E|E].
  - destruct (execute_eof_keeps e Hi) as (n & H1 & H2).
    destruct (execute_eof settings e) as [e' l]. cbn in *. subst l. by exists n.
  - pose proof (exec_loop_keeps len e ltac:(cbn; lia) Hi) as H1.
    pose proof (exec_loop_ends settings data addr max_header_size len e
                  ltac:(cbn; lia) ltac:(cbn; lia)) as H2.
    unfold wp, execute_bytes in *.
    destruct (exec_loop settings data addr max_header_size len e) as [e' [[]|]];
      cbn in H1, H2; try done.
    + destruct e' as [r' v' u']. unfold execute_error, return_p. cbn.
      unfold seq, with_parser, with_vars. cbn.
      destruct (decide (p_errno r' = CHPE_OK)) as [E'|E']; cbn; eexists; split; try done.
    + by exists n.
    + destruct (execute_end_keeps e' H1) as (n & H3 & H4).
      destruct (execute_end settings data e') as [e2 l]. cbn in *. subst l. by exists n.
Qed.
End Safe.

(** Pieces of a connection's input, fed one after the other. *)
Fixpoint feed_pieces {U} (settings : http_parser_settings U) (addr max_header_size : Z)
    (pieces : list bytes) (r : http_parser) (u : U) : http_parser * U * list parse_result :=
  match pieces with
  | [] => (r, u, [])
  | d :: ds =>
      let '(r1, u1, n) := http_parser_execute settings d addr max_header_size r u in
      let '(r2, u2, ns) := feed_pieces settings addr max_header_size ds r1 u1 in
      (r2, u2, n :: ns)
  end.

Definition parsed (res : parse_result) : bool :=
  match res with Parsed _ => true | _ => false end.

(** C16: no assertion of the parser fails on input without NUL bytes.  With an application
    that only restarts the parser, and from any state the parser can be left in, every call
    over any division of the input into pieces returns; so a client cannot make the process
    abort by what it sends, as long as it sends no NUL. *)
Theorem no_assertion_fails {U} (settings : http_parser_settings U) (addr max_header_size : Z)
    (pieces : list bytes) (r : http_parser) (u : U) :
  restarts settings → Forall (λ d, nul ∉ d) pieces → parser_ok r →
  Forall (λ res, parsed res = true) (feed_pieces settings addr max_header_size pieces r u).2.
Proof.
  intros Hcb Hnul. revert r u. induction Hnul as [|d ds Hd _ IH]; intros r u Hok; [constructor|].
  cbn. pose proof (execute_keeps settings Hcb d Hd addr max_header_size r u Hok) as (n & H1 & H2).
  destruct (http_parser_execute settings d addr max_header_size r u) as [[r1 u1] res].
  cbn in *. subst res. specialize (IH r1 u1 H2).
  destruct (feed_pieces settings addr max_header_size ds r1 u1) as [[r2 u2] ns].
  by constructor.
Qed.

(** An application that does nothing. *)
Definition idle_settings : http_parser_settings unit :=
  MkSettings (λ _ r u, (0, r, u)) (λ _ _ _ u, (0, u)) (λ _ u, (0, u)).

Definition crlf : bytes := [cr; lf].
Definition get_piece : bytes :=
  list_ascii_of_string "GET /api/1.0/wallet/events HTTP/1.1" ++ crlf ++
  list_ascii_of_string "Host: h" ++ crlf ++ list_ascii_of_string "Connection:".

Lemma no_assertion_fails_witness :
  restarts idle_settings ∧
  Forall (λ res, parsed res = true)
    (feed_pieces idle_settings 0 HTTP_MAX_HEADER_SIZE [get_piece; crlf ++ crlf]
       http_parser_init tt).2.
Proof.
  split; [by intros ev r u; left|].
  apply (no_assertion_fails idle_settings 0 HTTP_MAX_HEADER_SIZE [get_piece; crlf ++ crlf]).
  - by intros ev r u; left.
  - apply (bool_decide_unpack _). vm_compute. exact I.
  - intros _. repeat split; vm_compute; done.
Defined.
