(* ===== verification/Trie.v ===== *)
(** * The router's search tree

    lib/crowapi/crow_all.h, [ParamType], [routing_params] and the class [Trie]: adding the
    URL of a rule, joining the nodes of a chain, and finding the rule of a URL.

    A node's children are a list; [find] threads the parameters and the blueprint indices
    it is given by pointer. *)

From Stdlib Require Import ZArith Lia Ascii String.
From stdpp Require Import base tactics option strings list.
From S2P Require Import Prelude.
From S2P Require Import CppStd.
From S2P Require Import QueryString.

Local Open Scope Z_scope.

(** ** Parameters of a rule *)

Inductive ParamType : Type := INT | UINT | DOUBLE | STRING | PATH | MAX.

#[global] Instance ParamType_eq_dec : EqDecision ParamType.
Proof. solve_decision. Defined.

(** Floating-point numbers and [strtod], which the standard library provides: the value
    and the number of characters read, or none ([ERANGE], or nothing read).  No rule of the
    wallet has such a parameter. *)
Class Doubles : Type := { double : Type; strtod : bytes → option (double * nat) }.

Section Trie.
Context `{Doubles}.

Record routing_params : Type := MkParams {
  int_params : list Z;
  uint_params : list Z;
  double_params : list double;
  string_params : list bytes
}.

Definition no_params : routing_params := MkParams [] [] [] [].

Inductive param_value : Type :=
| IntValue (z : Z)
| UintValue (z : Z)
| DoubleValue (d : double)
| StringValue (s : bytes).

(** [push_back] on the vector of the value's type, and the [pop_back] after it. *)
Definition push_param (v : param_value) (p : routing_params) : routing_params :=
  match v with
  | IntValue z => MkParams (int_params p ++ [z]) (uint_params p) (double_params p) (string_params p)
  | UintValue z => MkParams (int_params p) (uint_params p ++ [z]) (double_params p) (string_params p)
  | DoubleValue d => MkParams (int_params p) (uint_params p) (double_params p ++ [d]) (string_params p)
  | StringValue s => MkParams (int_params p) (uint_params p) (double_params p) (string_params p ++ [s])
  end.
Definition pop_param (v : param_value) (p : routing_params) : routing_params :=
  match v with
  | IntValue _ => MkParams (removelast (int_params p)) (uint_params p) (double_params p) (string_params p)
  | UintValue _ => MkParams (int_params p) (removelast (uint_params p)) (double_params p) (string_params p)
  | DoubleValue _ => MkParams (int_params p) (uint_params p) (removelast (double_params p)) (string_params p)
  | StringValue _ => MkParams (int_params p) (uint_params p) (double_params p) (removelast (string_params p))
  end.

(** ** strtoll and strtoull in base 10 *)

Fixpoint digits_of (s : bytes) : bytes :=
  match s with
  | c :: r => match digit_value c with Some _ => c :: digits_of r | None => [] end
  | [] => []
  end.

Definition digits_value (ds : bytes) : Z :=
  fold_left (λ acc c, 10 * acc + default 0 (digit_value c)) ds 0.

(** The sign's length, whether it is a minus, and the digits. *)
Definition number_at (s : bytes) : nat * bool * bytes :=
  match s with
  | c :: r =>
      if Ascii.eqb c "-" then (1%nat, true, digits_of r)
      else if Ascii.eqb c "+" then (1%nat, false, digits_of r)
      else (0%nat, false, digits_of s)
  | [] => (0%nat, false, [])
  end.

(** The value and the number of characters read; none on [ERANGE] or without a digit. *)
Definition strto (lo hi : Z) (s : bytes) : option (Z * nat) :=
  let '(k, minus, ds) := number_at s in
  let z := if minus then - digits_value ds else digits_value ds in
  match ds with
  | [] => None
  | _ => if (lo <=? z) && (z <=? hi) then Some (z, (k + length ds)%nat) else None
  end.
Definition strtoll : bytes → option (Z * nat) := strto (- 2 ^ 63) (2 ^ 63 - 1).
Definition strtoull : bytes → option (Z * nat) := strto 0 (2 ^ 64 - 1).

(** ** Nodes *)

Definition INVALID_BP_ID : Z := 2 ^ 16 - 1.

Inductive Node : Type :=
| MkNode (rule_index blueprint_index : Z) (key : bytes) (param : ParamType)
    (children : list Node).

Definition rule_index (n : Node) : Z := let '(MkNode r _ _ _ _) := n in r.
Definition blueprint_index (n : Node) : Z := let '(MkNode _ b _ _ _) := n in b.
Definition key (n : Node) : bytes := let '(MkNode _ _ k _ _) := n in k.
Definition node_param (n : Node) : ParamType := let '(MkNode _ _ _ p _) := n in p.
Definition children (n : Node) : list Node := let '(MkNode _ _ _ _ cs) := n in cs.

(** [Node()], and the head of an empty tree. *)
Definition new_node : Node := MkNode 0 INVALID_BP_ID [] MAX [].

Definition set_rule_index (r : Z) (n : Node) : Node :=
  MkNode r (blueprint_index n) (key n) (node_param n) (children n).
Definition set_children (cs : list Node) (n : Node) : Node :=
  MkNode (rule_index n) (blueprint_index n) (key n) (node_param n) cs.
Definition prefix_key (k : bytes) (n : Node) : Node :=
  MkNode (rule_index n) (blueprint_index n) (k ++ key n) (node_param n) (children n).

Definition is_param (n : Node) : bool := negb (bool_decide (node_param n = MAX)).

Definition IsSimpleNode (n : Node) : bool :=
  (rule_index n =? 0) && (blueprint_index n =? INVALID_BP_ID) &&
  (length (children n) <? 2)%nat && negb (is_param n) &&
  forallb (λ x, negb (is_param x)) (children n).

Definition is_empty (head : Node) : bool :=
  match children head with [] => true | _ => false end.

(** ** optimize *)

(** [optimizeNode] of a node whose key is to be preceded by [k]: a simple node takes its
    child's place, its key before the child's, and is treated again. *)
Fixpoint optimizeNode (k : bytes) (n : Node) {struct n} : Node :=
  match n with
  | MkNode r b key param [] => MkNode r b (k ++ key) param []
  | MkNode r b key param (c :: cs) =>
      if IsSimpleNode n then optimizeNode (k ++ key) c
      else MkNode r b (k ++ key) param (map (optimizeNode []) (c :: cs))
  end.

Definition optimize (head : Node) : Node :=
  set_children (map (optimizeNode []) (children head)) head.

Definition trie_validate (head : Node) : exn + Node :=
  if IsSimpleNode head then inr (optimize head)
  else inl (runtime_error "Internal error: Trie header should be simple!").

(** ** add *)

Definition paramTraits : list (ParamType * string) :=
  [(INT, "<int>"); (UINT, "<uint>"); (DOUBLE, "<float>"); (DOUBLE, "<double>");
   (STRING, "<str>"); (STRING, "<string>"); (PATH, "<path>")]%string.

(** [url.compare(i, s.size(), s) == 0] *)
Definition compare_at (url : bytes) (i : nat) (s : bytes) : bool :=
  bool_decide (take (length s) (drop i url) = s).

Definition trait_at (url : bytes) (i : nat) : option (ParamType * nat) :=
  match List.find (λ x, compare_at url i (list_ascii_of_string x.2)) paramTraits with
  | Some x => Some (x.1, String.length x.2)
  | None => None
  end.

(** [key[0]] *)
Definition key_head (n : Node) : ascii := default nul (head (key n)).

(** The position of the first child that satisfies a condition. *)
Fixpoint child_index (f : Node → bool) (cs : list Node) : option nat :=
  match cs with
  | [] => None
  | c :: cs => if f c then Some 0%nat else S <$> child_index f cs
  end.

(** [add] below the node [idx] from the position [i] on.  A ['<'] that starts no parameter
    leaves [i] where it is: the loop does not end. *)
Fixpoint add_below (fuel : nat) (url : bytes) (i : nat) (rule bp_prefix_length blueprint : Z)
    (idx : Node) : outcome Node :=
  match fuel with
  | O => OutOfFuel
  | S fuel =>
      (** Go down to the first child with [f], or to a new one. *)
      let descend (f : Node → bool) (fresh : Node) (i' : nat) : outcome Node :=
        match child_index f (children idx) with
        | Some j =>
            outcome_map (λ c, set_children (<[j := c]> (children idx)) idx)
              (add_below fuel url i' rule bp_prefix_length blueprint
                 (default new_node (children idx !! j)))
        | None =>
            outcome_map (λ c, set_children (children idx ++ [c]) idx)
              (add_below fuel url i' rule bp_prefix_length blueprint fresh)
        end in
      match url !! i with
      | None =>
          if rule_index idx =? 0 then Val (set_rule_index rule idx)
          else Throw (runtime_error ("handler already exists for " +:+ string_of_list_ascii url))
      | Some c =>
          if Ascii.eqb c "<" then
            match trait_at url i with
            | Some (t, n) =>
                descend (λ x, bool_decide (node_param x = t)) (MkNode 0 INVALID_BP_ID [] t [])
                  (i + n)%nat
            | None => add_below fuel url i rule bp_prefix_length blueprint idx
            end
          else
            let has_blueprint :=
              negb (bp_prefix_length =? 0) && negb (blueprint =? INVALID_BP_ID) in
            descend (λ x, Ascii.eqb (key_head x) c)
              (MkNode 0
                 (if has_blueprint && (Z.of_nat i =? bp_prefix_length)
                  then blueprint else INVALID_BP_ID)
                 [c] MAX [])
              (S i)
      end
  end.

Definition add (url : bytes) (rule bp_prefix_length blueprint : Z) (head : Node) : outcome Node :=
  add_below (S (length url)) url 0 rule bp_prefix_length blueprint head.

(** ** find *)

(** What [find] is given by pointer. *)
Record find_state : Type := MkFind { f_params : routing_params; f_blueprints : list Z }.

Definition push_blueprint (child : Node) (st : find_state) : find_state :=
  if blueprint_index child =? INVALID_BP_ID then st
  else MkFind (f_params st) (f_blueprints st ++ [blueprint_index child]).
(** [if (!blueprints->empty()) blueprints->pop_back()] *)
Definition pop_blueprint (st : find_state) : find_state :=
  MkFind (f_params st) (removelast (f_blueprints st)).
Definition on_params (f : routing_params → routing_params) (st : find_state) : find_state :=
  MkFind (f (f_params st)) (f_blueprints st).

(** The rule, the blueprints, the parameters. *)
Abbreviation found_tuple := (Z * list Z * routing_params)%type.

(** [req_url[pos]] *)
Definition char_at (url : bytes) (pos : nat) : ascii := default nul (url !! pos).

Definition is_digit (c : ascii) : bool := (48 <=? char_code c) && (char_code c <=? 57).
Definition one_of (c : ascii) (cs : list ascii) : bool := bool_decide (c ∈ cs).

(** The characters before the next slash. *)
Fixpoint segment (s : bytes) : bytes :=
  match s with
  | c :: r => if Ascii.eqb c "/" then [] else c :: segment r
  | [] => []
  end.

(** What a child that is a parameter reads at [pos]: the value and where it ends.  [c_str]
    is the string that starts at [req_url.data() + pos]. *)
Definition match_param (t : ParamType) (url : bytes) (pos : nat) : option (param_value * nat) :=
  let c := char_at url pos in
  let rest := c_str (drop pos url) in
  match t with
  | INT =>
      if is_digit c || one_of c ["+"; "-"]%char then
        '(z, n) ← strtoll rest; Some (IntValue z, (pos + n)%nat)
      else None
  | UINT =>
      if is_digit c || one_of c ["+"]%char then
        '(z, n) ← strtoull rest; Some (UintValue z, (pos + n)%nat)
      else None
  | DOUBLE =>
      if is_digit c || one_of c ["+"; "-"; "."]%char then
        '(d, n) ← strtod rest; Some (DoubleValue d, (pos + n)%nat)
      else None
  | STRING =>
      match segment (drop pos url) with
      | [] => None
      | s => Some (StringValue s, (pos + length s)%nat)
      end
  | PATH =>
      match drop pos url with
      | [] => None
      | s => Some (StringValue s, (pos + length s)%nat)
      end
  | MAX => None
  end.

(** The locals of a call: [found], [found_BP], [match_params], [found_fragment]. *)
Record find_locals : Type := MkLocals {
  found : Z; found_BP : list Z; match_params : routing_params; found_fragment : bool
}.

(** [update_found], after [found_fragment = true]. *)
Definition update_found (l : find_locals) (ret : found_tuple) : find_locals :=
  let '(r, bps, ps) := ret in
  if negb (r =? 0) && ((found l =? 0) || (r <? found l))
  then MkLocals r bps ps true
  else MkLocals (found l) bps (match_params l) true.

(** One child: what it matches is read, the search goes on below it, the parameters and
    blueprints are popped. *)
Definition find_child (find : Node → nat → find_state → found_tuple * find_state)
    (url : bytes) (pos : nat) (child : Node) (acc : find_locals * find_state) :
    find_locals * find_state :=
  let '(l, st) := acc in
  if is_param child then
    match match_param (node_param child) url pos with
    | None => acc
    | Some (v, pos') =>
        let '(ret, st1) := find child pos' (push_blueprint child (on_params (push_param v) st)) in
        (update_found l ret, pop_blueprint (on_params (pop_param v) st1))
    end
  else if compare_at url pos (key child) then
    let '(ret, st1) := find child (pos + length (key child))%nat (push_blueprint child st) in
    (update_found l ret, pop_blueprint st1)
  else acc.

(** [find] from a node on.  Moving the vector of blueprints leaves it empty. *)
Fixpoint find_from (url : bytes) (node : Node) (pos : nat) (st : find_state) {struct node} :
    found_tuple * find_state :=
  match node with
  | MkNode rule _ _ _ cs =>
      if Nat.eqb pos (length url) then
        ((rule, [], f_params st), MkFind (f_params st) [])
      else
        let '(l, st1) :=
          fold_left (λ acc child, find_child (find_from url) url pos child acc) cs
            (MkLocals 0 [] no_params false, st) in
        if found_fragment l then ((found l, found_BP l, match_params l), st1)
        else ((found l, f_blueprints st1, match_params l), MkFind (f_params st1) [])
  end.

Definition find (head : Node) (req_url : bytes) : found_tuple :=
  (find_from req_url head 0 (MkFind no_params [])).1.

(** [get_size], in an [unsigned]. *)
Fixpoint get_size (n : Node) : Z :=
  match n with
  | MkNode _ _ key _ cs =>
      (5 + Z.of_nat (length key) + foldr Z.add 0 (map get_size cs)) mod 2 ^ 32
  end.
End Trie.
