(* ===== verification/TrieFacts.v ===== *)
(** * The search tree is a table of rules

    For rules that are a URL, or a URL and a [<path>] at its end (the rule crow adds for
    static files).  What [find] computes below a node is a function of the rest of the URL
    ([lk], the least rule that matches); [add] adds one rule's matches to it and fails only
    for a rule already stored; [optimize] does not change it. *)

From Stdlib Require Import ZArith Lia Ascii String.
From stdpp Require Import base tactics option strings list.
From S2P Require Import Prelude.
From S2P Require Import CppStd.
From S2P Require Import QueryString.
From S2P Require Import Trie.

Local Open Scope Z_scope.

(** Induction that reaches the children. *)
Lemma Node_ind_children (P : Node → Prop)
    (HN : ∀ r b k p cs, Forall P cs → P (MkNode r b k p cs)) : ∀ n, P n.
Proof.
  fix IH 1. intros [r b k p cs]. apply HN.
  induction cs as [|c cs IHcs]; constructor; [apply IH|exact IHcs].
Qed.

(** ** The least rule *)

(** [update_found] on the indices: the least of those that are a rule. *)
Definition combine (f r : Z) : Z :=
  if negb (r =? 0) && ((f =? 0) || (r <? f)) then r else f.

Lemma combine_0_l r : combine 0 r = r.
Proof. unfold combine. by destruct (Z.eqb_spec r 0) as [->|]. Qed.
Lemma combine_0_r f : combine f 0 = f.
Proof. done. Qed.
Lemma combine_min a b : a ≠ 0 → b ≠ 0 → combine a b = Z.min a b.
Proof.
  intros Ha Hb. unfold combine. apply Z.eqb_neq in Ha as ->. apply Z.eqb_neq in Hb as ->.
  cbn. destruct (Z.ltb_spec b a); lia.
Qed.
Lemma combine_comm a b : combine a b = combine b a.
Proof.
  destruct (decide (a = 0)) as [->|Ha]; [by rewrite combine_0_l, combine_0_r|].
  destruct (decide (b = 0)) as [->|Hb]; [by rewrite combine_0_l, combine_0_r|].
  rewrite !combine_min by done. lia.
Qed.
Lemma combine_assoc a b c : combine a (combine b c) = combine (combine a b) c.
Proof.
  destruct (decide (a = 0)) as [->|Ha]; [by rewrite !combine_0_l|].
  destruct (decide (b = 0)) as [->|Hb]; [by rewrite combine_0_l, combine_0_r|].
  destruct (decide (c = 0)) as [->|Hc]; [by rewrite !combine_0_r|].
  rewrite (combine_min b c), (combine_min a b) by done. rewrite !combine_min by lia. lia.
Qed.

(** The least rule of a list of nodes, under [f]. *)
Definition least (f : Node → Z) (cs : list Node) : Z :=
  foldr (λ c acc, combine (f c) acc) 0 cs.

Lemma least_cons f c cs : least f (c :: cs) = combine (f c) (least f cs).
Proof. done. Qed.
Lemma least_app f cs cs' : least f (cs ++ cs') = combine (least f cs) (least f cs').
Proof.
  induction cs as [|c cs IH]; cbn; [by rewrite combine_0_l|].
  unfold least in IH. by rewrite IH, combine_assoc.
Qed.
Lemma least_ext f g cs : Forall (λ c, f c = g c) cs → least f cs = least g cs.
Proof. induction 1 as [|c cs Hc _ IH]; [done|]. by rewrite !least_cons, Hc, IH. Qed.
Lemma least_insert f cs j old new d :
  cs !! j = Some old → f new = combine (f old) d →
  least f (<[j:=new]> cs) = combine (least f cs) d.
Proof.
  intros Hj Hd. revert j Hj. induction cs as [|c cs IH]; intros [|j] Hj; try done.
  - injection Hj as ->. change (combine (f new) (least f cs) = combine (combine (f old) (least f cs)) d).
    rewrite Hd, <- !combine_assoc. f_equal. apply combine_comm.
  - change (combine (f c) (least f (<[j:=new]> cs)) = combine (combine (f c) (least f cs)) d).
    by rewrite (IH j Hj), combine_assoc.
Qed.

(** ** What a node answers *)

Definition is_path (n : Node) : bool := bool_decide (node_param n = PATH).

(** The rule of [s] below a node, and below a child with what leads to it. *)
Fixpoint lk (n : Node) (s : bytes) {struct n} : Z :=
  match n with
  | MkNode r _ _ _ cs =>
      match s with
      | [] => r
      | _ =>
          foldr (λ c acc,
            combine (if is_path c then rule_index c
                     else if compare_at s 0 (key c) then lk c (drop (length (key c)) s) else 0)
                    acc) 0 cs
      end
  end.
Definition edge (s : bytes) (c : Node) : Z :=
  match s with
  | [] => 0
  | _ => if is_path c then rule_index c
         else if compare_at s 0 (key c) then lk c (drop (length (key c)) s) else 0
  end.

Lemma lk_nil n : lk n [] = rule_index n.
Proof. by destruct n. Qed.
Lemma lk_cons n x s : lk n (x :: s) = least (edge (x :: s)) (children n).
Proof. by destruct n. Qed.
#[local] Arguments lk : simpl never.

(** The children's keys: of one character, or of one at least; none for a [<path>]. *)
Definition key_ok (single : bool) (c : Node) : Prop :=
  (node_param c = PATH ∧ key c = []) ∨
  (node_param c = MAX ∧ if single then length (key c) = 1%nat else key c ≠ []).

Inductive wf (single : bool) : Node → Prop :=
| wf_intro r b k p cs :
    Forall (key_ok single) cs → Forall (wf single) cs → wf single (MkNode r b k p cs).

Lemma wf_keys single n : wf single n → Forall (key_ok single) (children n).
Proof. by intros []. Qed.
Lemma wf_children single n : wf single n → Forall (wf single) (children n).
Proof. by intros []. Qed.

Lemma key_ok_weaken c : key_ok true c → key_ok false c.
Proof. intros [?|[? Hk]]; [by left|right]. split; [done|]. intros E. by rewrite E in Hk. Qed.

Lemma wf_weaken n : wf true n → wf false n.
Proof.
  induction n as [r b k p cs IH] using Node_ind_children. intros Hw. inversion Hw; subst.
  constructor; rewrite Forall_forall in *; intros c Hc; [by apply key_ok_weaken; auto|auto].
Qed.

Lemma compare_at_drop s i k : compare_at s i k = compare_at (drop i s) 0 k.
Proof. done. Qed.

(** ** find *)

Section Find.
Context `{Doubles}.

Lemma update_found_combine l r bps ps :
  found (update_found l (r, bps, ps)) = combine (found l) r.
Proof. unfold update_found, combine. by destruct (_ && _). Qed.

(** What [find] is claimed to do below a node. *)
Definition finds (url : bytes) (c : Node) : Prop :=
  ∀ pos st, (pos ≤ length url)%nat → (find_from url c pos st).1.1.1 = lk c (drop pos url).

Lemma find_child_edge single url pos c l st :
  finds url c → key_ok single c → (pos ≤ length url)%nat →
  found (find_child (find_from url) url pos c (l, st)).1 =
  combine (found l) (edge (drop pos url) c).
Proof.
  intros Hc Hk Hp. unfold find_child, is_param, edge, is_path.
  destruct Hk as [[Hpar Hk]|[Hpar Hk]]; rewrite Hpar; cbn [negb bool_decide decide_rel].
  - rewrite (bool_decide_eq_false_2 (PATH = MAX)), (bool_decide_eq_true_2 (PATH = PATH)) by done.
    cbn [negb match_param].
    destruct (drop pos url) as [|x s] eqn:Ed; [by rewrite combine_0_r|].
    destruct (find_from url c _ _) as [[[r bps] ps] st1] eqn:Ef. cbn [fst].
    rewrite update_found_combine. f_equal.
    assert (Hl : (pos + length (x :: s))%nat = length url).
    { rewrite <- Ed, length_drop. lia. }
    rewrite Hl in Ef. match type of Ef with find_from url c _ ?st0 = _ =>
      specialize (Hc (length url) st0 ltac:(lia)) end.
    rewrite Ef, drop_all, lk_nil in Hc. exact Hc.
  - rewrite (bool_decide_eq_true_2 (MAX = MAX)), (bool_decide_eq_false_2 (MAX = PATH)) by done.
    cbn [negb]. rewrite compare_at_drop.
    destruct (drop pos url) as [|x s] eqn:Ed.
    { unfold compare_at. rewrite drop_nil, take_nil, bool_decide_eq_false_2;
        [by rewrite combine_0_r|]. destruct single; by destruct (key c). }
    destruct (compare_at (x :: s) 0 (key c)) eqn:E; [|by rewrite combine_0_r].
    destruct (find_from url c _ _) as [[[r bps] ps] st1] eqn:Ef. cbn [fst].
    rewrite update_found_combine. f_equal.
    match type of Ef with find_from url c ?pos' ?st0 = _ => specialize (Hc pos' st0) end.
    rewrite Ef in Hc. rewrite <- drop_drop, Ed in Hc. apply Hc.
    unfold compare_at in E. apply bool_decide_eq_true in E. rewrite drop_0, <- Ed in E.
    apply (f_equal length) in E. rewrite length_take, length_drop in E. lia.
Qed.

Lemma find_children single url pos cs l st :
  Forall (finds url) cs → Forall (key_ok single) cs → (pos ≤ length url)%nat →
  found (fold_left (λ acc c, find_child (find_from url) url pos c acc) cs (l, st)).1 =
  combine (found l) (least (edge (drop pos url)) cs).
Proof.
  intros HF HK Hp. revert l st. induction HF as [|c cs Hc HF IH]; intros l st; [done|].
  apply Forall_cons in HK as [Hk HK]. cbn [fold_left].
  pose proof (find_child_edge single url pos c l st Hc Hk Hp) as E.
  destruct (find_child _ _ _ c (l, st)) as [l1 st1]. rewrite IH, least_cons by done.
  cbn in E. by rewrite E, combine_assoc.
Qed.

Lemma find_from_lk single url n : wf single n → finds url n.
Proof.
  induction n as [r b k p cs IH] using Node_ind_children. intros Hw pos st Hp.
  pose proof (wf_keys _ _ Hw) as Hk. pose proof (wf_children _ _ Hw) as Hc.
  cbn [find_from children] in *.
  destruct (Nat.eqb_spec pos (length url)) as [->|E]; [by rewrite drop_all|].
  assert (HF : Forall (finds url) cs).
  { rewrite Forall_forall in *. auto. }
  pose proof (find_children single url pos cs (MkLocals 0 [] no_params false) st HF Hk Hp) as Hf.
  destruct (fold_left _ cs _) as [l st1]. cbn [found fst] in Hf. rewrite combine_0_l in Hf.
  destruct (drop pos url) as [|x s] eqn:Ed.
  { apply (f_equal length) in Ed. rewrite length_drop in Ed. cbn in Ed. lia. }
  rewrite lk_cons. by destruct (found_fragment l).
Qed.

Lemma find_lk single n url : wf single n → (find n url).1.1 = lk n url.
Proof.
  intros Hw. unfold find. rewrite (find_from_lk single); [by rewrite drop_0|done|lia].
Qed.
End Find.

(** ** Rules *)

(** A rule: a URL, alone or followed by [<path>]. *)
Record pattern : Type := MkPattern { pat_url : bytes; pat_path : bool }.

#[global] Instance pattern_eq_dec : EqDecision pattern.
Proof. solve_decision. Defined.

Definition path_tag : bytes := list_ascii_of_string "<path>".
Definition pattern_url (p : pattern) : bytes := pat_url p ++ (if pat_path p then path_tag else ([] : bytes)).

(** The URL has no parameter and no NUL. *)
Definition static (u : bytes) : Prop := "<"%char ∉ u ∧ nul ∉ u.

Definition matches (p : pattern) (s : bytes) : bool :=
  if pat_path p
  then compare_at s 0 (pat_url p) && negb (bool_decide (s = pat_url p))
  else bool_decide (s = pat_url p).

(** The children a character and a [<path>] lead to. *)
Definition headed (x : ascii) (c : Node) : bool := Ascii.eqb (key_head c) x.

Definition is_path_child (c : Node) : bool := bool_decide (node_param c = PATH).

(** What [F] says of the first child with [f]. *)
Definition select (f : Node → bool) (F : Node → Z) (cs : list Node) : Z :=
  match child_index f cs with
  | Some j => F (default new_node (cs !! j))
  | None => 0
  end.

(** The rule stored for a pattern, where [add] reaches it. *)
Fixpoint stored (n : Node) (u : bytes) (path : bool) {struct u} : Z :=
  match u with
  | [] => if path then select is_path_child rule_index (children n) else rule_index n
  | x :: u => select (headed x) (λ c, stored c u path) (children n)
  end.

Lemma child_index_lookup f cs j :
  child_index f cs = Some j → ∃ c, cs !! j = Some c ∧ f c = true.
Proof.
  revert j. induction cs as [|c cs IH]; intros j; cbn; [done|].
  destruct (f c) eqn:E; [intros [= <-]; by exists c|].
  destruct (child_index f cs); [|done]. intros [= <-]. by apply IH.
Qed.

Lemma child_index_insert f cs i old new :
  cs !! i = Some old → f new = f old → child_index f (<[i := new]> cs) = child_index f cs.
Proof.
  revert i. induction cs as [|c cs IH]; intros [|i] Hi E; try done; cbn in *.
  - injection Hi as ->. by rewrite E.
  - destruct (f c); [done|]. f_equal. exact (IH i Hi E).
Qed.

Lemma child_index_app f cs c :
  child_index f (cs ++ [c]) =
  match child_index f cs with
  | Some j => Some j
  | None => if f c then Some (length cs) else None
  end.
Proof.
  induction cs as [|d cs IH]; cbn; [by destruct (f c)|]. destruct (f d); [done|].
  rewrite IH. destruct (child_index f cs); [done|]. by destruct (f c).
Qed.

(** What one step of [add] does to the children: the child it leads to, or a fresh one, is
    replaced. *)
Definition fresh (n : Node) : Prop := rule_index n = 0 ∧ children n = [].
Definition relinked (f : Node → bool) (cs : list Node) (old new : Node) (cs' : list Node) : Prop :=
  (∃ j, child_index f cs = Some j ∧ cs !! j = Some old ∧ cs' = <[j := new]> cs) ∨
  (child_index f cs = None ∧ fresh old ∧ cs' = cs ++ [new]).

Lemma select_new f F cs old new cs' :
  relinked f cs old new cs' → f old = true → f new = true → select f F cs' = F new.
Proof.
  intros [(j & Hj & Ho & ->)|(Hj & _ & ->)] Hfo Hfn; unfold select.
  - rewrite (child_index_insert _ _ _ old), Hj by (done || congruence).
    by rewrite list_lookup_insert_eq by by eapply lookup_lt_Some.
  - rewrite child_index_app, Hj, Hfn, lookup_app_r, Nat.sub_diag by lia. done.
Qed.
Lemma select_old f F cs old new cs' :
  relinked f cs old new cs' → (fresh old → F old = 0) → select f F cs = F old.
Proof.
  intros [(j & Hj & Ho & ->)|(Hj & Hf & ->)] HF; unfold select; rewrite Hj; [by rewrite Ho|].
  by rewrite HF.
Qed.
Lemma select_other f g F cs old new cs' :
  relinked f cs old new cs' → g old = false → g new = false → select g F cs' = select g F cs.
Proof.
  intros [(j & Hj & Ho & ->)|(Hj & _ & ->)] Hgo Hgn; unfold select.
  - rewrite (child_index_insert _ _ _ old) by (done || congruence).
    destruct (child_index g cs) as [i|] eqn:Ei; [|done].
    destruct (decide (i = j)) as [->|Hij]; [|by rewrite list_lookup_insert_ne].
    apply child_index_lookup in Ei as (c & Hc & Hgc). congruence.
  - rewrite child_index_app, Hgn. destruct (child_index g cs) as [i|] eqn:Ei; [|done].
    apply child_index_lookup in Ei as (c & Hc & _). by rewrite (lookup_app_l_Some _ _ _ _ Hc), Hc.
Qed.

Lemma least_relinked f cs old new cs' E d :
  relinked f cs old new cs' → (fresh old → E old = 0) → E new = combine (E old) d →
  least E cs' = combine (least E cs) d.
Proof.
  intros [(j & Hj & Ho & ->)|(Hj & Hf & ->)] HF Hd; [by apply (least_insert _ _ _ old)|].
  rewrite least_app. f_equal. change (E new = d). by rewrite Hd, HF, combine_0_l.
Qed.

Lemma Forall_relinked (P : Node → Prop) f cs old new cs' :
  relinked f cs old new cs' → Forall P cs → P new → Forall P cs'.
Proof.
  intros [(j & _ & _ & ->)|(_ & _ & ->)] HP Hn; [by apply Forall_insert|].
  apply Forall_app. split; [done|]. by constructor.
Qed.

Lemma fresh_lk n s : fresh n → lk n s = 0.
Proof. intros [Hr Hc]. destruct s; [by rewrite lk_nil|]. by rewrite lk_cons, Hc. Qed.
Lemma fresh_stored n u path : fresh n → stored n u path = 0.
Proof. intros [Hr Hc]. destruct u; cbn; rewrite Hc; [by destruct path|done]. Qed.
Lemma fresh_edge n s : fresh n → edge s n = 0.
Proof.
  intros Hf. unfold edge. destruct s; [done|]. rewrite (fresh_lk _ _ Hf).
  destruct Hf as [-> _]. by repeat case_match.
Qed.

(** ** add *)

(** What [add] promises below a node. *)
Definition added (idx : Node) (u : bytes) (path : bool) (rule : Z) (o : outcome Node) : Prop :=
  (stored idx u path = 0 →
   ∃ idx', o = Val idx' ∧ wf true idx' ∧ key idx' = key idx ∧ node_param idx' = node_param idx ∧
     (∀ s, lk idx' s = combine (lk idx s) (if matches (MkPattern u path) s then rule else 0)) ∧
     (∀ u' path', nul ∉ u' → stored idx' u' path' =
        if decide (u' = u ∧ path' = path) then rule else stored idx u' path')) ∧
  (stored idx u path ≠ 0 → ∃ why, o = Throw (runtime_error why)).

Lemma bool_decide_cons (x y : ascii) (s t : bytes) :
  bool_decide (y :: s = x :: t) = bool_decide (y = x) && bool_decide (s = t).
Proof.
  destruct (decide (y = x)) as [->|Hyx].
  - rewrite (bool_decide_eq_true_2 (x = x)) by done. cbn. apply bool_decide_ext.
    split; [by intros [= ->]|by intros ->].
  - rewrite (bool_decide_eq_false_2 (y = x)) by done. cbn.
    apply bool_decide_eq_false_2. congruence.
Qed.

Lemma matches_cons x u path y s :
  matches (MkPattern (x :: u) path) (y :: s) =
  bool_decide (y = x) && matches (MkPattern u path) s.
Proof.
  unfold matches, compare_at. cbn [pat_path pat_url]. rewrite !drop_0. cbn [length take].
  rewrite !bool_decide_cons. destruct path; [|done].
  by destruct (bool_decide (y = x)), (bool_decide (s = u)), (bool_decide (take _ _ = _)).
Qed.

Lemma matches_short x u path : matches (MkPattern (x :: u) path) [] = false.
Proof. by destruct path. Qed.

Lemma edge_char x s c : node_param c = MAX → key c = [x] →
  ∀ y, edge (y :: s) c = if decide (y = x) then lk c s else 0.
Proof.
  intros Hp Hk y. unfold edge, is_path. rewrite Hp, Hk, bool_decide_eq_false_2 by done.
  unfold compare_at. rewrite drop_0. cbn [length take]. rewrite take_0.
  destruct (decide (y = x)) as [->|Hy].
  - rewrite bool_decide_eq_true_2 by done. cbn. by rewrite drop_0.
  - rewrite bool_decide_eq_false_2; [done|]. congruence.
Qed.

Lemma headed_key x c : key c = [x] → ∀ y, headed y c = bool_decide (y = x).
Proof.
  intros Hk y. unfold headed, key_head. rewrite Hk. cbn.
  destruct (Ascii.eqb_spec x y) as [->|Hxy]; [by rewrite bool_decide_eq_true_2|].
  rewrite bool_decide_eq_false_2; [done|]. congruence.
Qed.

(** From the child a character leads to, to the node. *)
Lemma added_char x u path rule r b k p cs cs_of old o :
  wf true (MkNode r b k p cs) → x ≠ nul →
  (∀ new, relinked (headed x) cs old new (cs_of new)) →
  key old = [x] → node_param old = MAX →
  added old u path rule o →
  added (MkNode r b k p cs) (x :: u) path rule
    (outcome_map (λ c, set_children (cs_of c) (MkNode r b k p cs)) o).
Proof.
  intros Hw Hx Hcs Hko Hpo [Hadd Hthrow].
  assert (Hst : ∀ u' path', stored (MkNode r b k p cs) (x :: u') path' = stored old u' path').
  { intros u' path'. cbn. apply (select_old _ (λ c, stored c u' path') _ _ _ _ (Hcs old)), fresh_stored. }
  unfold added. rewrite Hst. split.
  2:{ intros H0. destruct (Hthrow H0) as [why ->]. by exists why. }
  intros H0. destruct (Hadd H0) as (new & -> & Hwn & Hkn & Hpn & Hs & Hsto).
  rewrite Hko in Hkn. rewrite Hpo in Hpn. pose proof (Hcs new) as Hr. eexists. split; [done|].
  unfold set_children. cbn [rule_index blueprint_index key node_param].
  split; [|split; [done|split; [done|split]]].
  - inversion Hw; subst. constructor; eapply Forall_relinked; eauto.
    right. split; [done|]. by rewrite Hkn.
  - intros [|y s]; [by rewrite matches_short, combine_0_r, !lk_nil|]. rewrite !lk_cons. cbn [children].
    apply (least_relinked _ _ _ _ _ _ _ Hr); [apply fresh_edge|].
    rewrite (edge_char x), (edge_char x), matches_cons by done.
    destruct (decide (y = x)) as [->|Hy]; [by rewrite bool_decide_eq_true_2, Hs by done|].
    by rewrite bool_decide_eq_false_2 by done.
  - intros [|y u'] path' Hnul.
    + rewrite decide_False by (by intros [? _]). cbn. destruct path'; [|done].
      apply (select_other _ _ _ _ _ _ _ Hr); unfold is_path_child; by rewrite ?Hpo, ?Hpn.
    + cbn [stored children]. destruct (decide (y = x)) as [->|Hy].
      * rewrite (select_new _ _ _ _ _ _ Hr)
          by (rewrite (headed_key x) by done; by apply bool_decide_eq_true_2).
        rewrite Hsto by (intros ?; apply Hnul; by right).
        rewrite (select_old _ (λ c, stored c u' path') _ _ _ _ Hr (fresh_stored old u' path')).
        destruct (decide (u' = u ∧ path' = path)) as [[-> ->]|Hne]; [by rewrite decide_True|].
        rewrite decide_False; [done|]. intros [[= ->] ->]. by apply Hne.
      * rewrite decide_False by (by intros [[= -> _] _]).
        apply (select_other _ _ _ _ _ _ _ Hr); rewrite (headed_key x) by done;
          by apply bool_decide_eq_false_2.
Qed.

Lemma edge_path c y s : node_param c = PATH → edge (y :: s) c = rule_index c.
Proof. intros Hp. unfold edge, is_path. by rewrite Hp, bool_decide_eq_true_2. Qed.

Lemma headed_path c y : key c = [] → y ≠ nul → headed y c = false.
Proof. intros Hk Hy. unfold headed, key_head. rewrite Hk. by apply Ascii.eqb_neq. Qed.

(** From the child a [<path>] leads to, to the node. *)
Lemma added_path rule r b k p cs cs_of old o :
  wf true (MkNode r b k p cs) →
  (∀ new, relinked is_path_child cs old new (cs_of new)) →
  key old = [] → node_param old = PATH →
  added old [] false rule o →
  added (MkNode r b k p cs) [] true rule
    (outcome_map (λ c, set_children (cs_of c) (MkNode r b k p cs)) o).
Proof.
  intros Hw Hcs Hko Hpo [Hadd Hthrow].
  assert (Hst : stored (MkNode r b k p cs) [] true = stored old [] false).
  { cbn. by apply (select_old _ rule_index _ _ _ _ (Hcs old)); intros [? _]. }
  unfold added. rewrite Hst. split.
  2:{ intros H0. destruct (Hthrow H0) as [why ->]. by exists why. }
  intros H0. destruct (Hadd H0) as (new & -> & Hwn & Hkn & Hpn & Hs & Hsto).
  rewrite Hko in Hkn. rewrite Hpo in Hpn. pose proof (Hcs new) as Hr.
  assert (Hrule : rule_index new = rule).
  { specialize (Hsto [] false (not_elem_of_nil _)). by rewrite decide_True in Hsto. }
  eexists. split; [done|].
  unfold set_children. cbn [rule_index blueprint_index key node_param].
  split; [|split; [done|split; [done|split]]].
  - inversion Hw; subst. constructor; eapply Forall_relinked; eauto. by left.
  - intros [|y s]; [by rewrite !lk_nil|]. rewrite !lk_cons. cbn [children].
    apply (least_relinked _ _ _ _ _ _ _ Hr); [apply fresh_edge|].
    rewrite !edge_path, Hrule by done. cbn in H0. rewrite H0, combine_0_l.
    unfold matches, compare_at. cbn. by rewrite bool_decide_eq_true_2.
  - intros [|y u'] path' Hnul.
    + destruct path'; [|by rewrite decide_False by (by intros [_ ?])].
      rewrite decide_True by done. cbn.
      rewrite (select_new _ _ _ _ _ _ Hr); [done|..];
        unfold is_path_child; by apply bool_decide_eq_true_2.
    + rewrite decide_False by (by intros [? _]). cbn [stored children].
      assert (y ≠ nul) by (intros ->; apply Hnul; by left).
      by apply (select_other _ _ _ _ _ _ _ Hr); apply headed_path.
Qed.

(** At the end of the URL. *)
Lemma added_end rule why idx :
  wf true idx →
  added idx [] false rule
    (if rule_index idx =? 0 then Val (set_rule_index rule idx) else Throw (runtime_error why)).
Proof.
  intros Hw. destruct idx as [r b k p cs]. unfold added. cbn. split; intros Hr.
  - subst r. eexists. split; [done|]. split; [by inversion Hw; constructor|].
    split; [done|split; [done|split]].
    + intros [|y s]; [by rewrite !lk_nil, combine_0_l|]. by rewrite !lk_cons.
    + intros [|y u'] path' _; [|by rewrite decide_False by (by intros [? _])].
      by destruct path'.
  - apply Z.eqb_neq in Hr as ->. by eexists.
Qed.

(** The child [add] goes down to, and what it becomes. *)
Lemma descend_relinked f cs go fresh_child idx :
  f fresh_child = true → fresh fresh_child →
  ∃ old cs_of,
    (∀ new, relinked f cs old new (cs_of new)) ∧ f old = true ∧ (old = fresh_child ∨ old ∈ cs) ∧
    match child_index f cs with
    | Some j => outcome_map (λ c, set_children (<[j := c]> cs) idx) (go (default new_node (cs !! j)))
    | None => outcome_map (λ c, set_children (cs ++ [c]) idx) (go fresh_child)
    end = outcome_map (λ c, set_children (cs_of c) idx) (go old).
Proof.
  intros Hf Hfr. destruct (child_index f cs) as [j|] eqn:Ej.
  - destruct (child_index_lookup _ _ _ Ej) as (c & Hc & Hfc).
    exists c, (λ new, <[j := new]> cs). split; [|split; [done|split]].
    + intros new. left. by exists j.
    + right. by apply list_elem_of_lookup_2 in Hc.
    + by rewrite Hc.
  - exists fresh_child, (λ new, cs ++ [new]). split; [|split; [done|split; [by left|done]]].
    intros new. by right.
Qed.

Lemma headed_key_ok x c : key_ok true c → headed x c = true → x ≠ nul →
  node_param c = MAX ∧ key c = [x].
Proof.
  intros [[Hp Hk]|[Hp Hk]] Hh Hx; [by rewrite headed_path in Hh|].
  destruct (key c) as [|y [|z k]] eqn:E; try done. split; [done|].
  rewrite (headed_key y) in Hh by done. apply bool_decide_eq_true in Hh. by subst.
Qed.

Lemma path_key_ok c : key_ok true c → is_path_child c = true → key c = [].
Proof. intros [[_ Hk]|[Hp _]] Hi; [done|]. unfold is_path_child in Hi. by rewrite Hp in Hi. Qed.

(** One character, and a [<path>], of [add]. *)
Lemma add_below_char x fuel url i rule bpl bp idx :
  url !! i = Some x → x ≠ "<"%char →
  add_below (S fuel) url i rule bpl bp idx =
  match child_index (headed x) (children idx) with
  | Some j =>
      outcome_map (λ c, set_children (<[j := c]> (children idx)) idx)
        (add_below fuel url (S i) rule bpl bp (default new_node (children idx !! j)))
  | None =>
      outcome_map (λ c, set_children (children idx ++ [c]) idx)
        (add_below fuel url (S i) rule bpl bp
           (MkNode 0 (if negb (bpl =? 0) && negb (bp =? INVALID_BP_ID) && (Z.of_nat i =? bpl)
                      then bp else INVALID_BP_ID) [x] MAX []))
  end.
Proof.
  intros Hi Hx. cbn [add_below]. rewrite Hi. by destruct (Ascii.eqb_spec x "<").
Qed.

Lemma add_step_char x u path rule fuel url i bpl bp idx :
  wf true idx → url !! i = Some x → x ≠ nul → x ≠ "<"%char →
  (∀ old, wf true old → added old u path rule (add_below fuel url (S i) rule bpl bp old)) →
  added idx (x :: u) path rule (add_below (S fuel) url i rule bpl bp idx).
Proof.
  intros Hw Hi Hx Hlt IH. destruct idx as [r b k p cs].
  rewrite (add_below_char x) by done. cbn [children].
  set (q := if _ && _ then bp else _).
  destruct (descend_relinked (headed x) cs (add_below fuel url (S i) rule bpl bp)
              (MkNode 0 q [x] MAX []) (MkNode r b k p cs))
    as (old & cs_of & Hr & Ho & Hin & Heq); [apply Ascii.eqb_refl|done|].
  rewrite Heq.
  assert (node_param old = MAX ∧ key old = [x] ∧ wf true old) as (Hp & Hk & Hwo).
  { destruct Hin as [->|Hin]; [by repeat constructor|]. inversion Hw as [? ? ? ? ? HK HW]; subst.
    rewrite Forall_forall in HK, HW.
    destruct (headed_key_ok x old (HK _ Hin) Ho Hx). auto. }
  by eapply added_char; eauto.
Qed.

Lemma add_step_path rule fuel url i bpl bp idx :
  wf true idx → drop i url = path_tag → (0 < fuel)%nat →
  added idx [] true rule (add_below (S fuel) url i rule bpl bp idx).
Proof.
  intros Hw Hd Hfuel. destruct idx as [r b k p cs].
  assert (url !! i = Some "<"%char) as Hi.
  { by rewrite <- (Nat.add_0_r i), <- lookup_drop, Hd. }
  assert (trait_at url i = Some (PATH, 6%nat)) as Ht.
  { unfold trait_at, compare_at. by rewrite Hd. }
  assert (url !! (i + 6)%nat = None) as Hend by by rewrite <- lookup_drop, Hd.
  cbn [add_below children]. rewrite Hi. cbn [Ascii.eqb Bool.eqb]. rewrite Ht.
  destruct (descend_relinked is_path_child cs (add_below fuel url (i + 6) rule bpl bp)
              (MkNode 0 INVALID_BP_ID [] PATH []) (MkNode r b k p cs))
    as (old & cs_of & Hr & Ho & Hin & Heq); [by apply bool_decide_eq_true_2|done|].
  unfold is_path_child in Heq at 1. rewrite Heq.
  assert (key old = [] ∧ wf true old) as (Hk & Hwo).
  { destruct Hin as [->|Hin]; [by repeat constructor|]. inversion Hw as [? ? ? ? ? HK HW]; subst.
    rewrite Forall_forall in HK, HW. split; [by apply path_key_ok; auto|auto]. }
  eapply added_path; eauto; [by apply bool_decide_eq_true in Ho|].
  destruct fuel as [|fuel]; [lia|]. cbn [add_below]. rewrite Hend. by apply added_end.
Qed.

(** A rule below a node. *)
Lemma add_below_added u path url fuel i rule bpl bp idx :
  wf true idx → static u → drop i url = pattern_url (MkPattern u path) →
  (length u + (if path then 2 else 1) ≤ fuel)%nat →
  added idx u path rule (add_below fuel url i rule bpl bp idx).
Proof.
  revert i fuel idx. induction u as [|x u IH]; intros i [|fuel] idx Hw [Hlt Hnul] Hd Hfuel;
    try (cbn in Hfuel; destruct path; lia).
  - destruct path; [apply add_step_path; [done|done|cbn in Hfuel; lia]|].
    cbn [add_below]. rewrite <- (Nat.add_0_r i), <- lookup_drop, Hd. by apply added_end.
  - apply not_elem_of_cons in Hlt as [? ?]. apply not_elem_of_cons in Hnul as [? ?].
    apply add_step_char; try done.
    + by rewrite <- (Nat.add_0_r i), <- lookup_drop, Hd.
    + intros old Ho. apply IH; [done|done| |cbn in Hfuel; lia].
      rewrite <- Nat.add_1_r, <- drop_drop, Hd. done.
Qed.

Lemma add_added p rule bpl bp head :
  wf true head → static (pat_url p) →
  added head (pat_url p) (pat_path p) rule (add (pattern_url p) rule bpl bp head).
Proof.
  intros Hw Hs. destruct p as [u path]. apply add_below_added; [done|done|by rewrite drop_0|].
  unfold pattern_url. rewrite length_app. cbn [pat_url pat_path]. destruct path; cbn; lia.
Qed.

(** A table of rules, added in order. *)
Definition add_rules (table : list (pattern * Z)) (head : Node) : outcome Node :=
  fold_left (λ o pr, match o with Val h => add (pattern_url pr.1) pr.2 0 INVALID_BP_ID h | _ => o end)
            table (Val head).

(** The least rule of the patterns that match. *)
Definition least_rule (table : list (pattern * Z)) (s : bytes) : Z :=
  foldr (λ pr acc, combine (if matches pr.1 s then pr.2 else 0) acc) 0 table.

(** The rule of each entry is stored, and nothing else. *)
Lemma add_rules_stored table head :
  wf true head → Forall (λ pr : pattern * Z, static (pat_url pr.1)) table → NoDup table.*1 →
  (∀ p, p ∈ table.*1 → stored head (pat_url p) (pat_path p) = 0) →
  ∃ h, add_rules table head = Val h ∧ wf true h ∧
    (∀ s, lk h s = combine (lk head s) (least_rule table s)) ∧
    (∀ p r, (p, r) ∈ table → stored h (pat_url p) (pat_path p) = r) ∧
    (∀ p, nul ∉ pat_url p → p ∉ table.*1 →
       stored h (pat_url p) (pat_path p) = stored head (pat_url p) (pat_path p)).
Proof.
  unfold add_rules. revert head. induction table as [|[p r] table IH]; intros head Hw Hs Hn H0.
  { exists head. repeat (split; [done|]). split; [|done]. by intros p r ?%elem_of_nil. }
  apply Forall_cons in Hs as [Hp Hs]. apply NoDup_cons in Hn as [Hpn Hn].
  destruct (add_added p r 0 INVALID_BP_ID head Hw Hp) as [Hadd _].
  destruct Hadd as (h1 & Hv & Hw1 & _ & _ & Hlk & Hst); [by apply H0; left|].
  assert (Hst' : ∀ q, nul ∉ pat_url q → q ≠ p →
    stored h1 (pat_url q) (pat_path q) = stored head (pat_url q) (pat_path q)).
  { intros q Hq Hqp. rewrite Hst, decide_False; [done| |done].
    intros [E1 E2]. apply Hqp. destruct p, q. cbn in E1, E2. by subst. }
  cbn [fold_left fst snd]. rewrite Hv.
  destruct (IH h1 Hw1 Hs Hn) as (h & Hh & Hwh & Hlk' & Hin & Hout).
  { intros q Hq. rewrite Hst'; [by apply H0; right| |intros ->; by apply Hpn].
    apply list_elem_of_fmap in Hq as ([q' r'] & -> & Hin). rewrite Forall_forall in Hs.
    by destruct (Hs _ Hin). }
  exists h. split; [done|]. split; [done|]. split; [|split].
  - intros s. rewrite Hlk', Hlk, <- combine_assoc. by destruct p.
  - intros q r' [[= -> ->]|Hq]%elem_of_cons; [|by apply Hin].
    rewrite Hout; [|by destruct Hp|done]. rewrite Hst; [by rewrite decide_True|by destruct Hp].
  - intros q Hq [Hqp Hqt]%not_elem_of_cons. rewrite Hout by done. by apply Hst'.
Qed.

(** *** The head *)

Lemma add_below_keeps fuel url i rule bpl bp idx idx' :
  add_below fuel url i rule bpl bp idx = Val idx' →
  key idx' = key idx ∧ node_param idx' = node_param idx ∧
  blueprint_index idx' = blueprint_index idx ∧
  (is_Some (url !! i) → rule_index idx' = rule_index idx).
Proof.
  revert i idx idx'. induction fuel as [|fuel IH]; [done|]. intros i idx idx'. cbn [add_below].
  destruct (url !! i) as [c|] eqn:Ei; cycle 1.
  { destruct (_ =? 0); [|done]. intros [= <-]. repeat (split; [done|]). by intros []. }
  assert (∀ (o : outcome Node) cs, outcome_map (λ c, set_children (cs c) idx) o = Val idx' →
    key idx' = key idx ∧ node_param idx' = node_param idx ∧
    blueprint_index idx' = blueprint_index idx ∧ rule_index idx' = rule_index idx) as Hset.
  { by intros [] cs; cbn; intros [= <-]. }
  repeat case_match; try (intros Hv%Hset; tauto).
  intros Hv. destruct (IH _ _ _ Hv) as (? & ? & ? & Hr). eauto.
Qed.

(** The head of a tree whose URLs start with a slash. *)
Definition slash : ascii := "/".
Definition rooted (u : bytes) : Prop := head u = Some slash.
Definition simple_head (h : Node) : Prop :=
  rule_index h = 0 ∧ blueprint_index h = INVALID_BP_ID ∧ node_param h = MAX ∧
  (children h = [] ∨ ∃ c, children h = [c] ∧ node_param c = MAX ∧ key c = [slash]).

Lemma simple_head_simple h : simple_head h → IsSimpleNode h = true.
Proof.
  intros (Hr & Hb & Hp & Hc). unfold IsSimpleNode, is_param. rewrite Hr, Hb, Hp.
  destruct Hc as [->|(c & -> & Hpc & _)]; [done|]. cbn. by rewrite Hpc.
Qed.

Lemma add_simple_head url rule bpl bp h h' :
  rooted url → simple_head h → add url rule bpl bp h = Val h' → simple_head h'.
Proof.
  intros Hu (Hr & Hb & Hp & Hc) Hadd.
  destruct url as [|x url]; [done|]. injection Hu as ->.
  destruct (add_below_keeps _ _ _ _ _ _ _ _ Hadd) as (_ & Hp' & Hb' & Hr').
  split; [by rewrite Hr'|]. split; [congruence|]. split; [congruence|]. right.
  unfold add in Hadd. cbn [length] in Hadd.
  rewrite (add_below_char slash) in Hadd by done.
  assert (∃ old, node_param old = MAX ∧ key old = [slash] ∧
    outcome_map (λ c, set_children [c] h)
      (add_below (S (length url)) (slash :: url) 1 rule bpl bp old) = Val h')
    as (old & Hpo & Hko & Ho).
  { destruct Hc as [Hc|(c & Hc & Hpc & Hkc)]; rewrite Hc in Hadd.
    - eexists. by split; [|split; [|exact Hadd]].
    - exists c. unfold child_index in Hadd. rewrite (headed_key slash) in Hadd by done.
      by split; [|split; [|exact Hadd]]. }
  destruct (add_below _ _ _ _ _ _ old) as [c'| | | | |] eqn:E; try done. injection Ho as <-.
  destruct (add_below_keeps _ _ _ _ _ _ _ _ E) as (Hk & Hpn & _).
  exists c'. split; [done|]. split; congruence.
Qed.

Lemma add_rules_simple_head table h h' :
  Forall (λ pr : pattern * Z, rooted (pat_url pr.1)) table → simple_head h →
  add_rules table h = Val h' → simple_head h'.
Proof.
  unfold add_rules. revert h. induction table as [|[p r] table IH]; intros h Hr Hh.
  { by intros [= <-]. }
  apply Forall_cons in Hr as [Hp Hr]. cbn [fold_left fst snd].
  destruct (add _ _ _ _ h) as [h1| | | | |] eqn:E; cycle 1.
  1-5: intros Hv; exfalso; clear -Hv; induction table; [discriminate Hv|auto].
  apply IH; [done|]. apply (add_simple_head _ _ _ _ _ _) in E; [done| |done].
  unfold rooted, pattern_url in *. cbn [fst] in Hp. by destruct (pat_url p).
Qed.

(** ** optimize *)

Lemma prefix_key_nil n : prefix_key [] n = n.
Proof. by destruct n. Qed.

Lemma compare_at_app s k k' :
  compare_at s 0 (k ++ k') = compare_at s 0 k && compare_at (drop (length k) s) 0 k'.
Proof.
  unfold compare_at. rewrite !drop_0, length_app.
  destruct (bool_decide_reflect (take (length k) s = k)) as [E|E]; cbn.
  - assert (∃ t, s = k ++ t) as [t ->].
    { exists (drop (length k) s). by rewrite <- E at 1; rewrite take_drop. }
    rewrite take_app_add, drop_app_length. apply bool_decide_ext.
    split; [apply app_inv_head|by intros ->].
  - apply bool_decide_eq_false_2. intros E'. apply E. apply (f_equal (take (length k))) in E'.
    rewrite take_take, take_app_length in E'. rewrite <- E' at 2. f_equal. lia.
Qed.

Lemma lk_prefix_key k n s : lk (prefix_key k n) s = lk n s.
Proof. by destruct n. Qed.

Lemma edge_static s c :
  node_param c ≠ PATH → key c ≠ [] →
  edge s c = if compare_at s 0 (key c) then lk c (drop (length (key c)) s) else 0.
Proof.
  intros Hp Hk. unfold edge, is_path. rewrite bool_decide_eq_false_2 by done.
  destruct s as [|x s]; [|done]. unfold compare_at.
  rewrite drop_nil, take_nil, bool_decide_eq_false_2; [done|by destruct (key c)].
Qed.

(** The key of a chain's first node may go to the second. *)
Lemma edge_simple s k p c b :
  p ≠ PATH → node_param c ≠ PATH → key c ≠ [] → k ≠ [] →
  edge s (MkNode 0 b k p [c]) = edge s (prefix_key k c).
Proof.
  intros Hp Hpc Hkc Hk. rewrite !edge_static; try done; try (by destruct c).
  2:{ destruct c, k; done. }
  assert (key (prefix_key k c) = k ++ key c) as -> by by destruct c.
  cbn [key]. rewrite compare_at_app, lk_prefix_key, length_app, <- drop_drop.
  destruct (compare_at s 0 k); [|done]. cbn [andb].
  rewrite <- edge_static by done.
  destruct (drop (length k) s) as [|y t]; [by rewrite lk_nil|]. by rewrite lk_cons.
Qed.

Definition optimized (k : bytes) (n : Node) : Prop :=
  key_ok false (prefix_key k n) →
  key_ok false (optimizeNode k n) ∧ wf false (optimizeNode k n) ∧
  ∀ s, edge s (optimizeNode k n) = edge s (prefix_key k n).

Lemma map_optimized cs :
  Forall (λ c, ∀ k, optimized k c) cs → Forall (key_ok false) cs →
  Forall (key_ok false) (map (optimizeNode []) cs) ∧ Forall (wf false) (map (optimizeNode []) cs) ∧
  ∀ s, least (edge s) (map (optimizeNode []) cs) = least (edge s) cs.
Proof.
  induction 1 as [|c cs Hc _ IH]; intros Hk; [done|].
  apply Forall_cons in Hk as [Hkc Hk]. destruct (IH Hk) as (H1 & H2 & H3).
  destruct (Hc []) as (K1 & K2 & K3); [by rewrite prefix_key_nil|].
  cbn [map]. split; [by constructor|]. split; [by constructor|]. intros s.
  by rewrite !least_cons, H3, K3, prefix_key_nil.
Qed.

Lemma simple_chain r b k p c cs :
  IsSimpleNode (MkNode r b k p (c :: cs)) = true →
  cs = [] ∧ r = 0 ∧ p ≠ PATH ∧ node_param c ≠ PATH.
Proof.
  unfold IsSimpleNode. cbn. rewrite !andb_true_iff, !negb_true_iff. unfold is_param.
  intros ((((Hr & _) & Hl) & Hp) & Hc & _). destruct cs; [|done]. apply Z.eqb_eq in Hr.
  split; [done|]. split; [done|]. cbn in Hp, Hc.
  split; intros E; [rewrite E in Hp|rewrite E in Hc]; discriminate.
Qed.

Lemma optimizeNode_optimized n : wf true n → ∀ k, optimized k n.
Proof.
  induction n as [r b key p cs IH] using Node_ind_children. intros Hw k Hk.
  pose proof (wf_keys _ _ Hw) as Hks. pose proof (wf_children _ _ Hw) as Hws. cbn [children] in *.
  destruct cs as [|c cs]; [split; [done|split; [by repeat constructor|done]]|].
  assert (Forall (λ c, ∀ k, optimized k c) (c :: cs)) as HF.
  { rewrite Forall_forall in *. auto. }
  cbn [optimizeNode]. destruct (IsSimpleNode _) eqn:Es.
  - destruct (simple_chain _ _ _ _ _ _ Es) as (-> & -> & Hp & Hpc).
    apply Forall_cons in Hks as [Hkc _]. destruct Hkc as [[? _]|[Hpm Hkc]]; [congruence|].
    assert (k ++ key ≠ [] ∧ Trie.key c ≠ []) as [Hkn Hcn].
    { destruct Hk as [[? _]|[_ Hk]]; [cbn in *; congruence|]. split; [done|].
      by intros E; rewrite E in Hkc. }
    apply Forall_cons in HF as [HF _]. destruct (HF (k ++ key)) as (H1 & H2 & H3).
    { right. destruct c; cbn in *. split; [done|]. by intros [E _]%app_nil. }
    split; [done|]. split; [done|]. intros s. rewrite H3. symmetry.
    by apply edge_simple.
  - assert (Forall (key_ok false) (c :: cs)) as Hkw.
    { rewrite Forall_forall in *. intros d Hd. by apply key_ok_weaken; auto. }
    destruct (map_optimized _ HF Hkw) as (H1 & H2 & H3).
    split; [done|]. split; [by constructor|]. intros s. unfold edge, is_path.
    destruct s as [|x s]; [done|]. cbn [node_param prefix_key rule_index Trie.key].
    destruct (bool_decide _); [done|]. destruct (compare_at _ _ _); [|done].
    rewrite lk_prefix_key.
    destruct (drop _ _) as [|y t]; [by rewrite !lk_nil|]. rewrite !lk_cons. apply H3.
Qed.

(** Optimising the tree below its head changes neither its shape nor what it answers. *)
Lemma optimize_lk head :
  wf true head → wf false (optimize head) ∧ ∀ s, lk (optimize head) s = lk head s.
Proof.
  intros Hw. destruct head as [r b k p cs]. inversion Hw as [? ? ? ? ? Hk Hc]; subst.
  assert (Forall (λ c, ∀ k, optimized k c) cs) as HF.
  { eapply Forall_impl; [exact Hc|]. intros c. apply optimizeNode_optimized. }
  assert (Forall (key_ok false) cs) as Hkw by (eapply Forall_impl; [exact Hk|apply key_ok_weaken]).
  destruct (map_optimized _ HF Hkw) as (H1 & H2 & H3).
  split; [by constructor|]. intros [|x s]; [by rewrite !lk_nil|]. rewrite !lk_cons. apply H3.
Qed.

(** ** The router's table *)

Lemma new_node_wf : wf true new_node.
Proof. by repeat constructor. Qed.
Lemma new_node_simple_head : simple_head new_node.
Proof. repeat (split; [done|]). by left. Qed.

(** The tree of a table of rules answers each URL with the least rule whose pattern
    matches it, before and after [validate] joins its chains; the addition of a pattern that
    is already in the table throws.  The patterns are distinct, start with a slash, have no
    parameter but a final [<path>], and their rules are not 0. *)
Theorem trie_is_rule_table `{Doubles} (table : list (pattern * Z)) :
  Forall (λ pr : pattern * Z, static (pat_url pr.1) ∧ rooted (pat_url pr.1) ∧ pr.2 ≠ 0) table →
  NoDup table.*1 →
  ∃ h, add_rules table new_node = Val h ∧
    trie_validate h = inr (optimize h) ∧
    (∀ url, (find h url).1.1 = least_rule table url ∧
            (find (optimize h) url).1.1 = least_rule table url) ∧
    (∀ p r, p ∈ table.*1 → ∃ why, add (pattern_url p) r 0 INVALID_BP_ID h = Throw (runtime_error why)).
Proof.
  intros Ht Hn. rewrite !Forall_and in Ht. destruct Ht as (Hs & Hr & Hz).
  destruct (add_rules_stored table new_node new_node_wf Hs Hn) as (h & Hh & Hw & Hlk & Hst & _).
  { intros p _. by apply fresh_stored. }
  exists h. split; [done|]. split; [|split].
  - unfold trie_validate. rewrite simple_head_simple; [done|].
    by eapply add_rules_simple_head; eauto using new_node_simple_head.
  - intros url. destruct (optimize_lk h Hw) as [Hwo Ho].
    rewrite (find_lk true), (find_lk false), Ho, Hlk by done.
    by rewrite fresh_lk, combine_0_l.
  - intros p r Hp. apply list_elem_of_fmap in Hp as ([q r'] & -> & Hin). cbn [fst].
    rewrite Forall_forall in Hs, Hz. specialize (Hs _ Hin). specialize (Hz _ Hin).
    apply (add_added q r 0 INVALID_BP_ID h Hw Hs). by rewrite (Hst q r' Hin).
Qed.

(** Decimal integers as the only floating-point numbers. *)
Definition integer_doubles : Doubles := {| double := Z; strtod := strtoll |}.

Definition example_table : list (pattern * Z) :=
  (λ '(u, path, r), (MkPattern (list_ascii_of_string u) path, r)) <$>
    [("/api/1.0/wallet/create_account", false, 2); ("/api/1.0/wallet/balance_transfer", false, 3);
     ("/api/1.0/wallet/get_balance", false, 4); ("/api/1.0/wallet/events", false, 5);
     ("/static/", true, 6)]%string.

Lemma trie_is_rule_table_witness :
  ∃ h, @add_rules example_table new_node = Val h ∧
    let rule_of u := (@find integer_doubles (optimize h) (list_ascii_of_string u)).1.1 in
    rule_of "/api/1.0/wallet/get_balance"%string = 4 ∧ rule_of "/static/a/b"%string = 6 ∧
    rule_of "/static/"%string = 0.
Proof.
  destruct (@trie_is_rule_table integer_doubles example_table) as (h & Hh & _ & Hf & _).
  - unfold static, rooted. refine (bool_decide_eq_true_1 _ _). by vm_compute.
  - refine (bool_decide_eq_true_1 _ _). by vm_compute.
  - exists h. split; [done|]. cbv zeta.
    split; [|split]; match goal with |- (find _ ?u).1.1 = _ => destruct (Hf u) as [_ ->] end;
      by vm_compute.
Defined.
