(* ===== verification/RouteParams.v ===== *)
(** * The router's search tree with parameters: specification and theorems

    A URL is a list of characters and parameters ([url_items]); the tree holds the rules of a
    table of URLs ([paths]); a request's path is read along a URL, which gives the values of the
    URL's parameters ([read_url]).  [add] adds one URL, [optimize] keeps the table, and [find]
    answers with the least rule whose URL reads the path, and with the values it reads. *)

From Stdlib Require Import ZArith Lia Ascii String.
From stdpp Require Import base tactics option strings list.
From S2P Require Import Prelude.
From S2P Require Import CppStd.
From S2P Require Import QueryString.
From S2P Require Import Trie.
From S2P Require Import TrieFacts.

Local Open Scope Z_scope.

(** ** The items of a URL *)

Abbreviation item := (ascii + ParamType)%type.

(** Nothing when a ['<'] begins no parameter; [skip] characters are left out first. *)
Fixpoint url_items (skip : nat) (u : bytes) : option (list item) :=
  match u with
  | [] => Some []
  | c :: rest =>
      match skip with
      | S k => url_items k rest
      | O =>
          if Ascii.eqb c "<" then
            match trait_at u 0 with
            | Some (t, n) => cons (inr t) <$> url_items (pred n) rest
            | None => None
            end
          else cons (inl c) <$> url_items 0 rest
      end
  end.

(** The items of a child: its parameter, or the characters of its key. *)
Definition label (c : Node) : list item :=
  if is_param c then [inr (node_param c)] else inl <$> key c.

(** The rules below a node, with the items that lead to them. *)
Fixpoint paths (n : Node) : list (list item * Z) :=
  match n with
  | MkNode r _ _ _ cs =>
      (if r =? 0 then [] else [([], r)]) ++
      flat_map (λ c, (λ x, (label c ++ x.1, x.2)) <$> paths c) cs
  end.
Definition branch (c : Node) : list (list item * Z) :=
  (λ x, (label c ++ x.1, x.2)) <$> paths c.
Definition own (r : Z) : list (list item * Z) := if r =? 0 then [] else [([], r)].

Lemma paths_unfold n : paths n = own (rule_index n) ++ flat_map branch (children n).
Proof. by destruct n. Qed.
#[local] Arguments paths : simpl never.

(** ** Reading a path *)

Section Read.
Context `{Doubles}.

(** The values of the parameters when the items read all of [s] from [pos] on. *)
Fixpoint read_url (s : bytes) (items : list item) (pos : nat) : option (list param_value) :=
  match items with
  | [] => if Nat.eqb pos (length s) then Some [] else None
  | inl c :: items =>
      match s !! pos with
      | Some x => if Ascii.eqb x c then read_url s items (S pos) else None
      | None => None
      end
  | inr t :: items =>
      match match_param t s pos with
      | Some (v, pos') => cons v <$> read_url s items pos'
      | None => None
      end
  end.

Definition push_all (p : routing_params) (vs : list param_value) : routing_params :=
  fold_left (λ p v, push_param v p) vs p.

(** The rules of a table that read a path, and the first of the least. *)
Abbreviation hit := (Z * list param_value)%type.
Definition hit_of (s : bytes) (pos : nat) (x : list item * Z) : option hit :=
  pair x.2 <$> read_url s x.1 pos.
Definition hits (s : bytes) (pos : nat) (table : list (list item * Z)) : list hit :=
  omap (hit_of s pos) table.
Definition better (a b : option hit) : option hit :=
  match a, b with
  | Some x, Some y => if y.1 <? x.1 then b else a
  | None, _ => b
  | _, None => a
  end.
Definition least_hit (l : list hit) : option hit := foldr (λ x acc, better (Some x) acc) None l.

Lemma better_assoc a b c : better a (better b c) = better (better a b) c.
Proof.
  destruct a as [x|], b as [y|], c as [z|]; try done; cbn;
    repeat (match goal with |- context [?p <? ?q] => destruct (Z.ltb_spec p q); cbn end);
    try done; lia.
Qed.
Lemma better_none_r a : better a None = a.
Proof. by destruct a. Qed.

Lemma least_hit_app l l' : least_hit (l ++ l') = better (least_hit l) (least_hit l').
Proof.
  induction l as [|x l IH]; [done|]. cbn [app least_hit foldr].
  fold (least_hit (l ++ l')) (least_hit l). by rewrite IH, better_assoc.
Qed.

(** *** Steps of reading *)

Lemma match_param_end t s : match_param t s (length s) = None.
Proof.
  unfold match_param, char_at. rewrite lookup_ge_None_2, drop_all by lia. by destruct t.
Qed.

Lemma read_at_end s items : items ≠ [] → read_url s items (length s) = None.
Proof.
  destruct items as [|[c|t] items]; [done|..]; intros _; cbn.
  - by rewrite lookup_ge_None_2 by lia.
  - by rewrite match_param_end.
Qed.

Lemma read_key s k items pos :
  read_url s ((inl <$> k) ++ items) pos =
  if compare_at s pos k then read_url s items (pos + length k) else None.
Proof.
  revert pos. induction k as [|c k IH]; intros pos; cbn.
  { by rewrite Nat.add_0_r. }
  unfold compare_at. cbn [length]. destruct (s !! pos) as [x|] eqn:E.
  - rewrite (drop_S s x pos E). cbn [take]. destruct (Ascii.eqb_spec x c) as [->|N].
    + rewrite IH. unfold compare_at. rewrite Nat.add_succ_r. cbn.
      destruct (decide (take (length k) (drop (S pos) s) = k)) as [E'|E'].
      * rewrite !bool_decide_eq_true_2 by congruence. done.
      * rewrite !bool_decide_eq_false_2 by congruence. done.
    + by rewrite bool_decide_eq_false_2 by congruence.
  - rewrite drop_ge by by apply lookup_ge_None. by rewrite bool_decide_eq_false_2.
Qed.

Lemma hits_app s pos l l' : hits s pos (l ++ l') = hits s pos l ++ hits s pos l'.
Proof. unfold hits. by rewrite omap_app. Qed.

Lemma hits_at_end s l : Forall (λ x : list item * Z, x.1 ≠ []) l → hits s (length s) l = [].
Proof.
  induction 1 as [|x l Hx _ IH]; [done|]. unfold hits, hit_of in *. cbn [omap list_omap].
  by rewrite read_at_end by done.
Qed.

Lemma push_pop v p : pop_param v (push_param v p) = p.
Proof. by destruct v, p; cbn; rewrite removelast_last. Qed.
End Read.

(** ** find *)

(** Every child's label has an item. *)
Inductive labelled : Node → Prop :=
| labelled_intro r b k p cs :
    Forall (λ c, label c ≠ []) cs → Forall labelled cs → labelled (MkNode r b k p cs).

Section Find.
Context `{Doubles}.
Abbreviation hit := (Z * list param_value)%type.

(** A result, or the locals of [find], hold the values read after those in [p]. *)
Definition holds (p : routing_params) (r : Z) (ps : routing_params) (a : option hit) : Prop :=
  match a with
  | None => r = 0
  | Some (r', vs) => r' ≠ 0 ∧ r = r' ∧ ps = push_all p vs
  end.

Definition finds_hits (url : bytes) (n : Node) : Prop :=
  ∀ pos st, f_params (find_from url n pos st).2 = f_params st ∧
    let '(r, _, ps) := (find_from url n pos st).1 in
    holds (f_params st) r ps (least_hit (hits url pos (paths n))).

Lemma update_found_holds p l r bps ps a b :
  holds p (found l) (match_params l) a → holds p r ps b →
  holds p (found (update_found l (r, bps, ps))) (match_params (update_found l (r, bps, ps)))
    (better a b).
Proof.
  destruct l as [f fb mp ff]. unfold update_found. cbn [found match_params].
  destruct a as [[ra va]|], b as [[rb vb]|]; cbn.
  - intros (N1 & -> & ->) (N2 & -> & ->).
    rewrite (proj2 (Z.eqb_neq ra 0)), (proj2 (Z.eqb_neq rb 0)) by done.
    cbn. destruct (rb <? ra); cbn; auto.
  - intros (N1 & -> & ->) ->. cbn. auto.
  - intros -> (N2 & -> & ->). rewrite (proj2 (Z.eqb_neq rb 0)) by done. cbn. auto.
  - by intros -> ->.
Qed.

Lemma update_found_none p l r bps ps a :
  holds p (found l) (match_params l) a → holds p r ps None →
  holds p (found (update_found l (r, bps, ps))) (match_params (update_found l (r, bps, ps))) a.
Proof. intros Ha Hb. rewrite <- (better_none_r a). by apply update_found_holds. Qed.

(** Reading below a parameter, and below a key. *)
Lemma hits_param url pos c :
  is_param c = true →
  hits url pos (branch c) =
  match match_param (node_param c) url pos with
  | Some (v, pos') => (λ x, (x.1, v :: x.2)) <$> hits url pos' (paths c)
  | None => []
  end.
Proof.
  intros Hp. unfold hits, branch, label. rewrite Hp.
  destruct (match_param (node_param c) url pos) as [[v pos']|] eqn:E.
  - induction (paths c) as [|x l IH]; [done|]. cbn. unfold hit_of at 1 3. cbn. rewrite E.
    destruct (read_url url x.1 pos'); cbn; [by f_equal|done].
  - induction (paths c) as [|x l IH]; [done|]. cbn. unfold hit_of at 1. cbn. by rewrite E.
Qed.

Lemma hits_key url pos c :
  is_param c = false →
  hits url pos (branch c) =
  if compare_at url pos (key c) then hits url (pos + length (key c))%nat (paths c) else [].
Proof.
  intros Hp. unfold hits, branch, label. rewrite Hp.
  destruct (compare_at url pos (key c)) eqn:E;
    induction (paths c) as [|x l IH]; try done; cbn; unfold hit_of at 1; cbn;
    rewrite read_key, E; cbn; [|done].
  change (hit_of url (pos + length (key c)) x) with (pair x.2 <$> read_url url x.1 (pos + length (key c))).
  by destruct (read_url url x.1 (pos + length (key c))); cbn; [f_equal|].
Qed.

Lemma least_hit_values v l :
  least_hit ((λ x : hit, (x.1, v :: x.2)) <$> l) = (λ x : hit, (x.1, v :: x.2)) <$> least_hit l.
Proof.
  induction l as [|x l IH]; [done|]. cbn [fmap list_fmap least_hit foldr].
  fold (least_hit l) (least_hit ((λ x : hit, (x.1, v :: x.2)) <$> l)). rewrite IH.
  destruct (least_hit l) as [y|]; [|done]. cbn. by destruct (y.1 <? x.1).
Qed.

Lemma find_child_hits url pos c l st a :
  finds_hits url c → holds (f_params st) (found l) (match_params l) a →
  let '(l1, st1) := find_child (find_from url) url pos c (l, st) in
  f_params st1 = f_params st ∧
  holds (f_params st) (found l1) (match_params l1) (better a (least_hit (hits url pos (branch c)))).
Proof.
  intros Hc Ha. unfold find_child. destruct (is_param c) eqn:Hp.
  - rewrite hits_param by done. destruct (match_param (node_param c) url pos) as [[v pos']|].
    2:{ change (least_hit []) with (@None hit). by rewrite better_none_r. }
    set (st0 := push_blueprint c _).
    assert (f_params st0 = push_param v (f_params st)) as E0.
    { unfold st0, push_blueprint. by case_match. }
    destruct (Hc pos' st0) as [H1 H2].
    destruct (find_from url c pos' st0) as [[[r bps] ps] st1]. cbn [fst snd] in *.
    split; [by cbn; rewrite H1, E0, push_pop|].
    apply update_found_holds; [done|]. rewrite least_hit_values. rewrite E0 in H2.
    by destruct (least_hit (hits url pos' (paths c))) as [[r' vs]|].
  - rewrite hits_key by done. destruct (compare_at url pos (key c));
      [|change (least_hit []) with (@None hit); by rewrite better_none_r].
    set (st0 := push_blueprint c st).
    assert (f_params st0 = f_params st) as E0 by (unfold st0, push_blueprint; by case_match).
    destruct (Hc (pos + length (key c))%nat st0) as [H1 H2].
    destruct (find_from url c _ st0) as [[[r bps] ps] st1]. cbn [fst snd] in *.
    rewrite E0 in *. split; [done|]. by apply update_found_holds.
Qed.

Lemma find_children_hits url pos cs l st a :
  Forall (finds_hits url) cs → holds (f_params st) (found l) (match_params l) a →
  let '(l1, st1) := fold_left (λ acc c, find_child (find_from url) url pos c acc) cs (l, st) in
  f_params st1 = f_params st ∧
  holds (f_params st) (found l1) (match_params l1)
    (better a (least_hit (hits url pos (flat_map branch cs)))).
Proof.
  intros HF. revert l st a. induction HF as [|c cs Hc _ IH]; intros l st a Ha; cbn [fold_left flat_map].
  { change (least_hit (hits url pos [])) with (@None hit). by rewrite better_none_r. }
  pose proof (find_child_hits url pos c l st a Hc Ha) as H1.
  destruct (find_child _ _ _ c (l, st)) as [l1 st1]. destruct H1 as [E1 H1]. rewrite <- E1 in H1.
  specialize (IH l1 st1 _ H1).
  destruct (fold_left _ cs (l1, st1)) as [l2 st2]. rewrite E1 in IH.
  by rewrite hits_app, least_hit_app, better_assoc.
Qed.

Lemma branch_items c : label c ≠ [] → Forall (λ x : list item * Z, x.1 ≠ []) (branch c).
Proof.
  intros N. apply Forall_fmap, Forall_true. intros x. cbn. by intros [? _]%app_nil.
Qed.

Lemma find_from_hits url n : labelled n → finds_hits url n.
Proof.
  induction n as [r b k p cs IH] using Node_ind_children. intros Hl pos st.
  inversion Hl as [? ? ? ? ? HL HC]; subst. cbn [find_from]. rewrite paths_unfold. cbn [rule_index children].
  rewrite hits_app, least_hit_app.
  destruct (Nat.eqb_spec pos (length url)) as [->|E].
  - split; [done|]. cbn [fst].
    assert (hits url (length url) (flat_map branch cs) = []) as ->.
    { apply hits_at_end. clear -HL. induction HL; cbn; [constructor|].
      apply Forall_app. split; [by apply branch_items|done]. }
    change (least_hit []) with (@None hit). rewrite better_none_r. unfold own. destruct (Z.eqb_spec r 0) as [->|N]; [done|].
    unfold hits, hit_of. cbn. by rewrite Nat.eqb_refl.
  - assert (hits url pos (own r) = []) as ->.
    { unfold own. destruct (r =? 0); [done|]. unfold hits, hit_of. cbn.
      by rewrite (proj2 (Nat.eqb_neq _ _) E). }
    cbn [least_hit foldr better].
    assert (Forall (finds_hits url) cs) as HF by (rewrite Forall_forall in *; auto).
    pose proof (find_children_hits url pos cs (MkLocals 0 [] no_params false) st None HF eq_refl) as Hf.
    destruct (fold_left _ cs _) as [l st1]. cbn [better] in Hf. destruct Hf as [E1 Hf].
    destruct (found_fragment l); cbn; auto.
Qed.

(** [find] answers with the least rule that reads the path. *)
Lemma find_hits head s :
  labelled head →
  let '(r, _, ps) := find head s in
  holds no_params r ps (least_hit (hits s 0 (paths head))).
Proof.
  intros Hl. destruct (find_from_hits s head Hl 0%nat (MkFind no_params [])) as [_ Hf].
  unfold find. by destruct (find_from s head 0 _) as [[[r bps] ps] st1].
Qed.
End Find.

(** ** The items of a URL, from a position on *)

Lemma url_items_skip k u : url_items k u = url_items 0 (drop k u).
Proof. revert k. induction u as [|c u IH]; intros [|k]; try done. cbn [url_items drop]. apply IH. Qed.

Lemma trait_at_drop url i : trait_at (drop i url) 0 = trait_at url i.
Proof. done. Qed.

Lemma trait_at_cons t n u i :
  trait_at u i = Some (t, n) → t ≠ MAX ∧ ∃ m, n = S m ∧ (i + n ≤ length u)%nat.
Proof.
  unfold trait_at. destruct (List.find _ paramTraits) as [[t' s]|] eqn:E; [|done]. cbn.
  intros [= -> <-]. apply List.find_some in E as [Hin E]. apply list_elem_of_In in Hin.
  unfold compare_at in E. apply bool_decide_eq_true in E. apply (f_equal length) in E.
  cbn [snd] in E. rewrite length_take, length_drop in E.
  assert (length (list_ascii_of_string s) ≤ length u - i)%nat as L by lia. clear E.
  unfold paramTraits in Hin. rewrite !elem_of_cons, elem_of_nil in Hin.
  destruct_or! Hin; try done; injection Hin as -> ->; cbn in L |- *; (split; [done|]);
    eexists; (split; [done|lia]).
Qed.

Lemma url_items_at url i :
  url_items 0 (drop i url) =
  match url !! i with
  | None => Some []
  | Some c =>
      if Ascii.eqb c "<" then
        match trait_at url i with
        | Some (t, n) => cons (inr t) <$> url_items 0 (drop (i + n) url)
        | None => None
        end
      else cons (inl c) <$> url_items 0 (drop (S i) url)
  end.
Proof.
  destruct (url !! i) as [c|] eqn:E.
  - rewrite (drop_S url c i E) at 1. cbn [url_items]. destruct (Ascii.eqb c "<"); [|done].
    rewrite <- (drop_S url c i E), trait_at_drop.
    destruct (trait_at url i) as [[t n]|] eqn:Et; [|done].
    destruct (trait_at_cons _ _ _ _ Et) as (_ & m & -> & _). cbn [pred].
    by rewrite url_items_skip, drop_drop, Nat.add_succ_r.
  - apply lookup_ge_None in E. by rewrite drop_ge.
Qed.

(** ** add *)

(** Each label is one item, and no two children of a node have the same. *)
Definition key_one (c : Node) : Prop := if is_param c then key c = [] else length (key c) = 1%nat.
Inductive tree : Node → Prop :=
| tree_intro r b k p cs :
    NoDup (label <$> cs) → Forall key_one cs → Forall tree cs → tree (MkNode r b k p cs).

Lemma tree_inv n :
  tree n → NoDup (label <$> children n) ∧ Forall key_one (children n) ∧ Forall tree (children n).
Proof. by intros []. Qed.

Lemma tree_labelled n : tree n → labelled n.
Proof.
  induction n as [r b k p cs IH] using Node_ind_children. intros Ht.
  destruct (tree_inv _ Ht) as (_ & HK & HT). cbn in HK, HT.
  constructor; rewrite Forall_forall in *; [|auto].
  intros c Hc. specialize (HK c Hc). unfold key_one in HK. unfold label.
  destruct (is_param c); [done|]. by destruct (key c).
Qed.

Lemma label_one c : key_one c → ∃ x, label c = [x].
Proof.
  unfold key_one, label. destruct (is_param c); [by eexists|].
  intros E. destruct (key c) as [|x [|]]; try done. by eexists.
Qed.

Lemma fresh_paths n : fresh n → paths n = [].
Proof. destruct n. intros [E1 E2]. cbn in E1, E2. subst. done. Qed.

(** A function that finds the child with a label. *)
Definition selects (f : Node → bool) (x : item) : Prop :=
  ∀ c, key_one c → f c = bool_decide (label c = [x]).

Lemma selects_param t : t ≠ MAX → selects (λ x, bool_decide (node_param x = t)) (inr t).
Proof.
  intros Ht c Hk. apply bool_decide_ext. unfold key_one, label, is_param in *.
  destruct (bool_decide_reflect (node_param c = MAX)) as [E|E]; cbn [negb] in *.
  - split; [congruence|]. by destruct (key c).
  - split; [by intros ->|by intros [= ->]].
Qed.

Lemma selects_headed x : x ≠ nul → selects (λ c, Ascii.eqb (key_head c) x) (inl x).
Proof.
  intros Hx c Hk. unfold key_one, label, key_head in *. destruct (is_param c).
  - rewrite Hk, bool_decide_eq_false_2 by done. apply Ascii.eqb_neq. by intros <-.
  - destruct (key c) as [|y [|]]; try done. cbn.
    destruct (Ascii.eqb_spec y x) as [->|N]; symmetry;
      [by apply bool_decide_eq_true_2|by apply bool_decide_eq_false_2; congruence].
Qed.

(** What [add] does to a node: it throws when the items lead to a rule, or adds the rule. *)
Definition adds (items : list item) (rule : Z) (n : Node) (o : outcome Node) : Prop :=
  if decide (items ∈ (paths n).*1) then ∃ why, o = Throw (runtime_error why)
  else ∃ n', o = Val n' ∧ tree n' ∧ label n' = label n ∧ key n' = key n ∧
             node_param n' = node_param n ∧ paths n' ≡ₚ (items, rule) :: paths n.

Lemma paths_step x items n :
  Forall key_one (children n) →
  x :: items ∈ (paths n).*1 ↔
  ∃ c, c ∈ children n ∧ label c = [x] ∧ items ∈ (paths c).*1.
Proof.
  intros HK. rewrite paths_unfold, fmap_app, elem_of_app. split.
  - intros [H|H].
    { unfold own in H. destruct (_ =? 0); [by apply elem_of_nil in H|].
      by apply list_elem_of_singleton in H. }
    apply list_elem_of_fmap in H as ([i r] & Ei & H). cbn in Ei. subst i.
    apply list_elem_of_In, in_flat_map in H as (c & Hc & H). apply list_elem_of_In in Hc, H.
    apply list_elem_of_fmap in H as ([i' r'] & [= E ->] & H).
    rewrite Forall_forall in HK. destruct (label_one c (HK c Hc)) as [y Ey].
    rewrite Ey in E. injection E as <- <-. exists c. split; [done|]. split; [done|].
    apply list_elem_of_fmap. by eexists (_, _).
  - intros (c & Hc & Hl & H). right. apply list_elem_of_fmap in H as ([i r] & E & H).
    cbn in E. subst i. apply list_elem_of_fmap. exists (x :: items, r). split; [done|].
    apply list_elem_of_In, in_flat_map. exists c. split; [by apply list_elem_of_In|].
    apply list_elem_of_In, list_elem_of_fmap. exists (items, r). by rewrite Hl.
Qed.

Lemma unique_child x c c' n :
  tree n → c ∈ children n → c' ∈ children n → label c = [x] → label c' = [x] → c = c'.
Proof.
  intros Ht Hc Hc' E E'. destruct (tree_inv _ Ht) as (HN & _ & _).
  apply list_elem_of_lookup in Hc as [i Hi]. apply list_elem_of_lookup in Hc' as [j Hj].
  assert (i = j) as ->; [|congruence].
  apply (NoDup_lookup _ i j (label c) HN); rewrite list_lookup_fmap, ?Hi, ?Hj; cbn; congruence.
Qed.

(** Replacing a child, or adding a fresh one, with the same label. *)
Lemma relinked_labels f cs old new cs' :
  relinked f cs old new cs' → label new = label old →
  (∃ j, child_index f cs = Some j ∧ label <$> cs' = label <$> cs) ∨
  (child_index f cs = None ∧ label <$> cs' = (label <$> cs) ++ [label new]).
Proof.
  intros [(j & Hj & Ho & ->)|(Hj & _ & ->)] El; [left; exists j|right]; split; try done.
  - rewrite list_fmap_insert, El. apply list_insert_id. by rewrite list_lookup_fmap, Ho.
  - by rewrite fmap_app.
Qed.

Lemma child_index_none f cs c : child_index f cs = None → c ∈ cs → f c = false.
Proof.
  induction cs as [|d cs IH]; cbn; [by rewrite elem_of_nil|].
  destruct (f d) eqn:E; [done|]. destruct (child_index f cs); [done|].
  intros _ [->|]%elem_of_cons; auto.
Qed.

Lemma flat_map_relinked f cs old new cs' e :
  relinked f cs old new cs' → branch new ≡ₚ e :: branch old →
  flat_map branch cs' ≡ₚ e :: flat_map branch cs.
Proof.
  intros [(j & _ & Ho & ->)|(_ & Hf & ->)] HP.
  - rewrite insert_take_drop by by eapply lookup_lt_Some.
    rewrite <- (take_drop_middle cs j old Ho) at 3. rewrite !flat_map_app. cbn [flat_map].
    rewrite HP. cbn [app]. symmetry. apply Permutation_middle.
  - rewrite flat_map_app. cbn [flat_map]. rewrite app_nil_r, HP. unfold branch at 2.
    rewrite (fresh_paths old Hf). cbn. by rewrite Permutation_app_comm.
Qed.

(** One item of [add]: the child it leads to has the rest added. *)
Lemma adds_step x items rule f go fresh_child idx :
  tree idx → selects f x → label fresh_child = [x] → key_one fresh_child → fresh fresh_child →
  (∀ old, tree old → adds items rule old (go old)) →
  adds (x :: items) rule idx
    match child_index f (children idx) with
    | Some j =>
        outcome_map (λ c, set_children (<[j := c]> (children idx)) idx)
          (go (default new_node (children idx !! j)))
    | None => outcome_map (λ c, set_children (children idx ++ [c]) idx) (go fresh_child)
    end.
Proof.
  intros Ht Hs Hl Hk Hf IH. destruct (tree_inv _ Ht) as (HN & HK & HT).
  destruct (descend_relinked f (children idx) go fresh_child idx)
    as (old & cs_of & Hr & Ho & Hin & ->); [by rewrite Hs, bool_decide_eq_true_2|done|].
  assert (tree fresh_child) as Htf.
  { destruct Hf as [_ E]. destruct fresh_child. cbn in E. subst.
    constructor; [by constructor|done|done]. }
  assert (tree old ∧ key_one old) as [Hto Hko].
  { rewrite Forall_forall in HK, HT. destruct Hin as [->|Hin]; auto. }
  assert (label old = [x]) as Elo by by rewrite Hs in Ho by done; apply bool_decide_eq_true in Ho.
  assert (x :: items ∈ (paths idx).*1 ↔ items ∈ (paths old).*1) as Hiff.
  { rewrite paths_step by done. destruct Hin as [->|Hin].
    - rewrite (fresh_paths _ Hf). split; [|by intros ?%elem_of_nil]. intros (c & Hc & El & Hi).
      destruct (Hr fresh_child) as [(j & _ & Hc' & _)|(Hj & _)].
      + apply list_elem_of_lookup_2 in Hc'.
        rewrite (unique_child x c fresh_child idx), (fresh_paths _ Hf) in Hi by done. done.
      + pose proof (child_index_none _ _ _ Hj Hc) as E. rewrite Forall_forall in HK.
        rewrite Hs, bool_decide_eq_false in E by auto. done.
    - split; [|intros; by exists old]. intros (c & Hc & El & H).
      by rewrite <- (unique_child x c old idx). }
  specialize (IH old Hto). unfold adds in *. destruct (decide (items ∈ _)) as [D|D].
  - rewrite decide_True by by apply Hiff. destruct IH as [why ->]. by exists why.
  - rewrite decide_False by by rewrite Hiff.
    destruct IH as (new & -> & Htn & Eln & Ekn & Epn & HP). cbn [outcome_map outcome_bind].
    eexists. split; [done|]. destruct idx as [r b k p cs]. cbn [set_children children] in *.
    assert (key_one new) as Hkn by by unfold key_one, is_param in *; rewrite Ekn, Epn.
    split; [constructor|split_and!; try done].
    + destruct (relinked_labels _ _ _ _ _ (Hr new) Eln) as [(j & _ & ->)|(Hj & ->)]; [done|].
      apply NoDup_app. split; [done|]. split; [|apply NoDup_singleton].
      intros l Hl1 ->%list_elem_of_singleton. apply list_elem_of_fmap in Hl1 as (c & Ec & Hc).
      pose proof (child_index_none _ _ _ Hj Hc) as E. rewrite Forall_forall in HK.
      rewrite Hs, bool_decide_eq_false in E by auto. congruence.
    + by apply (Forall_relinked _ _ _ _ _ _ (Hr new)).
    + by apply (Forall_relinked _ _ _ _ _ _ (Hr new)).
    + rewrite !paths_unfold. cbn [rule_index children].
      rewrite (flat_map_relinked _ _ _ _ _ (x :: items, rule) (Hr new)).
      * by rewrite Permutation_middle.
      * unfold branch. rewrite HP, Eln, Elo. done.
Qed.

Lemma items_nil_in n : Forall key_one (children n) → [] ∈ (paths n).*1 ↔ rule_index n ≠ 0.
Proof.
  intros HK. rewrite paths_unfold, fmap_app, elem_of_app. unfold own. split.
  - intros [H|H]; [by destruct (Z.eqb_spec (rule_index n) 0); [apply elem_of_nil in H|]|].
    exfalso. apply list_elem_of_fmap in H as ([i r] & Ei & H). cbn in Ei. subst i.
    apply list_elem_of_In, in_flat_map in H as (c & Hc & H). apply list_elem_of_In in Hc, H.
    apply list_elem_of_fmap in H as ([i' r'] & [= E _] & _).
    rewrite Forall_forall in HK. destruct (label_one c (HK c Hc)) as [y Ey]. by rewrite Ey in E.
  - intros N. left. rewrite (proj2 (Z.eqb_neq _ _) N). by left.
Qed.

Lemma adds_end why rule idx :
  tree idx → rule ≠ 0 →
  adds [] rule idx
    (if rule_index idx =? 0 then Val (set_rule_index rule idx) else Throw (runtime_error why)).
Proof.
  intros Ht Hr. destruct (tree_inv _ Ht) as (HN & HK & HT). unfold adds.
  destruct (Z.eqb_spec (rule_index idx) 0) as [E|E].
  - rewrite decide_False by (rewrite items_nil_in by done; congruence).
    eexists. split; [done|]. destruct idx as [r b k p cs]. cbn in E, HN, HK, HT |- *. subst r.
    split; [by constructor|split_and!; try done]. rewrite !paths_unfold. unfold own. cbn.
    by rewrite (proj2 (Z.eqb_neq _ _) Hr).
  - rewrite decide_True by by apply items_nil_in. by exists why.
Qed.

(** [add] of a URL whose items are known. *)
Lemma add_below_adds url rule bpl bp items : nul ∉ url → rule ≠ 0 →
  ∀ fuel i idx, tree idx → url_items 0 (drop i url) = Some items → (length items < fuel)%nat →
  adds items rule idx (add_below fuel url i rule bpl bp idx).
Proof.
  intros Hn Hr. induction items as [|x items IH]; intros fuel i idx Ht E F;
    (destruct fuel as [|fuel]; [cbn in F; lia|]); rewrite url_items_at in E; cbn [add_below].
  - destruct (url !! i) as [c|]; [|by apply adds_end].
    destruct (Ascii.eqb c "<"); [destruct (trait_at url i) as [[t n]|]; [|done]|];
      by destruct (url_items 0 _).
  - destruct (url !! i) as [c|] eqn:Ei; [|done]. destruct (Ascii.eqb c "<").
    + destruct (trait_at url i) as [[t n]|] eqn:Et; [|done].
      destruct (trait_at_cons _ _ _ _ Et) as (Hm & _).
      destruct (url_items 0 (drop (i + n) url)) as [items'|] eqn:E'; [|done].
      cbn in E. injection E as <- <-.
      apply (adds_step (inr t) items' rule _ (add_below fuel url (i + n) rule bpl bp)); try done.
      * by apply selects_param.
      * unfold label, is_param. cbn. by rewrite bool_decide_eq_false_2.
      * unfold key_one, is_param. cbn. by rewrite bool_decide_eq_false_2.
      * intros old Ho. apply IH; [done|done|cbn in F; lia].
    + destruct (url_items 0 (drop (S i) url)) as [items'|] eqn:E'; [|done].
      cbn in E. injection E as <- <-.
      apply (adds_step (inl c) items' rule _ (add_below fuel url (S i) rule bpl bp)); try done.
      * apply selects_headed. intros ->. apply Hn. by eapply list_elem_of_lookup_2.
      * intros old Ho. apply IH; [done|done|cbn in F; lia].
Qed.

Lemma url_items_length u k items : url_items k u = Some items → (length items ≤ length u)%nat.
Proof.
  revert k items. induction u as [|c u IH]; intros k items; cbn [url_items].
  { by intros [= <-]. }
  destruct k as [|k]; [|intros H; specialize (IH _ _ H); cbn; lia].
  destruct (Ascii.eqb c "<"); [destruct (trait_at _ 0) as [[t n]|]; [|done]|];
    match goal with |- cons _ <$> ?o = _ → _ => destruct o as [l|] eqn:E end; try done;
    intros [= <-]; specialize (IH _ _ E); cbn; lia.
Qed.

Lemma add_adds url rule bpl bp items head :
  nul ∉ url → rule ≠ 0 → tree head → url_items 0 url = Some items →
  adds items rule head (add url rule bpl bp head).
Proof.
  intros Hn Hr Ht E. apply add_below_adds; [done..|by rewrite drop_0|].
  pose proof (url_items_length _ _ _ E). lia.
Qed.

(** A ['<'] that begins no parameter: the loop does not end. *)
Lemma add_below_diverges url rule bpl bp fuel i idx :
  url_items 0 (drop i url) = None → add_below fuel url i rule bpl bp idx = OutOfFuel.
Proof.
  revert i idx. induction fuel as [|fuel IH]; intros i idx E; [done|].
  rewrite url_items_at in E. cbn [add_below]. destruct (url !! i) as [c|] eqn:Ei; [|done].
  destruct (Ascii.eqb c "<") eqn:Ec.
  - destruct (trait_at url i) as [[t n]|] eqn:Et.
    + destruct (url_items 0 (drop (i + n) url)) eqn:E'; [done|].
      destruct (child_index _ _); by rewrite IH.
    + apply IH. by rewrite url_items_at, Ei, Ec, Et.
  - destruct (url_items 0 (drop (S i) url)) eqn:E'; [done|].
    destruct (child_index _ _); by rewrite IH.
Qed.

(** ** optimize *)

Lemma paths_prefix_key k n : paths (prefix_key k n) = paths n.
Proof. by destruct n. Qed.

Definition joined (n : Node) : Prop :=
  ∀ k, label (prefix_key k n) ≠ [] →
    label (optimizeNode k n) ≠ [] ∧ labelled (optimizeNode k n) ∧
    branch (optimizeNode k n) = branch (prefix_key k n).

Lemma map_joined cs :
  Forall joined cs → Forall (λ c, label c ≠ []) cs →
  Forall (λ c, label c ≠ []) (map (optimizeNode []) cs) ∧ Forall labelled (map (optimizeNode []) cs) ∧
  flat_map branch (map (optimizeNode []) cs) = flat_map branch cs.
Proof.
  induction 1 as [|c cs Hc _ IH]; intros HL; [done|].
  apply Forall_cons in HL as [Hl HL]. destruct (IH HL) as (H1 & H2 & H3).
  destruct (Hc []) as (K1 & K2 & K3); [by rewrite prefix_key_nil|].
  cbn [map flat_map]. rewrite H3, K3, prefix_key_nil. by repeat constructor.
Qed.

Lemma simple_chain_keys r b k p c cs :
  IsSimpleNode (MkNode r b k p (c :: cs)) = true →
  cs = [] ∧ r = 0 ∧ p = MAX ∧ is_param c = false.
Proof.
  unfold IsSimpleNode. cbn. rewrite !andb_true_iff, !negb_true_iff.
  intros ((((Hr & _) & Hl) & Hp) & Hc & _). destruct cs; [|done]. apply Z.eqb_eq in Hr.
  split_and!; try done. unfold is_param in Hp. apply negb_false_iff, bool_decide_eq_true in Hp. done.
Qed.

Lemma optimizeNode_joined n : labelled n → joined n.
Proof.
  induction n as [r b key p cs IH] using Node_ind_children. intros Hw k Hk.
  inversion Hw as [? ? ? ? ? HL HC]; subst.
  destruct cs as [|c cs]; [by split_and!|].
  assert (Forall joined (c :: cs)) as HF by (rewrite Forall_forall in *; auto).
  cbn [optimizeNode]. destruct (IsSimpleNode _) eqn:Es.
  - destruct (simple_chain_keys _ _ _ _ _ _ Es) as (-> & -> & -> & Hc).
    apply Forall_cons in HF as [HF _]. apply Forall_cons in HL as [Hl _].
    assert (label (prefix_key (k ++ key) c) = label (prefix_key k (MkNode 0 b key MAX [c])) ++ label c)
      as El.
    { destruct c. unfold label, is_param in *. cbn in *. rewrite Hc. by rewrite fmap_app. }
    destruct (HF (k ++ key)) as (H1 & H2 & H3).
    { rewrite El. by intros [? _]%app_nil. }
    split_and!; [done|done|]. rewrite H3. unfold branch. rewrite El, !paths_prefix_key.
    rewrite (paths_unfold (MkNode _ _ _ _ _)). unfold branch. cbn. rewrite app_nil_r.
    rewrite <- list_fmap_compose. apply list_fmap_ext. intros i x _. cbn. by rewrite app_assoc.
  - destruct (map_joined _ HF HL) as (H1 & H2 & H3).
    split_and!; [done|by constructor|]. unfold branch. rewrite paths_prefix_key, !paths_unfold.
    cbn [rule_index children]. by rewrite H3.
Qed.

Lemma optimize_paths head :
  labelled head → labelled (optimize head) ∧ paths (optimize head) = paths head.
Proof.
  intros Hw. destruct head as [r b k p cs]. inversion Hw as [? ? ? ? ? HL HC]; subst.
  assert (Forall joined cs) as HF.
  { eapply Forall_impl; [exact HC|]. intros c. apply optimizeNode_joined. }
  destruct (map_joined _ HF HL) as (H1 & H2 & H3).
  split; [by constructor|]. rewrite !paths_unfold. unfold optimize. cbn [set_children rule_index children].
  by rewrite H3.
Qed.

(** ** Tables of URLs *)

(** A URL, its rule, and the blueprint it is added with. *)
Record entry : Type := MkEntry { e_url : bytes; e_rule : Z; e_prefix : Z; e_blueprint : Z }.

Fixpoint add_urls (table : list entry) (head : Node) : outcome Node :=
  match table with
  | [] => Val head
  | e :: table =>
      outcome_bind (add (e_url e) (e_rule e) (e_prefix e) (e_blueprint e) head) (add_urls table)
  end.

Definition items_of (u : bytes) : list item := default [] (url_items 0 u).
Definition table_of (table : list entry) : list (list item * Z) :=
  (λ e, (items_of (e_url e), e_rule e)) <$> table.

(** URLs whose tags are parameters, and rules that are not 0. *)
Definition entry_ok (e : entry) : Prop :=
  is_Some (url_items 0 (e_url e)) ∧ nul ∉ e_url e ∧ e_rule e ≠ 0.

(** The URLs of a table are all added when no two of them have the same items, and otherwise
    one of them is refused. *)
Lemma add_urls_adds table head :
  Forall entry_ok table → tree head →
  if decide (NoDup ((paths head ++ table_of table).*1))
  then ∃ h, add_urls table head = Val h ∧ tree h ∧ paths h ≡ₚ paths head ++ table_of table
  else NoDup (paths head).*1 → ∃ why, add_urls table head = Throw (runtime_error why).
Proof.
  intros HT. revert head. induction HT as [|e table (Hi & Hn & Hr) _ IH]; intros head Ht.
  { cbn. rewrite app_nil_r. case_decide as D; [by exists head|done]. }
  destruct Hi as [items E]. cbn [add_urls table_of fmap list_fmap].
  pose proof (add_adds _ _ (e_prefix e) (e_blueprint e) _ _ Hn Hr Ht E) as Ha.
  assert (items_of (e_url e) = items) as -> by by unfold items_of; rewrite E.
  unfold adds in Ha. fold (table_of table). destruct (decide (items ∈ _)) as [D|D].
  - destruct Ha as [why ->]. rewrite decide_False; [intros _; by exists why|].
    rewrite fmap_app, NoDup_app. intros (_ & H & _). apply (H items D). by left.
  - destruct Ha as (h & -> & Hth & _ & _ & _ & HP). cbn [outcome_bind].
    specialize (IH h Hth).
    assert (paths h ++ table_of table ≡ₚ paths head ++ (items, e_rule e) :: table_of table) as HP'.
    { by rewrite HP, <- Permutation_middle. }
    destruct (decide (NoDup (paths h ++ _).*1)) as [D1|D1]; rewrite HP' in D1.
    + rewrite decide_True by done. destruct IH as (h' & Ev & Ht' & HP2). exists h'.
      by rewrite HP2, HP'.
    + rewrite decide_False by done. intros HN. apply IH. rewrite HP. cbn. by constructor.
Qed.

Section Tables.
Context `{Doubles}.

Lemma least_hit_spec (l : list (Z * list param_value)) :
  match least_hit l with
  | None => l = []
  | Some x => x ∈ l ∧ ∀ y, y ∈ l → x.1 ≤ y.1
  end.
Proof.
  induction l as [|x l IH]; [done|]. cbn [least_hit foldr]. fold (least_hit l).
  destruct (least_hit l) as [y|]; cbn.
  - destruct IH as [Hin Hle]. destruct (Z.ltb_spec y.1 x.1) as [Hlt|Hge].
    + split; [by right|]. intros z [->|Hz]%elem_of_cons; [lia|auto].
    + split; [by left|]. intros z [->|Hz]%elem_of_cons; [done|]. specialize (Hle z Hz). lia.
  - subst l. split; [by left|]. by intros z ->%list_elem_of_singleton.
Qed.

(** What a tree answers for the path [s]: the least rule of the entries whose URL reads it, and
    the values that one reads; no rule when there is none. *)
Definition answers_table (table : list entry) (s : bytes) (t : Z * list Z * routing_params) : Prop :=
  let '(r, _, ps) := t in
  (r = 0 ∧ ∀ e, e ∈ table → read_url s (items_of (e_url e)) 0 = None) ∨
  (∃ e vs, e ∈ table ∧ e_rule e = r ∧ read_url s (items_of (e_url e)) 0 = Some vs ∧
           ps = push_all no_params vs ∧
           ∀ e', e' ∈ table → is_Some (read_url s (items_of (e_url e')) 0) → r ≤ e_rule e').

Lemma hits_of_table s table r vs :
  (r, vs) ∈ hits s 0 (table_of table) ↔
  ∃ e, e ∈ table ∧ e_rule e = r ∧ read_url s (items_of (e_url e)) 0 = Some vs.
Proof.
  unfold hits. rewrite list_elem_of_omap. split.
  - intros ([i r'] & Hin & Hh). apply list_elem_of_fmap in Hin as (e & [= -> ->] & He).
    unfold hit_of in Hh. cbn in Hh. destruct (read_url s _ 0) eqn:E; [|done].
    injection Hh as <- <-. by exists e.
  - intros (e & He & <- & E). exists (items_of (e_url e), e_rule e). split.
    + apply list_elem_of_fmap. by exists e.
    + unfold hit_of. cbn. by rewrite E.
Qed.

Lemma find_answers_table table s h :
  labelled h → paths h ≡ₚ table_of table → answers_table table s (find h s).
Proof.
  intros Hl HP. pose proof (find_hits h s Hl) as Hf. pose proof (least_hit_spec (hits s 0 (paths h))) as Hs.
  destruct (find h s) as [[r bps] ps].
  assert (∀ x, x ∈ hits s 0 (paths h) ↔ x ∈ hits s 0 (table_of table)) as Hin.
  { intros x. unfold hits. rewrite !list_elem_of_omap. by setoid_rewrite HP. }
  destruct (least_hit _) as [[r' vs]|].
  - right. destruct Hf as (_ & -> & ->), Hs as [Hi Hle].
    apply Hin, hits_of_table in Hi as (e & He & Er & Ev). exists e, vs. split_and!; try done.
    intros e' He' [vs' Ev']. apply (Hle (e_rule e', vs')), Hin, hits_of_table. by exists e'.
  - left. split; [done|]. intros e He. destruct (read_url s _ 0) as [vs|] eqn:E; [|done]. exfalso.
    assert ((e_rule e, vs) ∈ hits s 0 (paths h)) as HH by (apply Hin, hits_of_table; by exists e).
    rewrite Hs in HH. by apply elem_of_nil in HH.
Qed.
End Tables.

Lemma add_urls_simple_head table h h' :
  Forall (λ e, rooted (e_url e)) table → simple_head h → add_urls table h = Val h' → simple_head h'.
Proof.
  intros HT. revert h. induction HT as [|e table He _ IH]; intros h Hs; cbn [add_urls].
  { by intros [= <-]. }
  destruct (add _ _ _ _ h) as [h1| | | | |] eqn:E; try done. cbn [outcome_bind]. apply IH.
  by eapply add_simple_head.
Qed.

Lemma new_node_tree : tree new_node.
Proof. constructor; [by constructor|done|done]. Qed.

(** C19: The search tree of a table of URLs, with parameters of any type: all are added when no
    two have the same characters and parameters, and one is refused otherwise; [validate] accepts
    the tree and joins its chains; and, before and after, a request's path is answered with the
    least rule whose URL reads all of it and the values its parameters read, in their order, or
    with no rule when no URL reads it.  Every ['<'] of a URL begins a parameter, URLs start with a
    slash and have no NUL, and rules are not 0. *)
Theorem tree_of_urls `{Doubles} (table : list entry) :
  Forall (λ e, entry_ok e ∧ rooted (e_url e)) table →
  if decide (NoDup (items_of ∘ e_url <$> table))
  then ∃ h, add_urls table new_node = Val h ∧ trie_validate h = inr (optimize h) ∧
         ∀ s, answers_table table s (find h s) ∧ answers_table table s (find (optimize h) s)
  else ∃ why, add_urls table new_node = Throw (runtime_error why).
Proof.
  rewrite Forall_and. intros [HT HR].
  pose proof (add_urls_adds table new_node HT new_node_tree) as Ha.
  assert ((paths new_node ++ table_of table).*1 = (items_of ∘ e_url <$> table)) as E.
  { unfold table_of. rewrite (fresh_paths new_node) by done. cbn. by rewrite <- list_fmap_compose. }
  rewrite E in Ha. destruct (decide (NoDup _)) as [D|D]; [|by apply Ha; constructor].
  destruct Ha as (h & Ev & Ht & HP). exists h.
  pose proof (tree_labelled _ Ht) as Hl. destruct (optimize_paths h Hl) as [Hlo HPo].
  split; [done|]. split; [|split; apply find_answers_table; rewrite ?HPo; done].
  unfold trie_validate. rewrite simple_head_simple; [done|].
  by eapply add_urls_simple_head; eauto using new_node_simple_head.
Qed.

Definition example_urls : list entry :=
  (λ '(u, r), MkEntry (list_ascii_of_string u) r 0 INVALID_BP_ID) <$>
    [("/user/<int>/<string>", 2); ("/user/<uint>", 3); ("/user/me", 4); ("/user/<path>", 5)]%string.

Lemma tree_of_urls_witness :
  ∃ h, add_urls example_urls new_node = Val h ∧ trie_validate h = inr (optimize h) ∧
    ∀ s, answers_table (H := integer_doubles) example_urls s (find (optimize h) s).
Proof.
  assert (Forall (λ e, entry_ok e ∧ rooted (e_url e)) example_urls) as HT.
  { unfold entry_ok, rooted. refine (bool_decide_eq_true_1 _ _). by vm_compute. }
  pose proof (@tree_of_urls integer_doubles example_urls HT) as Hx.
  rewrite decide_True in Hx by (refine (bool_decide_eq_true_1 _ _); by vm_compute).
  destruct Hx as (h & Hh & Hv & Hf). exists h. split; [done|]. split; [done|].
  intros s. apply Hf.
Defined.

(** [/user/me] is read by rules 4 and 5, [/user/-7/x] by rules 2 and 5. *)
Definition example_answer (u : string) : option (Z * list Z * list Z * list bytes) :=
  match add_urls example_urls new_node with
  | Val h =>
      let '(r, _, ps) := @find integer_doubles (optimize h) (list_ascii_of_string u) in
      Some (r, int_params ps, uint_params ps, string_params ps)
  | _ => None
  end.
Example example_answers :
  example_answer <$> ["/user/me"; "/user/-7/x"; "/user/7"; "/none"]%string =
  [Some (4, [], [], []); Some (2, [-7], [], [["x"%char]]); Some (3, [], [7], []);
   Some (0, [], [], [])].
Proof. vm_compute. reflexivity. Qed.
