(* ===== verification/RouteTags.v ===== *)
(** * Types of URL parameters

    lib/crowapi/crow_all.h, the part of [black_magic] that computes, when a program is compiled
    (CROW_ROUTE) or when a dynamic rule is given its handler, a number from the parameters of a
    rule's URL, the types of a handler's arguments from the number, and
    [detail::routing_handler_call_helper], which takes the arguments out of [routing_params].

    A [constexpr] function that throws is a program that does not compile; the exception
    [OutOfRange] of [const_str] is written [out_of_range].  Positions are far from the bounds of
    [unsigned]. *)

From Stdlib Require Import ZArith Lia Ascii String.
From stdpp Require Import base tactics option strings list.
From S2P Require Import Prelude.
From S2P Require Import CppStd.
From S2P Require Import QueryString.
From S2P Require Import Trie.

Local Open Scope Z_scope.

(** ** Tags of a constant string *)

(** [const_str::operator[]] *)
Definition const_at (s : bytes) (i : nat) : outcome ascii :=
  match s !! i with Some c => Val c | None => Throw out_of_range end.

Local Open Scope outcome_scope.

Fixpoint find_closing_tag (fuel : nat) (s : bytes) (p : nat) : outcome nat :=
  match fuel with
  | O => OutOfFuel
  | S fuel =>
      c ← const_at s p;
      if Ascii.eqb c ">" then Val p else find_closing_tag fuel s (S p)
  end.

(** [is_valid(s, i, f)]: every ['<'] is closed before the next one. *)
Fixpoint is_valid_loop (fuel : nat) (s : bytes) (i : nat) (f : Z) : outcome bool :=
  match fuel with
  | O => OutOfFuel
  | S fuel =>
      if Nat.eqb i (length s) then Val (f =? 0)
      else if (f <? 0) || (2 <=? f) then Val false
      else
        c ← const_at s i;
        if Ascii.eqb c "<" then is_valid_loop fuel s (S i) (f + 1)
        else if Ascii.eqb c ">" then is_valid_loop fuel s (S i) (f - 1)
        else is_valid_loop fuel s (S i) f
  end.
Definition is_valid (s : bytes) : outcome bool := is_valid_loop (S (length s)) s 0 0.

Fixpoint is_equ_n (a : bytes) (ai : nat) (b : bytes) (bi n : nat) : outcome bool :=
  if (length a <? ai + n)%nat || (length b <? bi + n)%nat then Val false
  else
    match n with
    | O => Val true
    | S n =>
        x ← const_at a ai;
        y ← const_at b bi;
        if negb (Ascii.eqb x y) then Val false else is_equ_n a (S ai) b (S bi) n
    end.

Definition lit (s : string) : bytes := list_ascii_of_string s.
Definition is_int (s : bytes) (i : nat) : outcome bool := is_equ_n s i (lit "<int>") 0 5.
Definition is_uint (s : bytes) (i : nat) : outcome bool := is_equ_n s i (lit "<uint>") 0 6.
Definition is_float (s : bytes) (i : nat) : outcome bool :=
  b ← is_equ_n s i (lit "<float>") 0 7;
  if b : bool then Val true else is_equ_n s i (lit "<double>") 0 8.
Definition is_str (s : bytes) (i : nat) : outcome bool :=
  b ← is_equ_n s i (lit "<str>") 0 5;
  if b : bool then Val true else is_equ_n s i (lit "<string>") 0 8.
Definition is_path (s : bytes) (i : nat) : outcome bool := is_equ_n s i (lit "<path>") 0 6.

Definition invalid_parameter_type : exn := runtime_error "invalid parameter type".
Definition unmatched_tag : exn := runtime_error "unmatched tag <".

(** [x * 6 + k] on [uint64_t] *)
Definition push_tag (x k : Z) : Z := (x * 6 + k) mod 2 ^ 64.

Fixpoint get_parameter_tag_from (fuel : nat) (s : bytes) (p : nat) : outcome Z :=
  match fuel with
  | O => OutOfFuel
  | S fuel =>
      let after (k : Z) : outcome Z :=
        q ← find_closing_tag (length s) s p;
        t ← get_parameter_tag_from fuel s q;
        Val (push_tag t k) in
      if Nat.eqb p (length s) then Val 0
      else
        c ← const_at s p;
        if Ascii.eqb c "<" then
          b1 ← is_int s p;
          if b1 : bool then after 1
          else
            b2 ← is_uint s p;
            if b2 : bool then after 2
            else
              b3 ← is_float s p;
              if b3 : bool then after 3
              else
                b4 ← is_str s p;
                if b4 : bool then after 4
                else
                  b5 ← is_path s p;
                  if b5 : bool then after 5 else Throw invalid_parameter_type
        else get_parameter_tag_from fuel s (S p)
  end.
Definition get_parameter_tag (s : bytes) : outcome Z :=
  get_parameter_tag_from (S (length s)) s 0.

(** ** Tags at run time, of a C string *)

(** [s[p]]: the terminating NUL may be read. *)
Definition c_at (s : bytes) (p : nat) : outcome ascii :=
  match (s ++ [nul]) !! p with Some c => Val c | None => Undef out_of_bounds end.

(** [std::strncmp(s + p, t, n) == 0] *)
Fixpoint strncmp_eq (s t : bytes) (n : nat) : bool :=
  match n with
  | O => true
  | S n =>
      let x := default nul (head s) in
      let y := default nul (head t) in
      Ascii.eqb x y && (Ascii.eqb x nul || strncmp_eq (tail s) (tail t) n)
  end.

Fixpoint find_closing_tag_runtime (fuel : nat) (s : bytes) (p : nat) : outcome nat :=
  match fuel with
  | O => OutOfFuel
  | S fuel =>
      c ← c_at s p;
      if Ascii.eqb c nul then Throw unmatched_tag
      else if Ascii.eqb c ">" then Val p
      else find_closing_tag_runtime fuel s (S p)
  end.

Fixpoint get_parameter_tag_runtime_from (fuel : nat) (s : bytes) (p : nat) : outcome Z :=
  match fuel with
  | O => OutOfFuel
  | S fuel =>
      let starts (t : string) (n : nat) : bool := strncmp_eq (drop p s) (lit t) n in
      let after (k : Z) : outcome Z :=
        q ← find_closing_tag_runtime (S (length s)) s p;
        t ← get_parameter_tag_runtime_from fuel s q;
        Val (push_tag t k) in
      c ← c_at s p;
      if Ascii.eqb c nul then Val 0
      else if Ascii.eqb c "<" then
        if starts "<int>" 5%nat then after 1
        else if starts "<uint>" 6%nat then after 2
        else if starts "<float>" 7%nat || starts "<double>" 8%nat then after 3
        else if starts "<str>" 5%nat || starts "<string>" 8%nat then after 4
        else if starts "<path>" 6%nat then after 5
        else Throw invalid_parameter_type
      else get_parameter_tag_runtime_from fuel s (S p)
  end.
Definition get_parameter_tag_runtime (s : bytes) : outcome Z :=
  get_parameter_tag_runtime_from (S (length s)) s 0.

(** ** Tags of a handler's arguments *)

(** Types of arguments: those with a tag, [const request&], [response&], and two without. *)
Inductive cpp_type : Type :=
| c_int | c_char | c_short | c_long | c_long_long
| c_unsigned_int | c_unsigned_char | c_unsigned_short | c_unsigned_long | c_unsigned_long_long
| c_double | c_string | c_request | c_response | c_float | c_other.

Definition parameter_tag (t : cpp_type) : Z :=
  match t with
  | c_int | c_char | c_short | c_long | c_long_long => 1
  | c_unsigned_int | c_unsigned_char | c_unsigned_short | c_unsigned_long
  | c_unsigned_long_long => 2
  | c_double => 3
  | c_string => 4
  | c_request | c_response | c_float | c_other => 0
  end.

(** An [int]: an overflow does not compile. *)
Fixpoint compute_parameter_tag_from_args_list (l : list cpp_type) : Z :=
  match l with
  | [] => 0
  | a :: l =>
      let sub_value := compute_parameter_tag_from_args_list l in
      if negb (parameter_tag a =? 0) then sub_value * 6 + parameter_tag a else sub_value
  end.

(** Both remainders are those of [a]. *)
Fixpoint is_parameter_tag_compatible_from (fuel : nat) (a b : Z) : outcome bool :=
  match fuel with
  | O => OutOfFuel
  | S fuel =>
      if a =? 0 then Val (b =? 0)
      else if b =? 0 then Val (a =? 0)
      else
        let sa := a mod 6 in
        let sb := a mod 6 in
        let sa := if sa =? 5 then 4 else sa in
        let sb := if sb =? 5 then 4 else sb in
        if negb (sa =? sb) then Val false
        else is_parameter_tag_compatible_from fuel (a / 6) (b / 6)
  end.
(** Twenty-five divisions bring a [uint64_t] to zero. *)
Definition is_parameter_tag_compatible (a b : Z) : outcome bool :=
  is_parameter_tag_compatible_from 26 a b.

(** [DynamicRule::wrap]: whether the handler is accepted. *)
Definition dynamic_wrap (rule : bytes) (args : list cpp_type) : outcome unit :=
  t ← get_parameter_tag_runtime rule;
  ok ← is_parameter_tag_compatible t (compute_parameter_tag_from_args_list args);
  if negb ok then
    Throw (runtime_error ("route_dynamic: Handler type is mismatched with URL parameters: "
                            +:+ string_of_list_ascii rule))
  else Val tt.

(** ** The arguments of a handler *)

(** [single_tag_to_type], [arguments] *)
Inductive arg_type : Type := Int64 | Uint64 | Double | Str.
Definition single_tag_to_type (n : Z) : option arg_type :=
  if n =? 1 then Some Int64
  else if n =? 2 then Some Uint64
  else if n =? 3 then Some Double
  else if (n =? 4) || (n =? 5) then Some Str
  else None.
Fixpoint arguments_from (fuel : nat) (tag : Z) : option (list arg_type) :=
  match fuel with
  | O => None
  | S fuel =>
      if tag =? 0 then Some []
      else
        match arguments_from fuel (tag / 6), single_tag_to_type (tag mod 6) with
        | Some l, Some t => Some (t :: l)
        | _, _ => None
        end
  end.
Definition arguments (tag : Z) : option (list arg_type) := arguments_from 26 tag.

Section Call.
Context `{Doubles}.

(** [routing_params::get<T>(index)]: [operator[]] of a vector. *)
Definition get_param (t : arg_type) (index : nat) (p : routing_params) : outcome param_value :=
  let element {A} (l : list A) (f : A → param_value) : outcome param_value :=
    match l !! index with Some x => Val (f x) | None => Undef out_of_bounds end in
  match t with
  | Int64 => element (int_params p) IntValue
  | Uint64 => element (uint_params p) UintValue
  | Double => element (double_params p) DoubleValue
  | Str => element (string_params p) StringValue
  end.

Fixpoint get_params (pushed : list (arg_type * nat)) (p : routing_params) :
    outcome (list param_value) :=
  match pushed with
  | [] => Val []
  | (t, pos) :: pushed =>
      v ← get_param t pos p;
      vs ← get_params pushed p;
      Val (v :: vs)
  end.

(** [call<F, NInt, NUint, NDouble, NString, S1, S2>]: [pushed] is [S2], the position of each
    argument in the vector of its type. *)
Fixpoint call (NInt NUint NDouble NString : nat) (args : list arg_type)
    (pushed : list (arg_type * nat)) (p : routing_params) : outcome (list param_value) :=
  match args with
  | Int64 :: args => call (S NInt) NUint NDouble NString args (pushed ++ [(Int64, NInt)]) p
  | Uint64 :: args => call NInt (S NUint) NDouble NString args (pushed ++ [(Uint64, NUint)]) p
  | Double :: args => call NInt NUint (S NDouble) NString args (pushed ++ [(Double, NDouble)]) p
  | Str :: args => call NInt NUint NDouble (S NString) args (pushed ++ [(Str, NString)]) p
  | [] => get_params pushed p
  end.

(** [TaggedRule::handle]: what the handler is given besides the request and the answer. *)
Definition handler_arguments (args : list arg_type) (p : routing_params) :
    outcome (list param_value) :=
  call 0 0 0 0 args [] p.

(** The handler of a dynamic rule: [handler_type_helper] leaves out the request and the answer and
    promotes the other types; none for a type no [call] takes, which does not compile. *)
Definition promote (t : cpp_type) : option arg_type :=
  match t with
  | c_int | c_char | c_short | c_long | c_long_long => Some Int64
  | c_unsigned_int | c_unsigned_char | c_unsigned_short | c_unsigned_long
  | c_unsigned_long_long => Some Uint64
  | c_double | c_float => Some Double
  | c_string => Some Str
  | c_request | c_response | c_other => None
  end.
Definition handler_type (l : list cpp_type) : list cpp_type :=
  match l with
  | c_request :: c_response :: l => l
  | c_request :: l => l
  | l => l
  end.
Definition args_type (l : list cpp_type) : option (list arg_type) := mapM promote (handler_type l).
End Call.

Example tag_of_a_route : get_parameter_tag (lit "/a/<int>/<path>") = Val (5 * 6 + 1).
Proof. vm_compute. reflexivity. Qed.
Example tag_of_no_route : get_parameter_tag (lit "/a/<integer>") = Throw invalid_parameter_type.
Proof. vm_compute. reflexivity. Qed.

(** A tag is a [uint64_t]: the parameters of a URL with twenty-five are not recovered. *)
Example too_many_parameters :
  match get_parameter_tag (concat (repeat (lit "/<string>") 25)) with
  | Val t => t <? 6 ^ 24
  | _ => false
  end = true.
Proof. vm_compute. reflexivity. Qed.
