(* ===== verification/RouteTagsFacts.v ===== *)
(** * Types of URL parameters: theorems

    The number the compiler computes and the one computed at run time are that of the parameters
    the specification reads from the URL; a handler gets the values of the URL's parameters in
    their order; and a dynamic rule checks how many arguments its handler has, not their types. *)

From Stdlib Require Import ZArith Lia Ascii String.
From stdpp Require Import base tactics option strings list.
From S2P Require Import Prelude.
From S2P Require Import CppStd.
From S2P Require Import QueryString.
From S2P Require Import Trie.
From S2P Require Import TrieFacts.
From S2P Require Import RouteParams.
From S2P Require Import RouteTags.

Local Open Scope Z_scope.

(** ** Comparisons *)

Lemma is_equ_n_spec a ai b bi n :
  is_equ_n a ai b bi n =
  Val (bool_decide ((ai + n ≤ length a)%nat ∧ (bi + n ≤ length b)%nat ∧
                    take n (drop ai a) = take n (drop bi b))).
Proof.
  revert ai bi. induction n as [|n IH]; intros ai bi; cbn [is_equ_n];
    destruct ((length a <? ai + _)%nat || (length b <? bi + _)%nat) eqn:E.
  - apply orb_true_iff in E. rewrite !Nat.ltb_lt in E. f_equal. symmetry. apply bool_decide_eq_false_2. lia.
  - apply orb_false_iff in E. rewrite !Nat.ltb_ge in E. f_equal. symmetry. apply bool_decide_eq_true_2.
    by destruct E.
  - apply orb_true_iff in E. rewrite !Nat.ltb_lt in E. f_equal. symmetry. apply bool_decide_eq_false_2. lia.
  - apply orb_false_iff in E. rewrite !Nat.ltb_ge in E. destruct E as [Ea Eb].
    destruct (lookup_lt_is_Some_2 a ai) as [x Hx]; [lia|].
    destruct (lookup_lt_is_Some_2 b bi) as [y Hy]; [lia|].
    unfold const_at. rewrite Hx, Hy. cbn [outcome_bind].
    rewrite (drop_S a x ai Hx), (drop_S b y bi Hy). cbn [take].
    destruct (Ascii.eqb_spec x y) as [->|N]; cbn [negb].
    + rewrite IH. f_equal. apply bool_decide_ext. split; intros (H1 & H2 & H3);
        split_and!; try lia; [by f_equal|by injection H3].
    + f_equal. symmetry. apply bool_decide_eq_false_2. intros (_ & _ & [=]). done.
Qed.

Lemma length_lit t : length (lit t) = String.length t.
Proof. unfold lit. induction t as [|c t IH]; cbn; congruence. Qed.

(** Whether a literal stands at a position, and the two ways the code decides it. *)
Definition stands (s : bytes) (p : nat) (t : string) : bool :=
  bool_decide (take (String.length t) (drop p s) = lit t).

Lemma is_equ_literal s i t n :
  n = String.length t → (0 < n)%nat → is_equ_n s i (lit t) 0 n = Val (stands s i t).
Proof.
  intros -> N. rewrite is_equ_n_spec. f_equal. unfold stands. apply bool_decide_ext.
  pose proof (length_lit t) as L.
  rewrite drop_0, (take_ge (lit t)) by lia. split; [by intros (_ & _ & ?)|].
  intros E. apply (f_equal length) in E as El. rewrite length_take, length_drop, L in El.
  split_and!; [lia..|done].
Qed.

Lemma strncmp_take s t n :
  length t = n → nul ∉ t → strncmp_eq s t n = bool_decide (take n s = t).
Proof.
  revert s t. induction n as [|n IH]; intros s t L N; cbn [strncmp_eq].
  { destruct t; [|done]. symmetry. by apply bool_decide_eq_true_2. }
  destruct t as [|y t]; [done|]. apply not_elem_of_cons in N as [Ny Nt].
  change (default nul (head (y :: t))) with y.
  destruct s as [|x s]; [change (default nul (head [])) with nul
                        |change (default nul (head (x :: s))) with x]; cbn [tail].
  - rewrite (proj2 (Ascii.eqb_neq nul y)) by done. symmetry. by apply bool_decide_eq_false_2.
  - destruct (Ascii.eqb_spec x y) as [->|Nx]; cbn [andb take].
    + rewrite (proj2 (Ascii.eqb_neq y nul)) by congruence. cbn [orb].
      rewrite IH by (cbn in L; lia || done). apply bool_decide_ext. split; [by intros ->|by intros [=]].
    + symmetry. apply bool_decide_eq_false_2. by intros [=].
Qed.

(** ** From a ['<'] to its ['>'] *)

Lemma find_closing_at fuel s p pre rest :
  drop p s = pre ++ ">"%char :: rest → ">"%char ∉ pre → (length pre < fuel)%nat →
  find_closing_tag fuel s p = Val (p + length pre)%nat.
Proof.
  revert fuel p. induction pre as [|c pre IH]; intros fuel p D N F;
    (destruct fuel as [|fuel]; [cbn in F; lia|]); cbn [find_closing_tag]; unfold const_at;
    rewrite <- (Nat.add_0_r p) at 1; rewrite <- lookup_drop, D; cbn [app lookup list_lookup outcome_bind].
  - rewrite Ascii.eqb_refl. f_equal. cbn. lia.
  - apply not_elem_of_cons in N as [Nc N]. rewrite (proj2 (Ascii.eqb_neq c _)) by congruence.
    rewrite (IH fuel (S p)); [f_equal; cbn; lia| |done|cbn in F; lia].
    replace (S p) with (p + 1)%nat by lia. by rewrite <- drop_drop, D.
Qed.

Lemma find_closing_runtime_at fuel s p pre rest :
  drop p s = pre ++ ">"%char :: rest → ">"%char ∉ pre → nul ∉ pre → (length pre < fuel)%nat →
  find_closing_tag_runtime fuel s p = Val (p + length pre)%nat.
Proof.
  revert fuel p. induction pre as [|c pre IH]; intros fuel p D N N0 F;
    (destruct fuel as [|fuel]; [cbn in F; lia|]); cbn [find_closing_tag_runtime]; unfold c_at;
    rewrite lookup_app_l
      by (apply (f_equal length) in D; rewrite length_drop, length_app in D; cbn in D; lia);
    rewrite <- (Nat.add_0_r p) at 1; rewrite <- lookup_drop, D; cbn [app lookup list_lookup outcome_bind].
  - cbn. f_equal. lia.
  - apply not_elem_of_cons in N as [Nc N]. apply not_elem_of_cons in N0 as [Nn N0].
    rewrite (proj2 (Ascii.eqb_neq c nul)), (proj2 (Ascii.eqb_neq c ">")) by congruence.
    rewrite (IH fuel (S p)); [f_equal; cbn; lia| |done|done|cbn in F; lia].
    replace (S p) with (p + 1)%nat by lia. by rewrite <- drop_drop, D.
Qed.

(** ** The parameters of a URL *)

Definition params_in (items : list item) : list ParamType :=
  omap (λ i : item, match i with inl _ => None | inr t => Some t end) items.
Definition tag_number (t : ParamType) : Z :=
  match t with INT => 1 | UINT => 2 | DOUBLE => 3 | STRING => 4 | PATH => 5 | MAX => 0 end.
Definition tag_of (ts : list ParamType) : Z := foldr (λ t acc, push_tag acc (tag_number t)) 0 ts.

(** What both functions compute from a position on. *)
Definition tag_result (u : bytes) : outcome Z :=
  match url_items 0 u with
  | Some items => Val (tag_of (params_in items))
  | None => Throw invalid_parameter_type
  end.

Lemma trait_at_stands s p :
  trait_at s p =
  if stands s p "<int>" then Some (INT, 5%nat)
  else if stands s p "<uint>" then Some (UINT, 6%nat)
  else if stands s p "<float>" then Some (DOUBLE, 7%nat)
  else if stands s p "<double>" then Some (DOUBLE, 8%nat)
  else if stands s p "<str>" then Some (STRING, 5%nat)
  else if stands s p "<string>" then Some (STRING, 8%nat)
  else if stands s p "<path>" then Some (PATH, 6%nat)
  else None.
Proof.
  unfold trait_at, paramTraits. cbn [List.find fst snd].
  repeat match goal with
  | |- context [stands s p ?l] =>
      change (compare_at s p (list_ascii_of_string l)) with (stands s p l);
      destruct (stands s p l); [done|]
  end.
  done.
Qed.

(** A parameter is ['<'], letters, ['>']. *)
Lemma trait_shape s p t n :
  trait_at s p = Some (t, n) →
  ∃ inner, n = S (S (length inner)) ∧ drop p s = "<"%char :: inner ++ ">"%char :: drop (p + n) s ∧
           ">"%char ∉ inner ∧ nul ∉ inner.
Proof.
  rewrite trait_at_stands. intros H.
  assert (∃ l, stands s p l = true ∧ n = String.length l ∧
            ∃ inner, lit l = "<"%char :: inner ++ [">"%char] ∧ ">"%char ∉ inner ∧ nul ∉ inner)
    as (l & St & -> & inner & E & N1 & N2).
  { repeat match type of H with (if ?b then _ else _) = _ =>
      destruct b eqn:?; [injection H as <- <-;
        match goal with St : stands _ _ ?l = true |- _ =>
          exists l; split; [done|split; [done|]];
          exists (removelast (tail (lit l))); split; [|split]; apply (bool_decide_unpack _); by vm_compute end|] end.
    done. }
  exists inner. pose proof (length_lit l) as L. rewrite E in L. cbn in L. rewrite length_app in L.
  cbn in L. split; [lia|]. split; [|done]. apply bool_decide_eq_true_1 in St. rewrite E in St.
  rewrite <- drop_drop. rewrite <- (take_drop (String.length l) (drop p s)) at 1. rewrite St.
  cbn. by rewrite <- app_assoc.
Qed.

(** After the ['>'] of a parameter, both go on. *)
Lemma tag_after s p t n (closing : outcome nat) (rec : nat → outcome Z) :
  trait_at s p = Some (t, n) → closing = Val (p + pred n)%nat →
  rec (p + pred n)%nat = tag_result (drop (p + pred n) s) →
  outcome_bind closing (λ q, outcome_bind (rec q) (λ x, Val (push_tag x (tag_number t)))) =
  tag_result (drop p s).
Proof.
  intros Ht -> Hr. destruct (trait_shape _ _ _ _ Ht) as (inner & -> & D & _).
  cbn [outcome_bind pred] in *. rewrite Hr.
  assert (s !! p = Some "<"%char) as Hp by by rewrite <- (Nat.add_0_r p), <- lookup_drop, D.
  assert (drop (p + S (length inner)) s = ">"%char :: drop (p + S (S (length inner))) s) as ->.
  { rewrite <- drop_drop, D. cbn [drop]. by rewrite drop_app_length. }
  unfold tag_result. rewrite (url_items_at s p), Hp, Ht. cbn [url_items Ascii.eqb Bool.eqb].
  by destruct (url_items 0 (drop (p + S (S (length inner))) s)).
Qed.

Lemma closing_tag s p t n :
  trait_at s p = Some (t, n) →
  find_closing_tag (length s) s p = Val (p + pred n)%nat ∧
  find_closing_tag_runtime (S (length s)) s p = Val (p + pred n)%nat.
Proof.
  intros Ht. destruct (trait_shape _ _ _ _ Ht) as (inner & -> & D & N1 & N2).
  destruct (trait_at_cons _ _ _ _ Ht) as (_ & _ & _ & L).
  change (pred (S (S (length inner)))) with (length ("<"%char :: inner)).
  split; [eapply find_closing_at|eapply find_closing_runtime_at]; try exact D;
    rewrite ?not_elem_of_cons; cbn; try done; lia.
Qed.

Lemma tag_result_skip s p c :
  s !! p = Some c → Ascii.eqb c "<" = false → tag_result (drop (S p) s) = tag_result (drop p s).
Proof.
  intros E Ec. unfold tag_result. rewrite (url_items_at s p), E, Ec.
  by destruct (url_items 0 (drop (S p) s)).
Qed.

Lemma tag_result_bad s p :
  s !! p = Some "<"%char → trait_at s p = None →
  Throw invalid_parameter_type = tag_result (drop p s).
Proof. intros E Et. unfold tag_result. by rewrite url_items_at, E, Et. Qed.

(** The comparisons in the order of [trait_at], and the branch of the parameter found. *)
Ltac follow_tags T :=
  repeat match type of T with
  | _ = (if ?b then _ else _) => destruct b; cbn [outcome_bind orb]
  end.
Ltac by_tag T IH :=
  match type of T with
  | _ = Some (?t, ?n) =>
      let H := fresh in
      pose proof (trait_at_cons _ _ _ _ T) as (_ & _ & _ & H);
      apply (tag_after _ _ t n); [exact T|by apply closing_tag with t|IH; cbn [pred]; lia]
  end.

Lemma get_parameter_tag_at s fuel p :
  (p ≤ length s)%nat → (length s - p < fuel)%nat →
  get_parameter_tag_from fuel s p = tag_result (drop p s).
Proof.
  revert p. induction fuel as [|fuel IH]; intros p Hp F; [lia|]. cbn [get_parameter_tag_from].
  destruct (Nat.eqb_spec p (length s)) as [->|N]; [by rewrite drop_all|].
  destruct (lookup_lt_is_Some_2 s p) as [c Hc]; [lia|]. unfold const_at. rewrite Hc.
  cbn [outcome_bind]. destruct (Ascii.eqb c "<") eqn:Ec.
  2:{ rewrite IH by lia. by apply (tag_result_skip _ _ c). }
  apply Ascii.eqb_eq in Ec as ->.
  unfold is_int, is_uint, is_float, is_str, RouteTags.is_path.
  rewrite !is_equ_literal by (done || lia). cbn [outcome_bind].
  pose proof (trait_at_stands s p) as T. follow_tags T.
  all: try by apply tag_result_bad.
  all: by_tag T ltac:(apply IH).
Qed.

Lemma get_parameter_tag_runtime_at s fuel p :
  nul ∉ s → (p ≤ length s)%nat → (length s - p < fuel)%nat →
  get_parameter_tag_runtime_from fuel s p = tag_result (drop p s).
Proof.
  intros Hn. revert p. induction fuel as [|fuel IH]; intros p Hp F; [lia|].
  cbn [get_parameter_tag_runtime_from]. unfold c_at.
  destruct (decide (p = length s)) as [->|N].
  { rewrite lookup_app_r, Nat.sub_diag by lia. cbn. by rewrite drop_all. }
  destruct (lookup_lt_is_Some_2 s p) as [c Hc]; [lia|]. rewrite lookup_app_l, Hc by lia.
  cbn [outcome_bind]. rewrite (proj2 (Ascii.eqb_neq c nul))
    by (intros ->; by apply Hn, (list_elem_of_lookup_2 s p)).
  destruct (Ascii.eqb c "<") eqn:Ec.
  2:{ rewrite IH by lia. by apply (tag_result_skip _ _ c). }
  apply Ascii.eqb_eq in Ec as ->.
  rewrite !strncmp_take by (done || apply (bool_decide_unpack _); by vm_compute).
  pose proof (trait_at_stands s p) as T. unfold stands in T. cbn [String.length] in T.
  follow_tags T.
  all: try by apply tag_result_bad.
  all: by_tag T ltac:(apply IH).
Qed.

(** The two functions, for a whole URL. *)
Lemma tags_of_url url :
  get_parameter_tag url = tag_result url ∧
  (nul ∉ url → get_parameter_tag_runtime url = tag_result url).
Proof.
  split; [|intros Hn].
  - unfold get_parameter_tag. by rewrite get_parameter_tag_at, drop_0 by lia.
  - unfold get_parameter_tag_runtime. by rewrite get_parameter_tag_runtime_at, drop_0 by (done || lia).
Qed.

(** ** Numbers with digits from 1 to 5 in base 6 *)

Definition num (ds : list Z) : Z := foldr (λ d acc, acc * 6 + d) 0 ds.
Definition digits (ds : list Z) : Prop := Forall (λ d, 1 <= d <= 5) ds.

#[local] Ltac Zify.zify_post_hook ::= Z.div_mod_to_equations.

Lemma num_bounds ds : digits ds → 0 <= num ds < 6 ^ Z.of_nat (length ds).
Proof.
  induction 1 as [|d ds Hd _ IH]; cbn [num foldr length]; [done|]. fold (num ds).
  rewrite Nat2Z.inj_succ, Z.pow_succ_r by lia. lia.
Qed.

Lemma num_cons d ds :
  1 <= d <= 5 → digits ds →
  num (d :: ds) ≠ 0 ∧ num (d :: ds) / 6 = num ds ∧ num (d :: ds) mod 6 = d.
Proof. intros Hd Hs. pose proof (num_bounds ds Hs). cbn [num foldr]. fold (num ds). lia. Qed.

(** The parameters of a URL come from the literals. *)
Lemma params_known k u items :
  url_items k u = Some items → Forall (λ t, t ≠ MAX) (params_in items).
Proof.
  revert k items. induction u as [|c u IH]; intros k items; cbn [url_items].
  { by intros [= <-]. }
  destruct k as [|k]; [|apply IH].
  destruct (Ascii.eqb c "<").
  - destruct (trait_at _ 0) as [[t n]|] eqn:Et; [|done].
    destruct (trait_at_cons _ _ _ _ Et) as [Ht _].
    destruct (url_items _ u) as [l|] eqn:E; [|done]. intros [= <-]. constructor; [done|eauto].
  - destruct (url_items 0 u) as [l|] eqn:E; [|done]. intros [= <-]. apply (IH _ _ E).
Qed.

Lemma tag_number_digits ts : Forall (λ t, t ≠ MAX) ts → digits (tag_number <$> ts).
Proof. intros H. apply Forall_fmap. eapply Forall_impl; [exact H|]. intros []; cbn; done || lia. Qed.

(** A [uint64_t] holds the tag of twenty-four parameters. *)
Lemma tag_of_num ts :
  Forall (λ t, t ≠ MAX) ts → (length ts ≤ 24)%nat → tag_of ts = num (tag_number <$> ts).
Proof.
  induction 1 as [|t ts Ht HF IH]; intros L; [done|]. cbn [length] in L.
  unfold tag_of. cbn [foldr]. fold (tag_of ts). rewrite IH by lia. unfold push_tag.
  cbn [fmap list_fmap num foldr]. fold (num (tag_number <$> ts)).
  pose proof (num_bounds _ (tag_number_digits ts HF)) as B. rewrite length_fmap in B.
  assert (6 ^ Z.of_nat (length ts) ≤ 6 ^ 23) as P by (apply Z.pow_le_mono_r; lia).
  change (6 ^ 23) with 789730223053602816 in P. apply Z.mod_small.
  assert (0 <= tag_number t <= 5) by (destruct t; cbn; lia). lia.
Qed.

(** ** The types of a handler's arguments *)

Definition type_of (t : ParamType) : arg_type :=
  match t with INT => Int64 | UINT => Uint64 | DOUBLE => Double | _ => Str end.

Lemma arguments_from_num ts fuel :
  Forall (λ t, t ≠ MAX) ts → (length ts < fuel)%nat →
  arguments_from fuel (num (tag_number <$> ts)) = Some (type_of <$> ts).
Proof.
  intros HF. revert fuel. induction HF as [|t ts Ht HF IH]; intros fuel L;
    (destruct fuel as [|fuel]; [cbn in L; lia|]); [done|].
  assert (digits (tag_number <$> t :: ts)) as D by (apply tag_number_digits; by constructor).
  cbn [fmap list_fmap] in *. inversion D as [|? ? D1 D2]; subst.
  destruct (num_cons _ _ D1 D2) as (N0 & Nd & Nm).
  cbn [arguments_from]. rewrite (proj2 (Z.eqb_neq _ 0) N0), Nd, Nm, IH by (cbn in L; lia).
  by destruct t.
Qed.

Lemma arguments_tag_of ts :
  Forall (λ t, t ≠ MAX) ts → (length ts ≤ 24)%nat → arguments (tag_of ts) = Some (type_of <$> ts).
Proof. intros HF L. rewrite tag_of_num by done. apply arguments_from_num; [done|lia]. Qed.

(** ** The values of a handler's arguments *)

Section Values.
Context `{Doubles}.

Definition value_type (v : param_value) : arg_type :=
  match v with
  | IntValue _ => Int64
  | UintValue _ => Uint64
  | DoubleValue _ => Double
  | StringValue _ => Str
  end.

Lemma match_param_type t s pos v pos' :
  match_param t s pos = Some (v, pos') → value_type v = type_of t.
Proof.
  unfold match_param. intros E.
  destruct t; repeat (case_match; try done); simplify_option_eq; try done;
    by repeat match goal with x : _ * _ |- _ => destruct x end; simplify_eq.
Qed.

Lemma read_url_types s items pos vs :
  read_url s items pos = Some vs → value_type <$> vs = type_of <$> params_in items.
Proof.
  revert pos vs. induction items as [|[c|t] items IH]; intros pos vs; cbn [read_url].
  - destruct (Nat.eqb _ _); [by intros [= <-]|done].
  - destruct (s !! pos); [|done]. destruct (Ascii.eqb _ _); [apply IH|done].
  - destruct (match_param t s pos) as [[v pos']|] eqn:E; [|done].
    destruct (read_url s items pos') as [l|] eqn:El; [|done]. intros [= <-].
    cbn. f_equal; [by eapply match_param_type|by eapply IH].
Qed.

(** The positions [call] gives to the arguments. *)
Fixpoint positions (a b c d : nat) (args : list arg_type) : list (arg_type * nat) :=
  match args with
  | [] => []
  | Int64 :: args => (Int64, a) :: positions (S a) b c d args
  | Uint64 :: args => (Uint64, b) :: positions a (S b) c d args
  | Double :: args => (Double, c) :: positions a b (S c) d args
  | Str :: args => (Str, d) :: positions a b c (S d) args
  end.

Lemma call_positions a b c d args pushed p :
  call a b c d args pushed p = get_params (pushed ++ positions a b c d args) p.
Proof.
  revert a b c d pushed. induction args as [|[] args IH]; intros; cbn [call positions];
    rewrite ?IH, ?app_nil_r, <- ?app_assoc; done.
Qed.

Lemma push_all_prefix p vs :
  int_params p `prefix_of` int_params (push_all p vs) ∧
  uint_params p `prefix_of` uint_params (push_all p vs) ∧
  double_params p `prefix_of` double_params (push_all p vs) ∧
  string_params p `prefix_of` string_params (push_all p vs).
Proof.
  revert p. induction vs as [|v vs IH]; intros p; [done|].
  change (push_all p (v :: vs)) with (push_all (push_param v p) vs).
  destruct (IH (push_param v p)) as (H1 & H2 & H3 & H4).
  split_and!; [etrans; [|exact H1]|etrans; [|exact H2]|etrans; [|exact H3]|etrans; [|exact H4]];
    destruct v, p; cbn; done || by apply prefix_app_r.
Qed.

Lemma prefix_last {A} (l l' : list A) x n :
  l ++ [x] `prefix_of` l' → n = length l → l' !! n = Some x.
Proof. intros Hp ->. apply (prefix_lookup_Some _ _ _ _ (list_lookup_middle l [] x _ eq_refl) Hp). Qed.

Lemma get_params_pushed vs p a b c d :
  a = length (int_params p) → b = length (uint_params p) →
  c = length (double_params p) → d = length (string_params p) →
  get_params (positions a b c d (value_type <$> vs)) (push_all p vs) = Val vs.
Proof.
  revert p a b c d. induction vs as [|v vs IH]; intros p a b c d Ha Hb Hc Hd; [done|].
  change (push_all p (v :: vs)) with (push_all (push_param v p) vs).
  pose proof (push_all_prefix (push_param v p) vs) as (H1 & H2 & H3 & H4).
  destruct v; cbn [fmap list_fmap value_type positions get_params get_param];
    [rewrite (prefix_last _ _ _ _ H1 Ha)|rewrite (prefix_last _ _ _ _ H2 Hb)
    |rewrite (prefix_last _ _ _ _ H3 Hc)|rewrite (prefix_last _ _ _ _ H4 Hd)];
    cbn [outcome_bind]; rewrite IH; cbn; rewrite ?length_app; cbn; done || lia.
Qed.

(** A handler whose arguments have the types of the values gets them in their order. *)
Lemma handler_arguments_pushed vs :
  handler_arguments (value_type <$> vs) (push_all no_params vs) = Val vs.
Proof. unfold handler_arguments. rewrite call_positions. by apply get_params_pushed. Qed.
End Values.

(** ** Handlers of tagged rules *)

(** A URL of a program that compiles, with at most twenty-four parameters. *)
Definition compiled (e : entry) (tag : Z) : Prop :=
  get_parameter_tag (e_url e) = Val tag ∧ nul ∉ e_url e ∧
  (length (params_in (items_of (e_url e))) ≤ 24)%nat.

Lemma compiled_items e tag :
  compiled e tag →
  ∃ items, url_items 0 (e_url e) = Some items ∧ items_of (e_url e) = items ∧
    get_parameter_tag_runtime (e_url e) = Val tag ∧
    arguments tag = Some (type_of <$> params_in items).
Proof.
  intros (Et & Hn & L). destruct (tags_of_url (e_url e)) as [E1 E2]. specialize (E2 Hn).
  rewrite Et in E1. unfold items_of in *. unfold tag_result in *.
  destruct (url_items 0 (e_url e)) as [items|] eqn:Ei; [|done]. cbn [default] in *.
  injection E1 as ->. exists items. split_and!; try done.
  apply arguments_tag_of; [by eapply params_known|done].
Qed.

(** C20: A handler gets the values of its URL.  When the URLs of a table compile, with at most
    twenty-four parameters each (the number computed from a URL with more does not fit 64 bits),
    their trees are built, and the tree finds a rule for a request's path, then the rule's URL reads the path;
    the number computed for the URL when the program is compiled is the one computed at run time;
    the types computed from the number are those of the values read; and the handler called with
    these types gets exactly these values, in the order of the URL: no vector is read outside. *)
Theorem handlers_get_url_values `{Doubles} (table : list entry) h s :
  Forall (λ e, (∃ tag, compiled e tag) ∧ rooted (e_url e) ∧ e_rule e ≠ 0) table →
  add_urls table new_node = Val h →
  let '(r, _, ps) := find (optimize h) s in
  r ≠ 0 →
  ∃ e tag args vs,
    e ∈ table ∧ e_rule e = r ∧ read_url s (items_of (e_url e)) 0 = Some vs ∧
    get_parameter_tag (e_url e) = Val tag ∧ get_parameter_tag_runtime (e_url e) = Val tag ∧
    arguments tag = Some args ∧ value_type <$> vs = args ∧ handler_arguments args ps = Val vs.
Proof.
  intros HT Hh.
  assert (Forall entry_ok table) as Hok.
  { eapply Forall_impl; [exact HT|]. intros e ([tag Hc] & _ & Hr). cbn in *.
    destruct (compiled_items e tag Hc) as (items & Ei & _). destruct Hc as (_ & Hn & _).
    split_and!; [by exists items|done..]. }
  pose proof (add_urls_adds table new_node Hok new_node_tree) as Ha.
  assert (tree h ∧ paths h ≡ₚ table_of table) as [Ht HP].
  { destruct (decide (NoDup ((paths new_node ++ table_of table).*1))) as [D|D].
    - destruct Ha as (h' & E & Ht & HP). rewrite E in Hh. injection Hh as ->. by split.
    - destruct Ha as [why E]; [by constructor|]. by rewrite E in Hh. }
  destruct (optimize_paths h (tree_labelled h Ht)) as [Hlo HPo].
  pose proof (find_answers_table table s (optimize h) Hlo ltac:(by rewrite HPo)) as Hf.
  destruct (find (optimize h) s) as [[r bps] ps]. intros Hr.
  destruct Hf as [[? _]|(e & vs & He & Er & Ev & -> & _)]; [done|].
  rewrite Forall_forall in HT. destruct (HT e He) as ([tag Hc] & _).
  destruct (compiled_items e tag Hc) as (items & Ei & Eo & Ert & Ea).
  rewrite Eo in *. exists e, tag, (type_of <$> params_in items), vs.
  pose proof (read_url_types _ _ _ _ Ev) as Ety. destruct Hc as [Hc _].
  rewrite Eo. split_and!; try done. rewrite <- Ety. apply handler_arguments_pushed.
Qed.

Definition example_path : bytes := list_ascii_of_string "/user/-7/x".

Lemma handlers_get_url_values_witness :
  ∃ h vs, add_urls example_urls new_node = Val h ∧
    (@find integer_doubles (optimize h) example_path).1.1 = 2 ∧
    value_type <$> vs = [Int64; Str] ∧
    handler_arguments [Int64; Str] (@find integer_doubles (optimize h) example_path).2 = Val vs.
Proof.
  destruct (add_urls example_urls new_node) as [h| | | | |] eqn:Hh; [|vm_compute in Hh; discriminate Hh..].
  assert (match add_urls example_urls new_node with
          | Val h => (@find integer_doubles (optimize h) example_path).1.1 =? 2
          | _ => false
          end = true) as Hr by (vm_compute; reflexivity).
  rewrite Hh in Hr. apply Z.eqb_eq in Hr. exists h.
  assert (Forall (λ e, (∃ tag, compiled e tag) ∧ rooted (e_url e) ∧ e_rule e ≠ 0) example_urls) as HT.
  { unfold rooted. repeat (apply Forall_cons; split); [..|by apply Forall_nil].
    all: split; [|split; done].
    all: eexists; split; [by vm_compute|split; refine (bool_decide_eq_true_1 _ _); by vm_compute]. }
  pose proof (@handlers_get_url_values integer_doubles example_urls h example_path HT Hh) as Hx.
  destruct (find (optimize h) example_path) as [[r bps] ps]. cbn [fst snd] in *. subst r.
  destruct (Hx ltac:(discriminate)) as (e & tag & args & vs & He & Er & Ev & Et & _ & Ea & Ety & E).
  assert (e_url e = list_ascii_of_string "/user/<int>/<string>") as Eu.
  { apply elem_of_cons in He as [->|[->|[->|[->|[]%elem_of_nil]%elem_of_cons]%elem_of_cons]%elem_of_cons];
      first [reflexivity|vm_compute in Er; discriminate Er]. }
  assert (get_parameter_tag (list_ascii_of_string "/user/<int>/<string>") = Val 25) as Et' by (vm_compute; reflexivity).
  rewrite Eu, Et' in Et. injection Et as <-.
  assert (arguments 25 = Some [Int64; Str]) as Ea' by (vm_compute; reflexivity).
  rewrite Ea' in Ea. injection Ea as <-. exists vs.
  split; [reflexivity|]. split; [reflexivity|]. split; [exact Ety|exact E].
Defined.

(** ** Handlers of dynamic rules *)

Definition counted (args : list cpp_type) : list Z :=
  List.filter (λ d, negb (d =? 0)) (parameter_tag <$> args).

Lemma counted_digits args : digits (counted args).
Proof.
  induction args as [|[] args IH]; cbn; try done; constructor; done || lia.
Qed.

Lemma compute_parameter_tag_num args :
  compute_parameter_tag_from_args_list args = num (counted args).
Proof.
  induction args as [|a args IH]; [done|]. cbn [compute_parameter_tag_from_args_list].
  rewrite IH. unfold counted. cbn [fmap list_fmap List.filter]. by destruct (negb _).
Qed.

(** The comparison counts digits. *)
Lemma compatible_num fuel a b :
  digits a → digits b → (length a < fuel)%nat →
  is_parameter_tag_compatible_from fuel (num a) (num b) =
  Val (bool_decide (length a = length b)).
Proof.
  intros Ha. revert fuel b. induction Ha as [|d a Hd Ha IH]; intros fuel b Hb L;
    (destruct fuel as [|fuel]; [cbn in L; lia|]); cbn [is_parameter_tag_compatible_from].
  - destruct Hb as [|y b Hy Hb]; [done|]. destruct (num_cons y b Hy Hb) as (N & _).
    change (num [] =? 0) with true. cbv iota.
    by rewrite (proj2 (Z.eqb_neq _ 0) N).
  - destruct (num_cons d a Hd Ha) as (N & Nd & _). rewrite (proj2 (Z.eqb_neq _ 0) N).
    destruct Hb as [|y b Hy Hb]; [done|]. destruct (num_cons y b Hy Hb) as (N' & Nd' & _).
    rewrite (proj2 (Z.eqb_neq _ 0) N'), Z.eqb_refl, Nd, Nd'. cbn [negb].
    rewrite IH by (done || cbn in L; lia). f_equal. apply bool_decide_ext. cbn. lia.
Qed.

Definition mismatched (rule : bytes) : exn :=
  runtime_error ("route_dynamic: Handler type is mismatched with URL parameters: "
                   +:+ string_of_list_ascii rule).

Lemma dynamic_wrap_items rule args items :
  nul ∉ rule → url_items 0 rule = Some items → (length (params_in items) ≤ 24)%nat →
  dynamic_wrap rule args =
  if bool_decide (length (params_in items) = length (counted args)) then Val tt
  else Throw (mismatched rule).
Proof.
  intros Hn Ei L. unfold dynamic_wrap. rewrite (proj2 (tags_of_url rule) Hn). unfold tag_result.
  rewrite Ei. cbn [outcome_bind]. pose proof (params_known _ _ _ Ei) as Hp.
  rewrite tag_of_num, compute_parameter_tag_num by done. unfold is_parameter_tag_compatible.
  rewrite compatible_num; [|by apply tag_number_digits|apply counted_digits|rewrite length_fmap; lia].
  rewrite length_fmap. cbn [outcome_bind]. by destruct (bool_decide _).
Qed.

(** C39: A dynamic rule accepts a handler by the number of its arguments: the types of the
    arguments are not compared with those of the URL's parameters, and a rule whose ['<'] begins
    no parameter is refused.  So a handler of a string is accepted for an integer, and a request
    for the rule reads outside the vector of strings. *)
Theorem dynamic_rule_counts_arguments `{Doubles} rule args :
  nul ∉ rule → (length (params_in (items_of rule)) ≤ 24)%nat →
  dynamic_wrap rule args =
    match url_items 0 rule with
    | None => Throw invalid_parameter_type
    | Some items =>
        if bool_decide (length (params_in items) = length (counted args)) then Val tt
        else Throw (mismatched rule)
    end ∧
  ∀ items n, url_items 0 rule = Some items → params_in items = [INT] →
    dynamic_wrap rule [c_string] = Val tt ∧
    args_type [c_string] = Some [Str] ∧
    handler_arguments [Str] (push_all no_params [IntValue n]) = Undef out_of_bounds.
Proof.
  intros Hn L. split.
  - unfold items_of in L. destruct (url_items 0 rule) as [items|] eqn:Ei.
    + by apply dynamic_wrap_items.
    + unfold dynamic_wrap. rewrite (proj2 (tags_of_url rule) Hn). unfold tag_result. by rewrite Ei.
  - intros items n Ei Ep. rewrite (dynamic_wrap_items rule [c_string] items), Ep; [done|done|done|].
    rewrite Ep. cbn. lia.
Qed.

Lemma dynamic_rule_counts_arguments_witness :
  dynamic_wrap (lit "/user/<int>") [c_request; c_string] = Val tt ∧
  dynamic_wrap (lit "/user/<int>") [c_string] = Val tt ∧
  @handler_arguments integer_doubles [Str] (push_all no_params [IntValue 7]) = Undef out_of_bounds.
Proof.
  assert (nul ∉ lit "/user/<int>") as Hn by (apply (bool_decide_unpack _); by vm_compute).
  assert (length (params_in (items_of (lit "/user/<int>"))) ≤ 24)%nat as L by (vm_compute; lia).
  split; [|edestruct (proj2 (@dynamic_rule_counts_arguments integer_doubles _ [] Hn L)) as (H1 & _ & H3)].
  - rewrite (proj1 (@dynamic_rule_counts_arguments integer_doubles _ [c_request; c_string] Hn L)).
    by vm_compute.
  - by vm_compute.
  - by vm_compute.
  - split; [exact H1|exact H3].
Defined.
