(* ===== verification/StaticFiles.v ===== *)
(** * Names of static files

    lib/crowapi/crow_all.h, [utility::sanitize_filename], which the route "/static/<path>"
    of every crow application applies to the rest of the URL before a file is opened; what it
    promises about the name. *)

From Stdlib Require Import ZArith Lia Ascii String.
From stdpp Require Import base tactics option strings list.
From S2P Require Import Prelude.
From S2P Require Import CppStd.
From S2P Require Import QueryString.

Local Open Scope Z_scope.

(** ** The operations *)

Definition toUpper (c : ascii) : ascii :=
  if (97 <=? char_code c) && (char_code c <=? 122) then to_char (char_code c - 32) else c.

Definition is_separator (c : ascii) : bool := Ascii.eqb c "/" || Ascii.eqb c "\".

(** What may follow a special name: the end, or one of [.:/\]. *)
Definition ends_special (c : option ascii) : bool :=
  match c with
  | None => true
  | Some c => Ascii.eqb c "." || Ascii.eqb c ":" || is_separator c
  end.

(** The position after [pattern], which [source] must have at [i], letters in upper case. *)
Fixpoint after_pattern (source : bytes) (i : nat) (pattern : bytes) : option nat :=
  match pattern with
  | [] => Some i
  | p :: pattern =>
      match source !! i with
      | Some c => if Ascii.eqb (toUpper c) p then after_pattern source (S i) pattern else None
      | None => None
      end
  end.

Definition is_special_digit (c : ascii) : bool := (49 <=? char_code c) && (char_code c <=? 57).

(** [source.erase(pos, n)] *)
Definition erase (source : bytes) (pos n : nat) : bytes := take pos source ++ drop (pos + n) source.

Definition sanitizeSpecialFile (source : bytes) (ofs : nat) (pattern : string)
    (includeNumber : bool) (replacement : ascii) : bytes :=
  match after_pattern source ofs (list_ascii_of_string pattern) with
  | None => source
  | Some i =>
      let i := if includeNumber
               then match source !! i with
                    | Some c => if is_special_digit c then Some (S i) else None
                    | None => None
                    end
               else Some i in
      match i with
      | None => source
      | Some i =>
          if ends_special (source !! i)
          then <[ofs := replacement]> (erase source (S ofs) (i - ofs - 1))
          else source
      end
  end.

(** The [switch] of the loop. *)
Definition sanitize_special (data : bytes) (i : nat) (replacement : ascii) : bytes :=
  let c := toUpper (default nul (data !! i)) in
  let special data pattern number := sanitizeSpecialFile data i pattern number replacement in
  if Ascii.eqb c "A" then special data "AUX" false
  else if Ascii.eqb c "C" then special (special data "CON" false) "COM" true
  else if Ascii.eqb c "L" then special data "LPT" true
  else if Ascii.eqb c "N" then special data "NUL" false
  else if Ascii.eqb c "P" then special data "PRN" false
  else if Ascii.eqb c "." then special data ".." false
  else data.

(** The characters that are replaced wherever they stand. *)
Definition is_forbidden (c : ascii) : bool :=
  (char_code c <? 32) || ((128 <=? char_code c) && (char_code c <=? 159)) ||
  bool_decide (c ∈ ["?"; "<"; ">"; ":"; "*"; "|"; "034"]%char).

(** The loop, from [i] on. *)
Fixpoint sanitize_loop (fuel : nat) (data : bytes) (i : nat) (checkForSpecialEntries : bool)
    (replacement : ascii) : option bytes :=
  match fuel with
  | O => None
  | S fuel =>
      if (i <? length data)%nat then
        let data := if checkForSpecialEntries then sanitize_special data i replacement else data in
        let c := default nul (data !! i) in
        if is_forbidden c then sanitize_loop fuel (<[i := replacement]> data) (S i) false replacement
        else if is_separator c then
          if Nat.eqb i 0 then sanitize_loop fuel (<[i := replacement]> data) (S i) false replacement
          else sanitize_loop fuel data (S i) true replacement
        else sanitize_loop fuel data (S i) false replacement
      else Some data
  end.

(** [data.resize(255)] when it is longer. *)
Definition sanitize_filename (data : bytes) (replacement : ascii) : option bytes :=
  let data := take 255 data in
  sanitize_loop (S (length data)) data 0 true replacement.

(** ** What the name cannot hold *)

(** The parts of a path. *)
Fixpoint components (s : bytes) : list bytes :=
  match s with
  | [] => [[]]
  | c :: s =>
      if is_separator c then [] :: components s
      else match components s with
           | seg :: segs => (c :: seg) :: segs
           | [] => [[c]]
           end
  end.

Definition dotdot : bytes := ["."; "."]%char.

(** [".."] at the head of [s], as a whole part. *)
Definition starts_dotdot (s : bytes) : bool :=
  match s with
  | a :: b :: s => Ascii.eqb a "." && Ascii.eqb b "." &&
      match s with [] => true | c :: _ => is_separator c end
  | _ => false
  end.

(** No part of [s] is [".."], the first one aside when [s] starts inside a part. *)
Fixpoint no_dotdot (start : bool) (s : bytes) : bool :=
  match s with
  | [] => true
  | c :: s' => negb (start && starts_dotdot s) && no_dotdot (is_separator c) s'
  end.

Lemma components_cons c s :
  is_separator c = false →
  ∃ seg segs, components s = seg :: segs ∧ components (c :: s) = (c :: seg) :: segs.
Proof.
  intros Hc. cbn. rewrite Hc. destruct (components s) as [|seg segs] eqn:E; [|by eexists _, _].
  exfalso. destruct s as [|d s]; cbn in E; [done|].
  destruct (is_separator d); [done|]. by destruct (components s).
Qed.

Lemma starts_dotdot_components s seg segs :
  components s = seg :: segs → seg = dotdot → starts_dotdot s = true.
Proof.
  intros E ->. destruct s as [|a [|b [|c s]]]; cbn in *.
  - done.
  - by destruct (is_separator a).
  - destruct (is_separator a); [done|]. destruct (is_separator b); [done|].
    by injection E as -> ->.
  - destruct (is_separator a); [done|]. destruct (is_separator b); [done|].
    destruct (is_separator c) eqn:Ec; [|by destruct (components s)].
    by injection E as -> ->.
Qed.

Lemma no_dotdot_components start s :
  no_dotdot start s = true →
  match components s with
  | seg :: segs => (start = true → seg ≠ dotdot) ∧ dotdot ∉ segs
  | [] => True
  end.
Proof.
  revert start. induction s as [|c s IH]; intros start Hs.
  { cbn. split; [done|]. apply not_elem_of_nil. }
  cbn [no_dotdot] in Hs. apply andb_true_iff in Hs as [Hd Hs]. apply IH in Hs.
  destruct (is_separator c) eqn:Ec.
  - cbn. rewrite Ec. split; [done|]. destruct (components s) as [|seg segs]; [apply not_elem_of_nil|].
    destruct Hs as [H1 H2]. apply not_elem_of_cons. split; [|done]. intros E. by apply H1.
  - destruct (components_cons c s Ec) as (seg & segs & E & ->). rewrite E in Hs.
    split; [|apply Hs]. intros -> E'.
    destruct (starts_dotdot (c :: s)) eqn:Hst; [done|].
    assert (components (c :: s) = (c :: seg) :: segs) as Ecs by by cbn; rewrite Ec, E.
    by rewrite (starts_dotdot_components _ _ _ Ecs E') in Hst.
Qed.

(** ** The loop *)

Abbreviation underscore := "_"%char.

(** What a special name becomes: nothing shorter than the replacement. *)
Definition replaced (rest rest1 : bytes) : Prop :=
  rest1 = rest ∨ ∃ t, rest1 = underscore :: t ∧ (length t < length rest)%nat.

Lemma erase_insert pre r rest n :
  <[length pre := underscore]> (erase (pre ++ r :: rest) (S (length pre)) n) =
  pre ++ underscore :: drop n rest.
Proof.
  unfold erase.
  assert (take (S (length pre)) (pre ++ r :: rest) = pre ++ [r]) as ->.
  { rewrite <- Nat.add_1_r. by rewrite take_app_add. }
  assert (drop (S (length pre) + n) (pre ++ r :: rest) = drop n rest) as ->.
  { replace (S (length pre) + n)%nat with (length pre + S n)%nat by lia. by rewrite drop_app_add. }
  rewrite <- app_assoc. cbn [app].
  rewrite <- (Nat.add_0_r (length pre)). by rewrite insert_app_r.
Qed.

Lemma special_file_replaced pre rest pattern number :
  rest ≠ [] →
  ∃ rest1, sanitizeSpecialFile (pre ++ rest) (length pre) pattern number underscore = pre ++ rest1 ∧
    replaced rest rest1.
Proof.
  destruct rest as [|r rest]; [done|]. intros _. unfold sanitizeSpecialFile.
  assert (∃ rest1, pre ++ r :: rest = pre ++ rest1 ∧ replaced (r :: rest) rest1) as Hsame.
  { exists (r :: rest). split; [done|]. by left. }
  destruct (after_pattern _ _ _) as [i|]; [|done]. cbv zeta.
  destruct (if number then _ else _) as [j|]; [|done].
  destruct (ends_special _); [|done]. rewrite erase_insert.
  eexists. split; [done|]. right. eexists. split; [done|]. rewrite length_drop. cbn. lia.
Qed.

Lemma dotdot_replaced pre s :
  starts_dotdot s = true →
  ∃ t, sanitizeSpecialFile (pre ++ s) (length pre) ".." false underscore =
    pre ++ underscore :: t ∧ (length t < length s)%nat.
Proof.
  destruct s as [|a [|b s]]; try done. cbn. intros Hs.
  apply andb_true_iff in Hs as [Hs He]. apply andb_true_iff in Hs as [Ha Hb].
  apply Ascii.eqb_eq in Ha as ->. apply Ascii.eqb_eq in Hb as ->.
  set (src := pre ++ "."%char :: "."%char :: s).
  assert (src !! length pre = Some "."%char) as H0 by by apply list_lookup_middle.
  assert (src !! S (length pre) = Some "."%char) as H1.
  { unfold src. rewrite lookup_app_r by lia.
    by replace (S (length pre) - length pre)%nat with 1%nat by lia. }
  assert (src !! S (S (length pre)) = head s) as H2.
  { unfold src. rewrite lookup_app_r by lia.
    replace (S (S (length pre)) - length pre)%nat with 2%nat by lia. by destruct s. }
  assert (after_pattern src (length pre) (list_ascii_of_string "..") = Some (S (S (length pre))))
    as Hp.
  { cbn [list_ascii_of_string after_pattern]. by rewrite H0, H1. }
  assert (ends_special (head s) = true) as Hs.
  { destruct s as [|c s]; [done|]. cbn. rewrite He. by rewrite !orb_true_r. }
  unfold sanitizeSpecialFile. rewrite Hp, H2, Hs. unfold src. rewrite erase_insert.
  eexists. split; [done|]. rewrite length_drop. cbn. lia.
Qed.

Lemma replaced_trans rest rest1 rest2 :
  replaced rest rest1 → replaced rest1 rest2 → replaced rest rest2.
Proof.
  intros [->|(t & -> & Ht)] [->|(t' & -> & Ht')]; [by left|by right; eauto..|].
  right. exists t'. split; [done|]. cbn in Ht'. lia.
Qed.

Lemma replaced_length rest rest1 : replaced rest rest1 → (length rest1 ≤ length rest)%nat.
Proof. intros [->|(t & -> & Ht)]; cbn; lia. Qed.

Lemma replaced_not_dotdot rest rest1 :
  replaced rest rest1 → starts_dotdot rest = false → starts_dotdot rest1 = false.
Proof. by intros [->|([|b t] & -> & _)]. Qed.

Lemma replaced_not_nil rest rest1 : replaced rest rest1 → rest ≠ [] → rest1 ≠ [].
Proof. by intros [->|(t & -> & _)]. Qed.

Lemma dotdot_head c s : starts_dotdot (c :: s) = true → c = "."%char.
Proof. destruct s; [done|]. cbn. rewrite !andb_true_iff. by intros [[->%Ascii.eqb_eq _] _]. Qed.

Lemma special_replaced pre rest :
  rest ≠ [] →
  ∃ rest1, sanitize_special (pre ++ rest) (length pre) underscore = pre ++ rest1 ∧
    replaced rest rest1 ∧ starts_dotdot rest1 = false.
Proof.
  intros Hr. destruct rest as [|c rest]; [done|]. unfold sanitize_special.
  rewrite list_lookup_middle by done. cbn [default from_option id]. cbv zeta.
  destruct (starts_dotdot (c :: rest)) eqn:Hd.
  { pose proof (dotdot_head _ _ Hd) as ->. cbn.
    destruct (dotdot_replaced pre _ Hd) as (t & -> & Ht). eexists. split; [done|].
    split; [right; by exists t|by destruct t]. }
  assert (∀ pattern number, ∃ rest1,
    sanitizeSpecialFile (pre ++ c :: rest) (length pre) pattern number underscore = pre ++ rest1 ∧
    replaced (c :: rest) rest1 ∧ starts_dotdot rest1 = false) as Hone.
  { intros pattern number. destruct (special_file_replaced pre _ pattern number Hr) as (r1 & E & H1).
    exists r1. split; [done|]. split; [done|]. by eapply replaced_not_dotdot. }
  repeat case_match; eauto.
  - destruct (Hone "CON" false) as (r1 & -> & H1 & Hn1).
    destruct (special_file_replaced pre r1 "COM" true) as (r2 & -> & H2).
    { by eapply replaced_not_nil. }
    exists r2. split; [done|]. split; [by eapply replaced_trans|by eapply replaced_not_dotdot].
  - exists (c :: rest). split; [done|]. split; [by left|done].
Qed.

(** One character of the loop. *)
Definition sanitize_char (first : bool) (c : ascii) : ascii :=
  if is_forbidden c || (is_separator c && first) then underscore else c.

Lemma sanitize_char_ok first c : is_forbidden (sanitize_char first c) = false.
Proof. unfold sanitize_char. destruct (is_forbidden c) eqn:E; [done|]. cbn. by destruct (_ && _). Qed.

(** Where a part ends, and whether [out] follows [rest] there. *)
Definition part_ends (s : bytes) : bool := match s with [] => true | c :: _ => is_separator c end.
Definition follows (rest out : bytes) : Prop :=
  (part_ends out = true → part_ends rest = true) ∧
  (∀ c, starts_dotdot (c :: out) = true → starts_dotdot (c :: rest) = true).

Lemma starts_dotdot_cons a b s :
  starts_dotdot (a :: b :: s) = Ascii.eqb a "." && Ascii.eqb b "." && part_ends s.
Proof. done. Qed.

(** What the loop makes of the rest of the name. *)
Definition sanitized (first check : bool) (rest out : bytes) : Prop :=
  (length out ≤ length rest)%nat ∧
  Forall (λ c, is_forbidden c = false) out ∧
  no_dotdot check out = true ∧
  (first = true → ∀ c, head out = Some c → is_separator c = false) ∧
  (check = false → follows rest out).

Lemma sanitized_nil first check : sanitized first check [] [].
Proof. repeat (split; [done||by constructor|]). done. Qed.

(** The name after one character. *)
Lemma sanitized_cons first check c rest out :
  (check = true → starts_dotdot (c :: rest) = false) →
  sanitized false (is_separator (sanitize_char first c)) rest out →
  sanitized first check (c :: rest) (sanitize_char first c :: out).
Proof.
  intros Hd (Hl & Hf & Hno & _ & Hfol). set (c' := sanitize_char first c) in *.
  assert (Hc' : c' = underscore ∨ c' = c) by (unfold c', sanitize_char; case_match; auto).
  assert (Hdot : starts_dotdot (c' :: out) = true → starts_dotdot (c :: rest) = true).
  { intros Hst. pose proof (dotdot_head _ _ Hst) as Ec. rewrite Ec in Hst, Hfol, Hc'.
    destruct Hc' as [|<-]; [done|]. destruct Hfol as [_ Hfol]; [done|]. auto. }
  split; [cbn; lia|]. split; [constructor; [apply sanitize_char_ok|done]|].
  split; [|split].
  - cbn [no_dotdot]. rewrite Hno, andb_true_r. destruct check; [|done].
    destruct (starts_dotdot (c' :: out)); [|done]. rewrite Hd in Hdot by done. by apply Hdot.
  - intros -> d [= <-]. unfold c', sanitize_char.
    destruct (is_forbidden c); [done|]. rewrite andb_true_r. by destruct (is_separator c) eqn:E.
  - intros ->. split.
    + cbn. destruct Hc' as [-> | ->]; [done|]. done.
    + intros a Ha. rewrite starts_dotdot_cons in Ha.
      rewrite !andb_true_iff in Ha. destruct Ha as [[Ea%Ascii.eqb_eq Eb%Ascii.eqb_eq] Hp].
      rewrite Eb in Hc', Hfol. destruct Hc' as [?|Hc']; [done|].
      destruct Hfol as [Hp' _]; [done|]. rewrite starts_dotdot_cons, Ea, <- Hc', Hp' by done. done.
Qed.

Lemma sanitize_loop_sanitized fuel pre rest check :
  (length rest < fuel)%nat →
  ∃ out, sanitize_loop fuel (pre ++ rest) (length pre) check underscore = Some (pre ++ out) ∧
    sanitized (Nat.eqb (length pre) 0) check rest out.
Proof.
  revert pre rest check. induction fuel as [|fuel IH]; intros pre rest check Hfuel; [lia|].
  cbn [sanitize_loop]. rewrite length_app.
  destruct rest as [|c0 rest0].
  { rewrite (proj2 (Nat.ltb_ge _ _)) by (cbn; lia). exists []. split; [done|apply sanitized_nil]. }
  rewrite (proj2 (Nat.ltb_lt _ _)) by (cbn; lia).
  assert (∃ rest1, (if check then sanitize_special (pre ++ c0 :: rest0) (length pre) underscore
                    else pre ++ c0 :: rest0) = pre ++ rest1 ∧ replaced (c0 :: rest0) rest1 ∧
                   (check = true → starts_dotdot rest1 = false) ∧
                   (check = false → rest1 = c0 :: rest0)) as (rest1 & -> & Hr & Hd & Hsame).
  { destruct check.
    - destruct (special_replaced pre (c0 :: rest0)) as (r1 & ? & ? & ?); [done|]. exists r1. by repeat split.
    - exists (c0 :: rest0). split; [done|]. split; [by left|by split]. }
  pose proof (replaced_length _ _ Hr) as Hlen.
  assert (rest1 ≠ []) as Hne by by eapply replaced_not_nil.
  destruct rest1 as [|c rest]; [done|]. cbn in Hlen. clear Hne.
  cbv zeta. rewrite list_lookup_middle by done. cbn [default from_option id].
  assert (∀ c', <[length pre := c']> (pre ++ c :: rest) = pre ++ c' :: rest) as Hins.
  { intros c'. rewrite <- (Nat.add_0_r (length pre)). by rewrite insert_app_r. }
  set (first := Nat.eqb (length pre) 0).
  assert (∀ b, b = is_separator (sanitize_char first c) → ∃ out,
    sanitize_loop fuel (pre ++ sanitize_char first c :: rest) (S (length pre)) b underscore =
      Some (pre ++ out) ∧ sanitized first check (c0 :: rest0) out) as Hgo.
  { intros b ->.
    destruct (IH (pre ++ [sanitize_char first c]) rest (is_separator (sanitize_char first c)))
      as (out & Hout & Hs); [cbn in Hfuel; lia|].
    rewrite length_app, Nat.add_1_r in Hout. rewrite <- app_assoc in Hout. cbn [app] in Hout.
    exists (sanitize_char first c :: out). rewrite <- app_assoc in Hout. split; [done|].
    rewrite length_app, Nat.add_1_r in Hs. apply (sanitized_cons first check) in Hs; [|done].
    destruct Hs as (H1 & H2 & H3 & H4 & H5). split; [cbn in H1 |- *; lia|].
    repeat (split; [done|]). intros Hc. rewrite <- Hsame by done. auto. }
  unfold sanitize_char in Hgo. rewrite !Hins. fold first.
  destruct (is_forbidden c); [by apply Hgo|]. cbn [orb] in Hgo.
  destruct (is_separator c) eqn:Ec; [|by apply Hgo]. by destruct first; apply Hgo.
Qed.

(** ** The promise *)

(** C25: A name that has gone through sanitize_filename is at most 255 bytes long, holds no control
    character and none of the forbidden ones, does not start with a separator, and none of
    its parts is "..": whatever the URL of a request for a static file, the path the server
    opens stays below the directory of static files. *)
Theorem sanitize_filename_confines (data : bytes) :
  ∃ out, sanitize_filename data underscore = Some out ∧
    (length out ≤ 255)%nat ∧
    Forall (λ c, is_forbidden c = false) out ∧
    (∀ c, head out = Some c → is_separator c = false) ∧
    dotdot ∉ components out ∧
    dotdot ∉ components (list_ascii_of_string "static/" ++ out).
Proof.
  unfold sanitize_filename.
  destruct (sanitize_loop_sanitized (S (length (take 255 data))) [] (take 255 data) true)
    as (out & Hout & Hl & Hf & Hno & Hh & _); [lia|].
  exists out. split; [exact Hout|]. split; [rewrite length_take in Hl; lia|]. split; [done|].
  split; [by apply Hh|].
  assert (dotdot ∉ components out) as Hdd.
  { apply no_dotdot_components in Hno. destruct (components out); [apply not_elem_of_nil|].
    apply not_elem_of_cons. split; [|apply Hno]. intros E. by apply (proj1 Hno). }
  split; [done|]. cbn. by apply not_elem_of_cons.
Qed.
