(* ===== verification/Router.v ===== *)
(** * The router

    lib/crowapi/crow_all.h, [BaseRule], [TaggedRule], [CatchallRule] and the class [Router],
    for an application without blueprints and WebSocket rules, as the wallet is: registering
    rules, [validate], and [handle], which finds the rule of a request and calls it.

    The response a handler fills is the first component of the state; the completion handler
    [response::end] calls is a parameter (a connection sets it). *)

From Stdlib Require Import ZArith Lia Ascii String.
From stdpp Require Import base tactics option strings list.
From S2P Require Import Prelude.
From S2P Require Import CppStd.
From S2P Require Import QueryString.
From S2P Require Import Crow.
From S2P Require Import Trie.
From S2P Require Import StaticFiles.

(** A program over the second component of a state. *)
Fixpoint on_state {R W A} (p : prog W A) : prog (R * W) A :=
  match p with
  | Done a => Done a
  | Atom f => Atom (λ '(r, w), let '(o, w') := f w in (outcome_map on_state o, (r, w')))
  end.

Lemma run_on_state {R W A} (p : prog W A) (r : R) w :
  run (on_state p) (r, w) = let '(o, w') := run p w in (o, (r, w')).
Proof.
  revert w. induction p as [a|f IH] using prog_rect_atoms; intros w; [done|].
  specialize (IH w). cbn. destruct (f w) as [[q| | | | |] w']; cbn in *; auto.
Qed.

Section Router.
Context `{Doubles} {W : Type} (complete_request_handler_ : prog (response * W) unit).
Local Open Scope prog_scope.

(** ** Programs that fill a response *)

Abbreviation responder := (prog (response * W) unit).

Definition res_do (f : response → response) : responder := modify (λ '(r, w), (f r, w)).
Definition get_res : prog (response * W) response := gets fst.

(** [res = r] for a temporary [r] *)
Definition assign_res (r : response) : responder := res_do (λ res, Response.move_assign res r).

(** [res.end()] *)
Definition res_end : responder :=
  call ← update (λ '(r, w), let '(r', call) := Response.end_ r in (call, (r', w)));
  if (call : bool) then complete_request_handler_ else Done tt.

(** ** Rules *)

Abbreviation rule_handler := (request → routing_params → responder).

Record BaseRule : Type := MkRule {
  rule_ : bytes;
  name_ : string;
  methods_ : Z;
  handler_ : option rule_handler
}.

(** [TaggedRule(rule)]: GET, no handler yet. *)
Definition TaggedRule (rule : bytes) : BaseRule :=
  MkRule rule "" (Z.shiftl 1 (Z.of_nat (method_value Get))) None.

(** [name(...)] and [methods(...)] of [RuleParameterTraits].  [1 << method] is undefined from
    32 on ([Unlink] and [Source]). *)
Definition with_name (name : string) (r : BaseRule) : BaseRule :=
  MkRule (rule_ r) name (methods_ r) (handler_ r).
Definition method_bit (m : HTTPMethod) : option Z :=
  if (method_value m <? 32)%nat then Some (Z.shiftl 1 (Z.of_nat (method_value m))) else None.
Fixpoint methods_of (m : HTTPMethod) (ms : list HTTPMethod) : option Z :=
  match ms with
  | [] => method_bit m
  | m' :: ms =>
      match methods_of m' ms, method_bit m with
      | Some z, Some b => Some (Z.lor z b)
      | _, _ => None
      end
  end.
Definition with_methods (m : HTTPMethod) (ms : list HTTPMethod) (r : BaseRule) : option BaseRule :=
  match methods_of m ms with
  | Some z => Some (MkRule (rule_ r) (name_ r) z (handler_ r))
  | None => None
  end.

(** [wrapped_handler_call] of a handler that returns a response, with or without the
    request as its argument. *)
Definition wrapped_handler_call (f : request → prog W response) : rule_handler :=
  λ req _, r ← on_state (f req); assign_res r ;; res_end.
Definition with_handler (h : rule_handler) (r : BaseRule) : BaseRule :=
  MkRule (rule_ r) (name_ r) (methods_ r) (Some h).

(** [TaggedRule::validate] *)
Definition rule_validate (r : BaseRule) : outcome unit :=
  match handler_ r with
  | None =>
      Throw (runtime_error (name_ r +:+ (if String.eqb (name_ r) "" then "" else ": ")
               +:+ "no handler for url " +:+ string_of_list_ascii (rule_ r)))
  | Some _ => Val tt
  end.

(** [foreach_method]: the loop over the methods, its bit an [uint32_t] shifted left. *)
Fixpoint foreach_method_loop (n method : nat) (method_bit methods : Z) : list nat :=
  match n with
  | O => []
  | S n =>
      (if (Z.land methods method_bit =? 0)%Z then [] else [method])
        ++ foreach_method_loop n (S method) (Z.shiftl method_bit 1 mod 2 ^ 32)%Z methods
  end.
Definition foreach_method (r : BaseRule) : list nat :=
  foreach_method_loop InternalMethodCount 0 1 (methods_ r).

(** ** The router *)

(** Rule indices 0 and 1 have special meaning: the vector starts with two null pointers. *)
Record PerMethod : Type := MkPerMethod { rules : list (option BaseRule); trie : Node }.
Definition new_per_method : PerMethod := MkPerMethod [None; None] new_node.

Record router : Type := MkRouter {
  catchall_rule_ : option (request → responder);
  per_methods_ : list PerMethod;
  all_rules_ : list BaseRule
}.
Definition new_router : router := MkRouter None (replicate InternalMethodCount new_per_method) [].

Definition RULE_SPECIAL_REDIRECT_SLASH : Z := 1.

(** [new_rule_tagged]; the caller then gives the rule its handler. *)
Definition new_rule_tagged (rule : BaseRule) (r : router) : router :=
  MkRouter (catchall_rule_ r) (per_methods_ r) (all_rules_ r ++ [rule]).

(** [rule.size() > 1 && rule.back() == '/'] *)
Definition has_trailing_slash (rule : bytes) : bool :=
  (1 <? length rule)%nat && bool_decide (last rule = Some "/"%char).

(** The rule added to the tables of one method; its index is an [uint16_t]. *)
Definition add_rule_for_method (obj : BaseRule) (pm : PerMethod) : outcome PerMethod :=
  let rule := rule_ obj in
  let rules' := rules pm ++ [Some obj] in
  outcome_bind (add rule (to_uint16 (Z.of_nat (length rules') - 1)) 0 INVALID_BP_ID (trie pm))
    (λ t,
      outcome_bind
        (if has_trailing_slash rule
         then add (removelast rule) RULE_SPECIAL_REDIRECT_SLASH 0 INVALID_BP_ID t
         else Val t)
        (λ t, Val (MkPerMethod rules' t))).

(** [internal_add_rule_object], for a rule that is in no blueprint. *)
Definition internal_add_rule_object (obj : BaseRule) (pms : list PerMethod) :
    outcome (list PerMethod) :=
  fold_left (λ o m,
      outcome_bind o (λ pms,
        outcome_map (λ pm, <[m := pm]> pms)
          (add_rule_for_method obj (default new_per_method (pms !! m)))))
    (foreach_method obj) (Val pms).

(** The loop over [all_rules_]. *)
Definition validate_rules (objs : list BaseRule) (pms : list PerMethod) :
    outcome (list PerMethod) :=
  fold_left (λ o obj,
      outcome_bind o (λ pms,
        outcome_bind (rule_validate obj) (λ _, internal_add_rule_object obj pms)))
    objs (Val pms).

(** The loop over [per_methods_]. *)
Fixpoint validate_tries (pms : list PerMethod) : outcome (list PerMethod) :=
  match pms with
  | [] => Val []
  | pm :: pms =>
      match trie_validate (trie pm) with
      | inl e => Throw e
      | inr t => outcome_map (cons (MkPerMethod (rules pm) t)) (validate_tries pms)
      end
  end.

Definition validate (r : router) : outcome router :=
  outcome_bind (validate_rules (all_rules_ r) (per_methods_ r)) (λ pms,
    outcome_map (λ pms, MkRouter (catchall_rule_ r) pms (all_rules_ r)) (validate_tries pms)).

(** ** handle *)

(** The methods [i] whose table satisfies a condition, as [handle] lists them. *)
Definition allowed (f : PerMethod → bool) (r : router) : string :=
  fold_left (λ allow i,
      if f (default new_per_method (per_methods_ r !! i))
      then allow +:+ method_name (method_of_value i) +:+ ", " else allow)
    (seq 0 InternalMethodCount) "OPTIONS, HEAD, ".

(** [allow.substr(0, allow.size() - 2)] *)
Definition drop_comma (allow : string) : string := String.substring 0 (String.length allow - 2) allow.

Definition url_of (req : request) : bytes := list_ascii_of_string (req_url req).
Definition found_rule (req : request) (pm : PerMethod) : Z := (find (trie pm) (url_of req)).1.1.

(** [res = response(c)], the rest of a statement list, [res.end()]. *)
Definition respond (c : Z) (k : responder) : responder :=
  assign_res (Response.of_code c) ;; k ;; res_end.

(** [get_error], where no blueprint is found. *)
Definition get_error (r : router) (c : Z) (req : request) : responder :=
  res_do (Response.set_code c) ;;
  match catchall_rule_ r with
  | Some handler => handler req
  | None => Done tt
  end.

(** The redirection to the URL with a slash at its end. *)
Definition redirect_slash (req : request) : responder :=
  let host := get_header_value (req_headers req) "Host" in
  respond 301
    (res_do (Response.add_header "Location"
      (if String.eqb host "" then req_url req +:+ "/"
       else "http://" +:+ host +:+ req_url req +:+ "/"))).

(** The [try] block: an exception becomes a response 500. *)
Definition call_rule (rule : BaseRule) (req : request) (params : routing_params) : responder :=
  catch (λ _, respond 500 (Done tt))
    (match handler_ rule with
     | Some h => h req params
     | None => undef out_of_bounds
     end).

(** [handle] from the lookup on, for the method the request counts as. *)
Definition dispatch (r : router) (method_actual : HTTPMethod) (req : request) : responder :=
  let per_method := default new_per_method (per_methods_ r !! method_value method_actual) in
  let '(rule_index, _, params) := find (trie per_method) (url_of req) in
  if (rule_index =? 0)%Z then
    if existsb (λ pm, negb (found_rule req pm =? 0)%Z) (per_methods_ r)
    then get_error r 405 req ;; res_end
    else get_error r 404 req ;; res_end
  else if (Z.of_nat (length (rules per_method)) <=? rule_index)%Z then
    throw (runtime_error "Trie internal structure corrupted!")
  else if (rule_index =? RULE_SPECIAL_REDIRECT_SLASH)%Z then redirect_slash req
  else
    match rules per_method !! Z.to_nat rule_index with
    | Some (Some rule) => call_rule rule req params
    | _ => undef out_of_bounds
    end.

Definition handle (r : router) (req : request) : responder :=
  match req_method req with
  | Head => res_do (Response.set_skip_body true) ;; dispatch r Get req
  | Options =>
      if String.eqb (req_url req) "/*" then
        let allow := allowed (λ pm, negb (is_empty (trie pm))) r in
        respond 204 (res_do (Response.set_header "Allow" (drop_comma allow)))
      else
        let allow := allowed (λ pm, negb (found_rule req pm =? 0)%Z) r in
        if String.eqb allow "OPTIONS, HEAD, " then respond 404 (Done tt)
        else respond 204 (res_do (Response.set_header "Allow" (drop_comma allow)))
  | m => dispatch r m req
  end.

(** [handle_upgrade], with [BaseRule::handle_upgrade]: no rule is a WebSocket. *)
Definition rule_handle_upgrade : responder := respond 404 (Done tt).
Definition handle_upgrade (r : router) (req : request) : responder :=
  let per_method := default new_per_method (per_methods_ r !! method_value (req_method req)) in
  let rule_index := found_rule req per_method in
  if (rule_index =? 0)%Z then
    if existsb (λ pm, negb (found_rule req pm =? 0)%Z) (per_methods_ r)
    then respond 405 (Done tt) else respond 404 (Done tt)
  else if (Z.of_nat (length (rules per_method)) <=? rule_index)%Z then
    throw (runtime_error "Trie internal structure corrupted!")
  else if (rule_index =? RULE_SPECIAL_REDIRECT_SLASH)%Z then redirect_slash req
  else catch (λ _, respond 500 (Done tt)) rule_handle_upgrade.

(** ** The route of static files, which [Crow::validate] adds *)

Definition static_endpoint : bytes := list_ascii_of_string "/static/<path>".
Definition static_directory : string := "static/".

(** The handler; [stat] is the system call. *)
Definition serve_static (stat : string → prog W (option Z)) : rule_handler := λ _ params,
  match string_params params with
  | file_path_partial :: _ =>
      match sanitize_filename file_path_partial "_" with
      | Some name =>
          let path := static_directory +:+ string_of_list_ascii name in
          st ← on_state (stat path);
          call ← update (λ '(r, w),
                   let '(r', call) := Response.set_static_file_info_unsafe st path r in
                   (call, (r', w)));
          (if (call : bool) then complete_request_handler_ else Done tt) ;;
          res_end
      | None => no_fuel
      end
  | [] => undef out_of_bounds
  end.

(** [Crow::validate]: the routes an application has added, then the static one. *)
Definition app_validate (stat : string → prog W (option Z)) (r : router) : outcome router :=
  validate (new_rule_tagged (with_handler (serve_static stat) (TaggedRule static_endpoint)) r).
End Router.

Arguments MkRule {_ _} _ _ _ _.
Arguments MkPerMethod {_ _} _ _.
Arguments MkRouter {_ _} _ _ _.
