(* ===== verification/RouterFacts.v ===== *)
(** * The router answers as an ordered table of rules

    What [validate] builds, method by method, and what [dispatch] then does with a URL: the
    first rule registered for the method whose URL reads the path, called with the values its
    parameters read, unless a rule with a slash at its end reads the path with a slash added. *)

From Stdlib Require Import ZArith Lia Ascii String.
From stdpp Require Import base tactics option strings list.
From S2P Require Import Prelude.
From S2P Require Import CppStd.
From S2P Require Import QueryString.
From S2P Require Import Crow.
From S2P Require Import Trie.
From S2P Require Import TrieFacts.
From S2P Require Import RouteParams.
From S2P Require Import StaticFiles.
From S2P Require Import Router.

Local Open Scope Z_scope.

(** ** Outcomes *)

Lemma fold_left_ext_in {A B} (f g : A → B → A) l a :
  (∀ a b, b ∈ l → f a b = g a b) → fold_left f l a = fold_left g l a.
Proof.
  revert a. induction l as [|b l IH]; intros a Hfg; [done|]. cbn.
  rewrite Hfg by by left. apply IH. intros a' b' Hb. apply Hfg. by right.
Qed.

Lemma add_urls_app es es' h :
  add_urls (es ++ es') h = outcome_bind (add_urls es h) (add_urls es').
Proof.
  revert h. induction es as [|e es IH]; intros h; [done|]. cbn [app add_urls].
  destruct (add _ _ _ _ h); cbn [outcome_bind]; [apply IH|done..].
Qed.

Section Facts.
Context `{Doubles} {W : Type}.

Abbreviation rule := (@BaseRule _ W).
Abbreviation table_rules := (list (@BaseRule _ W)).

(** ** One method *)

(** What one rule adds to the tree of a method: its URL, and the URL without the slash at its
    end for the redirection. *)
Definition rule_entries (k : Z) (o : rule) : list entry :=
  MkEntry (rule_ o) k 0 INVALID_BP_ID ::
  (if has_trailing_slash (rule_ o)
   then [MkEntry (removelast (rule_ o)) RULE_SPECIAL_REDIRECT_SLASH 0 INVALID_BP_ID] else []).
Fixpoint entries (k : Z) (os : table_rules) : list entry :=
  match os with
  | [] => []
  | o :: os => rule_entries k o ++ entries (k + 1) os
  end.

(** The URLs the rules claim. *)
Definition claimed (os : table_rules) : list (list item) := items_of ∘ e_url <$> entries 2 os.

(** A rule the router can serve: in its URL every ['<'] begins a parameter, there is no NUL, it
    starts with a slash; and it has a handler. *)
Record rule_ok (o : rule) : Prop := RuleOk {
  ok_entries : Forall (λ e, is_Some (url_items 0 (e_url e))) (rule_entries 2 o);
  ok_no_nul : nul ∉ rule_ o;
  ok_rooted : rooted (rule_ o);
  ok_handler : is_Some (handler_ o)
}.

Lemma elem_of_removelast {A} (x : A) l : x ∈ removelast l → x ∈ l.
Proof.
  induction l as [|a l IH]; [done|]. cbn. destruct l as [|b l]; [intros ?%elem_of_nil; done|].
  rewrite !(elem_of_cons _ _ a). intros [?|Hx]; [by left|right; auto].
Qed.

Lemma rooted_removelast u : has_trailing_slash u = true → rooted u → rooted (removelast u).
Proof.
  unfold has_trailing_slash, rooted. intros [E%Nat.ltb_lt _]%andb_true_iff Hr.
  destruct u as [|a [|b u]]; [cbn in E; lia|cbn in E; lia|exact Hr].
Qed.

Lemma rule_entries_ok k o :
  0 < k → rule_ok o → Forall (λ e, entry_ok e ∧ rooted (e_url e)) (rule_entries k o).
Proof.
  intros Hk [He Hn Hr _]. unfold rule_entries in *. apply Forall_cons in He as [H1 H2].
  cbn [e_url] in H1. constructor.
  - split; [split; [done|split; [done|cbn; lia]]|done].
  - destruct (has_trailing_slash (rule_ o)) eqn:Es; [|constructor].
    apply Forall_cons in H2 as [H2 _]. cbn [e_url] in H2. apply Forall_singleton.
    split; [split; [exact H2|split; [by intros ?%elem_of_removelast|done]]|by apply rooted_removelast].
Qed.

Lemma entries_ok k os :
  0 < k → Forall rule_ok os → Forall (λ e, entry_ok e ∧ rooted (e_url e)) (entries k os).
Proof.
  intros Hk Ho. revert k Hk. induction Ho as [|o os Ho _ IH]; intros k Hk; [constructor|].
  cbn [entries]. apply Forall_app. split; [by apply rule_entries_ok|apply IH; lia].
Qed.

Lemma entries_app k os os' :
  entries k (os ++ os') = entries k os ++ entries (k + Z.of_nat (length os)) os'.
Proof.
  revert k. induction os as [|o os IH]; intros k; cbn [app entries length].
  - by rewrite Z.add_0_r.
  - rewrite IH, <- app_assoc. do 3 f_equal. lia.
Qed.

(** An entry is a rule's, or a redirection's. *)
Lemma elem_of_entries e k os :
  e ∈ entries k os ↔
  ∃ i o, os !! i = Some o ∧
    (e = MkEntry (rule_ o) (k + Z.of_nat i) 0 INVALID_BP_ID ∨
     has_trailing_slash (rule_ o) = true ∧
     e = MkEntry (removelast (rule_ o)) RULE_SPECIAL_REDIRECT_SLASH 0 INVALID_BP_ID).
Proof.
  revert k. induction os as [|o os IH]; intros k; cbn [entries].
  { rewrite elem_of_nil. split; [done|]. by intros (i & o & Hi & _). }
  unfold rule_entries. rewrite elem_of_app, elem_of_cons, IH. split.
  - intros [[->|He]|(i & o' & Hi & He)].
    + exists 0%nat, o. rewrite Z.add_0_r. by split; [|left].
    + exists 0%nat, o. split; [done|]. right. destruct (has_trailing_slash _); [|by apply elem_of_nil in He].
      by apply list_elem_of_singleton in He.
    + exists (S i), o'. split; [done|]. replace (k + Z.of_nat (S i)) with (k + 1 + Z.of_nat i) by lia. done.
  - intros ([|i] & o' & Hi & He); simplify_eq/=.
    + left. rewrite Z.add_0_r in He. destruct He as [->|[-> ->]]; [by left|]. right. by apply list_elem_of_singleton.
    + right. exists i, o'. split; [done|]. replace (k + 1 + Z.of_nat i) with (k + Z.of_nat (S i)) by lia. done.
Qed.

Lemma add_rule_for_method_entries o pm :
  Z.of_nat (length (rules pm)) < 2 ^ 16 →
  add_rule_for_method o pm =
  outcome_map (MkPerMethod (rules pm ++ [Some o]))
    (add_urls (rule_entries (Z.of_nat (length (rules pm))) o) (trie pm)).
Proof.
  intros Hl. unfold add_rule_for_method, rule_entries.
  assert (to_uint16 (Z.of_nat (length (rules pm ++ [Some o])) - 1) = Z.of_nat (length (rules pm))) as ->.
  { rewrite length_app. cbn. unfold to_uint16. rewrite Z.mod_small; lia. }
  cbn [add_urls e_url e_rule e_prefix e_blueprint].
  destruct (add _ _ _ _ (trie pm)) as [t| | | | |]; cbn [outcome_bind outcome_map]; try done.
  destruct (has_trailing_slash (rule_ o)); [|done]. cbn [add_urls e_url e_rule e_prefix e_blueprint].
  by destruct (add _ _ _ _ t).
Qed.

(** The tree of the rules of a method: what [add] was given, in order. *)
Definition built (pm : @PerMethod _ W) (os : table_rules) : Prop :=
  rules pm = [None; None] ++ (Some <$> os) ∧
  add_urls (entries 2 os) new_node = Val (trie pm).

Lemma entries_build os :
  Forall rule_ok os → NoDup (claimed os) →
  ∃ h, add_urls (entries 2 os) new_node = Val h ∧ tree h ∧ simple_head h ∧
    paths h ≡ₚ table_of (entries 2 os).
Proof.
  intros Ho Hn. pose proof (entries_ok 2 os ltac:(lia) Ho) as He.
  pose proof He as [HT HR]%Forall_and.
  pose proof (add_urls_adds _ _ HT new_node_tree) as Ha.
  rewrite decide_True in Ha.
  - destruct Ha as (h & E & Ht & HP). exists h. split; [done|]. split; [done|]. split; [|done].
    by eapply add_urls_simple_head; eauto using new_node_simple_head.
  - unfold claimed in Hn. unfold table_of. rewrite (fresh_paths new_node) by done. cbn [app].
    rewrite <- list_fmap_compose. exact Hn.
Qed.

Lemma claimed_app os os' : NoDup (claimed (os ++ os')) → NoDup (claimed os).
Proof. unfold claimed. rewrite entries_app, fmap_app. by intros [? _]%NoDup_app. Qed.

(** One more rule. *)
Lemma built_step pm os o :
  built pm os → Forall rule_ok (os ++ [o]) → NoDup (claimed (os ++ [o])) →
  Z.of_nat (length os) + 2 < 2 ^ 16 →
  ∃ pm', add_rule_for_method o pm = Val pm' ∧ built pm' (os ++ [o]).
Proof.
  intros [Hr Ht] Ho Hn Hl.
  assert (Z.of_nat (length (rules pm)) = 2 + Z.of_nat (length os)) as Hlen.
  { rewrite Hr, length_app, length_fmap. cbn. lia. }
  rewrite add_rule_for_method_entries by lia. rewrite Hlen.
  destruct (entries_build _ Ho Hn) as (h & Hh & _).
  rewrite entries_app, add_urls_app, Ht in Hh.
  cbn [outcome_bind entries] in Hh. rewrite app_nil_r in Hh. rewrite Hh.
  eexists. split; [done|]. split; cbn [rules trie].
  - by rewrite Hr, fmap_app, app_assoc.
  - rewrite entries_app, add_urls_app, Ht. cbn [outcome_bind entries]. by rewrite app_nil_r.
Qed.

(** ** All the methods *)

Lemma foreach_method_loop_elem n method bit methods m :
  m ∈ foreach_method_loop n method bit methods → (method ≤ m < method + n)%nat.
Proof.
  revert method bit. induction n as [|n IH]; intros method bit; cbn; [by intros ?%elem_of_nil|].
  intros [Hm|Hm]%elem_of_app; [|apply IH in Hm; lia].
  destruct (_ =? 0); [by apply elem_of_nil in Hm|]. apply list_elem_of_singleton in Hm. lia.
Qed.

Lemma foreach_method_loop_nodup n method bit methods :
  NoDup (foreach_method_loop n method bit methods).
Proof.
  revert method bit. induction n as [|n IH]; intros method bit; cbn; [constructor|].
  apply NoDup_app. split; [|split; [|apply IH]].
  - destruct (_ =? 0); [constructor|apply NoDup_singleton].
  - intros m Hm Hm'%foreach_method_loop_elem.
    destruct (_ =? 0); [by apply elem_of_nil in Hm|]. apply list_elem_of_singleton in Hm. lia.
Qed.

Lemma foreach_method_lt (o : rule) m : m ∈ foreach_method o → (m < InternalMethodCount)%nat.
Proof. intros Hm%foreach_method_loop_elem. lia. Qed.

(** The rules of a method, in the order of their registration. *)
Definition method_rules (m : nat) (objs : table_rules) : table_rules :=
  List.filter (λ o, bool_decide (m ∈ foreach_method o)) objs.

Lemma method_rules_app m objs objs' :
  method_rules m (objs ++ objs') = method_rules m objs ++ method_rules m objs'.
Proof. apply List.filter_app. Qed.

Lemma add_to_methods (o : rule) ms (pms : list (@PerMethod _ W)) :
  NoDup ms → (∀ m, m ∈ ms → (m < length pms)%nat) →
  (∀ m pm, m ∈ ms → pms !! m = Some pm → ∃ pm', add_rule_for_method o pm = Val pm') →
  ∃ pms',
    fold_left (λ r m, outcome_bind r (λ pms,
        outcome_map (λ pm, <[m := pm]> pms)
          (add_rule_for_method o (default new_per_method (pms !! m))))) ms (Val pms) = Val pms' ∧
    length pms' = length pms ∧
    ∀ m pm, pms !! m = Some pm → ∃ pm', pms' !! m = Some pm' ∧
      (m ∈ ms → add_rule_for_method o pm = Val pm') ∧ (m ∉ ms → pm' = pm).
Proof.
  revert pms. induction ms as [|m ms IH]; intros pms Hn Hlt Hok.
  { exists pms. split; [done|]. split; [done|]. intros m pm Hm. exists pm. split; [done|].
    split; [by intros ?%elem_of_nil|done]. }
  apply NoDup_cons in Hn as [Hm Hn].
  destruct (lookup_lt_is_Some_2 pms m) as [pm Hpm]; [apply Hlt; by left|].
  destruct (Hok m pm) as [pm' Hpm']; [by left|done|].
  cbn [fold_left outcome_bind]. rewrite Hpm. cbn [default from_option id]. rewrite Hpm'.
  destruct (IH (<[m := pm']> pms) Hn) as (pms' & Hf & Hl & Hall).
  - intros i Hi. rewrite length_insert. apply Hlt. by right.
  - intros i pmi Hi Hpmi. apply (Hok i); [by right|].
    rewrite list_lookup_insert_ne in Hpmi; [done|]. by intros <-.
  - exists pms'. split; [exact Hf|]. rewrite length_insert in Hl. split; [done|].
    intros i pmi Hi. destruct (decide (i = m)) as [->|Him].
    + rewrite Hpm in Hi. injection Hi as <-.
      destruct (Hall m pm') as (q & Hq & _ & Hout).
      { apply list_lookup_insert_eq. by eapply lookup_lt_Some. }
      rewrite (Hout Hm) in Hq. exists pm'. split; [done|]. split; [done|].
      intros Hni. exfalso. apply Hni. by left.
    + destruct (Hall i pmi) as (q & Hq & Hin & Hout); [by rewrite list_lookup_insert_ne|].
      exists q. split; [done|]. split.
      * intros [?|Hi']%elem_of_cons; [done|]. by apply Hin.
      * intros [_ Hi']%not_elem_of_cons. by apply Hout.
Qed.

(** The conditions on an application's rules. *)
Record table_ok (objs : table_rules) : Prop := TableOk {
  ok_rules : Forall rule_ok objs;
  ok_distinct : ∀ m, NoDup (claimed (method_rules m objs));
  ok_size : Z.of_nat (length objs) + 2 ≤ 2 ^ 16
}.

Definition all_built (pms : list (@PerMethod _ W)) (objs : table_rules) : Prop :=
  length pms = InternalMethodCount ∧
  ∀ m pm, pms !! m = Some pm → built pm (method_rules m objs).

Lemma Forall_method_rules (P : rule → Prop) m objs : Forall P objs → Forall P (method_rules m objs).
Proof.
  rewrite !Forall_forall. intros HP o Ho. apply HP. unfold method_rules in Ho.
  apply list_elem_of_In in Ho. apply filter_In in Ho as [Ho _]. by apply list_elem_of_In.
Qed.

Lemma validate_rules_built rest objs pms :
  table_ok (objs ++ rest) → all_built pms objs →
  ∃ pms', validate_rules rest pms = Val pms' ∧ all_built pms' (objs ++ rest).
Proof.
  unfold validate_rules. revert objs pms. induction rest as [|o rest IH]; intros objs pms Hok Hb.
  { exists pms. by rewrite app_nil_r. }
  destruct Hok as [Hr Hd Hs]. destruct Hb as [Hl Hb].
  pose proof Hr as Hro. apply Forall_app in Hro as [_ [Ho _]%Forall_cons].
  destruct (ok_handler _ Ho) as [h Hh].
  assert (∀ m pm, m ∈ foreach_method o → pms !! m = Some pm → ∃ pm',
    add_rule_for_method o pm = Val pm' ∧ built pm' (method_rules m (objs ++ [o]))) as Hstep.
  { intros m pm Hm Hpm.
    assert (method_rules m (objs ++ [o]) = method_rules m objs ++ [o]) as ->.
    { rewrite method_rules_app. f_equal. unfold method_rules. cbn.
      by rewrite bool_decide_eq_true_2. }
    specialize (Hd m).
    replace (objs ++ o :: rest) with ((objs ++ [o]) ++ rest) in Hd, Hr, Hs
      by by rewrite <- app_assoc.
    assert (method_rules m ((objs ++ [o]) ++ rest) =
            (method_rules m objs ++ [o]) ++ method_rules m rest) as E.
    { rewrite !method_rules_app. do 2 f_equal. unfold method_rules. cbn.
      by rewrite bool_decide_eq_true_2. }
    apply built_step; [by apply Hb|..].
    - apply (Forall_method_rules _ m) in Hr. rewrite E in Hr.
      by apply Forall_app in Hr as [Hr _].
    - rewrite E in Hd. by eapply claimed_app.
    - rewrite !length_app in Hs. cbn in Hs. unfold method_rules.
      pose proof (List.filter_length_le (λ o, bool_decide (m ∈ foreach_method o)) objs). lia. }
  destruct (add_to_methods o (foreach_method o) pms) as (pms1 & Hf & Hl1 & Hall).
  - apply foreach_method_loop_nodup.
  - intros m Hm. rewrite Hl. by eapply foreach_method_lt.
  - intros m pm Hm Hpm. destruct (Hstep m pm Hm Hpm) as (pm' & ? & _). by exists pm'.
  - cbn [fold_left outcome_bind]. unfold rule_validate. rewrite Hh. cbn [outcome_bind].
    unfold internal_add_rule_object. rewrite Hf.
    replace (objs ++ o :: rest) with ((objs ++ [o]) ++ rest) in Hd, Hr, Hs |- *
      by by rewrite <- app_assoc.
    apply IH; [by constructor|]. split; [congruence|].
    intros m pm1 Hm1. destruct (lookup_lt_is_Some_2 pms m) as [pm Hpm].
    { rewrite <- Hl1. by eapply lookup_lt_Some. }
    destruct (Hall m pm Hpm) as (q & Hq & Hin & Hout). rewrite Hm1 in Hq. injection Hq as <-.
    destruct (decide (m ∈ foreach_method o)) as [Hm|Hm].
    + destruct (Hstep m pm Hm Hpm) as (pm' & E & Hb'). rewrite (Hin Hm) in E.
      by injection E as <-.
    + rewrite (Hout Hm), method_rules_app.
      assert (method_rules m [o] = []) as ->.
      { unfold method_rules. cbn. by rewrite bool_decide_eq_false_2. }
      rewrite app_nil_r. by apply Hb.
Qed.

Lemma validate_tries_built pms objs :
  Forall rule_ok objs → (∀ m, NoDup (claimed (method_rules m objs))) →
  (∀ m pm, pms !! m = Some pm → ∃ m', built pm (method_rules m' objs)) →
  validate_tries pms = Val ((λ pm, MkPerMethod (rules pm) (optimize (trie pm))) <$> pms).
Proof.
  intros Hr Hd. induction pms as [|pm pms IH]; intros Hb; [done|]. cbn [validate_tries].
  destruct (Hb 0%nat pm) as [m' [_ Ht]]; [done|].
  destruct (entries_build (method_rules m' objs)) as (h & Hh & _ & Hsh & _).
  { by apply Forall_method_rules. } { done. }
  rewrite Ht in Hh. injection Hh as <-. unfold trie_validate. rewrite simple_head_simple by done.
  rewrite IH; [done|]. intros m q Hq. by apply (Hb (S m)).
Qed.

(** ** The table's answer *)

Abbreviation reads s u := (read_url s (items_of u) 0).

(** A rule with a slash at its end reads the path once a slash is added. *)
Definition redirects (os : table_rules) (s : bytes) : bool :=
  existsb (λ o, has_trailing_slash (rule_ o) && bool_decide (is_Some (reads s (removelast (rule_ o))))) os.

(** The first rule that reads the path, with the values it reads. *)
Fixpoint pick (os : table_rules) (s : bytes) : option (rule * list param_value) :=
  match os with
  | [] => None
  | o :: os =>
      match reads s (rule_ o) with
      | Some vs => Some (o, vs)
      | None => pick os s
      end
  end.

Inductive answer : Type := Redirect | Answer (o : rule) (vs : list param_value) | NoAnswer.

Definition table_answer (os : table_rules) (s : bytes) : answer :=
  if redirects os s then Redirect
  else match pick os s with
       | Some (o, vs) => Answer o vs
       | None => NoAnswer
       end.
Definition answers (a : answer) : bool := match a with NoAnswer => false | _ => true end.

Lemma pick_first os s o vs :
  pick os s = Some (o, vs) →
  ∃ i, os !! i = Some o ∧ reads s (rule_ o) = Some vs ∧
    ∀ j o', os !! j = Some o' → is_Some (reads s (rule_ o')) → (i ≤ j)%nat.
Proof.
  induction os as [|o0 os IH]; [done|]. cbn [pick]. destruct (reads s (rule_ o0)) as [vs0|] eqn:E.
  - intros [= <- <-]. exists 0%nat. split; [done|]. split; [done|]. lia.
  - intros Hp. destruct (IH Hp) as (i & Hi & Ho & Hmin). exists (S i). split; [done|]. split; [done|].
    intros [|j] o' Hj [vs' Hr]; cbn in Hj; [simplify_eq|]. specialize (Hmin j o' Hj ltac:(by exists vs')). lia.
Qed.
Lemma pick_none os s o : pick os s = None → o ∈ os → reads s (rule_ o) = None.
Proof.
  induction os as [|o0 os IH]; [by intros _ ?%elem_of_nil|]. cbn [pick].
  destruct (reads s (rule_ o0)) eqn:E; [done|]. intros Hp [->|Ho]%elem_of_cons; auto.
Qed.

Lemma redirects_spec os s :
  redirects os s = true ↔
  ∃ o, o ∈ os ∧ has_trailing_slash (rule_ o) = true ∧ is_Some (reads s (removelast (rule_ o))).
Proof.
  unfold redirects. rewrite existsb_exists. split.
  - intros (o & Ho & [Hs Hr%bool_decide_eq_true_1]%andb_true_iff). exists o.
    split; [by apply list_elem_of_In|done].
  - intros (o & Ho & Hs & Hr). exists o. split; [by apply list_elem_of_In|].
    by rewrite Hs, bool_decide_eq_true_2.
Qed.

(** What the tree of the entries finds is the table's answer. *)
Lemma entries_answer os s idx bps ps :
  answers_table (entries 2 os) s (idx, bps, ps) →
  match table_answer os s with
  | Redirect => idx = RULE_SPECIAL_REDIRECT_SLASH
  | Answer o vs => 2 ≤ idx ∧ os !! Z.to_nat (idx - 2) = Some o ∧ ps = push_all no_params vs
  | NoAnswer => idx = 0
  end.
Proof.
  intros Ha. unfold table_answer. destruct (redirects os s) eqn:Er.
  { apply redirects_spec in Er as (o & [i Ho]%list_elem_of_lookup & Hs & Hr).
    assert (MkEntry (removelast (rule_ o)) RULE_SPECIAL_REDIRECT_SLASH 0 INVALID_BP_ID ∈ entries 2 os) as He
      by (apply elem_of_entries; exists i, o; split; [done|by right]).
    destruct Ha as [[_ Hno]|(e & vs & Hin & <- & _ & _ & Hmin)].
    - specialize (Hno _ He). cbn [e_url] in Hno. rewrite Hno in Hr. by destruct Hr.
    - specialize (Hmin _ He Hr). cbn [e_rule] in Hmin.
      apply elem_of_entries in Hin as (j & o' & _ & [->|[_ ->]]); cbn [e_rule] in *; [|done].
      unfold RULE_SPECIAL_REDIRECT_SLASH in *. lia. }
  assert (∀ e, e ∈ entries 2 os → is_Some (reads s (e_url e)) → ∃ i o,
            os !! i = Some o ∧ e = MkEntry (rule_ o) (2 + Z.of_nat i) 0 INVALID_BP_ID) as Hmain.
  { intros e (i & o & Hi & [->|[Hs ->]])%elem_of_entries Hr; [by exists i, o|].
    assert (redirects os s = true) as Et; [|by rewrite Et in Er].
    apply redirects_spec. exists o. split; [by eapply list_elem_of_lookup_2|done]. }
  destruct (pick os s) as [[o vs]|] eqn:Ep.
  - destruct (pick_first _ _ _ _ Ep) as (i & Hi & Hr & Hfirst).
    assert (MkEntry (rule_ o) (2 + Z.of_nat i) 0 INVALID_BP_ID ∈ entries 2 os) as He
      by (apply elem_of_entries; exists i, o; split; [done|by left]).
    destruct Ha as [[_ Hno]|(e & vs' & Hin & <- & Ev & -> & Hmin)].
    { specialize (Hno _ He). cbn [e_url] in Hno. congruence. }
    specialize (Hmin _ He ltac:(by exists vs)). cbn [e_rule] in Hmin.
    destruct (Hmain e Hin ltac:(by exists vs')) as (j & o' & Hj & ->). cbn [e_rule e_url] in *.
    specialize (Hfirst j o' Hj ltac:(by exists vs')).
    assert (j = i) as -> by lia. rewrite Hi in Hj. injection Hj as <-.
    split; [lia|]. replace (Z.to_nat _) with i by lia. split; [done|]. congruence.
  - destruct Ha as [[-> _]|(e & vs' & Hin & _ & Ev & _)]; [done|].
    destruct (Hmain e Hin ltac:(by exists vs')) as (j & o' & Hj & ->). cbn [e_url] in Ev.
    rewrite (pick_none _ _ o' Ep) in Ev; [done|]. by eapply list_elem_of_lookup_2.
Qed.

(** ** What validate builds *)

(** A router whose trees answer as the table of rules. *)
Definition serves (r : @router _ W) (objs : table_rules) : Prop :=
  length (per_methods_ r) = InternalMethodCount ∧
  ∀ m pm, per_methods_ r !! m = Some pm →
    rules pm = [None; None] ++ (Some <$> method_rules m objs) ∧
    is_empty (trie pm) = bool_decide (length (method_rules m objs) = 0%nat) ∧
    ∀ s, answers_table (entries 2 (method_rules m objs)) s (find (trie pm) s).

Lemma is_empty_optimize h : is_empty (optimize h) = is_empty h.
Proof. destruct h as [r b k p []]; done. Qed.

(** A tree is empty only when its method has no rule. *)
Lemma entries_is_empty h os :
  simple_head h → paths h ≡ₚ table_of (entries 2 os) → is_empty h = true → os = [].
Proof.
  intros (Hr & _) HP He. unfold is_empty in He. rewrite paths_unfold, Hr in HP.
  destruct (children h); [|done]. cbn [own Z.eqb flat_map app] in HP. destruct os as [|o os]; [done|].
  apply Permutation_nil_l in HP. discriminate HP.
Qed.

Lemma all_built_new : all_built (replicate InternalMethodCount new_per_method) [].
Proof.
  split; [done|]. intros m pm Hm. apply lookup_replicate in Hm as [-> _]. by split.
Qed.

Lemma validate_serves objs c :
  table_ok objs →
  ∃ r, validate (MkRouter c (replicate InternalMethodCount new_per_method) objs) = Val r ∧
    catchall_rule_ r = c ∧ all_rules_ r = objs ∧ serves r objs.
Proof.
  intros Hok. destruct (validate_rules_built objs [] _ Hok all_built_new) as (pms & Hv & Hl & Hb).
  destruct Hok as [Hr Hd _]. unfold validate. cbn [all_rules_ per_methods_]. rewrite Hv.
  cbn [outcome_bind app] in *. rewrite (validate_tries_built _ objs) by eauto. cbn [outcome_map].
  eexists. split; [done|]. split; [done|]. split; [done|].
  unfold serves. cbn [per_methods_]. split; [by rewrite length_fmap|]. intros m pm Hpm. rewrite list_lookup_fmap in Hpm.
  destruct (pms !! m) as [q|] eqn:Hq; [|done]. injection Hpm as <-. cbn [rules trie].
  destruct (Hb m q Hq) as [Hrules Ht]. split; [done|].
  destruct (entries_build (method_rules m objs)) as (h & Hh & Htree & Hsh & HP).
  { by apply Forall_method_rules. } { done. }
  rewrite Ht in Hh. injection Hh as <-. split.
  - rewrite is_empty_optimize. destruct (is_empty (trie q)) eqn:He.
    + rewrite (entries_is_empty (trie q) (method_rules m objs) Hsh HP He). done.
    + destruct (method_rules m objs) as [|o os]; [|done].
      injection Ht as Ht. by rewrite <- Ht in He.
  - intros s. destruct (optimize_paths _ (tree_labelled _ Htree)) as [Hlo HPo].
    apply find_answers_table; [done|]. by rewrite HPo.
Qed.

Lemma serves_answers r objs m pm s :
  serves r objs → per_methods_ r !! m = Some pm →
  negb ((find (trie pm) s).1.1 =? 0) = answers (table_answer (method_rules m objs) s).
Proof.
  intros [_ Hs] Hpm. destruct (Hs m pm Hpm) as (_ & _ & Hf). specialize (Hf s).
  destruct (find (trie pm) s) as [[idx bps] ps]. apply entries_answer in Hf. cbn [fst].
  destruct (table_answer _ _) as [|o vs|]; cbn [answers]; [by rewrite Hf| |by rewrite Hf].
  destruct Hf as [Hge _]. by destruct (Z.eqb_spec idx 0); [lia|].
Qed.

(** Some method has a rule for the URL. *)
Definition known_url (objs : table_rules) (s : bytes) : bool :=
  existsb (λ m, answers (table_answer (method_rules m objs) s)) (seq 0 InternalMethodCount).

Lemma existsb_seq {A} (f : A → bool) (g : nat → bool) l :
  (∀ i a, l !! i = Some a → f a = g i) → existsb f l = existsb g (seq 0 (length l)).
Proof.
  revert g. induction l as [|a l IH]; intros g Hfg; [done|]. cbn [length seq existsb].
  rewrite (Hfg 0%nat a), <- seq_shift, (IH (λ i, g (S i))) by (done || intros i b Hb; by apply (Hfg (S i))).
  f_equal. clear. induction (seq 0 (length l)) as [|i s IH]; [done|]. cbn. by rewrite IH.
Qed.

Lemma serves_known r objs req :
  serves r objs →
  existsb (λ pm, negb (found_rule req pm =? 0)) (per_methods_ r) = known_url objs (url_of req).
Proof.
  intros Hs. unfold known_url. rewrite <- (proj1 Hs). apply existsb_seq.
  intros i pm Hpm. by apply (serves_answers r objs).
Qed.

(** What the table of an application's rules does with a request. *)
Definition table_dispatch complete (r : router) (objs : table_rules) (m : HTTPMethod)
    (req : request) : prog (response * W) unit :=
  match table_answer (method_rules (method_value m) objs) (url_of req) with
  | Redirect => redirect_slash complete req
  | Answer o vs => call_rule complete o req (push_all no_params vs)
  | NoAnswer =>
      prog_bind (get_error r (if known_url objs (url_of req) then 405 else 404) req)
                (λ _, res_end complete)
  end.

Lemma serves_dispatch complete r objs m req :
  serves r objs → dispatch complete r m req = table_dispatch complete r objs m req.
Proof.
  intros Hs. unfold dispatch, table_dispatch. rewrite (serves_known _ objs) by done.
  destruct (lookup_lt_is_Some_2 (per_methods_ r) (method_value m)) as [pm Hpm].
  { rewrite (proj1 Hs). destruct m; vm_compute; lia. }
  rewrite Hpm. cbn [default from_option id].
  destruct (proj2 Hs _ _ Hpm) as (Hrules & _ & Hfind). specialize (Hfind (url_of req)).
  destruct (find (trie pm) (url_of req)) as [[idx bps] params]. apply entries_answer in Hfind.
  rewrite Hrules, length_app, length_fmap.
  set (n := (length [None (A := rule); None] + length (method_rules (method_value m) objs))%nat).
  assert (2 ≤ Z.of_nat n) as Hn by (unfold n; cbn; lia).
  destruct (table_answer _ _) as [|o vs|].
  - subst idx. unfold RULE_SPECIAL_REDIRECT_SLASH. by destruct (Z.leb_spec (Z.of_nat n) 1); [lia|].
  - destruct Hfind as (Hge & Ho & ->). pose proof (lookup_lt_Some _ _ _ Ho) as Hlt.
    destruct (Z.eqb_spec idx 0); [lia|].
    destruct (Z.leb_spec (Z.of_nat n) idx); [unfold n in *; cbn in *; lia|].
    destruct (Z.eqb_spec idx RULE_SPECIAL_REDIRECT_SLASH) as [E|_]; [unfold RULE_SPECIAL_REDIRECT_SLASH in E; lia|].
    rewrite lookup_app_r, list_lookup_fmap by (cbn; lia).
    replace (Z.to_nat idx - length [None; None])%nat with (Z.to_nat (idx - 2)) by (cbn; lia).
    by rewrite Ho.
  - rewrite Hfind. by destruct (known_url _ _).
Qed.

(** The methods an OPTIONS request is told about. *)
Definition list_methods (f : nat → bool) : string :=
  fold_left (λ allow i,
      if f i then allow +:+ method_name (method_of_value i) +:+ ", " else allow)
    (seq 0 InternalMethodCount) "OPTIONS, HEAD, ".

Lemma serves_allowed (r : router) objs f g :
  serves r objs →
  (∀ m pm, per_methods_ r !! m = Some pm → f pm = g (method_rules m objs)) →
  allowed f r = list_methods (λ m, g (method_rules m objs)).
Proof.
  intros [Hl _] Hfg. unfold allowed, list_methods. apply fold_left_ext_in.
  intros a i Hi. apply elem_of_seq in Hi.
  destruct (lookup_lt_is_Some_2 (per_methods_ r) i) as [pm Hpm]; [lia|].
  rewrite Hpm. cbn [default from_option id]. by rewrite (Hfg i pm Hpm).
Qed.

(** What the table does with a request of any method. *)
Definition table_handle complete (r : router) (objs : table_rules) (req : request) :
    prog (response * W) unit :=
  match req_method req with
  | Head =>
      prog_bind (res_do (Response.set_skip_body true))
                (λ _, table_dispatch complete r objs Get req)
  | Options =>
      let allow :=
        list_methods (λ m,
          if String.eqb (req_url req) "/*" then negb (bool_decide (length (method_rules m objs) = 0%nat))
          else answers (table_answer (method_rules m objs) (url_of req))) in
      if negb (String.eqb (req_url req) "/*") && String.eqb allow "OPTIONS, HEAD, "
      then respond complete 404 (Done tt)
      else respond complete 204 (res_do (Response.set_header "Allow" (drop_comma allow)))
  | m => table_dispatch complete r objs m req
  end.

Lemma serves_handle complete r objs req :
  serves r objs → handle complete r req = table_handle complete r objs req.
Proof.
  intros Hs. unfold handle, table_handle.
  pose proof (λ m, serves_dispatch complete r objs m req Hs) as Hd.
  destruct (req_method req); try apply Hd.
  - by rewrite Hd.
  - destruct (String.eqb (req_url req) "/*"); cbn [negb andb].
    + rewrite (serves_allowed r objs _ (λ os, negb (bool_decide (length os = 0%nat)))); [done|done|].
      intros m pm Hpm. by destruct (proj2 Hs m pm Hpm) as (_ & -> & _).
    + rewrite (serves_allowed r objs _ (λ os, answers (table_answer os (url_of req)))); [done|done|].
      intros m pm Hpm. by apply (serves_answers r objs).
Qed.
End Facts.

(** Different rules claim different URLs: enough for every method. *)
Lemma claimed_flat_map `{Doubles} {W} (os : list (@BaseRule _ W)) :
  claimed os = flat_map (λ o, items_of ∘ e_url <$> rule_entries 0 o) os.
Proof.
  unfold claimed. generalize 2. induction os as [|o os IH]; intros k; [done|].
  cbn [entries flat_map]. rewrite fmap_app, IH. unfold rule_entries. by destruct (has_trailing_slash _).
Qed.

Lemma flat_map_filter_nodup {A B} (f : A → list B) (g : A → bool) l :
  NoDup (flat_map f l) → NoDup (flat_map f (List.filter g l)).
Proof.
  assert (∀ x l, x ∈ flat_map f (List.filter g l) → x ∈ flat_map f l) as Hsub.
  { intros x l'. induction l' as [|a l' IH]; [done|]. cbn. destruct (g a); cbn;
      rewrite !elem_of_app; naive_solver. }
  induction l as [|a l IH]; [done|]. cbn. intros (H1 & H2 & H3)%NoDup_app.
  destruct (g a); [|by apply IH]. cbn. apply NoDup_app. split; [done|]. split; [|by apply IH].
  intros x Hx Hx'. apply (H2 x Hx). by apply Hsub.
Qed.

Lemma distinct_methods `{Doubles} {W} (objs : list (@BaseRule _ W)) m :
  NoDup (claimed objs) → NoDup (claimed (method_rules m objs)).
Proof. rewrite !claimed_flat_map. apply flat_map_filter_nodup. Qed.

(** C21: An application's rules are an ordered table.  For at most 2^16 - 2 rules with handlers,
    whose URLs start with a slash, have no NUL and no ['<'] that begins no parameter, and of
    which no two of a method claim the same characters and parameters (a URL with a slash at its
    end claims the URL without it as well): [validate] succeeds, and the router then serves
    every request, whatever its method and URL, with the first rule registered for the method
    whose URL reads the path, called with exactly the values the URL's parameters read; with a
    redirection if only the slash at the end is missing, with 405 if only another
    method has a rule, with 404 otherwise; an OPTIONS request is told the methods that have
    a rule for the URL. *)
Theorem router_is_rule_table `{Doubles} {W} (objs : list (@BaseRule _ W)) catchall :
  table_ok objs →
  ∃ r, validate (MkRouter catchall (replicate InternalMethodCount new_per_method) objs) = Val r ∧
    catchall_rule_ r = catchall ∧
    ∀ complete req, handle complete r req = table_handle complete r objs req.
Proof.
  intros Hok. destruct (validate_serves objs catchall Hok) as (r & Hv & Hc & _ & Hs).
  exists r. split; [done|]. split; [done|]. intros complete req. by apply serves_handle.
Qed.

(** Three rules: one with a slash at its end, one for POST, one with parameters, which answers
    with the text it is given. *)
Definition hello : request → prog unit response := λ _, Done (Response.of_body "hello").
Definition echo `{Doubles} : request → routing_params → prog (response * unit) unit := λ _ params,
  assign_res (Response.of_body (string_of_list_ascii (concat (string_params params)))).
Definition example_rules : list (@BaseRule integer_doubles unit) :=
  [with_handler (wrapped_handler_call (Done tt) hello) (TaggedRule (list_ascii_of_string "/about/"));
   MkRule (list_ascii_of_string "/form") "" 8
     (Some (wrapped_handler_call (Done tt) hello));
   with_handler echo (TaggedRule (list_ascii_of_string "/user/<int>/<string>"))].

Lemma router_is_rule_table_witness :
  ∃ r, validate (MkRouter None (replicate InternalMethodCount new_per_method) example_rules) = Val r ∧
    (∀ complete req, url_of req = list_ascii_of_string "/about" → req_method req = Get →
      handle complete r req = redirect_slash complete req) ∧
    (∀ complete req, url_of req = list_ascii_of_string "/user/7/ann" → req_method req = Get →
      handle complete r req = catch (λ _, respond complete 500 (Done tt))
        (assign_res (Response.of_body "ann"))).
Proof.
  destruct (router_is_rule_table example_rules None) as (r & Hr & _ & Hh).
  - split.
    + unfold example_rules.
      repeat (apply Forall_cons_2; [split; [..|by eexists]|]);
        try apply Forall_nil_2; unfold rule_entries, rooted;
        try (refine (bool_decide_eq_true_1 _ _); by vm_compute).
    + intros m. apply distinct_methods. refine (bool_decide_eq_true_1 _ _). by vm_compute.
    + by vm_compute.
  - exists r. split; [exact Hr|]. split; intros complete req Hu Hm; rewrite (Hh complete req);
      unfold table_handle, table_dispatch; rewrite Hm, Hu; reflexivity.
Defined.
