(* ===== verification/TaskTimer.v ===== *)
(** * The task timer

    lib/crowapi/crow_all.h, [detail::task_timer]: tasks to be run once a time has passed, each
    under an identifier by which it can be cancelled.  A worker thread has one, and its
    connections keep their deadlines in it.

    [tasks_] is a [std::map], the list of its entries in the order of their keys.  The clock is
    read once by each operation: a time is a count of nanoseconds, given as an argument.  What
    a task does is a parameter; the tasks of connections do not use the timer themselves. *)

From Stdlib Require Import ZArith Lia.
From stdpp Require Import base tactics option list sorting.
From S2P Require Import Prelude.

Local Open Scope Z_scope.

Section TaskTimer.
Context {T : Type}.

(** [std::chrono::seconds] *)
Definition seconds (n : Z) : Z := n * 10 ^ 9.

Record task_timer : Type := MkTaskTimer {
  default_timeout_ : Z;
  tasks_ : list (Z * (Z * T));
  highest_id_ : Z
}.

(** [task_timer(io_service)]: the tick it starts is an event (file Worker). *)
Definition new_task_timer : task_timer := MkTaskTimer 5 [] 0.

(** [std::map::insert] does nothing when the key is there. *)
Fixpoint map_insert (id : Z) (x : Z * T) (m : list (Z * (Z * T))) : list (Z * (Z * T)) :=
  match m with
  | [] => [(id, x)]
  | (id', y) :: m' =>
      if id <? id' then (id, x) :: m
      else if id =? id' then m
      else (id', y) :: map_insert id x m'
  end.
Definition map_erase (id : Z) (m : list (Z * (Z * T))) : list (Z * (Z * T)) :=
  filter (λ e, e.1 ≠ id) m.

(** [++highest_id_], a [size_t]. *)
Definition next_id (t : task_timer) : Z := (highest_id_ t + 1) mod 2 ^ 64.

Definition cancel (id : Z) (t : task_timer) : task_timer :=
  MkTaskTimer (default_timeout_ t) (map_erase id (tasks_ t)) (highest_id_ t).

(** [schedule(task, timeout)] *)
Definition schedule_after (now : Z) (task : T) (timeout : Z) (t : task_timer) : Z * task_timer :=
  (next_id t,
   MkTaskTimer (default_timeout_ t) (map_insert (next_id t) (now + seconds timeout, task) (tasks_ t))
     (next_id t)).
(** [schedule(task)] *)
Definition schedule (now : Z) (task : T) (t : task_timer) : Z * task_timer :=
  schedule_after now task (default_timeout_ t) t.

Definition set_default_timeout (timeout : Z) (t : task_timer) : task_timer :=
  MkTaskTimer timeout (tasks_ t) (highest_id_ t).

(** ** process_tasks *)

(** [task.second.first < current_time] *)
Definition is_due (current_time : Z) (e : Z * (Z * T)) : bool := e.2.1 <? current_time.

(** The end of [process_tasks]: the finished tasks are erased. *)
Definition erase_finished (finished_tasks : list Z) (t : task_timer) : task_timer :=
  let m := foldl (λ m id, map_erase id m) (tasks_ t) finished_tasks in
  MkTaskTimer (default_timeout_ t) m (match m with [] => 0 | _ => highest_id_ t end).

Section Process.
Context {W : Type} (timer_of : W → task_timer) (set_timer : task_timer → W → W)
        (run_task : T → prog W unit).
Local Open Scope prog_scope.

Fixpoint run_due (current_time : Z) (m : list (Z * (Z * T))) (finished_tasks : list Z)
    : prog W (list Z) :=
  match m with
  | [] => Done finished_tasks
  | e :: m =>
      if is_due current_time e then
        run_task e.2.2 ;; run_due current_time m (finished_tasks ++ [e.1])
      else run_due current_time m finished_tasks
  end.

Definition process_tasks (current_time : Z) : prog W unit :=
  m ← gets (λ w, tasks_ (timer_of w));
  finished_tasks ← run_due current_time m [];
  modify (λ w, set_timer (erase_finished finished_tasks (timer_of w)) w).
End Process.

(** ** What the operations do to the table *)

Lemma elem_of_map_erase id m e : e ∈ map_erase id m ↔ e.1 ≠ id ∧ e ∈ m.
Proof. unfold map_erase. by rewrite list_elem_of_filter. Qed.

Lemma elem_of_erase_all ids m e :
  e ∈ foldl (λ m id, map_erase id m) m ids ↔ e.1 ∉ ids ∧ e ∈ m.
Proof.
  revert m. induction ids as [|id ids IH]; intros m; cbn [foldl].
  - split; [|tauto]. intros He. split; [apply not_elem_of_nil|done].
  - rewrite IH, elem_of_map_erase, not_elem_of_cons. tauto.
Qed.

Lemma elem_of_erase_finished ids t e :
  e ∈ tasks_ (erase_finished ids t) ↔ e.1 ∉ ids ∧ e ∈ tasks_ t.
Proof. apply elem_of_erase_all. Qed.

(** ** Well-formed tables

    Identifiers are those the counter has given since the table was last found empty, and they
    are in order, so distinct. *)
Record timer_wf (t : task_timer) : Prop := TimerWf {
  wf_sorted : StronglySorted Z.lt (tasks_ t).*1;
  wf_range : Forall (λ id, 0 < id ≤ highest_id_ t) (tasks_ t).*1;
  wf_highest : 0 ≤ highest_id_ t
}.

Lemma new_timer_wf : timer_wf new_task_timer.
Proof. by repeat constructor. Qed.

Lemma elem_of_fst {A B} (m : list (A * B)) a : a ∈ m.*1 ↔ ∃ b, (a, b) ∈ m.
Proof.
  rewrite list_elem_of_fmap. split; [intros ([? b] & -> & ?); by exists b|].
  intros [b ?]. by exists (a, b).
Qed.

Lemma filter_keys_sorted (P : Z * (Z * T) → Prop) `{∀ x, Decision (P x)} m :
  StronglySorted Z.lt m.*1 → StronglySorted Z.lt (filter P m).*1.
Proof.
  induction m as [|e m IH]; [done|]. intros [Hm He]%StronglySorted_inv.
  rewrite filter_cons. destruct (decide (P e)); [|by apply IH].
  constructor; [by apply IH|]. apply Forall_forall. intros id [x Hx]%elem_of_fst.
  rewrite Forall_forall in He. apply He, elem_of_fst. exists x. by apply list_elem_of_filter in Hx as [].
Qed.

Lemma erase_all_sorted ids m :
  StronglySorted Z.lt m.*1 → StronglySorted Z.lt (foldl (λ m id, map_erase id m) m ids).*1.
Proof.
  revert m. induction ids as [|id ids IH]; intros m Hm; [done|]. by apply IH, filter_keys_sorted.
Qed.

Lemma cancel_wf id t : timer_wf t → timer_wf (cancel id t).
Proof.
  intros [Hs Hr Hh]. split; [by apply filter_keys_sorted| |done].
  apply Forall_forall. intros id' [x [_ Hx]%elem_of_map_erase]%elem_of_fst.
  rewrite Forall_forall in Hr. apply Hr, elem_of_fst. by exists x.
Qed.

(** A new entry comes after all the others. *)
Lemma map_insert_last id x m :
  Forall (λ id', id' < id) m.*1 → map_insert id x m = m ++ [(id, x)].
Proof.
  induction m as [|[id' y] m IH]; [done|]. rewrite fmap_cons, Forall_cons. intros [Hid Hm].
  cbn [map_insert fst] in *. rewrite (proj2 (Z.ltb_ge _ _)) by lia.
  rewrite (proj2 (Z.eqb_neq _ _)) by lia. by rewrite IH.
Qed.

Lemma next_id_eq t : timer_wf t → highest_id_ t < 2 ^ 64 - 1 → next_id t = highest_id_ t + 1.
Proof. intros [_ _ Hh] Hlt. unfold next_id. apply Z.mod_small. lia. Qed.

Lemma schedule_tasks now task timeout t :
  timer_wf t → highest_id_ t < 2 ^ 64 - 1 →
  tasks_ (schedule_after now task timeout t).2 =
    tasks_ t ++ [(highest_id_ t + 1, (now + seconds timeout, task))].
Proof.
  intros Hwf Hlt. cbn. rewrite next_id_eq by done. apply map_insert_last.
  destruct Hwf as [_ Hr _]. eapply Forall_impl; [exact Hr|]. cbn. lia.
Qed.

Lemma schedule_wf now task timeout t :
  timer_wf t → highest_id_ t < 2 ^ 64 - 1 → timer_wf (schedule_after now task timeout t).2.
Proof.
  intros Hwf Hlt. pose proof (schedule_tasks now task timeout t Hwf Hlt) as Ht.
  split; rewrite ?Ht; cbn [highest_id_ schedule_after snd]; rewrite ?(next_id_eq t) by done.
  - rewrite fmap_app. destruct Hwf as [Hs Hr Hh]. cbn [fmap list_fmap fst].
    revert Hs Hr. generalize (tasks_ t).*1. intros l Hs Hr. induction Hs as [|a l Hs IH Ha]; cbn.
    + by repeat constructor.
    + apply Forall_cons in Hr as [Ha' Hr]. constructor; [by apply IH|].
      apply Forall_app. split; [done|]. constructor; [lia|done].
  - destruct Hwf as [Hs Hr Hh]. rewrite fmap_app. apply Forall_app. split.
    + eapply Forall_impl; [exact Hr|]. cbn. lia.
    + repeat constructor; cbn; lia.
  - destruct Hwf. lia.
Qed.

Lemma erase_finished_wf ids t : timer_wf t → timer_wf (erase_finished ids t).
Proof.
  intros [Hs Hr Hh]. split; cbn [tasks_ highest_id_ erase_finished].
  - by apply erase_all_sorted.
  - apply Forall_forall. intros id [x Hx]%elem_of_fst.
    destruct (foldl _ _ _) as [|e m] eqn:E; [by apply elem_of_nil in Hx|]. rewrite <- E in Hx.
    apply elem_of_erase_all in Hx as [_ Hx]. rewrite Forall_forall in Hr.
    apply Hr, elem_of_fst. by exists x.
  - by destruct (foldl _ _ _).
Qed.

Lemma wf_key_unique t id x y : timer_wf t → (id, x) ∈ tasks_ t → (id, y) ∈ tasks_ t → x = y.
Proof.
  intros [Hs _ _]. induction (tasks_ t) as [|[id' z] m IH]; [by intros ?%elem_of_nil|].
  rewrite fmap_cons in Hs. apply StronglySorted_inv in Hs as [Hs Hlt]. cbn in Hlt.
  rewrite Forall_forall in Hlt. rewrite !elem_of_cons.
  assert (∀ u, (id', u) ∈ m → False) as Hnot.
  { intros u Hu. assert (id' < id') as Hl by (apply Hlt, elem_of_fst; by exists u). lia. }
  intros [[= -> ->]|Hx] [[= Heq]|Hy]; subst; auto; exfalso; eauto.
Qed.
End TaskTimer.
Arguments task_timer : clear implicits.
