(* ===== verification/Connection.v ===== *)
(** * Connections

    lib/crowapi/crow_all.h: [HTTPParser], the callbacks that gather a request from the
    parser's events, and [Connection], which reads from a socket, has the router fill a
    response, and writes it; both for an application without middleware, over plain TCP.

    The operations [boost::asio] starts and later completes are events: a read completes with
    an error or with bytes, a write completes with or without an error, the deadline
    expires.  A connection's state says which operations are under way; the bytes of a write
    are those the buffers hold when it starts.  Freeing the connection sets [destroyed]; a
    completion handler that runs after that has undefined behaviour.  A write must not be
    started while another one is under way: [overlapped] records that this has happened.
    Writes that do not go through [async_write] succeed.  The calls a connection makes to the
    task timer of its worker are logged in [timer_calls], in order, and carried out by the worker
    (file Worker); [deadline] is whether the last of them left a task. *)

From Stdlib Require Import ZArith Lia Ascii String.
From stdpp Require Import base tactics option strings list.
From S2P Require Import Prelude.
From S2P Require Import CppStd.
From S2P Require Import QueryString.
From S2P Require Import Crow.
From S2P Require Import HttpParser.
From S2P Require Import HttpExecute.
From S2P Require Import Router.

(** ** HTTPParser

    The fields it adds to [http_parser]. *)

Record message : Type := MkMessage {
  msg_raw_url : string;
  msg_url : string;
  header_building_state : Z;
  message_complete : bool;
  header_field : string;
  header_value : string;
  msg_headers : ci_map;
  msg_url_params : query_string;
  msg_body : string;
  msg_keep_alive : bool;
  msg_close_connection : bool
}.

Definition set_msg_raw_url (x : string) (m : message) : message :=
  MkMessage x (msg_url m) (header_building_state m) (message_complete m) (header_field m)
    (header_value m) (msg_headers m) (msg_url_params m) (msg_body m) (msg_keep_alive m)
    (msg_close_connection m).
Definition set_msg_url (x : string) (m : message) : message :=
  MkMessage (msg_raw_url m) x (header_building_state m) (message_complete m) (header_field m)
    (header_value m) (msg_headers m) (msg_url_params m) (msg_body m) (msg_keep_alive m)
    (msg_close_connection m).
Definition set_header_building_state (x : Z) (m : message) : message :=
  MkMessage (msg_raw_url m) (msg_url m) x (message_complete m) (header_field m) (header_value m)
    (msg_headers m) (msg_url_params m) (msg_body m) (msg_keep_alive m) (msg_close_connection m).
Definition set_message_complete (x : bool) (m : message) : message :=
  MkMessage (msg_raw_url m) (msg_url m) (header_building_state m) x (header_field m)
    (header_value m) (msg_headers m) (msg_url_params m) (msg_body m) (msg_keep_alive m)
    (msg_close_connection m).
Definition set_header_field (x : string) (m : message) : message :=
  MkMessage (msg_raw_url m) (msg_url m) (header_building_state m) (message_complete m) x
    (header_value m) (msg_headers m) (msg_url_params m) (msg_body m) (msg_keep_alive m)
    (msg_close_connection m).
Definition set_header_value (x : string) (m : message) : message :=
  MkMessage (msg_raw_url m) (msg_url m) (header_building_state m) (message_complete m)
    (header_field m) x (msg_headers m) (msg_url_params m) (msg_body m) (msg_keep_alive m)
    (msg_close_connection m).
Definition set_msg_headers (x : ci_map) (m : message) : message :=
  MkMessage (msg_raw_url m) (msg_url m) (header_building_state m) (message_complete m)
    (header_field m) (header_value m) x (msg_url_params m) (msg_body m) (msg_keep_alive m)
    (msg_close_connection m).
Definition set_msg_url_params (x : query_string) (m : message) : message :=
  MkMessage (msg_raw_url m) (msg_url m) (header_building_state m) (message_complete m)
    (header_field m) (header_value m) (msg_headers m) x (msg_body m) (msg_keep_alive m)
    (msg_close_connection m).
Definition set_msg_body (x : string) (m : message) : message :=
  MkMessage (msg_raw_url m) (msg_url m) (header_building_state m) (message_complete m)
    (header_field m) (header_value m) (msg_headers m) (msg_url_params m) x (msg_keep_alive m)
    (msg_close_connection m).
Definition set_msg_keep_alive (x : bool) (m : message) : message :=
  MkMessage (msg_raw_url m) (msg_url m) (header_building_state m) (message_complete m)
    (header_field m) (header_value m) (msg_headers m) (msg_url_params m) (msg_body m) x
    (msg_close_connection m).
Definition set_msg_close_connection (x : bool) (m : message) : message :=
  MkMessage (msg_raw_url m) (msg_url m) (header_building_state m) (message_complete m)
    (header_field m) (header_value m) (msg_headers m) (msg_url_params m) (msg_body m)
    (msg_keep_alive m) x.

Definition new_message : message :=
  MkMessage "" "" 0 false "" "" [] query_string_empty "" false false.

(** [HTTPParser::clear], on its own fields and on those of [http_parser]. *)
Definition clear_message (m : message) : message := new_message.
Definition clear_parser (r : http_parser) : http_parser :=
  set_state s_start_req (set_version 0 0 (set_qs_point 0 r)).

Definition str (b : bytes) : string := string_of_list_ascii b.

(** The callbacks that take bytes.  A moved-from string is empty. *)
Definition on_url (at_ : bytes) (m : message) : message :=
  set_msg_raw_url (msg_raw_url m +:+ str at_) m.
Definition emplace_header (m : message) : message :=
  set_header_field "" (set_header_value ""
    (set_msg_headers (ci_emplace (msg_headers m) (header_field m) (header_value m)) m)).
Definition on_header_field (at_ : bytes) (m : message) : message :=
  if (header_building_state m =? 0)%Z then
    let m := if String.eqb (header_value m) "" then m else emplace_header m in
    set_header_building_state 1 (set_header_field (str at_) m)
  else if (header_building_state m =? 1)%Z then
    set_header_field (header_field m +:+ str at_) m
  else m.
Definition on_header_value (at_ : bytes) (m : message) : message :=
  if (header_building_state m =? 0)%Z then set_header_value (header_value m +:+ str at_) m
  else if (header_building_state m =? 1)%Z then
    set_header_value (str at_) (set_header_building_state 0 m)
  else m.
Definition on_body (at_ : bytes) (m : message) : message :=
  set_msg_body (msg_body m +:+ str at_) m.

(** [set_connection_parameters] *)
Definition set_connection_parameters (r : http_parser) (m : message) : message :=
  let is_1 minor := ((http_major r =? 1) && (http_minor r =? minor))%Z in
  set_msg_close_connection
    (if is_1 0%Z then negb (has_flag (flags r) F_CONNECTION_KEEP_ALIVE)
     else if is_1 1%Z then has_flag (flags r) F_CONNECTION_CLOSE else false)
    (set_msg_keep_alive
       (if is_1 0%Z then has_flag (flags r) F_CONNECTION_KEEP_ALIVE else is_1 1%Z) m).

(** [on_headers_complete] before [process_header]. *)
Definition headers_complete (r : http_parser) (m : message) : message :=
  set_connection_parameters r
    (if String.eqb (header_field m) "" then m else emplace_header m).

(** [on_message_complete] before [process_message]; no value when the query is read out of
    bounds. *)
Definition url_before_query (r : http_parser) (raw : string) : string :=
  if (qs_point r =? 0)%Z then raw
  else string_of_list_ascii (take (Z.to_nat (qs_point r)) (list_ascii_of_string raw)).
Definition message_completed (r : http_parser) (m : message) : option message :=
  params ← parse_url (msg_raw_url m);
  Some (set_msg_url_params params
          (set_msg_url (url_before_query r (msg_raw_url m)) (set_message_complete true m))).

(** [to_request]: the strings of a [const] parser are copied, not moved. *)
Definition to_request (r : http_parser) (m : message) : request :=
  MkRequest (p_method r) (msg_raw_url m) (msg_url m) (msg_url_params m) (msg_headers m)
    (msg_body m) (http_major r) (http_minor r) (msg_keep_alive m) (msg_close_connection m)
    (p_upgrade r).

(** ** The state of a connection *)

(** [res.complete_request_handler_]: null, a function that does nothing, or one that calls
    [complete_request]. *)
Inductive completion_handler : Type := NoHandler | EmptyHandler | CallCompleteRequest.

(** What happens to the connection's task in [task_timer_]: it is cancelled, it is scheduled
    anew, the timer has run it. *)
Inductive timer_call : Type := CancelTask | ScheduleTask | TaskRun.

Record connection : Type := MkConnection {
  parser_ : http_parser;
  msg : message;
  req_ : request;
  is_open : bool;
  close_connection_ : bool;
  buffers_ : list string;
  res_body_copy_ : string;
  is_reading : bool;
  is_writing : bool;
  need_to_call_after_handlers_ : bool;
  need_to_start_read_after_complete_ : bool;
  add_keep_alive_ : bool;
  completion : completion_handler;
  timer_calls : list timer_call;
  reads : nat;
  in_flight : list string;
  sent : string;
  destroyed : bool;
  overlapped : bool
}.

Definition set_parser (x : http_parser) (c : connection) : connection :=
  MkConnection x (msg c) (req_ c) (is_open c) (close_connection_ c) (buffers_ c)
    (res_body_copy_ c) (is_reading c) (is_writing c) (need_to_call_after_handlers_ c)
    (need_to_start_read_after_complete_ c) (add_keep_alive_ c) (completion c) (timer_calls c)
    (reads c) (in_flight c) (sent c) (destroyed c) (overlapped c).
Definition set_msg (x : message) (c : connection) : connection :=
  MkConnection (parser_ c) x (req_ c) (is_open c) (close_connection_ c) (buffers_ c)
    (res_body_copy_ c) (is_reading c) (is_writing c) (need_to_call_after_handlers_ c)
    (need_to_start_read_after_complete_ c) (add_keep_alive_ c) (completion c) (timer_calls c)
    (reads c) (in_flight c) (sent c) (destroyed c) (overlapped c).
Definition set_req (x : request) (c : connection) : connection :=
  MkConnection (parser_ c) (msg c) x (is_open c) (close_connection_ c) (buffers_ c)
    (res_body_copy_ c) (is_reading c) (is_writing c) (need_to_call_after_handlers_ c)
    (need_to_start_read_after_complete_ c) (add_keep_alive_ c) (completion c) (timer_calls c)
    (reads c) (in_flight c) (sent c) (destroyed c) (overlapped c).
Definition set_is_open (x : bool) (c : connection) : connection :=
  MkConnection (parser_ c) (msg c) (req_ c) x (close_connection_ c) (buffers_ c)
    (res_body_copy_ c) (is_reading c) (is_writing c) (need_to_call_after_handlers_ c)
    (need_to_start_read_after_complete_ c) (add_keep_alive_ c) (completion c) (timer_calls c)
    (reads c) (in_flight c) (sent c) (destroyed c) (overlapped c).
Definition set_close_connection (x : bool) (c : connection) : connection :=
  MkConnection (parser_ c) (msg c) (req_ c) (is_open c) x (buffers_ c) (res_body_copy_ c)
    (is_reading c) (is_writing c) (need_to_call_after_handlers_ c)
    (need_to_start_read_after_complete_ c) (add_keep_alive_ c) (completion c) (timer_calls c)
    (reads c) (in_flight c) (sent c) (destroyed c) (overlapped c).
Definition set_buffers (x : list string) (c : connection) : connection :=
  MkConnection (parser_ c) (msg c) (req_ c) (is_open c) (close_connection_ c) x
    (res_body_copy_ c) (is_reading c) (is_writing c) (need_to_call_after_handlers_ c)
    (need_to_start_read_after_complete_ c) (add_keep_alive_ c) (completion c) (timer_calls c)
    (reads c) (in_flight c) (sent c) (destroyed c) (overlapped c).
Definition set_res_body_copy (x : string) (c : connection) : connection :=
  MkConnection (parser_ c) (msg c) (req_ c) (is_open c) (close_connection_ c) (buffers_ c) x
    (is_reading c) (is_writing c) (need_to_call_after_handlers_ c)
    (need_to_start_read_after_complete_ c) (add_keep_alive_ c) (completion c) (timer_calls c)
    (reads c) (in_flight c) (sent c) (destroyed c) (overlapped c).
Definition set_is_reading (x : bool) (c : connection) : connection :=
  MkConnection (parser_ c) (msg c) (req_ c) (is_open c) (close_connection_ c) (buffers_ c)
    (res_body_copy_ c) x (is_writing c) (need_to_call_after_handlers_ c)
    (need_to_start_read_after_complete_ c) (add_keep_alive_ c) (completion c) (timer_calls c)
    (reads c) (in_flight c) (sent c) (destroyed c) (overlapped c).
Definition set_is_writing (x : bool) (c : connection) : connection :=
  MkConnection (parser_ c) (msg c) (req_ c) (is_open c) (close_connection_ c) (buffers_ c)
    (res_body_copy_ c) (is_reading c) x (need_to_call_after_handlers_ c)
    (need_to_start_read_after_complete_ c) (add_keep_alive_ c) (completion c) (timer_calls c)
    (reads c) (in_flight c) (sent c) (destroyed c) (overlapped c).
Definition set_need_to_call_after_handlers (x : bool) (c : connection) : connection :=
  MkConnection (parser_ c) (msg c) (req_ c) (is_open c) (close_connection_ c) (buffers_ c)
    (res_body_copy_ c) (is_reading c) (is_writing c) x (need_to_start_read_after_complete_ c)
    (add_keep_alive_ c) (completion c) (timer_calls c) (reads c) (in_flight c) (sent c)
    (destroyed c) (overlapped c).
Definition set_need_to_start_read_after_complete (x : bool) (c : connection) : connection :=
  MkConnection (parser_ c) (msg c) (req_ c) (is_open c) (close_connection_ c) (buffers_ c)
    (res_body_copy_ c) (is_reading c) (is_writing c) (need_to_call_after_handlers_ c) x
    (add_keep_alive_ c) (completion c) (timer_calls c) (reads c) (in_flight c) (sent c)
    (destroyed c) (overlapped c).
Definition set_add_keep_alive (x : bool) (c : connection) : connection :=
  MkConnection (parser_ c) (msg c) (req_ c) (is_open c) (close_connection_ c) (buffers_ c)
    (res_body_copy_ c) (is_reading c) (is_writing c) (need_to_call_after_handlers_ c)
    (need_to_start_read_after_complete_ c) x (completion c) (timer_calls c) (reads c) (in_flight c)
    (sent c) (destroyed c) (overlapped c).
Definition set_completion (x : completion_handler) (c : connection) : connection :=
  MkConnection (parser_ c) (msg c) (req_ c) (is_open c) (close_connection_ c) (buffers_ c)
    (res_body_copy_ c) (is_reading c) (is_writing c) (need_to_call_after_handlers_ c)
    (need_to_start_read_after_complete_ c) (add_keep_alive_ c) x (timer_calls c) (reads c)
    (in_flight c) (sent c) (destroyed c) (overlapped c).
Definition call_timer (x : timer_call) (c : connection) : connection :=
  MkConnection (parser_ c) (msg c) (req_ c) (is_open c) (close_connection_ c) (buffers_ c)
    (res_body_copy_ c) (is_reading c) (is_writing c) (need_to_call_after_handlers_ c)
    (need_to_start_read_after_complete_ c) (add_keep_alive_ c) (completion c) (x :: timer_calls c)
    (reads c) (in_flight c) (sent c) (destroyed c) (overlapped c).
Definition set_reads (x : nat) (c : connection) : connection :=
  MkConnection (parser_ c) (msg c) (req_ c) (is_open c) (close_connection_ c) (buffers_ c)
    (res_body_copy_ c) (is_reading c) (is_writing c) (need_to_call_after_handlers_ c)
    (need_to_start_read_after_complete_ c) (add_keep_alive_ c) (completion c) (timer_calls c) x
    (in_flight c) (sent c) (destroyed c) (overlapped c).
Definition set_in_flight (x : list string) (c : connection) : connection :=
  MkConnection (parser_ c) (msg c) (req_ c) (is_open c) (close_connection_ c) (buffers_ c)
    (res_body_copy_ c) (is_reading c) (is_writing c) (need_to_call_after_handlers_ c)
    (need_to_start_read_after_complete_ c) (add_keep_alive_ c) (completion c) (timer_calls c)
    (reads c) x (sent c) (destroyed c) (overlapped c).
Definition set_sent (x : string) (c : connection) : connection :=
  MkConnection (parser_ c) (msg c) (req_ c) (is_open c) (close_connection_ c) (buffers_ c)
    (res_body_copy_ c) (is_reading c) (is_writing c) (need_to_call_after_handlers_ c)
    (need_to_start_read_after_complete_ c) (add_keep_alive_ c) (completion c) (timer_calls c)
    (reads c) (in_flight c) x (destroyed c) (overlapped c).
Definition set_destroyed (x : bool) (c : connection) : connection :=
  MkConnection (parser_ c) (msg c) (req_ c) (is_open c) (close_connection_ c) (buffers_ c)
    (res_body_copy_ c) (is_reading c) (is_writing c) (need_to_call_after_handlers_ c)
    (need_to_start_read_after_complete_ c) (add_keep_alive_ c) (completion c) (timer_calls c)
    (reads c) (in_flight c) (sent c) x (overlapped c).
Definition set_overlapped (x : bool) (c : connection) : connection :=
  MkConnection (parser_ c) (msg c) (req_ c) (is_open c) (close_connection_ c) (buffers_ c)
    (res_body_copy_ c) (is_reading c) (is_writing c) (need_to_call_after_handlers_ c)
    (need_to_start_read_after_complete_ c) (add_keep_alive_ c) (completion c) (timer_calls c)
    (reads c) (in_flight c) (sent c) (destroyed c) x.

(** The deadline of the connection is running: the last call has scheduled it. *)
Definition deadline (c : connection) : bool :=
  match head (timer_calls c) with Some ScheduleTask => true | _ => false end.

Section Connection.
Context {V : Type}.
(** The application ([Crow::handle], [Crow::handle_upgrade]), the [Server] header, the cached
    date, the content of a file, the address of the buffer, and the size from which a body is
    written by pieces. *)
Context (app_handle app_upgrade : request → prog (response * (connection * V)) unit)
        (server_name : string) (get_cached_date_str : prog V string)
        (read_file : string → prog V string) (buffer_address : Z)
        (res_stream_threshold_ : Z).
Local Open Scope prog_scope.

Abbreviation shared := (response * (connection * V))%type.
Abbreviation conn_prog := (prog (response * (connection * V)) unit).

Definition conn {A} (f : connection → A) : prog shared A := gets (λ '(_, (c, _)), f c).
Definition conn_do (f : connection → connection) : conn_prog :=
  modify (λ '(r, (c, v)), (r, (f c, v))).
Definition response_of {A} (f : response → A) : prog shared A := gets (λ '(r, _), f r).
Definition app {A} (p : prog V A) : prog shared A := on_state (on_state p).
Definition when (b : bool) (p : conn_prog) : conn_prog := if b then p else Done tt.

(** ** Ends and deadlines *)

(** [check_destroy]: [delete this] *)
Definition check_destroy : conn_prog :=
  reading ← conn is_reading;
  writing ← conn is_writing;
  when (negb reading && negb writing) (conn_do (λ c, set_destroyed true (call_timer CancelTask c))).

Definition cancel_deadline_timer : conn_prog := conn_do (call_timer CancelTask).
Definition start_deadline : conn_prog := cancel_deadline_timer ;; conn_do (call_timer ScheduleTask).
(** The function the timer runs. *)
Definition deadline_expired : conn_prog :=
  open ← conn is_open;
  when open (conn_do (set_is_open false)).

(** [adaptor_.shutdown_*(); adaptor_.close();] *)
Definition close_adaptor : conn_prog := conn_do (set_is_open false).

(** [parser_.clear()] *)
Definition parser_clear : conn_prog :=
  conn_do (λ c, set_parser (clear_parser (parser_ c)) (set_msg (clear_message (msg c)) c)).

(** ** Writing *)

(** A write starts. *)
Definition starts_write : conn_prog :=
  conn_do (λ c, set_overlapped (overlapped c || negb (Nat.eqb (length (in_flight c)) 0)) c).

(** [async_write] of the buffers; its completion handler is [write_done]. *)
Definition do_write : conn_prog :=
  conn_do (set_is_writing true) ;;
  starts_write ;;
  conn_do (λ c, set_in_flight (in_flight c ++ [String.concat "" (buffers_ c)]) c).

Definition write_done (ok : bool) : conn_prog :=
  conn_do (set_is_writing false) ;;
  res_do Response.clear ;;
  conn_do (set_res_body_copy "") ;;
  parser_clear ;;
  if ok then
    close ← conn close_connection_;
    when close (close_adaptor ;; check_destroy)
  else check_destroy.

(** [boost::asio::write], and [do_write_sync]. *)
Definition write_now (data : list string) : conn_prog :=
  starts_write ;;
  conn_do (λ c, set_sent (sent c +:+ String.concat "" data) c).

(** [async_read_some]; its completion handler is [read_done]. *)
Definition do_read : conn_prog :=
  conn_do (set_is_reading true) ;; conn_do (λ c, set_reads (S (reads c)) c).

(** What follows a response written at once.  [prepare_buffers] has set the completion handler
    to null. *)
Definition after_write_now : conn_prog :=
  conn_do (set_is_writing false) ;;
  close ← conn close_connection_;
  when close (close_adaptor ;; check_destroy) ;;
  res_end (Done tt) ;;
  res_do Response.clear ;;
  conn_do (set_buffers []) ;;
  parser_clear.

(** The pieces of 16384 bytes, the last of which may be shorter: nothing for an empty file. *)
Definition do_write_static : conn_prog :=
  conn_do (set_is_writing true) ;;
  b ← conn buffers_;
  write_now b ;;
  info ← response_of file_info;
  (match fi_stat info with
   | Some _ => content ← app (read_file (fi_path info)); write_now [content]
   | None => Done tt
   end) ;;
  after_write_now.

Definition do_write_general : conn_prog :=
  size ← response_of (λ r, Z.of_nat (String.length (body r)));
  if (size <? res_stream_threshold_)%Z then
    (** [res_body_copy_.swap(res.body)] *)
    modify (λ '(r, (c, v)),
      (MkResponse (code r) (res_body_copy_ c) (headers r) (skip_body r) (manual_length_header r)
         (completed_ r) (file_info r), (set_res_body_copy (body r) c, v))) ;;
    conn_do (λ c, set_buffers (buffers_ c ++ [res_body_copy_ c]) c) ;;
    do_write ;;
    later ← conn need_to_start_read_after_complete_;
    when later
      (conn_do (set_need_to_start_read_after_complete false) ;; start_deadline ;; do_read)
  else
    conn_do (set_is_writing true) ;;
    b ← conn buffers_;
    write_now b ;;
    content ← response_of body;
    write_now [content] ;;
    res_do (λ r, MkResponse (code r) "" (headers r) (skip_body r) (manual_length_header r)
                   (completed_ r) (file_info r)) ;;
    after_write_now.

(** ** The status line and the headers *)

Definition crlf : string := String cr (String lf "").

(** The table of status lines: what stands between the version and the end of the line. *)
Definition statusCodes : list (Z * string) :=
  [(100, "100 Continue"); (101, "101 Switching Protocols"); (200, "200 OK");
   (201, "201 Created"); (202, "202 Accepted"); (203, "203 Non-Authoritative Information");
   (204, "204 No Content"); (205, "205 Reset Content"); (206, "206 Partial Content");
   (300, "300 Multiple Choices"); (301, "301 Moved Permanently"); (302, "302 Found");
   (303, "303 See Other"); (304, "304 Not Modified"); (307, "307 Temporary Redirect");
   (308, "308 Permanent Redirect"); (400, "400 Bad Request"); (401, "401 Unauthorized");
   (403, "403 Forbidden"); (404, "404 Not Found"); (405, "405 Method Not Allowed");
   (407, "407 Proxy Authentication Required"); (409, "409 Conflict"); (410, "410 Gone");
   (413, "413 Payload Too Large"); (415, "415 Unsupported Media Type");
   (416, "416 Range Not Satisfiable"); (417, "417 Expectation Failed");
   (428, "428 Precondition Required"); (429, "429 Too Many Requests");
   (451, "451 Unavailable For Legal Reasons"); (500, "500 Internal Server Error");
   (501, "501 Not Implemented"); (502, "502 Bad Gateway"); (503, "503 Service Unavailable");
   (504, "504 Gateway Timeout"); (506, "506 Variant Also Negotiates")]%Z.
Definition status_text (c : Z) : option string :=
  snd <$> List.find (λ s, (s.1 =? c)%Z) statusCodes.

(** [res.code] and [res.body] as [prepare_buffers] leaves them. *)
Definition normal_code (c : Z) : Z := match status_text c with Some _ => c | None => 500%Z end.
Definition default_body (r : response) : response :=
  if (400 <=? code r)%Z && String.eqb (body r) "" then
    MkResponse (code r) (default "" (status_text (code r)) +:+ crlf) (headers r) (skip_body r)
      (manual_length_header r) (completed_ r) (file_info r)
  else r.

(** The buffers of a response, up to the empty line. *)
Definition header_lines (add_keep_alive : bool) (date : string) (r : response) : list string :=
  ["HTTP/1.1 " +:+ default "" (status_text (code r)) +:+ crlf] ++
  (flat_map (λ kv : string * string, [kv.1; ": "; kv.2; crlf]) (headers r)) ++
  (if negb (manual_length_header r) && Nat.eqb (ci_count (headers r) "content-length") 0
   then ["Content-Length: "; to_string (Z.of_nat (String.length (body r))); crlf] else []) ++
  (if Nat.eqb (ci_count (headers r) "server") 0 then ["Server: "; server_name; crlf] else []) ++
  (if Nat.eqb (ci_count (headers r) "date") 0 then ["Date: "; date; crlf] else []) ++
  (if add_keep_alive then ["Connection: Keep-Alive"; crlf] else []) ++
  [crlf].

Definition prepare_buffers : conn_prog :=
  conn_do (set_completion NoHandler) ;;
  open ← conn is_open;
  when open
    (res_do (λ r, default_body (Response.set_code (normal_code (code r)) r)) ;;
     count ← response_of (λ r, ci_count (headers r) "date");
     date ← (if Nat.eqb count 0 then app get_cached_date_str else Done "");
     modify (λ '(r, (c, v)), (r, (set_buffers (header_lines (add_keep_alive_ c) date r) c, v)))).

(** A partial URL in [Location] is completed with the host of the request. *)
Definition complete_location (req : request) (r : response) : response :=
  let location := get_header_value (headers r) "Location" in
  if negb (String.eqb location "") && negb (bool_decide (is_Some (String.index 0 "://" location)))
  then Response.set_header "location"
         ("http://" +:+ get_header_value (req_headers req) "Host" +:+ location) r
  else r.

(** ** Requests *)

Definition complete_request : conn_prog :=
  conn_do (set_need_to_call_after_handlers false) ;;
  req ← conn req_;
  res_do (complete_location req) ;;
  prepare_buffers ;;
  static ← response_of Response.is_static_type;
  if (static : bool) then do_write_static else do_write_general.

(** [complete_request_handler_()], when it is set. *)
Definition call_completion : conn_prog :=
  c ← conn completion;
  match c with CallCompleteRequest => complete_request | _ => Done tt end.

(** [handle_header]: Expect: 100-continue *)
Definition handle_header : conn_prog :=
  r ← conn parser_;
  m ← conn msg;
  when ((http_major r =? 1)%Z && (http_minor r =? 1)%Z &&
        String.eqb (get_header_value (msg_headers m) "expect") "100-continue")
    (conn_do (set_buffers ["HTTP/1.1 100 Continue" +:+ crlf +:+ crlf]) ;; do_write).

(** [handle], from the check of an invalid request on. *)
Definition handle_request (is_invalid_request : bool) : conn_prog :=
  conn_do (set_need_to_call_after_handlers false) ;;
  if is_invalid_request then complete_request
  else
    conn_do (set_completion EmptyHandler) ;;
    completed ← response_of completed_;
    if (completed : bool) then complete_request
    else
      conn_do (set_completion CallCompleteRequest) ;;
      conn_do (set_need_to_call_after_handlers true) ;;
      req ← conn req_;
      app_handle req ;;
      keep ← conn add_keep_alive_;
      when keep (res_do (Response.set_header "connection" "Keep-Alive")).

Definition handle : conn_prog :=
  cancel_deadline_timer ;;
  conn_do (set_add_keep_alive false) ;;
  conn_do (λ c, set_req (to_request (parser_ c) (msg c)) c) ;;
  req ← conn req_;
  conn_do (set_add_keep_alive (keep_alive req)) ;;
  conn_do (set_close_connection (close_connection req)) ;;
  if check_version req 1 1 then
    if Nat.eqb (ci_count (req_headers req) "host") 0 then
      assign_res (Response.of_code 400) ;; handle_request true
    else if upgrade req &&
            negb (String.eqb (String.substring 0 2 (get_header_value (req_headers req) "upgrade")) "h2")
    then conn_do (set_close_connection true) ;; app_upgrade req
    else handle_request false
  else handle_request false.

(** ** feed

    What the callbacks work on: the shared state, and what an exception or undefined
    behaviour in one of them makes of the whole call. *)
Definition feeding : Type := shared * option (outcome unit).

(** Run a callback with the parser stored in the connection; the parser after it. *)
Definition run_callback (p : conn_prog) (r : http_parser) (u : feeding) : Z * http_parser * feeding :=
  match u with
  | ((res, (c, v)), None) =>
      match run p (res, (set_parser r c, v)) with
      | (Val _, (res', (c', v'))) => (0%Z, parser_ c', ((res', (c', v')), None))
      | (Throw e, (res', (c', v'))) => (1%Z, parser_ c', ((res', (c', v')), Some (Throw e)))
      | (o, s') => (1%Z, r, (s', Some o))
      end
  | _ => (1%Z, r, u)
  end.

Definition on_message (f : message → message) (u : feeding) : feeding :=
  let '((res, (c, v)), o) := u in ((res, (set_msg (f (msg c)) c, v)), o).

Definition on_message_complete : conn_prog :=
  r ← conn parser_;
  m ← conn msg;
  match message_completed r m with
  | Some m => conn_do (set_msg m) ;; handle
  | None => undef out_of_bounds
  end.

(** The callbacks given to [http_parser_execute].  [on_headers_complete] leaves the parser
    alone. *)
Definition callbacks : http_parser_settings feeding := {|
  on_notify ev r u :=
    match ev with
    | ev_message_begin => (0%Z, r, u)
    | ev_message_complete => run_callback on_message_complete r u
    end;
  on_data ev _ at_ u :=
    (0%Z, on_message (match ev with
                      | ev_url => on_url at_
                      | ev_header_field => on_header_field at_
                      | ev_header_value => on_header_value at_
                      | ev_body => on_body at_
                      end) u);
  HttpExecute.on_headers_complete r u :=
    let '(rc, _, u') := run_callback handle_header r (on_message (headers_complete r) u) in (rc, u')
|}.

(** [feed]: whether the bytes were parsed to their end without an error. *)
Definition feed (buffer : bytes) : prog shared bool :=
  complete ← conn (λ c, message_complete (msg c));
  if (complete : bool) then Done true
  else
    Atom (λ '(res, (c, v)),
      let '(r, ((res', (c', v')), o), n) :=
        http_parser_execute callbacks buffer buffer_address HTTP_MAX_HEADER_SIZE (parser_ c)
          ((res, (c, v)), None) in
      (match o, n with
       | Some o, _ => outcome_map (λ _, Done false) o
       | None, Parsed n =>
           Val (Done (bool_decide (p_errno r = CHPE_OK) && Nat.eqb n (length buffer)))
       | None, ParseAborted => Aborted
       | None, ParseNoFuel => OutOfFuel
       end, (res', (set_parser r c', v')))).

(** [parser_.done()] *)
Definition parser_done : conn_prog := feed [] ;; Done tt.

(** ** The completion handlers *)

(** The handler of [do_read]: an error, or the bytes read. *)
Definition read_done (bytes_read : option bytes) : conn_prog :=
  ok ← (match bytes_read with
        | None => Done false
        | Some b =>
            ret ← feed b;
            open ← conn is_open;
            Done (ret && open)
        end);
  close ← conn close_connection_;
  later ← conn need_to_call_after_handlers_;
  if negb ok then
    cancel_deadline_timer ;; parser_done ;; close_adaptor ;;
    conn_do (set_is_reading false) ;; check_destroy
  else if (close : bool) then
    cancel_deadline_timer ;; parser_done ;;
    conn_do (set_is_reading false) ;; check_destroy
  else if negb later then start_deadline ;; do_read
  else conn_do (set_need_to_start_read_after_complete true).

(** [start], over plain TCP. *)
Definition start : conn_prog := start_deadline ;; parser_clear ;; do_read.

(** ** Events *)

Inductive event : Type :=
| ReadDone (bytes_read : option bytes)
| WriteDone (ok : bool)
| DeadlineExpired.

(** The operation whose completion an event is has been started. *)
Definition enabled (ev : event) (c : connection) : bool :=
  match ev with
  | ReadDone _ => (0 <? reads c)%nat
  | WriteDone _ => negb (Nat.eqb (length (in_flight c)) 0)
  | DeadlineExpired => deadline c
  end.

(** The operation is over: what a write has sent is on its way. *)
Definition completed (ev : event) (c : connection) : connection :=
  match ev with
  | ReadDone _ => set_reads (reads c - 1) c
  | WriteDone ok =>
      set_in_flight (tail (in_flight c))
        (if ok then set_sent (sent c +:+ default "" (head (in_flight c))) c else c)
  | DeadlineExpired => call_timer TaskRun c
  end.

Definition completion_program (ev : event) : conn_prog :=
  match ev with
  | ReadDone b => read_done b
  | WriteDone ok => write_done ok
  | DeadlineExpired => deadline_expired
  end.

(** A completion handler is run; its captured [this] has been freed when [destroyed]. *)
Definition take_event (ev : event) (s : shared) : outcome unit * shared :=
  let '(res, (c, v)) := s in
  if destroyed c then (Undef use_after_free, s)
  else run (completion_program ev) (res, (completed ev c, v)).

(** A sequence of events, as long as each is enabled and its handler returns. *)
Fixpoint take_events (evs : list event) (s : shared) : option (outcome unit * shared) :=
  match evs with
  | [] => Some (Val tt, s)
  | ev :: evs =>
      if enabled ev s.2.1 then
        match take_event ev s with
        | (Val _, s') => take_events evs s'
        | r => match evs with [] => Some r | _ => None end
        end
      else None
  end.
End Connection.

(** ** A new connection *)

Definition new_request : request :=
  MkRequest Get "" "" query_string_empty [] "" 0 0 false false false.

(** [Connection(...)], and [do_accept]'s [start]. *)
Definition new_connection : connection :=
  MkConnection http_parser_init new_message new_request true false [] "" false false false false
    false NoHandler [] 0 [] "" false false.
Definition accepted {V} (v : V) : response * (connection * V) :=
  (run start (Response.empty, (new_connection, v))).2.
