(* ===== verification/ConnectionFacts.v ===== *)
(** * Connections: what is freed is not used

    What a property of the application's data that the callbacks preserve says of a call of
    the parser; the invariant of a connection between completion handlers; and that no
    handler runs on a freed connection unless two writes have overlapped. *)

From Stdlib Require Import ZArith Lia Ascii String.
From stdpp Require Import base tactics option strings list.
From S2P Require Import Prelude.
From S2P Require Import CppStd.
From S2P Require Import QueryString.
From S2P Require Import Crow.
From S2P Require Import HttpParser.
From S2P Require Import HttpExecute.
From S2P Require Import HttpSafe.
From S2P Require Import Router.
From S2P Require Import Connection.

(** ** The application's data through http_parser_execute *)

Section UserData.
Context {U : Type} (settings : http_parser_settings U) (J : U → Prop).
Hypothesis Hdata : ∀ ev r b u, J u → J (on_data settings ev r b u).2.
Hypothesis Hnotify : ∀ ev r u, J u → J (on_notify settings ev r u).2.
Hypothesis Hheaders : ∀ r u, J u → J (HttpExecute.on_headers_complete settings r u).2.
Variable data : bytes.
Variable addr max_header_size : Z.

Inductive keeps_user (s : stmt (U:=U)) : Prop :=
| Keeps : (∀ e, J (us e) → J (us (s e).1)) → keeps_user s.
Lemma kept s e : keeps_user s → J (us e) → J (us (s e).1).
Proof. intros [H]. apply H. Qed.

Lemma keeps_seq s1 s2 : keeps_user s1 → keeps_user s2 → keeps_user (seq s1 s2).
Proof.
  intros [H1] [H2]. constructor. intros e He. unfold seq. specialize (H1 e He).
  destruct (s1 e) as [e' [l|]]; cbn in *; auto.
Qed.
Lemma keeps_leave l : keeps_user (leave_by l).
Proof. by constructor. Qed.
Lemma keeps_assign f : keeps_user (assign f).
Proof. by constructor. Qed.
Lemma keeps_local f : keeps_user (local f).
Proof. by constructor. Qed.
Lemma keeps_with_parser k : (∀ r, keeps_user (k r)) → keeps_user (with_parser k).
Proof. intros Hk. constructor. intros e He. by apply (kept (k (ps e))). Qed.
Lemma keeps_with_vars k : (∀ v, keeps_user (k v)) → keeps_user (with_vars k).
Proof. intros Hk. constructor. intros e He. by apply (kept (k (vs e))). Qed.

Lemma keeps_skip : keeps_user skip.
Proof. by constructor. Qed.

(** A statement, by its shape. *)
Ltac keep1 :=
  lazymatch goal with
  | |- keeps_user skip => apply keeps_skip
  | |- keeps_user (leave_by _) => apply keeps_leave
  | |- keeps_user (assign _) => apply keeps_assign
  | |- keeps_user (local _) => apply keeps_local
  | |- keeps_user (seq _ _) => apply keeps_seq
  | |- keeps_user (with_parser _) => apply keeps_with_parser; intros ?
  | |- keeps_user (with_vars _) => apply keeps_with_vars; intros ?
  | |- keeps_user (if ?b then _ else _) => destruct b
  | |- keeps_user (match ?x with _ => _ end) => destruct x
  | |- keeps_user (SET_ERRNO _) => unfold SET_ERRNO
  | |- keeps_user (assert _) => unfold assert
  | |- keeps_user (return_on_errno _) => unfold return_on_errno
  | |- keeps_user goto_error => unfold goto_error
  | |- keeps_user break => unfold break
  | |- keeps_user reexecute => unfold reexecute
  | |- keeps_user _ => assumption
  end.
Ltac keep := repeat keep1.

Lemma keeps_fail e : keeps_user (fail e).
Proof. unfold fail, goto_error. keep. Qed.
Lemma keeps_notify ev er : keeps_user (CALLBACK_NOTIFY_ settings ev er).
Proof.
  unfold CALLBACK_NOTIFY_. apply keeps_seq; [keep|].
  constructor. intros e He. pose proof (Hnotify ev (ps e) (us e) He) as Hu.
  destruct (on_notify settings ev (ps e) (us e)) as [[rc r] u]. cbn in Hu.
  assert (keeps_user (seq (if (rc =? 0)%Z then skip else SET_ERRNO (notify_errno ev))
            (return_on_errno er))) as Hk; [|by apply kept].
  keep.
Qed.

Lemma keeps_data ev over er : keeps_user (CALLBACK_DATA_ settings data ev over er).
Proof.
  unfold CALLBACK_DATA_. apply keeps_seq; [keep|].
  constructor. intros e He. destruct (v_mark (vs e) ev) as [m|]; [|done].
  pose proof (Hdata ev (ps e) (take (v_p (vs e) + over - m) (drop m data)) (us e) He) as Hu.
  destruct (on_data settings ev _ _ _) as [rc u]. cbn in Hu.
  assert (keeps_user (seq (if (rc =? 0)%Z then skip else SET_ERRNO (data_errno ev))
            (seq (return_on_errno er) (local (set_mark ev None))))) as Hk; [|by apply kept].
  keep.
Qed.

Lemma keeps_COUNT n : keeps_user (COUNT_HEADER_SIZE max_header_size n).
Proof. unfold COUNT_HEADER_SIZE. keep; apply keeps_fail. Qed.
Lemma keeps_return_p over : keeps_user (return_p over).
Proof. unfold return_p. keep. Qed.

Lemma keeps_headers_complete : keeps_user (call_headers_complete settings).
Proof.
  constructor. intros e He. unfold call_headers_complete.
  pose proof (Hheaders (ps e) (us e) He) as Hu.
  destruct (HttpExecute.on_headers_complete settings (ps e) (us e)) as [rc u]. cbn in Hu.
  apply kept; [|done]. keep; apply keeps_return_p.
Qed.

(** The statements that call or fail. *)
Ltac keep_all :=
  repeat first
    [ keep1
    | lazymatch goal with
      | |- keeps_user (fail _) => apply keeps_fail
      | |- keeps_user (CALLBACK_NOTIFY_ _ _ _) => apply keeps_notify
      | |- keeps_user (CALLBACK_DATA_ _ _ _ _ _) => apply keeps_data
      | |- keeps_user (COUNT_HEADER_SIZE _ _) => apply keeps_COUNT
      | |- keeps_user (return_p _) => apply keeps_return_p
      | |- keeps_user (call_headers_complete _) => apply keeps_headers_complete
      end ].

Lemma keeps_field_loop fuel : keeps_user (header_field_loop data max_header_size fuel).
Proof.
  induction fuel as [|fuel IH]; cbn [header_field_loop]; unfold header_field_char; keep_all.
Qed.

Lemma keeps_skip_value n : keeps_user (skip_value data n).
Proof. induction n as [|n IH]; cbn [skip_value]; keep_all. Qed.

Lemma keeps_value_char ch c : keeps_user (header_value_char data max_header_size ch c).
Proof.
  unfold header_value_char, value_content_length_num, match_value, set_h, store_h_state, step_back.
  keep_all; apply keeps_skip_value.
Qed.

Lemma keeps_value_loop start fuel :
  keeps_user (header_value_loop settings data max_header_size start fuel).
Proof.
  induction fuel as [|fuel IH]; cbn [header_value_loop]; unfold store_h_state, CALLBACK_DATA,
    CALLBACK_DATA_NOADVANCE, reexecute; keep_all;
    apply keeps_value_char.
Qed.

Lemma keeps_state s ch : keeps_user (exec_state settings data addr max_header_size s ch).
Proof.
  destruct s; cbn [exec_state];
    unfold exec_dead, exec_start_req, exec_req_method, exec_req_spaces_before_url, exec_req_schema,
      exec_req_url, exec_req_http_start, exec_req_http_H, exec_req_http_HT, exec_req_http_HTT,
      exec_req_http_I, exec_req_http_IC, exec_req_http_HTTP, exec_req_http_major,
      exec_req_http_dot, exec_req_http_minor, exec_req_http_end, exec_req_line_almost_done,
      exec_header_field_start, exec_header_field, exec_header_value_discard_ws,
      exec_header_value_start, exec_header_value, exec_header_almost_done, exec_header_value_lws,
      exec_header_value_discard_ws_almost_done, exec_header_value_discard_lws,
      exec_headers_almost_done, exec_headers_done, exec_body_identity, exec_body_identity_eof,
      exec_message_done, exec_chunk_size_start, exec_chunk_size, exec_chunk_parameters,
      exec_chunk_size_almost_done, exec_chunk_data, exec_chunk_data_almost_done,
      exec_chunk_data_done, step_url, check_lengths, reset_nread, take_body, assert_chunked,
      store_h_state, step_back, set_h, STRICT_CHECK, CALLBACK_NOTIFY, CALLBACK_DATA,
      CALLBACK_DATA_NOADVANCE, MARK, MARK_url_start, break, reexecute, goto_error; cbv zeta;
    keep_all; first [apply keeps_field_loop|apply keeps_value_loop|apply keeps_fail|idtac].
Qed.

Lemma keeps_switch fuel : keeps_user (exec_switch settings data addr max_header_size fuel).
Proof.
  induction fuel as [|fuel IH]; constructor; intros e He; cbn [exec_switch];
    pose proof (kept _ e (keeps_state (p_state (ps e)) (v_ch (vs e))) He) as Hs;
    destruct (exec_state _ _ _ _ _ _ e) as [e' [[]|]]; try exact Hs.
  by apply kept.
Qed.

Lemma keeps_byte : keeps_user (exec_byte settings data addr max_header_size).
Proof. unfold exec_byte. keep_all. apply keeps_switch. Qed.

Lemma keeps_loop fuel : keeps_user (exec_loop settings data addr max_header_size fuel).
Proof.
  induction fuel as [|fuel IH]; constructor; intros e He; cbn [exec_loop];
    (destruct (Nat.eqb _ _); [done|]);
    pose proof (kept _ e keeps_byte He) as Hs;
    destruct (exec_byte _ _ _ _ e) as [e' [[]|]]; try exact Hs.
  by apply kept.
Qed.

(** What the callbacks preserve, a call of the parser preserves. *)
Lemma execute_keeps_user r u :
  J u → J (http_parser_execute settings data addr max_header_size r u).1.2.
Proof.
  intros Hu. unfold http_parser_execute. destruct (decide _); [done|].
  assert (∀ s, keeps_user s → ∀ e, J (us e) → J (result_of (s e)).1.2) as Hk.
  { intros s Hs e He. pose proof (kept s e Hs He). unfold result_of. by destruct (s e). }
  apply Hk; [|done]. destruct (Nat.eqb _ _).
  - unfold execute_eof, CALLBACK_NOTIFY_NOADVANCE. keep_all.
  - constructor. intros e He. unfold execute_bytes.
    pose proof (kept _ e (keeps_loop (length data)) He) as Hs.
    destruct (exec_loop _ _ _ _ _ e) as [e' [[]|]]; try exact Hs;
      (apply kept; [|exact Hs]).
    + unfold execute_error. keep_all.
    + unfold execute_end, CALLBACK_DATA_NOADVANCE. keep_all.
Qed.
End UserData.

(** ** Triples

    [triple I p J]: from a state in [I], a run of [p] that returns or throws ends in [J]. *)

Section Triples.
Context {W : Type}.
Local Open Scope prog_scope.

Definition goes_on {A} (o : outcome A) : bool :=
  match o with Val _ | Throw _ => true | _ => false end.

Definition triple (I : W → Prop) {A} (p : prog W A) (J : W → Prop) : Prop :=
  ∀ s, I s → goes_on (run p s).1 = true → J (run p s).2.

Lemma triple_bind (I K J : W → Prop) {A B} (p : prog W A) (k : A → prog W B) :
  triple I p K → (∀ a, triple K (k a) J) → (∀ s, K s → J s) → triple I (prog_bind p k) J.
Proof.
  intros Hp Hk HKJ s Hs. rewrite run_bind. specialize (Hp s Hs).
  destruct (run p s) as [[a|e| | | |] s']; cbn in *; try done.
  - by apply Hk, Hp.
  - intros _. by apply HKJ, Hp.
Qed.
Lemma triple_done (I : W → Prop) {A} (a : A) : triple I (Done a) I.
Proof. by intros s Hs _. Qed.
Lemma triple_weaken (I I' J J' : W → Prop) {A} (p : prog W A) :
  triple I p J → (∀ s, I' s → I s) → (∀ s, J s → J' s) → triple I' p J'.
Proof. intros Hp HI HJ s Hs Ho. apply HJ, Hp; auto. Qed.
Lemma triple_catch (I : W → Prop) {A} h (p : prog W A) :
  triple I p I → (∀ e, triple I (h e) I) → triple I (catch h p) I.
Proof.
  intros Hp Hh s Hs. rewrite run_catch. specialize (Hp s Hs).
  destruct (run p s) as [[a|e| | | |] s']; cbn in *; try done. by apply Hh, Hp.
Qed.
End Triples.

(** ** What a connection keeps

    A connection that has never started a write while another was under way: in a handler
    that reads, and between the handlers. *)

Definition reading_ok (c : connection) : Prop :=
  overlapped c = false →
  is_reading c = true ∧ destroyed c = false ∧ reads c = 0%nat ∧
  need_to_start_read_after_complete_ c = false ∧
  (in_flight c = [] ∨ is_writing c = true ∧ length (in_flight c) = 1%nat).

Definition no_write (c : connection) : Prop :=
  reading_ok c ∧ (overlapped c = false → in_flight c = []).

Definition between_handlers (c : connection) : Prop :=
  overlapped c = false →
  (destroyed c = true →
     is_reading c = false ∧ is_writing c = false ∧ deadline c = false) ∧
  (reads c = 0%nat ∨ is_reading c = true ∧ reads c = 1%nat) ∧
  (need_to_start_read_after_complete_ c = true → reads c = 0%nat) ∧
  (in_flight c = [] ∨ is_writing c = true ∧ length (in_flight c) = 1%nat).

Lemma between_handlers_enabled ev c :
  between_handlers c → overlapped c = false → enabled ev c = true → destroyed c = false.
Proof.
  intros Hc Ho. destruct (Hc Ho) as (Hd & Hr & _ & Hw). destruct (destroyed c); [|done].
  destruct (Hd eq_refl) as (H1 & H2 & H3). rewrite H1 in Hr. rewrite H2 in Hw.
  destruct Hr as [E1|[]], Hw as [E2|[]]; try done.
  destruct ev; cbn; by rewrite ?E1, ?E2, ?H3.
Qed.

Section Facts.
Context {V : Type}.
Local Open Scope prog_scope.

(** A condition on the connection. *)
Definition of_conn (I : connection → Prop) (s : response * (connection * V)) : Prop := I s.2.1.

Lemma triple_conn (I J : connection → Prop) {A} (f : connection → A) :
  (∀ c, I c → J c) → triple (of_conn I) (conn (V:=V) f) (of_conn J).
Proof. intros HIJ [r [c v]] Hc _. by apply HIJ. Qed.
Lemma triple_conn_do (I J : connection → Prop) (f : connection → connection) :
  (∀ c, I c → J (f c)) → triple (of_conn I) (conn_do (V:=V) f) (of_conn J).
Proof. intros HIJ [r [c v]] Hc _. by apply HIJ. Qed.
Lemma triple_res_do (I : connection → Prop) f :
  triple (of_conn I) (res_do (W := connection * V) f) (of_conn I).
Proof. by intros [r [c v]] Hc _. Qed.
Lemma triple_response (I : connection → Prop) {A} (f : response → A) :
  triple (of_conn I) (response_of (V:=V) f) (of_conn I).
Proof. by intros [r [c v]] Hc _. Qed.
Lemma triple_modify_res (I : connection → Prop) (f : response * (connection * V) → response * (connection * V)) :
  (∀ s, of_conn I s → of_conn I (f s)) → triple (of_conn I) (modify f) (of_conn I).
Proof. intros Hf s Hs _. by apply Hf. Qed.
Lemma triple_app (I : connection → Prop) {A} (p : prog V A) :
  triple (of_conn I) (Connection.app p) (of_conn I).
Proof.
  intros [r [c v]] Hc _. unfold Connection.app. rewrite run_on_state, run_on_state.
  by destruct (run p v).
Qed.

Lemma triple_when (I : connection → Prop) b (p : prog (response * (connection * V)) unit) :
  triple (of_conn I) p (of_conn I) → triple (of_conn I) (when b p) (of_conn I).
Proof. destruct b; [done|]. intros _. apply triple_done. Qed.

Lemma triple_check_destroy_reading :
  triple (of_conn reading_ok) check_destroy (of_conn reading_ok).
Proof.
  intros [r [c v]] Hc _. unfold check_destroy. run_simpl. cbn.
  destruct (is_reading c) eqn:Er, (is_writing c); cbn; try exact Hc.
  intros Ho. exfalso. destruct (Hc Ho) as [Hr _]. cbn in Hr. congruence.
Qed.

Lemma triple_res_end (I : connection → Prop) k :
  triple (of_conn I) k (of_conn I) → triple (of_conn I) (res_end k) (of_conn I).
Proof.
  intros Hk. unfold res_end. apply (triple_bind _ (of_conn I)); [|intros []; [done|apply triple_done]|done].
  intros [r [c v]] Hc _. run_simpl. by destruct (Response.end_ r).
Qed.
End Facts.

(** Step through a text whose statements keep a condition. *)
Ltac on_connection :=
  let c := fresh "c" in let Hc := fresh "Hc" in
  intros c Hc; unfold no_write, reading_ok, between_handlers in *; destruct c; cbn in *; intuition congruence.
Ltac step_keeps :=
  lazymatch goal with
  | |- triple ?I (prog_bind _ _) ?I => apply (triple_bind _ I); [|intros ?|done]
  | |- triple _ (Done _) _ => apply triple_done
  | |- triple _ (conn _) _ => apply triple_conn; done
  | |- triple _ (conn_do _) _ =>
      apply triple_conn_do; first [by (intros ? Hc; exact Hc) | on_connection | idtac]
  | |- triple _ (res_do _) _ => apply triple_res_do
  | |- triple _ (response_of _) _ => apply triple_response
  | |- triple _ (Connection.app _) _ => apply triple_app
  | |- triple _ (when _ _) _ => apply triple_when
  | |- triple _ check_destroy _ => apply triple_check_destroy_reading
  | |- triple _ (res_end _) _ => apply triple_res_end
  | |- triple _ (if ?b then _ else _) _ => destruct b
  | |- triple _ (match ?x with _ => _ end) _ => destruct x
  | |- triple _ _ _ => eassumption
  end.

Section Reading.
Context {V : Type} (server_name : string) (get_cached_date_str : prog V string)
        (read_file : string → prog V string) (buffer_address res_stream_threshold_ : Z).
Local Open Scope prog_scope.

Abbreviation keeps_reading p :=
  (triple (of_conn (V:=V) reading_ok) p (of_conn reading_ok)).

Lemma do_write_keeps : keeps_reading do_write.
Proof.
  intros [r [c v]] Hc _. unfold do_write, starts_write. run_simpl. cbn. intros Ho.
  unfold reading_ok in *; cbn in *.
  destruct (in_flight c); cbn in *; [|by rewrite orb_true_r in Ho].
  rewrite orb_false_r in Ho. destruct (Hc Ho) as (?&?&?&?&_). auto 7.
Qed.

Lemma write_now_keeps data :
  triple (of_conn (V:=V) reading_ok) (write_now data) (of_conn no_write).
Proof.
  intros [r [c v]] Hc _. unfold write_now, starts_write. run_simpl. cbn.
  unfold no_write, reading_ok in *; cbn in *.
  destruct (in_flight c) eqn:E; cbn in *.
  - rewrite orb_false_r. split; [|done]. intros Ho. destruct (Hc Ho) as (?&?&?&?&_). auto 7.
  - by rewrite orb_true_r.
Qed.

Lemma after_write_now_keeps :
  triple (of_conn (V:=V) no_write) after_write_now (of_conn reading_ok).
Proof.
  unfold after_write_now. apply (triple_bind _ (of_conn reading_ok)).
  - apply triple_conn_do. on_connection.
  - intros _. unfold close_adaptor, parser_clear. repeat step_keeps.
  - done.
Qed.

Lemma do_write_static_keeps : keeps_reading (do_write_static read_file).
Proof.
  unfold do_write_static. step_keeps; [step_keeps|]. step_keeps; [step_keeps|].
  apply (triple_bind _ (of_conn no_write)); [apply write_now_keeps|intros _|by intros ? []].
  apply (triple_bind _ (of_conn no_write)); [step_keeps|intros info|by intros ? []].
  apply (triple_bind _ (of_conn no_write)); [|intros _; apply after_write_now_keeps|by intros ? []].
  step_keeps; [|step_keeps]. step_keeps; [step_keeps|].
  by eapply triple_weaken; [apply write_now_keeps|intros ? []|].
Qed.

Lemma later_read_keeps :
  keeps_reading (later ← conn need_to_start_read_after_complete_;
                 when later (conn_do (set_need_to_start_read_after_complete false) ;;
                             start_deadline ;; do_read)).
Proof.
  intros [r [c v]] Hc _. run_simpl. cbn.
  destruct (need_to_start_read_after_complete_ c) eqn:En; [|exact Hc].
  cbn. intros Ho. destruct (Hc Ho) as (_&_&_&Hn&_). cbn in Hn. congruence.
Qed.

Lemma do_write_general_keeps : keeps_reading (do_write_general res_stream_threshold_).
Proof.
  unfold do_write_general. step_keeps; [step_keeps|]. step_keeps.
  - step_keeps; [by apply triple_modify_res; intros [? [? ?]]|].
    step_keeps; [step_keeps|]. step_keeps; [apply do_write_keeps|apply later_read_keeps].
  - step_keeps; [step_keeps|]. step_keeps; [step_keeps|].
    apply (triple_bind _ (of_conn no_write)); [apply write_now_keeps|intros _|by intros ? []].
    apply (triple_bind _ (of_conn no_write)); [step_keeps|intros content|by intros ? []].
    apply (triple_bind _ (of_conn no_write)); [|intros _|by intros ? []].
    + by eapply triple_weaken; [apply write_now_keeps|intros ? []|].
    + apply (triple_bind _ (of_conn no_write)); [step_keeps|intros _; apply after_write_now_keeps|].
      by intros ? [].
Qed.

Lemma complete_request_keeps :
  keeps_reading (complete_request server_name get_cached_date_str read_file res_stream_threshold_).
Proof.
  unfold complete_request, prepare_buffers. repeat step_keeps.
  - by apply triple_modify_res; intros [? [? ?]].
  - apply do_write_static_keeps.
  - apply do_write_general_keeps.
Qed.

(** [complete_request_handler_()], as the router calls it. *)
Lemma call_completion_keeps :
  keeps_reading (call_completion server_name get_cached_date_str read_file res_stream_threshold_).
Proof.
  unfold call_completion. step_keeps; [step_keeps|]. step_keeps; [step_keeps..|].
  apply complete_request_keeps.
Qed.

Context (app_handle app_upgrade : request → prog (response * (connection * V)) unit).
Hypothesis Happ : ∀ req, keeps_reading (app_handle req).
Hypothesis Hupgrade : ∀ req, keeps_reading (app_upgrade req).

Lemma handle_keeps :
  keeps_reading (handle app_handle app_upgrade server_name get_cached_date_str read_file
                   res_stream_threshold_).
Proof.
  unfold handle, handle_request, assign_res, cancel_deadline_timer.
  repeat step_keeps; first [apply complete_request_keeps|apply Happ|apply Hupgrade].
Qed.

Lemma on_message_complete_keeps :
  keeps_reading (on_message_complete app_handle app_upgrade server_name get_cached_date_str
                   read_file res_stream_threshold_).
Proof.
  unfold on_message_complete. step_keeps; [step_keeps|]. step_keeps; [step_keeps|].
  step_keeps; [step_keeps; [step_keeps|apply handle_keeps]|by intros ? ? ?].
Qed.

Lemma handle_header_keeps : keeps_reading (handle_header (V:=V)).
Proof.
  unfold handle_header. repeat step_keeps. apply do_write_keeps.
Qed.

(** *** A call of the parser *)

Definition feeding_ok (u : feeding (V:=V)) : Prop :=
  match u.2 with
  | None | Some (Val _ | Throw _) => reading_ok u.1.2.1
  | Some _ => True
  end.

Lemma run_callback_keeps p r u :
  keeps_reading p → feeding_ok u → feeding_ok (run_callback p r u).2.
Proof.
  intros Hp. destruct u as [[res [c v]] [o|]]; [done|]. intros Hu. unfold run_callback.
  assert (of_conn reading_ok (res, (set_parser r c, v))) as Hs.
  { intros Ho. cbn in *. exact (Hu Ho). }
  specialize (Hp _ Hs). destruct (run p _) as [[] [res' [c' v']]]; cbn in *; try done;
    exact (Hp eq_refl).
Qed.

Lemma on_message_ok f u : feeding_ok u → feeding_ok (on_message f u).
Proof. by destruct u as [[res [c v]] [[]|]]. Qed.

Abbreviation settings :=
  (callbacks app_handle app_upgrade server_name get_cached_date_str read_file
     res_stream_threshold_).

Lemma feed_keeps buffer :
  keeps_reading (feed app_handle app_upgrade server_name get_cached_date_str read_file
                   buffer_address res_stream_threshold_ buffer).
Proof.
  unfold feed. step_keeps; [step_keeps|]. step_keeps; [step_keeps|].
  intros [res [c v]] Hc. cbn -[http_parser_execute].
  assert (feeding_ok (http_parser_execute settings buffer buffer_address HTTP_MAX_HEADER_SIZE
            (parser_ c) ((res, (c, v)), None)).1.2) as Hf.
  { apply execute_keeps_user; [| | |exact Hc].
    - intros ev r b u Hu. cbn. by apply on_message_ok.
    - intros [] r u Hu; cbn; [done|]. apply run_callback_keeps; [apply on_message_complete_keeps|done].
    - intros r u Hu. cbn.
      pose proof (run_callback_keeps handle_header r _ handle_header_keeps
                    (on_message_ok (headers_complete r) u Hu)) as Hk.
      by destruct (run_callback _ _ _) as [[? ?] ?]. }
  destruct (http_parser_execute _ _ _ _ _ _) as [[r [[res' [c' v']] o]] n]. cbn in Hf.
  by destruct o as [[]|]; [..|destruct n].
Qed.

(** ** Between the handlers *)

Abbreviation keeps p := (triple (of_conn (V:=V) between_handlers) p (of_conn between_handlers)).

Lemma reading_between c : reading_ok c → between_handlers c.
Proof.
  intros Hc Ho. destruct (Hc Ho) as (Hr & Hd & Hn & Hs & Hw). rewrite Hd. split_and!; try done; auto.
Qed.

(** No write is under way, and the connection has not been freed. *)
Definition write_over (c : connection) : Prop :=
  overlapped c = false →
  destroyed c = false ∧ is_writing c = false ∧ in_flight c = [] ∧
  (reads c = 0%nat ∨ is_reading c = true ∧ reads c = 1%nat) ∧
  (need_to_start_read_after_complete_ c = true → reads c = 0%nat).

Lemma write_over_between c : write_over c → between_handlers c.
Proof.
  intros Hc Ho. destruct (Hc Ho) as (Hd & Hw & Hf & Hr & Hn). rewrite Hd. split_and!; try done; auto.
Qed.

Lemma check_destroy_over :
  triple (of_conn (V:=V) write_over) check_destroy (of_conn between_handlers).
Proof.
  intros [r [c v]] Hc _. unfold check_destroy. run_simpl. cbn.
  destruct (is_reading c) eqn:Er, (is_writing c) eqn:Ew; cbn;
    try (by apply write_over_between).
  intros Ho. destruct (Hc Ho) as (_ & _ & Hf & Hr & Hn). cbn in *. auto.
Qed.

Lemma end_reading :
  triple (of_conn (V:=V) reading_ok) (conn_do (set_is_reading false) ;; check_destroy)
    (of_conn between_handlers).
Proof.
  intros [r [c v]] Hc _. unfold check_destroy. run_simpl. cbn.
  destruct (is_writing c) eqn:Ew; cbn; intros Ho;
    destruct (Hc Ho) as (Hr & Hd & Hn & Hs & Hw); cbn in *; [rewrite Hd; split_and!; try done; auto|].
  rewrite Ew in Hw. destruct Hw as [Hw|[]]; [auto 6|done].
Qed.

Lemma read_done_keeps bytes_read :
  triple (of_conn (V:=V) reading_ok)
    (read_done app_handle app_upgrade server_name get_cached_date_str read_file buffer_address
       res_stream_threshold_ bytes_read) (of_conn between_handlers).
Proof.
  unfold read_done, parser_done, cancel_deadline_timer, close_adaptor.
  assert (∀ s, of_conn (V:=V) reading_ok s → of_conn between_handlers s) as Hrb.
  { intros s. apply reading_between. }
  apply (triple_bind _ (of_conn reading_ok)); [|intros ok|done].
  { destruct bytes_read; [|step_keeps]. step_keeps; [apply feed_keeps|]. repeat step_keeps. }
  apply (triple_bind _ (of_conn reading_ok)); [step_keeps|intros close|done].
  apply (triple_bind _ (of_conn reading_ok)); [step_keeps|intros later|done].
  destruct ok; cbn [negb]; [destruct close; [|destruct later]|].
  - do 2 (apply (triple_bind _ (of_conn reading_ok));
      [repeat step_keeps; apply feed_keeps|intros _|done]).
    apply end_reading.
  - apply triple_conn_do. on_connection.
  - unfold start_deadline, cancel_deadline_timer, do_read.
    do 2 (apply (triple_bind _ (of_conn reading_ok)); [repeat step_keeps|intros _|done]).
    apply triple_conn_do. on_connection.
  - do 3 (apply (triple_bind _ (of_conn reading_ok));
      [repeat step_keeps; apply feed_keeps|intros _|done]).
    apply end_reading.
Qed.

Lemma write_done_keeps ok :
  triple (of_conn (V:=V) (λ c, write_over (set_is_writing false c))) (write_done ok)
    (of_conn between_handlers).
Proof.
  assert (∀ s, of_conn (V:=V) write_over s → of_conn between_handlers s) as Hrb.
  { intros s. apply write_over_between. }
  unfold write_done, parser_clear, close_adaptor.
  apply (triple_bind _ (of_conn write_over)); [by apply triple_conn_do|intros _|done].
  apply (triple_bind _ (of_conn write_over)); [step_keeps|intros _|done].
  do 2 (apply (triple_bind _ (of_conn write_over)); [by apply triple_conn_do|intros _|done]).
  destruct ok; [|apply check_destroy_over].
  apply (triple_bind _ (of_conn write_over)); [step_keeps|intros close|done].
  destruct close; cbn [when]; [|by eapply triple_weaken; [apply triple_done| |]].
  apply (triple_bind _ (of_conn write_over)); [by apply triple_conn_do|intros _|done].
  apply check_destroy_over.
Qed.

Lemma take_event_keeps ev s :
  of_conn (V:=V) between_handlers s → enabled ev s.2.1 = true →
  let r := take_event app_handle app_upgrade server_name get_cached_date_str read_file
             buffer_address res_stream_threshold_ ev s in
  goes_on r.1 = true → of_conn between_handlers r.2.
Proof.
  intros Hs Hen. destruct s as [r [c v]]. unfold take_event. cbn in Hs, Hen.
  destruct (destroyed c) eqn:Hd; [done|].
  destruct ev as [b|ok|]; cbn [completion_program completed].
  - apply read_done_keeps. intros Ho. destruct (Hs Ho) as (_ & Hr & Hn & Hw). cbn in *.
    rewrite Hd. destruct Hr as [Hr|[Hi Hr]]; [by rewrite Hr in Hen|].
    rewrite Hr. split_and!; try done. destruct (need_to_start_read_after_complete_ c); [|done].
    specialize (Hn eq_refl). lia.
  - apply write_done_keeps. intros Ho.
    assert (overlapped c = false) as Ho' by by destruct ok. destruct (Hs Ho') as (_ & Hr & Hn & Hw). cbn in *.
    destruct Hw as [Hw|[_ Hw]]; [by rewrite Hw in Hen|].
    destruct ok; cbn; split_and!; try done; by destruct (in_flight c) as [|? [|]].
  - assert (triple (of_conn (V:=V) between_handlers) deadline_expired (of_conn between_handlers))
      as Hdl by by unfold deadline_expired; repeat step_keeps.
    apply Hdl. intros Ho. destruct (Hs Ho) as (_ & Hr & Hn & Hw). cbn in *. rewrite Hd.
    split_and!; try done; auto.
Qed.

(** Between the handlers of a connection, whatever has happened. *)
Lemma take_events_keeps evs s o s' :
  of_conn (V:=V) between_handlers s →
  take_events app_handle app_upgrade server_name get_cached_date_str read_file buffer_address
    res_stream_threshold_ evs s = Some (o, s') →
  goes_on o = true → of_conn between_handlers s'.
Proof.
  revert s. induction evs as [|ev evs IH]; intros s Hs; cbn [take_events].
  - by intros [= <- <-].
  - destruct (enabled ev s.2.1) eqn:Hen; [|done].
    pose proof (take_event_keeps ev s Hs Hen) as Ht. cbn in Ht.
    destruct (take_event _ _ _ _ _ _ _ ev s) as [[[]| | | | |] s1]; cbn in Ht;
      [exact (IH s1 (Ht eq_refl))|destruct evs; [|done]; by intros [= <- <-]..].
Qed.

Lemma accepted_between (v : V) : of_conn between_handlers (accepted v).
Proof. intros _. cbn. split_and!; try done; auto. Qed.
End Reading.

(** ** What a handler does to the parser and to the task timer

    It clears the parser, cancels the connection's task, or cancels it and schedules it anew;
    and it may start a write while another one is under way: a condition that these keep is
    kept by every handler. *)

Section Kept.
Context {V : Type} (server_name : string) (get_cached_date_str : prog V string)
        (read_file : string → prog V string) (buffer_address res_stream_threshold_ : Z).
Local Open Scope prog_scope.
Variable I : http_parser → list timer_call → bool → Prop.
Hypothesis Hclear : ∀ r t o, I r t o → I (clear_parser r) t o.
Hypothesis Hcancel : ∀ r t o, I r t o → I r (CancelTask :: t) o.
Hypothesis Hstart : ∀ r t o, I r t o → I r (ScheduleTask :: CancelTask :: t) o.
Hypothesis Hoverlap : ∀ r t o o', I r t o → I r t (o || o').

Definition holds : response * (connection * V) → Prop :=
  of_conn (λ c, I (parser_ c) (timer_calls c) (overlapped c)).
Abbreviation keeps p := (triple holds p holds).

Lemma check_destroy_kept : keeps check_destroy.
Proof.
  intros [r [c v]] Hc _. unfold check_destroy. run_simpl. cbn.
  destruct (is_reading c), (is_writing c); cbn; try exact Hc. by apply Hcancel.
Qed.
Lemma parser_clear_kept : keeps parser_clear.
Proof. apply triple_conn_do. intros c Hc. by apply Hclear. Qed.
Lemma cancel_deadline_timer_kept : keeps cancel_deadline_timer.
Proof. apply triple_conn_do. intros c Hc. by apply Hcancel. Qed.
Lemma start_deadline_kept : keeps start_deadline.
Proof. intros [r [c v]] Hc _. by apply Hstart. Qed.

Lemma starts_write_kept : keeps starts_write.
Proof. apply triple_conn_do. intros c Hc. by apply Hoverlap. Qed.

Ltac step_kept :=
  lazymatch goal with
  | |- triple _ starts_write _ => apply starts_write_kept
  | |- triple _ check_destroy _ => apply check_destroy_kept
  | |- triple _ parser_clear _ => apply parser_clear_kept
  | |- triple _ cancel_deadline_timer _ => apply cancel_deadline_timer_kept
  | |- triple _ start_deadline _ => apply start_deadline_kept
  | |- triple _ (modify _) _ => apply triple_modify_res; by intros [? [? ?]]
  | |- _ => step_keeps
  end.

Lemma do_write_kept : keeps do_write.
Proof. unfold do_write. repeat step_kept. Qed.

Lemma complete_request_kept :
  keeps (complete_request server_name get_cached_date_str read_file res_stream_threshold_).
Proof.
  unfold complete_request, prepare_buffers, do_write_static, do_write_general, do_write, write_now,
    after_write_now, do_read, close_adaptor.
  repeat step_kept.
Qed.

Lemma call_completion_kept :
  keeps (call_completion server_name get_cached_date_str read_file res_stream_threshold_).
Proof.
  unfold call_completion. step_keeps; [step_keeps|]. step_keeps; [step_keeps..|].
  apply complete_request_kept.
Qed.

Context (app_handle app_upgrade : request → prog (response * (connection * V)) unit).
Hypothesis Happ : ∀ req, keeps (app_handle req).
Hypothesis Hupgrade : ∀ req, keeps (app_upgrade req).

Lemma on_message_complete_kept :
  keeps (on_message_complete app_handle app_upgrade server_name get_cached_date_str
           read_file res_stream_threshold_).
Proof.
  unfold on_message_complete, handle, handle_request, assign_res.
  repeat step_kept;
    first [apply complete_request_kept | apply Happ | apply Hupgrade | by intros ? ? ?].
Qed.
End Kept.

Section Parser.
Context {V : Type} (server_name : string) (get_cached_date_str : prog V string)
        (read_file : string → prog V string) (buffer_address res_stream_threshold_ : Z).
Local Open Scope prog_scope.
Variable I : http_parser → Prop.
Hypothesis Hclear : ∀ r, I r → I (clear_parser r).

Abbreviation keeps p := (triple (of_conn (V:=V) (λ c, I (parser_ c))) p (of_conn (λ c, I (parser_ c)))).

Lemma check_destroy_parser : keeps check_destroy.
Proof. by apply (check_destroy_kept (λ r _ _, I r)). Qed.
Lemma parser_clear_parser : keeps parser_clear.
Proof. apply (parser_clear_kept (λ r _ _, I r)). auto. Qed.
Lemma call_completion_parser :
  keeps (call_completion server_name get_cached_date_str read_file res_stream_threshold_).
Proof. apply (call_completion_kept _ _ _ _ (λ r _ _, I r)); auto. Qed.

Context (app_handle app_upgrade : request → prog (response * (connection * V)) unit).
Hypothesis Happ : ∀ req, keeps (app_handle req).
Hypothesis Hupgrade : ∀ req, keeps (app_upgrade req).

Lemma on_message_complete_parser :
  keeps (on_message_complete app_handle app_upgrade server_name get_cached_date_str
           read_file res_stream_threshold_).
Proof. apply (on_message_complete_kept _ _ _ _ (λ r _ _, I r)); auto. Qed.
End Parser.

(** *** The calls to the task timer *)

Section TimerCalls.
Context {V : Type} (server_name : string) (get_cached_date_str : prog V string)
        (read_file : string → prog V string) (buffer_address res_stream_threshold_ : Z).
Local Open Scope prog_scope.
Variable J : list timer_call → bool → Prop.
Hypothesis Hcancel : ∀ t o, J t o → J (CancelTask :: t) o.
Hypothesis Hstart : ∀ t o, J t o → J (ScheduleTask :: CancelTask :: t) o.
Hypothesis Hoverlap : ∀ t o o', J t o → J t (o || o').

Abbreviation keeps p :=
  (triple (of_conn (V:=V) (λ c, J (timer_calls c) (overlapped c))) p
     (of_conn (λ c, J (timer_calls c) (overlapped c)))).

Lemma call_completion_calls :
  keeps (call_completion server_name get_cached_date_str read_file res_stream_threshold_).
Proof. apply (call_completion_kept _ _ _ _ (λ _, J)); auto. Qed.

Context (app_handle app_upgrade : request → prog (response * (connection * V)) unit).
Hypothesis Happ : ∀ req, keeps (app_handle req).
Hypothesis Hupgrade : ∀ req, keeps (app_upgrade req).

Definition feeding_calls (u : feeding (V:=V)) : Prop :=
  match u.2 with
  | None | Some (Val _ | Throw _) => J (timer_calls u.1.2.1) (overlapped u.1.2.1)
  | Some _ => True
  end.

Lemma run_callback_calls p r u :
  keeps p → feeding_calls u → feeding_calls (run_callback p r u).2.
Proof.
  intros Hp. destruct u as [[res [c v]] [o|]]; [done|]. intros Hu. unfold run_callback.
  specialize (Hp (res, (set_parser r c, v)) Hu).
  destruct (run p _) as [[] [res' [c' v']]]; cbn in *; try done; exact (Hp eq_refl).
Qed.

Lemma on_message_calls f u : feeding_calls u → feeding_calls (on_message f u).
Proof. by destruct u as [[res [c v]] [[]|]]. Qed.

Abbreviation settings :=
  (callbacks app_handle app_upgrade server_name get_cached_date_str read_file
     res_stream_threshold_).

Lemma handle_header_calls : keeps handle_header.
Proof.
  unfold handle_header. repeat step_keeps. apply (do_write_kept (λ _, J)); auto.
Qed.

Lemma feed_calls buffer :
  keeps (feed app_handle app_upgrade server_name get_cached_date_str read_file
           buffer_address res_stream_threshold_ buffer).
Proof.
  unfold feed. step_keeps; [step_keeps|]. step_keeps; [step_keeps|].
  intros [res [c v]] Hc. cbn -[http_parser_execute].
  assert (feeding_calls (http_parser_execute settings buffer buffer_address HTTP_MAX_HEADER_SIZE
            (parser_ c) ((res, (c, v)), None)).1.2) as Hf.
  { apply execute_keeps_user; [| | |exact Hc].
    - intros ev r b u Hu. cbn. by apply on_message_calls.
    - intros [] r u Hu; cbn; [done|]. apply run_callback_calls; [|done].
      apply (on_message_complete_kept _ _ _ _ (λ _, J)); auto.
    - intros r u Hu. cbn.
      pose proof (run_callback_calls handle_header r _ handle_header_calls
                    (on_message_calls (headers_complete r) u Hu)) as Hk.
      by destruct (run_callback _ _ _) as [[? ?] ?]. }
  destruct (http_parser_execute _ _ _ _ _ _) as [[r [[res' [c' v']] o]] n]. cbn in Hf.
  by destruct o as [[]|]; [..|destruct n].
Qed.

Ltac step_calls :=
  lazymatch goal with
  | |- triple _ check_destroy _ => apply (check_destroy_kept (λ _, J)); auto
  | |- triple _ parser_clear _ => apply (parser_clear_kept (λ _, J)); auto
  | |- triple _ cancel_deadline_timer _ => apply (cancel_deadline_timer_kept (λ _, J)); auto
  | |- triple _ start_deadline _ => apply (start_deadline_kept (λ _, J)); auto
  | |- triple _ (feed _ _ _ _ _ _ _ _) _ => apply feed_calls
  | |- _ => step_keeps
  end.

Lemma completion_calls ev :
  keeps (completion_program app_handle app_upgrade server_name get_cached_date_str read_file
           buffer_address res_stream_threshold_ ev).
Proof.
  destruct ev as [b|ok|]; cbn [completion_program];
    [unfold read_done, parser_done, do_read | unfold write_done | unfold deadline_expired];
    unfold close_adaptor;
    repeat step_calls.
Qed.
End TimerCalls.

Section ParserOk.
Context {V : Type} (app_handle app_upgrade : request → prog (response * (connection * V)) unit)
        (server_name : string) (get_cached_date_str : prog V string)
        (read_file : string → prog V string) (buffer_address res_stream_threshold_ : Z).
Local Open Scope prog_scope.

(** The application may clear the parser, and no more. *)
Definition app_clears (p : prog (response * (connection * V)) unit) : Prop :=
  ∀ I, (∀ r, I r → I (clear_parser r)) →
    triple (of_conn (λ c, I (parser_ c))) p (of_conn (λ c, I (parser_ c))).
Hypothesis Happ : ∀ req, app_clears (app_handle req).
Hypothesis Hupgrade : ∀ req, app_clears (app_upgrade req).

Abbreviation settings :=
  (callbacks app_handle app_upgrade server_name get_cached_date_str read_file
     res_stream_threshold_).

Lemma callbacks_restart : restarts settings.
Proof.
  intros [] r u; [by left|]. cbn -[restart]. unfold run_callback.
  destruct u as [[res [c v]] [o|]]; [by left|].
  pose proof (on_message_complete_parser server_name get_cached_date_str read_file
    res_stream_threshold_ (λ r', r' = r ∨ r' = restart r)) as Hm.
  assert (∀ r', r' = r ∨ r' = restart r → clear_parser r' = r ∨ clear_parser r' = restart r) as Hcl.
  { by intros ? [->| ->]; right. }
  specialize (Hm Hcl _ _ (λ req, Happ req _ Hcl) (λ req, Hupgrade req _ Hcl) (res, (set_parser r c, v))
                (or_introl eq_refl)).
  destruct (run _ _) as [[] [res' [c' v']]]; cbn -[restart] in *; first [by left|exact (Hm eq_refl)].
Qed.

Abbreviation keeps_ok p :=
  (triple (of_conn (V:=V) (λ c, parser_ok (parser_ c))) p (of_conn (λ c, parser_ok (parser_ c)))).

Lemma clear_parser_ok r : parser_ok r → parser_ok (clear_parser r).
Proof. intros Hr He. destruct (Hr He) as (Hl & _). by split; [exact Hl|]. Qed.

Lemma feed_ok buffer :
  nul ∉ buffer →
  keeps_ok (feed app_handle app_upgrade server_name get_cached_date_str read_file
              buffer_address res_stream_threshold_ buffer).
Proof.
  intros Hn. unfold feed. step_keeps; [step_keeps|]. step_keeps; [step_keeps|].
  intros [res [c v]] Hc. cbn -[http_parser_execute].
  destruct (HttpSafe.execute_keeps settings callbacks_restart buffer Hn buffer_address
              HTTP_MAX_HEADER_SIZE (parser_ c) (res, (c, v), None) Hc) as (n & _ & Hr).
  destruct (http_parser_execute _ _ _ _ _ _) as [[r [[res' [c' v']] o]] n']. cbn in Hr.
  by destruct o as [[]|]; [..|destruct n'].
Qed.

Lemma read_done_ok bytes_read :
  (∀ b, bytes_read = Some b → nul ∉ b) →
  keeps_ok (read_done app_handle app_upgrade server_name get_cached_date_str read_file
              buffer_address res_stream_threshold_ bytes_read).
Proof.
  intros Hn. unfold read_done, parser_done, cancel_deadline_timer, start_deadline, do_read,
    close_adaptor, cancel_deadline_timer.
  assert (nul ∉ ([] : bytes)) as Hnil by apply not_elem_of_nil.
  repeat first [apply (check_destroy_parser parser_ok) | step_keeps | apply feed_ok; auto].
Qed.

Lemma completion_ok ev :
  (∀ b, ev = ReadDone (Some b) → nul ∉ b) →
  keeps_ok (completion_program app_handle app_upgrade server_name get_cached_date_str read_file
              buffer_address res_stream_threshold_ ev).
Proof.
  intros Hn. destruct ev as [b|ok|]; cbn [completion_program].
  - apply read_done_ok. intros b' ->. by apply Hn.
  - unfold write_done, close_adaptor.
    repeat first [apply (check_destroy_parser parser_ok)
                 | apply (parser_clear_parser parser_ok), clear_parser_ok | step_keeps].
  - unfold deadline_expired. repeat step_keeps.
Qed.

(** Input without NUL leaves the parser in a state from which no assertion fails. *)
Lemma take_events_ok evs s s' :
  Forall (λ ev, ∀ b, ev = ReadDone (Some b) → nul ∉ b) evs →
  of_conn (V:=V) (λ c, parser_ok (parser_ c)) s →
  take_events app_handle app_upgrade server_name get_cached_date_str read_file buffer_address
    res_stream_threshold_ evs s = Some (Val tt, s') →
  of_conn (λ c, parser_ok (parser_ c)) s'.
Proof.
  intros Hn. revert s. induction Hn as [|ev evs Hev _ IH]; intros s Hs; cbn [take_events];
    [by intros [= <-]|].
  destruct (enabled ev s.2.1); [|done].
  destruct (take_event _ _ _ _ _ _ _ ev s) as [[[]| | | | |] s1] eqn:E;
    [|by destruct evs..]. apply IH. revert E. unfold take_event. destruct s as [r [c v]].
  destruct (destroyed c); [done|]. intros E.
  pose proof (completion_ok ev Hev (r, (completed ev c, v))) as Ht. rewrite E in Ht.
  apply Ht; [|done]. by destruct ev as [|[]|].
Qed.
End ParserOk.
