(* ===== verification/Service.v ===== *)
(** * The transfer state machine

    src/Service.cpp and src/ConcreteServiceState.cpp as programs over the shared state:
    each access to the store, to a field of the service, to a file or to a stream is one
    atomic step. *)

From Stdlib Require Import ZArith.
From stdpp Require Import base tactics option strings list gmap.
From S2P Require Import Prelude.
From S2P Require Import CppStd.
From S2P Require Import RocksStatus.
From S2P Require Import Store.
From S2P Require Import World.

Section Service.
Context {db : Type} `{KVStore db} `{Platform} (config : Config).
Local Open Scope prog_scope.

(** ** Accesses to the shared state *)

Definition db_Get (key : string) : prog (World db) (Status * option string) :=
  update (λ w, let '(d, r) := kv_get (accountDB (service w)) key in
               (r, with_service (set_accountDB d) w)).

Definition db_Put (key value : string) : prog (World db) Status :=
  update (λ w, let '(d, s) := kv_put (accountDB (service w)) key value in
               (s, with_service (set_accountDB d) w)).

(** [service->_status = s] and a read of [service->_status] *)
Definition assign_status (s : Status) : prog (World db) unit :=
  modify (with_service (set_status s)).
Definition read_status : prog (World db) Status := gets (λ w, status (service w)).

(** A getter of [service->command_to_process]. *)
Definition command_field (f : Command → string) : prog (World db) string :=
  gets (λ w, f (command_to_process (service w))).

Definition write_cout (s : string) : prog (World db) unit := modify (print_cout s).
Definition write_cerr (s : string) : prog (World db) unit := modify (print_cerr s).

(** [service->_command_queue.receive()] *)
Definition queue_receive : prog (World db) Command :=
  await (λ w, match MessageQueue.receive (command_queue (service w)) with
              | Some (msg, q) => Some (msg, with_service (set_command_queue q) w)
              | None => None
              end).

(** [service._command_queue.send(std::move(command))] *)
Definition queue_send (c : Command) : prog (World db) unit :=
  modify (with_service (λ s, set_command_queue (MessageQueue.send c (command_queue s)) s)).

(** ** Service::setState and onEnter *)

Definition onEnter (s : ServiceState) : prog (World db) unit :=
  match s with
  | ServiceListen => modify (with_service notify_all)
  | ServiceValidate => Done tt
  | ServiceApply => Done tt
  end.

Definition setState (newState : ServiceState) : prog (World db) unit :=
  modify (with_service (set_currentState newState)) ;;
  s ← gets (λ w, currentState (service w));
  onEnter s.

(** ** ServiceValidate::process

    [service_process] is the call [service->process()]. *)
Definition validate_process (service_process : prog (World db) unit) : prog (World db) unit :=
  acc2 ← command_field account2;
  '(st, v) ← db_Get acc2;
  let balance := default "" v in
  assign_status st ;;
  s ← read_status;
  if negb (Status.ok s) then
    write_cout ("Account not found" +:+ endl) ;;
    setState ServiceListen
  else
  acc1 ← command_field account1;
  '(st, v) ← db_Get acc1;
  let balance := default balance v in
  assign_status st ;;
  s ← read_status;
  if negb (Status.ok s) then
    write_cout ("Account not found" +:+ endl) ;;
    setState ServiceListen
  else
  b ← lift_exn (stoi balance);
  amt ← command_field cmd_amount;
  a ← lift_exn (stoi amt);
  if (b <? a)%Z then
    write_cerr ("Balance too low" +:+ endl) ;;
    setState ServiceListen
  else
  act ← command_field cmd_action;
  if String.eqb act "TRANSFER" then
    setState ServiceApply ;;
    service_process
  else
    setState ServiceListen.

(** ** ServiceApply::process *)

(** [std::ofstream ofs(path, std::ios::app)] and the archive written to it: a stream
    that could not be opened makes the archive throw. *)
Definition append_file (path content : string) : prog (World db) unit :=
  if fs_writable path then
    modify (with_fs (λ m, <[path := default "" (m !! path) +:+ content]> m))
  else throw archive_exception.

Definition db_error : prog (World db) unit :=
  s ← read_status;
  write_cerr ("DB error: " +:+ Status_ToString s +:+ endl) ;;
  setState ServiceListen.

Definition apply_process : prog (World db) unit :=
  accA ← command_field account1;
  amtA ← command_field cmd_amount;
  actA ← command_field cmd_action;
  idA ← command_field tx_id;
  let eventA := MkEvent actA accA ("-" +:+ amtA) idA in
  accB ← command_field account2;
  amtB ← command_field cmd_amount;
  actB ← command_field cmd_action;
  idB ← command_field tx_id;
  let eventB := MkEvent actB accB ("+" +:+ amtB) idB in
  '(st, v) ← db_Get (ev_account eventA);
  let balance := default "" v in
  assign_status st ;;
  s ← read_status;
  if negb (Status.ok s) then db_error else
  accountBalanceA ← lift_exn (stoi balance);
  '(st, v) ← db_Get (ev_account eventB);
  let balance := default balance v in
  assign_status st ;;
  s ← read_status;
  if negb (Status.ok s) then db_error else
  accountBalanceB ← lift_exn (stoi balance);
  amt ← command_field cmd_amount;
  a ← lift_exn (stoi amt);
  balance1 ← lift_ub signed_overflow (int_sub accountBalanceA a);
  amt ← command_field cmd_amount;
  a ← lift_exn (stoi amt);
  balance2 ← lift_ub signed_overflow (int_add accountBalanceB a);
  st ← db_Put (ev_account eventA) (to_string balance1);
  assign_status st ;;
  s ← read_status;
  if negb (Status.ok s) then db_error else
  st ← db_Put (ev_account eventB) (to_string balance2);
  assign_status st ;;
  s ← read_status;
  if negb (Status.ok s) then db_error else
  append_file (event_log config) (save_events eventA eventB) ;;
  setState ServiceListen.

(** ** Service::process and Service::toggle

    [process] of a state may call [service->process()] again after [setState]: the
    recursion through [currentState], with the depth it may still reach. *)
Fixpoint process (fuel : nat) : prog (World db) unit :=
  match fuel with
  | O => no_fuel
  | S fuel =>
      s ← gets (λ w, currentState (service w));
      match s with
      | ServiceListen => Done tt
      | ServiceValidate => validate_process (process fuel)
      | ServiceApply => apply_process
      end
  end.

(** VALIDATE calls [process] of APPLY, which calls it no more. *)
Definition process_depth : nat := 2.

(** ServiceListen::toggle *)
Definition listen_toggle : prog (World db) unit :=
  c ← queue_receive;
  modify (with_service (set_command_to_process c)) ;;
  setState ServiceValidate ;;
  process process_depth.

Definition toggle : prog (World db) unit :=
  s ← gets (λ w, currentState (service w));
  match s with
  | ServiceListen => listen_toggle
  | ServiceValidate => Done tt
  | ServiceApply => Done tt
  end.
End Service.

(** Service::Service and Service::init: the state right after construction, with the
    store [DB::Open] returned; a failure to open it throws. *)
Definition service_init {db : Type} (opened : Status) (d : db) (what : string) : exn + Service db :=
  if negb (Status.ok opened) then inl (runtime_error ("Failed to open database: " +:+ what))
  else inr (MkService d opened [] ServiceListen Command.empty 0 false).
