(* ===== verification/Ledger.v ===== *)
(** * The abstract ledger

    What the service promises (README.md): accounts with balances, transfers that are
    validated and then debit and credit, and an event log from which the balances can be
    replayed.  The ledger is a finite map from account names to integers; the store holds
    each balance printed in decimal. *)

From Stdlib Require Import ZArith Lia Ascii.
From stdpp Require Import base tactics option strings list gmap fin_maps.
From S2P Require Import Prelude.
From S2P Require Import CppStd.
From S2P Require Import World.

Local Open Scope Z_scope.

Abbreviation Ledger := (gmap string Z).

(** ** Transfers *)

Inductive verdict : Type := NoSuchAccount | InsufficientFunds | Transferred.

#[global] Instance verdict_eq_dec : EqDecision verdict.
Proof. solve_decision. Defined.

Definition debit (a : string) (n : Z) (L : Ledger) : Ledger := alter (λ b, b - n) a L.
Definition credit (a : string) (n : Z) (L : Ledger) : Ledger := alter (λ b, b + n) a L.

(** The promise: both accounts exist and the sender has the funds, then debit and credit. *)
Definition spec_transfer (L : Ledger) (from to : string) (n : Z) : verdict * Ledger :=
  match L !! to, L !! from with
  | Some _, Some b =>
      if b <? n then (InsufficientFunds, L)
      else (Transferred, credit to n (debit from n L))
  | _, _ => (NoSuchAccount, L)
  end.

(** Where a transfer goes through, the receiver's balance stays an [int]. *)
Definition has_room (L : Ledger) (from to : string) (n : Z) : bool :=
  match L !! from, L !! to with
  | Some b, Some b' => (b <? n) || (b' + n <=? INT_MAX)
  | _, _ => true
  end.

Lemma has_room_le L from to n b b' :
  has_room L from to n = true → L !! from = Some b → L !! to = Some b' → n ≤ b →
  b' + n ≤ INT_MAX.
Proof.
  unfold has_room. intros Hr E E' Hle. rewrite E, E' in Hr.
  apply orb_true_iff in Hr as [Hr|Hr].
  - apply Z.ltb_lt in Hr. lia.
  - by apply Z.leb_le.
Qed.

(** ** The total of all balances *)

Definition total (L : Ledger) : Z := map_fold (λ _, Z.add) 0 L.

Lemma total_insert_fresh k v (L : Ledger) : L !! k = None → total (<[k := v]> L) = v + total L.
Proof. intros Hk. unfold total. apply map_fold_insert_L; [intros; lia|done]. Qed.

Lemma total_delete k v (L : Ledger) : L !! k = Some v → total L = v + total (delete k L).
Proof. intros Hk. unfold total. apply (map_fold_delete_L (λ _ : string, Z.add)); [intros; lia|done]. Qed.

Lemma total_insert k v v' (L : Ledger) :
  L !! k = Some v → total (<[k := v']> L) = total L - v + v'.
Proof.
  intros Hk. rewrite (total_delete k v' (<[k := v']> L)) by apply lookup_insert_eq.
  rewrite delete_insert_eq. rewrite (total_delete k v L Hk). lia.
Qed.

Lemma total_alter f k v (L : Ledger) :
  L !! k = Some v → total (alter f k L) = total L - v + f v.
Proof.
  intros Hk. rewrite <- (total_insert k v (f v) L Hk). f_equal. apply map_eq. intros i.
  rewrite lookup_alter, lookup_insert. case_decide; [|done]. subst. by rewrite Hk.
Qed.

Lemma lookup_debit a n (L : Ledger) k :
  debit a n L !! k = if decide (a = k) then (λ b, b - n) <$> L !! k else L !! k.
Proof. etrans; [apply lookup_alter|]. case_decide; by subst. Qed.

Lemma lookup_credit a n (L : Ledger) k :
  credit a n L !! k = if decide (a = k) then (λ b, b + n) <$> L !! k else L !! k.
Proof. etrans; [apply lookup_alter|]. case_decide; by subst. Qed.

(** ** Well-formed ledgers: every balance is a non-negative [int] *)

Definition ledger_ok (L : Ledger) : Prop := map_Forall (λ _ b, 0 ≤ b ≤ INT_MAX) L.

Lemma ledger_ok_in_int L k b : ledger_ok L → L !! k = Some b → in_int b = true.
Proof.
  intros HL Hk. specialize (HL k b Hk). apply in_int_spec. unfold INT_MIN, INT_MAX in *. lia.
Qed.

Lemma ledger_ok_insert L k b : ledger_ok L → 0 ≤ b ≤ INT_MAX → ledger_ok (<[k := b]> L).
Proof. intros HL Hb. by apply map_Forall_insert_2. Qed.

(** ** The store that holds a ledger *)

Definition stored (L : Ledger) : gmap string string := to_string <$> L.

Lemma lookup_stored L k : stored L !! k = to_string <$> L !! k.
Proof. apply lookup_fmap. Qed.

Lemma stored_insert L k b : stored (<[k := b]> L) = <[k := to_string b]> (stored L).
Proof. apply fmap_insert. Qed.

Lemma stored_inj L1 L2 : stored L1 = stored L2 → L1 = L2.
Proof.
  intros E. apply map_eq. intros k. apply (f_equal (lookup k)) in E.
  rewrite !lookup_stored in E.
  destruct (L1 !! k) as [a|] eqn:E1, (L2 !! k) as [b|] eqn:E2; simplify_eq/=; [|done].
  f_equal. by apply to_string_inj.
Qed.

(** ** Replaying the event log *)

(** An event changes the balance of its account by its signed amount. *)
Definition replay_event (L : Ledger) (e : Event) : Ledger :=
  match stoi (ev_amount e) with
  | inr z => alter (λ b, b + z) (ev_account e) L
  | inl _ => L
  end.

Definition replay (L : Ledger) (evs : list Event) : Ledger := foldl replay_event L evs.

(** The two events of a transfer. *)
Definition debit_event (c : Command) : Event :=
  MkEvent (cmd_action c) (account1 c) ("-" +:+ cmd_amount c) (tx_id c).
Definition credit_event (c : Command) : Event :=
  MkEvent (cmd_action c) (account2 c) ("+" +:+ cmd_amount c) (tx_id c).

(** A command a request handler enqueues: a positive amount, printed. *)
Definition transfer_command (c : Command) (n : Z) : Prop :=
  cmd_amount c = to_string n ∧ cmd_action c = "TRANSFER" ∧ 0 < n ∧ in_int n = true.

Lemma replay_debit_event L c n :
  transfer_command c n → replay_event L (debit_event c) = debit (account1 c) n L.
Proof.
  intros (Ha & _ & Hn & Hi). unfold replay_event, debit_event. cbn [ev_amount ev_account].
  rewrite Ha. change ("-" +:+ to_string n) with (String "-"%char (to_string n)).
  rewrite stoi_minus by (done || lia). unfold debit. apply alter_ext. intros b _. simpl. lia.
Qed.

Lemma replay_credit_event L c n :
  transfer_command c n → replay_event L (credit_event c) = credit (account2 c) n L.
Proof.
  intros (Ha & _ & Hn & Hi). unfold replay_event, credit_event. cbn [ev_amount ev_account].
  rewrite Ha. change ("+" +:+ to_string n) with (String "+"%char (to_string n)).
  rewrite stoi_plus by (done || lia). done.
Qed.

(** Replaying the two events of a transfer gives the promised ledger. *)
Lemma replay_transfer L c n :
  transfer_command c n →
  replay L [debit_event c; credit_event c] = credit (account2 c) n (debit (account1 c) n L).
Proof.
  intros Hc. unfold replay. cbn [foldl].
  by rewrite (replay_debit_event _ _ _ Hc), (replay_credit_event _ _ _ Hc).
Qed.

(** ** The promise conserves the total and the well-formedness *)

Lemma spec_transfer_total L from to n v L' :
  spec_transfer L from to n = (v, L') → total L' = total L.
Proof.
  unfold spec_transfer. destruct (L !! to) as [bt|] eqn:Ht; [|by intros; simplify_eq].
  destruct (L !! from) as [bf|] eqn:Hf; [|by intros; simplify_eq].
  destruct (bf <? n); intros; simplify_eq; [done|].
  assert (∃ b', debit from n L !! to = Some b') as [b' Hb'].
  { rewrite lookup_debit, Ht. case_decide; simpl; eauto. }
  unfold credit. rewrite (total_alter _ _ _ _ Hb').
  unfold debit at 1. rewrite (total_alter _ _ _ _ Hf). lia.
Qed.

Lemma spec_transfer_lookup_other L from to n v L' k :
  spec_transfer L from to n = (v, L') → k ≠ from → k ≠ to → L' !! k = L !! k.
Proof.
  unfold spec_transfer. intros E Hf Ht.
  destruct (L !! to); [|by simplify_eq]. destruct (L !! from); [|by simplify_eq].
  destruct (z0 <? n); simplify_eq; [done|].
  rewrite lookup_credit, lookup_debit. repeat case_decide; congruence.
Qed.

Lemma spec_transfer_dom L from to n v L' k :
  spec_transfer L from to n = (v, L') → is_Some (L' !! k) → is_Some (L !! k).
Proof.
  unfold spec_transfer. intros E.
  destruct (L !! to); [|by simplify_eq]. destruct (L !! from); [|by simplify_eq].
  destruct (z0 <? n); simplify_eq; [done|].
  rewrite lookup_credit, lookup_debit. repeat case_decide; rewrite ?fmap_is_Some; done.
Qed.

Lemma spec_transfer_ok L from to n v L' :
  spec_transfer L from to n = (v, L') → ledger_ok L → 0 < n → from ≠ to →
  has_room L from to n = true → ledger_ok L'.
Proof.
  unfold spec_transfer. intros E HL Hn Hne Hmax.
  destruct (L !! to) as [bt|] eqn:Et; [|by simplify_eq].
  destruct (L !! from) as [bf|] eqn:Ef; [|by simplify_eq].
  destruct (bf <? n) eqn:Hlt; simplify_eq; [done|]. apply Z.ltb_ge in Hlt.
  pose proof (HL _ _ Et). pose proof (HL _ _ Ef). pose proof (has_room_le _ _ _ _ _ _ Hmax Ef Et Hlt).
  intros k b. rewrite lookup_credit, lookup_debit.
  repeat case_decide; subst; rewrite ?Et, ?Ef; simpl in *; intros Hb; simplify_eq; try lia.
  by apply (HL k).
Qed.
