(* ===== verification/ServiceFacts.v ===== *)
(** * What the state machine does

    Lemmas on the sequential runs of the programs of file Service, against the laws of
    the store. *)

From Stdlib Require Import ZArith Lia.
From stdpp Require Import base tactics option strings list gmap.
From S2P Require Import Prelude.
From S2P Require Import CppStd.
From S2P Require Import RocksStatus.
From S2P Require Import Store.
From S2P Require Import World.
From S2P Require Import Service.
From S2P Require Import Ledger.

Local Open Scope Z_scope.

(** ** Calls of the store *)

Section StoreCalls.
Context {db : Type} `{KVLaws db}.

(** A failed [Get] or [Put], for the error branches. *)
Lemma kv_get_cases d k :
  (∃ d' s v, kv_get d k = (d', (s, Some v)) ∧ Status.ok s = true ∧
             kv_view d !! k = Some v ∧ kv_view d' = kv_view d) ∨
  (∃ d' s o, kv_get d k = (d', (s, o)) ∧ Status.ok s = false ∧ kv_view d' = kv_view d).
Proof.
  pose proof (kv_get_view d k) as Hv. pose proof (kv_get_ok d k) as Hok.
  destruct (kv_get d k) as [d' [s o]]; simpl in *.
  destruct (Status.ok s) eqn:E; [left|right; by eauto 6].
  destruct (Hok eq_refl) as [Ho [v Hs]]. exists d', s, v. by rewrite Ho, Hs.
Qed.

Lemma kv_put_cases d k v :
  (∃ d' s, kv_put d k v = (d', s) ∧ Status.ok s = true ∧
           kv_view d' = <[k := v]> (kv_view d)) ∨
  (∃ d' s, kv_put d k v = (d', s) ∧ Status.ok s = false).
Proof.
  pose proof (kv_put_ok d k v) as Hok.
  destruct (kv_put d k v) as [d' s]; simpl in *.
  destruct (Status.ok s) eqn:E; [left|right]; eauto 6.
Qed.

Context `{!KVReliable db}.

Lemma kv_get_present d k v :
  kv_view d !! k = Some v →
  ∃ d' s, kv_get d k = (d', (s, Some v)) ∧ Status.ok s = true ∧ kv_view d' = kv_view d.
Proof.
  intros Hk. pose proof (kv_get_found d k v Hk) as Hok.
  destruct (kv_get_cases d k) as [(d' & s & v' & E & E1 & E2 & E3)|(d' & s & o & E & E1 & _)];
    [|by rewrite E in Hok; simpl in Hok; congruence].
  simplify_eq. eauto.
Qed.

Lemma kv_get_missing d k :
  kv_view d !! k = None →
  ∃ d' s o, kv_get d k = (d', (s, o)) ∧ Status.ok s = false ∧
            Status.IsNotFound s = true ∧ kv_view d' = kv_view d.
Proof.
  intros Hk. pose proof (kv_get_absent d k Hk) as Hn.
  destruct (kv_get_cases d k) as [(d' & s & v' & E & E1 & E2 & E3)|(d' & s & o & E & E1 & E3)];
    [congruence|].
  rewrite E in Hn. eauto 7.
Qed.

Lemma kv_put_reliable d k v :
  ∃ d' s, kv_put d k v = (d', s) ∧ Status.ok s = true ∧ kv_view d' = <[k := v]> (kv_view d).
Proof.
  pose proof (kv_put_succeeds d k v) as Hs.
  destruct (kv_put_cases d k v) as [?|(d' & s & E & E1)]; [done|].
  rewrite E in Hs. simpl in Hs. congruence.
Qed.
End StoreCalls.

(** ** Stepping through a program text *)

Ltac prog_unfold :=
  unfold db_Get, db_Put, assign_status, read_status, command_field, write_cout, write_cerr,
    queue_receive, queue_send, setState, onEnter, append_file, db_error.

Ltac world_simpl :=
  cbn [service fs uuids cout cerr accountDB status command_queue currentState
       command_to_process cv cv_m with_service with_fs with_uuids print_cout print_cerr
       set_accountDB set_status set_command_queue set_currentState set_command_to_process
       notify_all set_cv_m account1 account2 cmd_amount cmd_action tx_id
       ev_account ev_amount ev_action parent_tx_id fst snd negb default id from_option] in *.

(** One step: run the next atom and simplify the world. *)
Ltac prog_step := progress (run_step; world_simpl).
Ltac prog_run := prog_unfold; repeat prog_step.

Section Runs.
Context {db : Type} `{KVLaws db} `{!KVReliable db} `{Platform} (config : Config).

Lemma validate_accept (k : prog (World db) unit) d st q c n m fs u co ce b bal amt x :
  kv_view d !! account2 c = Some x →
  kv_view d !! account1 c = Some bal →
  stoi bal = inr b → stoi (cmd_amount c) = inr amt → amt ≤ b →
  cmd_action c = "TRANSFER" →
  ∃ d' st', Status.ok st' = true ∧ kv_view d' = kv_view d ∧
    run (validate_process k) (MkWorld (MkService d st q ServiceValidate c n m) fs u co ce) =
    run k (MkWorld (MkService d' st' q ServiceApply c n m) fs u co ce).
Proof.
  intros Hv2 Hv1 Hb Ha Hle Hact.
  destruct (kv_get_present d (account2 c) x Hv2) as (d1 & s1 & E1 & O1 & V1).
  rewrite <- V1 in Hv1.
  destruct (kv_get_present d1 (account1 c) bal Hv1) as (d2 & s2 & E2 & O2 & V2).
  exists d2, s2. split; [done|]. split; [congruence|].
  unfold validate_process. prog_run.
  rewrite E1. prog_run. rewrite O1. prog_run. rewrite E2. prog_run. rewrite O2. prog_run.
  rewrite Hb. prog_run. rewrite Ha. prog_run.
  rewrite (proj2 (Z.ltb_ge b amt)) by done. prog_run.
  rewrite Hact, String.eqb_refl. prog_run. done.
Qed.

(** The receiver's account is looked up first, then the sender's. *)
Lemma validate_no_account (k : prog (World db) unit) d st q c n m fs u co ce :
  kv_view d !! account2 c = None ∨ kv_view d !! account1 c = None →
  ∃ d' st', Status.IsNotFound st' = true ∧ kv_view d' = kv_view d ∧
    run (validate_process k) (MkWorld (MkService d st q ServiceValidate c n m) fs u co ce) =
    (Val tt, MkWorld (MkService d' st' q ServiceListen c (S n) m) fs u
               (co ++ ["Account not found" +:+ endl]) ce).
Proof.
  intros Hv. destruct (kv_view d !! account2 c) as [x|] eqn:Hv2.
  - destruct Hv as [|Hv1]; [done|].
    destruct (kv_get_present d (account2 c) x Hv2) as (d1 & s1 & E1 & O1 & V1).
    rewrite <- V1 in Hv1.
    destruct (kv_get_missing d1 (account1 c) Hv1) as (d2 & s2 & o & E2 & O2 & N2 & V2).
    exists d2, s2. split; [done|]. split; [congruence|].
    unfold validate_process. prog_run.
    rewrite E1. prog_run. rewrite O1. prog_run. rewrite E2. prog_run. rewrite O2. prog_run.
    done.
  - destruct (kv_get_missing d (account2 c) Hv2) as (d1 & s1 & o & E1 & O1 & N1 & V1).
    exists d1, s1. split; [done|]. split; [done|].
    unfold validate_process. prog_run. rewrite E1. prog_run. rewrite O1. prog_run. done.
Qed.

(** A balance below the amount: the status of the last [Get], OK, stays. *)
Lemma validate_low_balance (k : prog (World db) unit) d st q c n m fs u co ce b bal amt x :
  kv_view d !! account2 c = Some x →
  kv_view d !! account1 c = Some bal →
  stoi bal = inr b → stoi (cmd_amount c) = inr amt → b < amt →
  ∃ d' st', Status.ok st' = true ∧ kv_view d' = kv_view d ∧
    run (validate_process k) (MkWorld (MkService d st q ServiceValidate c n m) fs u co ce) =
    (Val tt, MkWorld (MkService d' st' q ServiceListen c (S n) m) fs u co
               (ce ++ ["Balance too low" +:+ endl])).
Proof.
  intros Hv2 Hv1 Hb Ha Hlt.
  destruct (kv_get_present d (account2 c) x Hv2) as (d1 & s1 & E1 & O1 & V1).
  rewrite <- V1 in Hv1.
  destruct (kv_get_present d1 (account1 c) bal Hv1) as (d2 & s2 & E2 & O2 & V2).
  exists d2, s2. split; [done|]. split; [congruence|].
  unfold validate_process. prog_run.
  rewrite E1. prog_run. rewrite O1. prog_run. rewrite E2. prog_run. rewrite O2. prog_run.
  rewrite Hb. prog_run. rewrite Ha. prog_run.
  rewrite (proj2 (Z.ltb_lt b amt)) by done. prog_run. done.
Qed.

(** Both balances read, new balances written, the two events appended. *)
Lemma apply_run d st q c n m fs u co ce bal1 bal2 a1 a2 amt :
  kv_view d !! account1 c = Some bal1 → stoi bal1 = inr a1 →
  kv_view d !! account2 c = Some bal2 → stoi bal2 = inr a2 →
  stoi (cmd_amount c) = inr amt →
  in_int (a1 - amt) = true → in_int (a2 + amt) = true →
  fs_writable (event_log config) = true →
  ∃ d' st', Status.ok st' = true ∧
    kv_view d' = <[account2 c := to_string (a2 + amt)]>
                   (<[account1 c := to_string (a1 - amt)]> (kv_view d)) ∧
    run (apply_process config) (MkWorld (MkService d st q ServiceApply c n m) fs u co ce) =
    (Val tt, MkWorld (MkService d' st' q ServiceListen c (S n) m)
               (<[event_log config := default "" (fs !! event_log config) +:+
                                      save_events (debit_event c) (credit_event c)]> fs)
               u co ce).
Proof.
  intros Hv1 Hs1 Hv2 Hs2 Ha I1 I2 Hw.
  destruct (kv_get_present d (account1 c) bal1 Hv1) as (d1 & s1 & E1 & O1 & V1).
  rewrite <- V1 in Hv2.
  destruct (kv_get_present d1 (account2 c) bal2 Hv2) as (d2 & s2 & E2 & O2 & V2).
  destruct (kv_put_reliable d2 (account1 c) (to_string (a1 - amt))) as (d3 & s3 & E3 & O3 & V3).
  destruct (kv_put_reliable d3 (account2 c) (to_string (a2 + amt))) as (d4 & s4 & E4 & O4 & V4).
  exists d4, s4. split; [done|]. split; [congruence|].
  unfold apply_process. prog_run.
  rewrite E1. prog_run. rewrite O1. prog_run. rewrite Hs1. prog_run.
  rewrite E2. prog_run. rewrite O2. prog_run. rewrite Hs2. prog_run.
  rewrite Ha. prog_run. unfold int_sub, int_add. rewrite I1. prog_run.
  rewrite Ha. prog_run. rewrite I2. prog_run.
  rewrite E3. prog_run. rewrite O3. prog_run. rewrite E4. prog_run. rewrite O4. prog_run.
  rewrite Hw. prog_run. done.
Qed.
End Runs.
