(* ===== verification/Instances.v ===== *)
(** * A concrete platform

    An instance of the library interface with its laws, on which the programs can be
    evaluated: identifiers are drawn from a counter, an archive writes each byte of a string
    after a marker. *)

From Stdlib Require Import ZArith Ascii.
From stdpp Require Import base tactics option strings list gmap.
From S2P Require Import Prelude.
From S2P Require Import CppStd.
From S2P Require Import RocksStatus.
From S2P Require Import Store.
From S2P Require Import World.

(** ** Strings in an archive *)

Fixpoint save_string (s : string) : string :=
  match s with
  | EmptyString => "."
  | String c r => String ":" (String c (save_string r))
  end.

Fixpoint load_string (s : string) : option (string * string) :=
  match s with
  | String m r =>
      if Ascii.eqb m "." then Some (EmptyString, r)
      else match r with
           | String c r' =>
               match load_string r' with
               | Some (t, rest) => Some (String c t, rest)
               | None => None
               end
           | EmptyString => None
           end
  | EmptyString => None
  end.

Lemma load_save_string s rest : load_string (save_string s +:+ rest) = Some (s, rest).
Proof. induction s as [|c s IH]; [done|]. simpl. by rewrite IH. Qed.

Fixpoint save_strings (l : list string) : string :=
  match l with
  | [] => ""
  | s :: l => save_string s +:+ save_strings l
  end.

Definition load_event (s : string) : option (Event * string) :=
  '(a, s) ← load_string s;
  '(b, s) ← load_string s;
  '(c, s) ← load_string s;
  '(d, s) ← load_string s;
  Some (MkEvent a b c d, s).

Lemma load_event_save e rest :
  load_event (save_strings (Event.fields e) +:+ rest) = Some (e, rest).
Proof.
  destruct e as [a b c d]. unfold load_event, Event.fields, save_strings; simpl.
  rewrite !string_app_assoc.
  do 4 (rewrite load_save_string; cbn [mbind option_bind]). done.
Qed.

Definition save_pair (a b : Event) : string :=
  save_strings (Event.fields a) +:+ save_strings (Event.fields b).

Definition load_pair (s : string) : option (Event * Event) :=
  '(a, s) ← load_event s;
  '(b, s) ← load_event s;
  Some (a, b).

Lemma load_pair_save a b rest : load_pair (save_pair a b +:+ rest) = Some (a, b).
Proof.
  unfold load_pair, save_pair. rewrite string_app_assoc, load_event_save.
  cbn [mbind option_bind]. by rewrite load_event_save.
Qed.

#[export] Instance test_platform : Platform := {
  uuid_state := N;
  uuid_generate n := (decimal n, N.succ n);
  Status_ToString s :=
    if Status.ok s then "OK" else if Status.IsNotFound s then "NotFound: " else "IO error: ";
  save_int := to_string;
  load_int := strtol;
  save_events := save_pair;
  load_events := load_pair;
  fs_writable path := negb (String.eqb path "/readonly")
}.

#[export] Instance test_platform_laws : PlatformLaws.
Proof. split; [intros z _; apply strtol_to_string|apply load_pair_save]. Qed.

(** ** Worlds to start from *)

Definition start {db} (d : db) : World db :=
  MkWorld (MkService d Status.OK [] ServiceListen Command.empty 0 false) ∅ 0%N [] [].
