(* ===== verification/Transfer.v ===== *)
(** * A transfer, from the queue to the ledger

    The state machine refines the abstract transfer of file Ledger; where it does not (a
    transfer to the sender's own account, a receiver's balance that overflows, a store that
    fails between the two writes, a balance that is no number), what it does instead. *)

From Stdlib Require Import ZArith Lia.
From stdpp Require Import base tactics option strings list gmap.
From S2P Require Import Prelude.
From S2P Require Import CppStd.
From S2P Require Import RocksStatus.
From S2P Require Import Store.
From S2P Require Import World.
From S2P Require Import Service.
From S2P Require Import Ledger.
From S2P Require Import ServiceFacts.
From S2P Require Import Instances.

Local Open Scope Z_scope.

Lemma queue_receive_send {T} (c : T) q :
  MessageQueue.receive (MessageQueue.send c q) = Some (c, q).
Proof.
  unfold MessageQueue.receive, MessageQueue.send. by rewrite last_snoc, removelast_last.
Qed.

(** ** What a verdict leaves in the files and streams *)
Section After.
Context `{Platform} (config : Config).

Definition log_after (c : Command) (v : verdict) (files : gmap string string) :
    gmap string string :=
  match v with
  | Transferred =>
      <[event_log config := default "" (files !! event_log config) +:+
                            save_events (debit_event c) (credit_event c)]> files
  | _ => files
  end.

Definition cout_after (v : verdict) (co : list string) : list string :=
  match v with NoSuchAccount => co ++ ["Account not found" +:+ endl] | _ => co end.

Definition cerr_after (v : verdict) (ce : list string) : list string :=
  match v with InsufficientFunds => ce ++ ["Balance too low" +:+ endl] | _ => ce end.
End After.

Section Transfer.
Context {db : Type} `{KVLaws db} `{!KVReliable db} `{Platform} (config : Config).

(** From LISTEN, [toggle] takes the command sent last and validates it. *)
Lemma toggle_run d st q c c0 n m fs u co ce :
  run (toggle config)
    (MkWorld (MkService d st (MessageQueue.send c q) ServiceListen c0 n m) fs u co ce) =
  run (validate_process (process config 1))
    (MkWorld (MkService d st q ServiceValidate c n m) fs u co ce).
Proof.
  unfold toggle, listen_toggle. prog_run. rewrite queue_receive_send. prog_run. done.
Qed.

Lemma process_apply d st q c n m fs u co ce :
  run (process config 1) (MkWorld (MkService d st q ServiceApply c n m) fs u co ce) =
  run (apply_process config) (MkWorld (MkService d st q ServiceApply c n m) fs u co ce).
Proof. cbn [process]. prog_run. done. Qed.

(** The store's lookups of a command's accounts, from the ledger. *)
Lemma view_balance d L k b :
  kv_view d = stored L → ledger_ok L → L !! k = Some b →
  kv_view d !! k = Some (to_string b) ∧ stoi (to_string b) = inr b.
Proof.
  intros Hd HL Hk. rewrite Hd, lookup_stored, Hk. split; [done|].
  by eapply stoi_to_string, ledger_ok_in_int.
Qed.

Lemma command_amount c n : transfer_command c n → stoi (cmd_amount c) = inr n.
Proof. intros (-> & _ & _ & Hi). by apply stoi_to_string. Qed.

(** The debited and credited balances the code writes, as ledgers. *)
Lemma written_ledger L a b n x y :
  a ≠ b → L !! a = Some x → L !! b = Some y →
  <[b := to_string (y + n)]> (<[a := to_string (x - n)]> (stored L)) =
  stored (credit b n (debit a n L)).
Proof.
  intros Hab Ha Hb. rewrite <- !stored_insert. f_equal. apply map_eq. intros k.
  rewrite lookup_credit, lookup_debit, !lookup_insert.
  repeat case_decide; subst; simplify_eq/=; try done; by rewrite ?Ha, ?Hb.
Qed.

Lemma toggle_no_account L d st q c n m fs u co ce :
  kv_view d = stored L → L !! account2 c = None ∨ L !! account1 c = None →
  ∃ d' st', kv_view d' = stored L ∧ Status.ok st' = bool_decide (NoSuchAccount ≠ NoSuchAccount) ∧
    run (validate_process (process config 1))
      (MkWorld (MkService d st q ServiceValidate c n m) fs u co ce) =
    (Val tt, MkWorld (MkService d' st' q ServiceListen c (S n) m)
               (log_after config c NoSuchAccount fs) u
               (cout_after NoSuchAccount co) (cerr_after NoSuchAccount ce)).
Proof.
  intros Hd Hn. destruct (validate_no_account (process config 1) d st q c n m fs u co ce)
    as (d' & st' & Hs & Hv & E).
  { rewrite Hd, !lookup_stored. by destruct Hn as [-> | ->]; [left|right]. }
  exists d', st'. by rewrite Hv, (Status.IsNotFound_not_ok st' Hs).
Qed.

(** The state machine implements the abstract transfer between two accounts on every
    branch: the balances, the event log, the console, the status, the wake-up of the
    waiting threads, and back to LISTEN. *)
Lemma toggle_transfer L d st q c c0 n m fs u co ce amt :
  kv_view d = stored L → ledger_ok L →
  transfer_command c amt → account1 c ≠ account2 c →
  has_room L (account1 c) (account2 c) amt = true →
  fs_writable (event_log config) = true →
  let '(v, L') := spec_transfer L (account1 c) (account2 c) amt in
  ∃ d' st',
    kv_view d' = stored L' ∧
    Status.ok st' = bool_decide (v ≠ NoSuchAccount) ∧
    run (toggle config)
      (MkWorld (MkService d st (MessageQueue.send c q) ServiceListen c0 n m) fs u co ce) =
    (Val tt, MkWorld (MkService d' st' q ServiceListen c (S n) m)
               (log_after config c v fs) u (cout_after v co) (cerr_after v ce)).
Proof.
  intros Hd HL Hc Hne Hmax Hw. rewrite toggle_run.
  pose proof (command_amount c amt Hc) as Ha. destruct Hc as (_ & Hact & Hpos & Hin).
  unfold spec_transfer.
  destruct (L !! account2 c) as [b2|] eqn:E2;
    [|by apply (toggle_no_account L); [|left]].
  destruct (L !! account1 c) as [b1|] eqn:E1;
    [|by apply (toggle_no_account L); [|right]].
  destruct (view_balance d L _ _ Hd HL E1) as [V1 S1].
  destruct (view_balance d L _ _ Hd HL E2) as [V2 S2].
  destruct (b1 <? amt) eqn:Hlt.
  - apply Z.ltb_lt in Hlt.
    destruct (validate_low_balance (process config 1) d st q c n m fs u co ce
                b1 _ amt _ V2 V1 S1 Ha Hlt) as (d' & st' & Hok & Hv & ->).
    exists d', st'. by rewrite Hv.
  - apply Z.ltb_ge in Hlt.
    destruct (validate_accept (process config 1) d st q c n m fs u co ce
                b1 _ amt _ V2 V1 S1 Ha Hlt Hact) as (d1 & st1 & Hok1 & Hv1 & ->).
    rewrite process_apply.
    destruct (apply_run config d1 st1 q c n m fs u co ce (to_string b1) (to_string b2) b1 b2 amt) as (d2 & st2 & Hok2 & Hv2 & ->);
      try done; try (by rewrite Hv1).
    { pose proof (HL _ _ E1). apply in_int_spec in Hin. apply in_int_spec.
      unfold INT_MIN, INT_MAX in *. simpl in *. lia. }
    { pose proof (HL _ _ E2). pose proof (has_room_le _ _ _ _ _ _ Hmax E1 E2 Hlt). apply in_int_spec.
      unfold INT_MIN, INT_MAX in *. simpl in *. lia. }
    exists d2, st2. split; [|done].
    rewrite Hv2, Hv1, Hd. by apply written_ledger.
Qed.
End Transfer.

(** ** Where the code does not keep the promise *)
Section Divergence.
Context {db : Type} `{KVLaws db} `{!KVReliable db} `{Platform} (config : Config).

(** C9: A transfer from an account to itself, of an amount it has and has room for, over a store
    whose operations do not fail and with a log that can be written: both balances are read before
    either is written, so the second write overwrites the debit and the account is left with the
    amount added, the status OK.  The file of the event log is what it was with the two events of the
    transfer appended, and replaying those two leaves the old balances. *)
Theorem self_transfer_mints L d st q c c0 n m fs u co ce a b amt :
  kv_view d = stored L → ledger_ok L → transfer_command c amt →
  account1 c = a → account2 c = a → L !! a = Some b → amt ≤ b → b + amt ≤ INT_MAX →
  fs_writable (event_log config) = true →
  ∃ d' st',
    run (toggle config)
      (MkWorld (MkService d st (MessageQueue.send c q) ServiceListen c0 n m) fs u co ce) =
    (Val tt, MkWorld (MkService d' st' q ServiceListen c (S n) m)
               (<[event_log config := default "" (fs !! event_log config) +:+
                                      save_events (debit_event c) (credit_event c)]> fs)
               u co ce) ∧
    Status.ok st' = true ∧
    kv_view d' = stored (<[a := b + amt]> L) ∧
    total (<[a := b + amt]> L) = total L + amt ∧
    replay L [debit_event c; credit_event c] = L.
Proof.
  intros Hd HL Hc H1a H2a Hb Hle Hmax Hw.
  pose proof (command_amount c amt Hc) as Ha. pose proof Hc as (_ & Hact & Hpos & Hin).
  destruct (view_balance d L a b Hd HL Hb) as [V S].
  pose proof (HL _ _ Hb) as Hrange. simpl in Hrange. apply in_int_spec in Hin.
  destruct (validate_accept (process config 1) d st q c n m fs u co ce b (to_string b) amt
              (to_string b)) as (d1 & st1 & Hok1 & Hv1 & E1); rewrite ?H1a, ?H2a; try done.
  destruct (apply_run config d1 st1 q c n m fs u co ce (to_string b) (to_string b) b b amt)
    as (d2 & st2 & Hok2 & Hv2 & E2); rewrite ?H1a, ?H2a, ?Hv1; try done;
    try (apply in_int_spec; unfold INT_MIN, INT_MAX in *; lia).
  rewrite toggle_run, E1, process_apply, E2. do 2 eexists. split; [done|].
  split; [done|]. split; [|split].
  - rewrite Hv2, Hv1, Hd, H1a, H2a, insert_insert_eq. symmetry. apply stored_insert.
  - rewrite (total_insert _ b) by done. lia.
  - rewrite (replay_transfer L c amt Hc), H1a, H2a. apply map_eq. intros k.
    rewrite lookup_credit, lookup_debit. case_decide; [|done]. subst.
    rewrite Hb. simpl. f_equal. lia.
Qed.

(** C14: A credit that does not fit the receiver's [int] is computed all the same. *)
Theorem transfer_overflow_undefined L d st q c c0 n m fs u co ce b1 b2 amt :
  kv_view d = stored L → ledger_ok L → transfer_command c amt →
  L !! account1 c = Some b1 → L !! account2 c = Some b2 →
  amt ≤ b1 → INT_MAX < b2 + amt →
  (run (toggle config)
     (MkWorld (MkService d st (MessageQueue.send c q) ServiceListen c0 n m) fs u co ce)).1 =
  Undef signed_overflow.
Proof.
  intros Hd HL Hc E1 E2 Hle Hmax.
  pose proof (command_amount c amt Hc) as Ha. pose proof Hc as (_ & Hact & Hpos & Hin).
  destruct (view_balance d L _ _ Hd HL E1) as [V1 S1].
  destruct (view_balance d L _ _ Hd HL E2) as [V2 S2].
  pose proof (HL _ _ E1) as Hrange. simpl in Hrange. apply in_int_spec in Hin.
  destruct (validate_accept (process config 1) d st q c n m fs u co ce
              b1 _ amt _ V2 V1 S1 Ha Hle Hact) as (d1 & st1 & Hok1 & Hv1 & R).
  rewrite toggle_run, R, process_apply. rewrite <- Hv1 in V1, V2.
  destruct (kv_get_present d1 _ _ V1) as (d2 & s2 & G1 & O1 & W1). rewrite <- W1 in V2.
  destruct (kv_get_present d2 _ _ V2) as (d3 & s3 & G2 & O2 & W2).
  unfold apply_process. prog_run.
  rewrite G1. prog_run. rewrite O1. prog_run. rewrite S1. prog_run.
  rewrite G2. prog_run. rewrite O2. prog_run. rewrite S2. prog_run.
  rewrite Ha. prog_run. unfold int_sub, int_add.
  rewrite (proj2 (in_int_spec (b1 - amt))) by (unfold INT_MIN, INT_MAX in *; lia). prog_run.
  rewrite Ha. prog_run.
  destruct (in_int (b2 + amt)) eqn:Hi; [|done].
  apply in_int_spec in Hi. lia.
Qed.
End Divergence.

(** ** Errors of the store *)
Section Errors.
Context {db : Type} `{KVLaws db} `{Platform} (config : Config).

(** C10: The two writes are not atomic: when the second one fails the sender stays debited, no
    other entry but the receiver's can have changed, no event is logged, and the machine is back
    in LISTEN with the error printed.  The code writes nothing after the failed write: if that
    write left no trace in the store, the receiver has what it had and the amount is gone from
    the total of the ledger. *)
Theorem second_put_fails_loses_money d d1 d2 d3 d4 s1 s2 s3 s4 st q c n m fs u co ce
    bal1 bal2 a1 a2 amt :
  kv_get d (account1 c) = (d1, (s1, Some bal1)) → Status.ok s1 = true → stoi bal1 = inr a1 →
  kv_get d1 (account2 c) = (d2, (s2, Some bal2)) → Status.ok s2 = true → stoi bal2 = inr a2 →
  stoi (cmd_amount c) = inr amt → in_int (a1 - amt) = true → in_int (a2 + amt) = true →
  kv_put d2 (account1 c) (to_string (a1 - amt)) = (d3, s3) → Status.ok s3 = true →
  kv_put d3 (account2 c) (to_string (a2 + amt)) = (d4, s4) → Status.ok s4 = false →
  account1 c ≠ account2 c →
  run (apply_process config) (MkWorld (MkService d st q ServiceApply c n m) fs u co ce) =
  (Val tt, MkWorld (MkService d4 s4 q ServiceListen c (S n) m) fs u co
             (ce ++ ["DB error: " +:+ Status_ToString s4 +:+ endl])) ∧
  kv_view d4 !! account1 c = Some (to_string (a1 - amt)) ∧
  (∀ k, k ≠ account1 c → k ≠ account2 c → kv_view d4 !! k = kv_view d !! k) ∧
  (kv_view d4 = kv_view d3 →
     kv_view d4 !! account2 c = kv_view d !! account2 c ∧
     ∀ L, kv_view d = stored L → L !! account1 c = Some a1 →
       kv_view d4 = stored (<[account1 c := a1 - amt]> L) ∧
       total (<[account1 c := a1 - amt]> L) = total L - amt).
Proof.
  intros G1 O1 S1 G2 O2 S2 Ha I1 I2 P1 O3 P2 O4 Hne.
  pose proof (kv_get_view d (account1 c)) as V1. rewrite G1 in V1.
  pose proof (kv_get_view d1 (account2 c)) as V2. rewrite G2 in V2.
  pose proof (kv_put_ok d2 (account1 c) (to_string (a1 - amt))) as V3.
  rewrite P1 in V3. specialize (V3 O3). simpl in V1, V2, V3.
  assert (∀ k, k ≠ account2 c → kv_view d4 !! k = kv_view d3 !! k) as V4.
  { intros k Hk. pose proof (kv_put_other d3 (account2 c) (to_string (a2 + amt)) k Hk) as E.
    by rewrite P2 in E. }
  split; [|split; [|split]].
  - unfold apply_process. prog_run.
    rewrite G1. prog_run. rewrite O1. prog_run. rewrite S1. prog_run.
    rewrite G2. prog_run. rewrite O2. prog_run. rewrite S2. prog_run.
    rewrite Ha. prog_run. unfold int_sub, int_add. rewrite I1. prog_run.
    rewrite Ha. prog_run. rewrite I2. prog_run.
    rewrite P1. prog_run. rewrite O3. prog_run. rewrite P2. prog_run. rewrite O4. prog_run.
    done.
  - rewrite V4 by done. rewrite V3. apply lookup_insert_eq.
  - intros k Hk1 Hk2. rewrite V4, V3 by done. rewrite lookup_insert_ne by done. congruence.
  - intros ->. rewrite V3, V2, V1. split; [by rewrite lookup_insert_ne|].
    intros L HL Hb. rewrite HL, stored_insert, (total_insert _ a1) by done. split; [done|lia].
Qed.

(** C13: A balance that is no number: the exception leaves the machine in VALIDATE. *)
Theorem malformed_balance_strands d d1 d2 s1 s2 st q c c0 n m fs u co ce x bal e :
  kv_get d (account2 c) = (d1, (s1, Some x)) → Status.ok s1 = true →
  kv_get d1 (account1 c) = (d2, (s2, Some bal)) → Status.ok s2 = true →
  stoi bal = inl e →
  run (toggle config)
    (MkWorld (MkService d st (MessageQueue.send c q) ServiceListen c0 n m) fs u co ce) =
  (Throw e, MkWorld (MkService d2 s2 q ServiceValidate c n m) fs u co ce).
Proof.
  intros G1 O1 G2 O2 S1. unfold toggle, listen_toggle. prog_run.
  rewrite queue_receive_send. prog_run. cbn [process process_depth]. prog_run.
  unfold validate_process. prog_run.
  rewrite G1. prog_run. rewrite O1. prog_run. rewrite G2. prog_run. rewrite O2. prog_run.
  rewrite S1. prog_run. done.
Qed.
End Errors.

(** ** The divergences, on concrete stores *)
Section Witnesses.
Let books : Ledger := <["a" := 100]> (<["b" := 5]> ∅).
Let rich : Ledger := <["a" := 100]> (<["b" := INT_MAX]> ∅).

Definition command_to (to : string) : Command := Command.make "a" to "30" "TRANSFER" "id".

Lemma command_to_ok to : transfer_command (command_to to) 30.
Proof. by split. Qed.

Lemma books_ok : ledger_ok books ∧ ledger_ok rich.
Proof.
  split; (apply ledger_ok_insert; [apply ledger_ok_insert; [done|]|]); unfold INT_MAX; lia.
Qed.

Lemma self_transfer_mints_witness :
  ∃ d' st',
    run (toggle (db := gmap string string) Config.defaults)
      (MkWorld (MkService (stored books) Status.OK (MessageQueue.send (command_to "a") [])
         ServiceListen Command.empty 0 true) ∅ 0%N [] []) =
    (Val tt, MkWorld (MkService d' st' [] ServiceListen (command_to "a") 1 true)
               (<[event_log Config.defaults :=
                    default "" ((∅ : gmap string string) !! event_log Config.defaults) +:+
                    save_events (debit_event (command_to "a")) (credit_event (command_to "a"))]> ∅)
               0%N [] []) ∧
    Status.ok st' = true ∧
    kv_view d' = stored (<["a" := 130]> books) ∧
    total (<["a" := 130]> books) = total books + 30 ∧
    replay books [debit_event (command_to "a"); credit_event (command_to "a")] = books.
Proof.
  apply (self_transfer_mints Config.defaults books (stored books) Status.OK [] (command_to "a")
           Command.empty 0 true ∅ _ [] [] "a" 100 30);
    [done|apply books_ok|apply command_to_ok|done..|unfold INT_MAX; lia|done].
Defined.

Lemma transfer_overflow_undefined_witness :
  (run (toggle (db := gmap string string) Config.defaults)
     (MkWorld (MkService (stored rich) Status.OK (MessageQueue.send (command_to "b") [])
        ServiceListen Command.empty 0 true) ∅ 0%N [] [])).1 = Undef signed_overflow.
Proof.
  apply (transfer_overflow_undefined Config.defaults rich (stored rich) Status.OK []
           (command_to "b") Command.empty 0 true ∅ _ [] [] 100 INT_MAX 30);
    [done|apply books_ok|apply command_to_ok|done..].
Defined.

(** The fourth operation, the second write, fails. *)
Let failing (n : nat) : FaultyDB := MkFaultyDB (stored books) (replicate n false ++ [true]).

Lemma second_put_fails_loses_money_witness :
  ∃ d' s',
    run (apply_process Config.defaults)
      (MkWorld (MkService (failing 3) Status.OK [] ServiceApply (command_to "b") 0 true)
         ∅ 0%N [] []) =
    (Val tt, MkWorld (MkService d' s' [] ServiceListen (command_to "b") 1 true) ∅ 0%N []
               ["DB error: " +:+ Status_ToString (Status.IOError kNone) +:+ endl]) ∧
    kv_view d' !! "b" = Some (to_string 5) ∧
    kv_view d' = stored (<["a" := 70]> books) ∧ total (<["a" := 70]> books) = total books - 30.
Proof.
  destruct (second_put_fails_loses_money Config.defaults (failing 3) (failing 2) (failing 1)
           (MkFaultyDB (<["a" := "70"]> (stored books)) [true])
           (MkFaultyDB (<["a" := "70"]> (stored books)) [])
           Status.OK Status.OK Status.OK (Status.IOError kNone) Status.OK [] (command_to "b")
           0 true ∅ (0%N : @uuid_state test_platform) [] [] "100" "5" 100 5 30) as (Hrun & _ & _ & Hlost);
    [by vm_compute..|].
  destruct (Hlost eq_refl) as [Hb Hl]. destruct (Hl books eq_refl eq_refl) as [Hd Ht].
  eexists _, _. split; [exact Hrun|]. split; [etrans; [exact Hb|reflexivity]|]. split; [exact Hd|exact Ht].
Defined.

(** An account whose balance is no number. *)
Lemma malformed_balance_strands_witness :
  let d : gmap string string := <["a" := "ten"]> (<["b" := "5"]> ∅) in
  run (toggle (db := gmap string string) Config.defaults)
    (MkWorld (MkService d Status.OK (MessageQueue.send (command_to "b") []) ServiceListen
       Command.empty 0 true) ∅ 0%N [] []) =
  (Throw invalid_argument,
   MkWorld (MkService d Status.OK [] ServiceValidate (command_to "b") 0 true) ∅ 0%N [] []).
Proof.
  intros d. apply (malformed_balance_strands Config.defaults d d d Status.OK Status.OK Status.OK
    [] (command_to "b") Command.empty 0 true ∅ _ [] [] "5" "ten" invalid_argument);
    vm_compute; reflexivity.
Defined.
End Witnesses.
