(* ===== verification/Api.v ===== *)
(** * The REST handlers

    src/main.cpp: the account-number generator and the four route handlers. *)

From Stdlib Require Import ZArith Ascii.
From stdpp Require Import base tactics option strings list gmap.
From S2P Require Import Prelude.
From S2P Require Import CppStd.
From S2P Require Import RocksStatus.
From S2P Require Import Store.
From S2P Require Import World.
From S2P Require Import QueryString.
From S2P Require Import Crow.
From S2P Require Import Service.

Section Api.
Context {db : Type} `{KVStore db} `{Platform} (config : Config).
Local Open Scope prog_scope.

(** ** Account numbers *)

Definition file_exists (path : string) : prog (World db) bool :=
  gets (λ w, bool_decide (is_Some (fs w !! path))).

(** [std::ofstream ofs(path)] truncates; the archive throws when it is not open. *)
Definition write_file (path content : string) : prog (World db) unit :=
  if fs_writable path then modify (with_fs (<[path := content]>))
  else throw archive_exception.

(** [ia >> account_num]: a missing or malformed archive throws. *)
Definition read_int_file (path : string) : prog (World db) Z :=
  c ← gets (λ w, fs w !! path);
  match mbind (M:=option) load_int c with
  | Some n => Done n
  | None => throw archive_exception
  end.

Definition generateSeedFile (seed : string) : prog (World db) unit :=
  e ← file_exists seed;
  if e then Done tt else write_file seed (save_int 0).

(** The body of [genAccountID], under [seed_mutex]. *)
Definition genAccountID_body (seed : string) : prog (World db) string :=
  generateSeedFile seed ;;
  account_num ← read_int_file seed;
  account_num ← lift_ub signed_overflow (int_incr account_num);
  write_file seed (save_int account_num) ;;
  Done ("7" +:+ setw_fill 8 "0"%char (to_string account_num)).

Definition genAccountID (seed : string) : prog (World db) string :=
  critical (genAccountID_body seed).

(** ** Reading a request parameter: [req.url_params.get(name)] *)
Definition url_param (req : request) (name : string) : prog (World db) (option string) :=
  lift_ub out_of_bounds (param (url_params req) name).

(** ** GET /api/1.0/wallet/create_account *)
Definition create_account (req : request) : prog (World db) response :=
  startAmountParam ← url_param req "startAmount";
  match startAmountParam with
  | None =>
      Done (Response.of_code_body 400 ("Missing required parameter: startAmount" +:+ endl))
  | Some startAmountParam =>
      match stoi startAmountParam with
      | inl _ =>
          Done (Response.of_code_body 400 ("Invalid startAmount: must be an integer" +:+ endl))
      | inr startAmount =>
          if (startAmount <? 0)%Z then
            Done (Response.of_code_body 400
                    ("Invalid startAmount: must not be negative" +:+ endl))
          else
          accountID ← genAccountID (seed_file config);
          let value := to_string startAmount in
          st ← db_Put accountID value;
          assign_status st ;;
          s ← read_status;
          if negb (Status.ok s) then abort else
          Done (Response.of_body
                  ("Account: " +:+ accountID +:+ " : Balance: " +:+ value +:+ endl))
      end
  end.

(** ** GET /api/1.0/wallet/balance_transfer *)

(** [std::unique_lock<std::mutex> lk(service.cv_m)] *)
Definition lock_cv_m : prog (World db) unit :=
  await (λ w, if cv_m (service w) then None
              else Some (tt, with_service (set_cv_m true) w)).
Definition unlock_cv_m (w : World db) : World db := with_service (set_cv_m false) w.

Definition in_listen (w : World db) : bool :=
  String.eqb (getStateName (currentState (service w))) "LISTEN".

(** [service.cv.wait(lk, pred)]: returns with the lock held and the predicate true.
    When the predicate is false the lock is released and the thread sleeps until a
    notification; it then goes on when it holds the lock again and finds the predicate
    true. *)
Definition cv_wait : prog (World db) unit :=
  Atom (λ w,
    if in_listen w then (Val (Done tt), w)
    else
      let epoch := cv (service w) in
      (Val (await (λ w,
         if (epoch <? cv (service w))%nat && negb (cv_m (service w)) && in_listen w
         then Some (tt, with_service (set_cv_m true) w) else None)),
       unlock_cv_m w)).

(** The statements after the command is sent: until [lk] goes out of scope. *)
Definition transfer_locked : prog (World db) response :=
  lock_cv_m ;;
  on_exit unlock_cv_m
    (cv_wait ;;
     toggle config ;;
     s ← read_status;
     Done (Response.of_body ("Return Status: " +:+ Status_ToString s +:+ endl))).

(** [generateID] *)
Definition generateID : prog (World db) string :=
  update (λ w, let '(id, u) := uuid_generate (uuids w) in (id, with_uuids u w)).

Definition missing_parameters : prog (World db) response :=
  Done (Response.of_code_body 400
          ("Missing required parameters: fromAccount, toAccount, amount" +:+ endl)).

Definition balance_transfer (req : request) : prog (World db) response :=
  p1 ← url_param req "fromAccount";
  match p1 with None => missing_parameters | Some fromAccount =>
  p2 ← url_param req "toAccount";
  match p2 with None => missing_parameters | Some toAccount =>
  p3 ← url_param req "amount";
  match p3 with None => missing_parameters | Some amountStr =>
  match stoi amountStr with
  | inl _ =>
      Done (Response.of_code_body 400 ("Invalid amount: must be an integer" +:+ endl))
  | inr amount =>
      if (amount <=? 0)%Z then
        Done (Response.of_code_body 400
                ("Invalid amount: must be a positive integer" +:+ endl))
      else
      id ← generateID;
      queue_send (Command.make fromAccount toAccount (to_string amount) "TRANSFER" id) ;;
      transfer_locked
  end end end end.

(** ** GET /api/1.0/wallet/get_balance *)
Definition get_balance (req : request) : prog (World db) response :=
  p ← url_param req "accountID";
  match p with
  | None => Done (Response.of_body ("Missing required parameter: accountID" +:+ endl))
  | Some accountID =>
      '(st, v) ← db_Get accountID;
      let value := default "" v in
      assign_status st ;;
      s ← read_status;
      let os1 := if Status.ok s
                 then "Account: " +:+ accountID +:+ " : Balance: " +:+ value +:+ endl
                 else "" in
      s ← read_status;
      if negb (Status.ok s) then
        write_cerr ("Account " +:+ accountID +:+ " not found.") ;;
        Done (Response.of_body (os1 +:+ "Account not found" +:+ endl))
      else Done (Response.of_body os1)
  end.

(** ** GET /api/1.0/wallet/events *)
Definition events (req : request) : prog (World db) response :=
  e ← file_exists (event_log config);
  '(event1, event2) ←
    (if e then
       c ← gets (λ w, fs w !! event_log config);
       match mbind (M:=option) load_events c with
       | Some evs => Done evs
       | None => throw archive_exception
       end
     else Done (Event.empty, Event.empty));
  Done (Response.of_body
          (Event.toString event1 +:+ endl +:+ Event.toString event2 +:+ endl)).
End Api.
