(* ===== verification/ApiFacts.v ===== *)
(** * What the handlers do

    The handlers of file Api refine an abstract wallet: a ledger, the number of accounts
    issued, and the transfers done. *)

From Stdlib Require Import ZArith Lia Ascii.
From stdpp Require Import base tactics option strings list gmap.
From S2P Require Import Prelude.
From S2P Require Import CppStd.
From S2P Require Import RocksStatus.
From S2P Require Import Store.
From S2P Require Import World.
From S2P Require Import QueryString.
From S2P Require Import Crow.
From S2P Require Import Service.
From S2P Require Import Ledger.
From S2P Require Import ServiceFacts.
From S2P Require Import Transfer.
From S2P Require Import Api.

Local Open Scope Z_scope.

(** ** Account numbers *)

(** The account name issued for number [n]. *)
Definition account_id (n : Z) : string := "7" +:+ setw_fill 8 "0"%char (to_string n).

Lemma account_id_inj a b : 0 ≤ a → 0 ≤ b → account_id a = account_id b → a = b.
Proof. intros Ha Hb E%string_app_inj. by eapply setw_fill_inj. Qed.

(** ** The abstract wallet *)

(** The balances, the balances the accounts were opened with, how many were opened, and
    the transfers done, oldest first. *)
Record wallet : Type := MkWallet {
  ledger : Ledger;
  opened : Ledger;
  issued : Z;
  done_transfers : list Command
}.

(** A new account [account_id (issued A + 1)] with balance [z]. *)
Definition open_account (A : wallet) (z : Z) : wallet :=
  let k := account_id (issued A + 1) in
  MkWallet (<[k := z]> (ledger A)) (<[k := z]> (opened A)) (issued A + 1) (done_transfers A).

(** The transfer [c] with the verdict [v] and the ledger after it. *)
Definition settle (A : wallet) (c : Command) (v : verdict) (L : Ledger) : wallet :=
  MkWallet L (opened A) (issued A)
    (match v with Transferred => done_transfers A ++ [c] | _ => done_transfers A end).

(** The events an audit of the log sees. *)
Definition transfer_events (cs : list Command) : list Event :=
  flat_map (λ c, [debit_event c; credit_event c]) cs.

Section Represents.
Context {db : Type} `{KVLaws db} `{Platform} (config : Config).

(** The bytes of the event log after the transfers [cs], oldest first. *)
Definition log_bytes (cs : list Command) : string :=
  foldr (λ c s, save_events (debit_event c) (credit_event c) +:+ s) "" cs.

Lemma log_bytes_snoc cs c :
  log_bytes (cs ++ [c]) = log_bytes cs +:+ save_events (debit_event c) (credit_event c).
Proof.
  induction cs as [|c' cs IH]; simpl; [by rewrite string_app_nil_r|].
  by rewrite IH, string_app_assoc.
Qed.

Definition log_is (files : gmap string string) (cs : list Command) : Prop :=
  files !! event_log config = match cs with [] => None | _ => Some (log_bytes cs) end.

Definition seed_is (files : gmap string string) (n : Z) : Prop :=
  files !! seed_file config = Some (save_int n) ∨ (files !! seed_file config = None ∧ n = 0).

(** The paths the configuration names can be written and are different files. *)
Definition config_ok : Prop :=
  fs_writable (seed_file config) = true ∧ fs_writable (event_log config) = true ∧
  seed_file config ≠ event_log config.

(** Between two requests, the process holds the wallet [A]. *)
Record represents (A : wallet) (w : World db) : Prop := {
  rep_store : kv_view (accountDB (service w)) = stored (ledger A);
  rep_ledger : ledger_ok (ledger A);
  rep_issued : 0 ≤ issued A ≤ INT_MAX;
  rep_names : ∀ k, is_Some (ledger A !! k) → ∃ i, 1 ≤ i ≤ issued A ∧ k = account_id i;
  rep_seed : seed_is (fs w) (issued A);
  rep_log : log_is (fs w) (done_transfers A);
  rep_state : currentState (service w) = ServiceListen;
  rep_queue : command_queue (service w) = [];
  rep_lock : cv_m (service w) = false
}.
End Represents.

Ltac api_unfold :=
  unfold url_param, file_exists, write_file, read_int_file, lock_cv_m, generateID,
    db_Get, db_Put, assign_status, read_status, write_cerr, queue_send.
Ltac api_run := api_unfold; repeat prog_step.

Section ApiFacts.
Context {db : Type} `{KVLaws db} `{!KVReliable db} `{PlatformLaws} (config : Config).

(** [genAccountID] hands out the next number and records it. *)
Lemma genAccountID_run n (w : World db) :
  seed_is config (fs w) n → 0 ≤ n < INT_MAX → fs_writable (seed_file config) = true →
  ∃ f, run (genAccountID (seed_file config)) w = (Val (account_id (n + 1)), with_fs f w) ∧
    f (fs w) !! seed_file config = Some (save_int (n + 1)) ∧
    (∀ p, p ≠ seed_file config → f (fs w) !! p = fs w !! p).
Proof.
  intros Hs Hn Hw.
  assert (Hi : in_int n = true) by (apply in_int_spec; unfold INT_MIN, INT_MAX in *; lia).
  assert (Hi1 : in_int (n + 1) = true) by (apply in_int_spec; unfold INT_MIN, INT_MAX in *; lia).
  unfold genAccountID, genAccountID_body, generateSeedFile, int_incr, int_add. api_run.
  destruct Hs as [Hs|[Hs ->]].
  - rewrite Hs, bool_decide_eq_true_2 by eauto. api_run. rewrite Hs. cbn [mbind option_bind].
    rewrite load_save_int by done. api_run. rewrite Hi1. api_run. rewrite Hw. api_run.
    eexists. split; [reflexivity|]. split; [apply lookup_insert_eq|].
    intros p Hp. by apply lookup_insert_ne.
  - rewrite Hs, bool_decide_eq_false_2 by (by intros []). rewrite Hw. api_run.
    rewrite lookup_insert_eq. cbn [mbind option_bind].
    rewrite load_save_int by done. api_run. rewrite Hi1. api_run.
    exists (λ m, <[seed_file config := save_int (0 + 1)]> (<[seed_file config := save_int 0]> m)).
    split; [reflexivity|]. split; [apply lookup_insert_eq|].
    intros p Hp. by rewrite !lookup_insert_ne.
Qed.

(** *** create_account *)

Lemma create_account_success A (w : World db) req s z :
  represents config A w → config_ok config → issued A < INT_MAX →
  param (url_params req) "startAmount" = Some (Some s) → stoi s = inr z → 0 ≤ z →
  ledger A !! account_id (issued A + 1) = None ∧
  ∃ w',
    run (create_account config req) w =
      (Val (Response.of_body ("Account: " +:+ account_id (issued A + 1) +:+ " : Balance: " +:+
                              to_string z +:+ endl)), w') ∧
    represents config (open_account A z) w' ∧
    uuids w' = uuids w.
Proof.
  intros HA (Hw1 & Hw2 & Hne) Hlt Hp Hz Hpos. destruct HA as [Hst HL Hi Hnm Hs Hlog Hls Hq Hm].
  assert (ledger A !! account_id (issued A + 1) = None) as Hfresh.
  { destruct (ledger A !! _) as [b|] eqn:E; [|done].
    destruct (Hnm (account_id (issued A + 1))) as (i & Hr & Heq); [by eauto|].
    apply account_id_inj in Heq; lia. }
  split; [done|].
  destruct (genAccountID_run (issued A) w Hs (conj (proj1 Hi) Hlt) Hw1) as (f & Hrun & Hf1 & Hf2).
  unfold create_account, url_param. rewrite Hp. api_run. rewrite Hz.
  rewrite (proj2 (Z.ltb_ge z 0)) by done. api_run.
  rewrite Hrun. api_run.
  destruct (kv_put_reliable (accountDB (service w)) (account_id (issued A + 1)) (to_string z))
    as (d' & st' & Hput & Hok & Hv).
  rewrite Hput. api_run. rewrite Hok. api_run.
  eexists. split; [reflexivity|]. split; [|done].
  apply stoi_in_int in Hz. apply in_int_spec in Hz.
  split; simpl; try done; try lia.
  - by rewrite Hv, Hst, <- stored_insert.
  - apply ledger_ok_insert; [done|lia].
  - intros k Hk. destruct (decide (k = account_id (issued A + 1))) as [->|Hk1].
    + exists (issued A + 1). split; [lia|done].
    + rewrite lookup_insert_ne in Hk by done. destruct (Hnm k Hk) as (i & Hr & ->).
      exists i. split; [lia|done].
  - left. done.
  - unfold log_is. rewrite Hf2 by done. done.
Qed.

(** A refused request changes nothing. *)
Lemma create_account_refused (w : World db) req :
  match param (url_params req) "startAmount" with
  | Some None =>
      run (create_account config req) w =
      (Val (Response.of_code_body 400 ("Missing required parameter: startAmount" +:+ endl)), w)
  | Some (Some s) =>
      match stoi s with
      | inl _ =>
          run (create_account config req) w =
          (Val (Response.of_code_body 400
                  ("Invalid startAmount: must be an integer" +:+ endl)), w)
      | inr z =>
          z < 0 →
          run (create_account config req) w =
          (Val (Response.of_code_body 400
                  ("Invalid startAmount: must not be negative" +:+ endl)), w)
      end
  | None => run (create_account config req) w = (Undef out_of_bounds, w)
  end.
Proof.
  unfold create_account, url_param.
  destruct (param (url_params req) "startAmount") as [[s|]|].
  - destruct (stoi s) as [e|z] eqn:E; [|intros Hz%Z.ltb_lt]; api_run; rewrite E; [done|].
    by rewrite Hz.
  - by api_run.
  - by api_run.
Qed.

(** *** balance_transfer *)

(** What a settled transfer leaves represents the settled wallet. *)
Lemma represents_settle A d st c0 k f u co ce d' st' k' u' co' ce' c n v L' :
  represents config A (MkWorld (MkService d st [] ServiceListen c0 k false) f u co ce) →
  config_ok config → transfer_command c n → account1 c ≠ account2 c →
  has_room (ledger A) (account1 c) (account2 c) n = true →
  spec_transfer (ledger A) (account1 c) (account2 c) n = (v, L') →
  kv_view d' = stored L' →
  represents config (settle A c v L')
    (MkWorld (MkService d' st' [] ServiceListen c k' false) (log_after config c v f) u' co' ce').
Proof.
  intros [Hst HL Hi Hnm Hseed Hlog Hls Hq Hm] (Hw1 & Hw2 & Hne) (_ & _ & Hpos & _) Hab Hmax E Hd'.
  split; simpl in *; try done.
  - by eapply spec_transfer_ok.
  - intros j Hj. apply Hnm. by eapply spec_transfer_dom.
  - unfold seed_is, log_after in *. destruct v; [done..|].
    by rewrite lookup_insert_ne by done.
  - unfold log_is, log_after in *. destruct v; simpl; [done..|].
    rewrite lookup_insert_eq, Hlog, log_bytes_snoc.
    destruct (done_transfers A) eqn:El; simpl; [done|].
    by destruct (done_transfers A ++ [c]).
Qed.

Lemma run_cv_wait (w : World db) : in_listen w = true → run cv_wait w = (Val tt, w).
Proof. intros Hw. unfold cv_wait. cbn [run]. by rewrite Hw. Qed.

(** The part under the lock, in a process that is in LISTEN with the lock free. *)
Lemma transfer_locked_run d st q c n fs u co ce d' st' q' c' n' fs' co' ce' :
  run (toggle config) (MkWorld (MkService d st q ServiceListen c n true) fs u co ce) =
  (Val tt, MkWorld (MkService d' st' q' ServiceListen c' n' true) fs' u co' ce') →
  run (transfer_locked config) (MkWorld (MkService d st q ServiceListen c n false) fs u co ce) =
  (Val (Response.of_body ("Return Status: " +:+ Status_ToString st' +:+ endl)),
   MkWorld (MkService d' st' q' ServiceListen c' n' false) fs' u co' ce').
Proof.
  intros Ht. unfold transfer_locked. api_run.
  rewrite run_cv_wait by done. unfold with_service, set_cv_m. world_simpl.
  cbn [and_then]. rewrite run_bind, Ht. by api_run.
Qed.

Lemma balance_transfer_success A (w : World db) req a b s n :
  represents config A w → config_ok config →
  param (url_params req) "fromAccount" = Some (Some a) →
  param (url_params req) "toAccount" = Some (Some b) →
  param (url_params req) "amount" = Some (Some s) → stoi s = inr n → 0 < n → a ≠ b →
  has_room (ledger A) a b n = true →
  let c := Command.make a b (to_string n) "TRANSFER" (uuid_generate (uuids w)).1 in
  let '(v, L') := spec_transfer (ledger A) a b n in
  ∃ st' w',
    run (balance_transfer config req) w =
      (Val (Response.of_body ("Return Status: " +:+ Status_ToString st' +:+ endl)), w') ∧
    Status.ok st' = bool_decide (v ≠ NoSuchAccount) ∧
    represents config (settle A c v L') w' ∧
    uuids w' = (uuid_generate (uuids w)).2.
Proof.
  intros HA Hcfg Pa Pb Ps Hs Hn Hab Hmax c. pose proof Hcfg as (_ & Hw2 & _).
  pose proof HA as [Hst HL Hi Hnm Hseed Hlog Hls Hq Hm].
  destruct w as [[d st q cs c0 k m] f u co ce]; simpl in *; subst.
  destruct (spec_transfer (ledger A) a b n) as [v L'] eqn:Espec.
  assert (transfer_command c n) as Hc by (split; [done|]; split; [done|]; split; [done|by eapply stoi_in_int]).
  pose proof (toggle_transfer config (ledger A) d st [] c c0 k true f
                (uuid_generate u).2 co ce n Hst HL Hc Hab Hmax Hw2) as Ht.
  cbn [account1 account2 c Command.make] in Ht. rewrite Espec in Ht.
  destruct Ht as (d' & st' & Hst' & Hok & Hrun).
  unfold balance_transfer, url_param. rewrite Pa, Pb, Ps. api_run. rewrite Hs.
  rewrite (proj2 (Z.leb_gt n 0)) by done. api_run.
  destruct (uuid_generate u) as [id u'] eqn:Eu. api_run.
  unfold with_service, with_uuids, set_command_queue. world_simpl.
  erewrite transfer_locked_run by exact Hrun.
  do 2 eexists. split; [reflexivity|]. split; [done|]. split; [|done].
  by eapply represents_settle.
Qed.

(** A refused request changes nothing: a parameter is missing, the amount is no integer
    or not positive. *)
Lemma balance_transfer_missing (w : World db) req :
  (∀ k, In k ["fromAccount"; "toAccount"; "amount"] → param (url_params req) k ≠ None) →
  (∃ k, In k ["fromAccount"; "toAccount"; "amount"] ∧ param (url_params req) k = Some None) →
  run (balance_transfer config req) w =
  (Val (Response.of_code_body 400
          ("Missing required parameters: fromAccount, toAccount, amount" +:+ endl)), w).
Proof.
  intros Hdef (k & Hk & Hnone). unfold balance_transfer.
  pose proof (Hdef "fromAccount" ltac:(simpl; tauto)) as D1.
  pose proof (Hdef "toAccount" ltac:(simpl; tauto)) as D2.
  pose proof (Hdef "amount" ltac:(simpl; tauto)) as D3.
  api_run.
  destruct (param (url_params req) "fromAccount") as [[a|]|] eqn:E1; [|by api_run|done].
  api_run.
  destruct (param (url_params req) "toAccount") as [[b|]|] eqn:E2; [|by api_run|done].
  api_run.
  destruct (param (url_params req) "amount") as [[s|]|] eqn:E3; [|by api_run|done].
  simpl in Hk. destruct Hk as [<-|[<-|[<-|[]]]]; congruence.
Qed.

Lemma balance_transfer_bad_amount (w : World db) req a b s :
  param (url_params req) "fromAccount" = Some (Some a) →
  param (url_params req) "toAccount" = Some (Some b) →
  param (url_params req) "amount" = Some (Some s) →
  match stoi s with
  | inl _ =>
      run (balance_transfer config req) w =
      (Val (Response.of_code_body 400 ("Invalid amount: must be an integer" +:+ endl)), w)
  | inr n =>
      n ≤ 0 →
      run (balance_transfer config req) w =
      (Val (Response.of_code_body 400
              ("Invalid amount: must be a positive integer" +:+ endl)), w)
  end.
Proof.
  intros Pa Pb Ps. unfold balance_transfer, url_param. rewrite Pa, Pb, Ps.
  destruct (stoi s) as [e|n] eqn:E; [|intros Hn%Z.leb_le]; api_run; rewrite E; [done|].
  by rewrite Hn.
Qed.

(** *** get_balance *)

Lemma get_balance_run A (w : World db) req k :
  represents config A w → param (url_params req) "accountID" = Some (Some k) →
  ∃ w',
    run (get_balance req) w =
      (Val (Response.of_body
              match ledger A !! k with
              | Some b => "Account: " +:+ k +:+ " : Balance: " +:+ to_string b +:+ endl
              | None => "Account not found" +:+ endl
              end), w') ∧
    represents config A w' ∧ uuids w' = uuids w.
Proof.
  intros [Hst HL Hi Hnm Hs Hlog Hls Hq Hm] Hp. unfold get_balance, url_param. rewrite Hp.
  destruct (ledger A !! k) as [b|] eqn:Hk.
  - destruct (kv_get_present (accountDB (service w)) k (to_string b)) as (d' & st' & G & O & V).
    { by rewrite Hst, lookup_stored, Hk. }
    api_run. rewrite G. api_run. rewrite O. api_run.
    eexists. split; [reflexivity|]. split; [|done]. split; simpl; try done. by rewrite V.
  - destruct (kv_get_missing (accountDB (service w)) k) as (d' & st' & o & G & O & N & V).
    { by rewrite Hst, lookup_stored, Hk. }
    api_run. rewrite G. api_run. rewrite O. api_run.
    eexists. split; [reflexivity|]. split; [|done]. split; simpl; try done. by rewrite V.
Qed.

Lemma get_balance_missing (w : World db) req :
  param (url_params req) "accountID" = Some None →
  run (get_balance req) w =
  (Val (Response.of_body ("Missing required parameter: accountID" +:+ endl)), w).
Proof. intros Hp. unfold get_balance, url_param. rewrite Hp. by api_run. Qed.

(** *** events *)

(** The two events shown: those of the first transfer, or two blank ones. *)
Definition shown_events (cs : list Command) : Event * Event :=
  match cs with
  | [] => (Event.empty, Event.empty)
  | c :: _ => (debit_event c, credit_event c)
  end.

Lemma events_run A (w : World db) req :
  represents config A w →
  run (events config req) w =
  (Val (Response.of_body
          (Event.toString (shown_events (done_transfers A)).1 +:+ endl +:+
           Event.toString (shown_events (done_transfers A)).2 +:+ endl)), w).
Proof.
  intros HA. pose proof (rep_log _ _ _ HA) as Hlog. unfold log_is in Hlog. unfold events. api_run.
  destruct (done_transfers A) as [|c cs]; rewrite Hlog.
  - rewrite bool_decide_eq_false_2 by (by intros []). by api_run.
  - rewrite bool_decide_eq_true_2 by eauto. api_run. rewrite Hlog. cbn [mbind option_bind].
    cbn [log_bytes foldr]. rewrite load_save_events. by api_run.
Qed.
End ApiFacts.
