(* ===== verification/Wallet.v ===== *)
(** * The wallet as a whole, one request at a time

    An abstract wallet that answers requests, and the proof that the handlers of file Api
    implement it over any sequence of requests; what the abstract wallet keeps (the event
    log replays to the balances, money is neither made nor lost, account numbers are not
    reused) holds of the process. *)

From Stdlib Require Import ZArith Lia Ascii String.
From stdpp Require Import base tactics option strings list gmap.
From S2P Require Import Prelude.
From S2P Require Import CppStd.
From S2P Require Import RocksStatus.
From S2P Require Import Store.
From S2P Require Import World.
From S2P Require Import QueryString.
From S2P Require Import Crow.
From S2P Require Import Service.
From S2P Require Import Ledger.
From S2P Require Import ServiceFacts.
From S2P Require Import Transfer.
From S2P Require Import Api.
From S2P Require Import ApiFacts.
From S2P Require Import Instances.

Local Open Scope Z_scope.

(** ** Routes *)

(** The four [CROW_ROUTE]s of [main]. *)
Inductive route : Type := CreateAccount | BalanceTransfer | GetBalance | Events.

#[global] Instance route_eq_dec : EqDecision route.
Proof. solve_decision. Defined.

Definition handler {db} `{KVStore db} `{Platform} (config : Config) (r : route) :
    request → prog (World db) response :=
  match r with
  | CreateAccount => create_account config
  | BalanceTransfer => balance_transfer config
  | GetBalance => get_balance
  | Events => events config
  end.

(** Requests served one after the other, each to its end. *)
Fixpoint serve {db} `{KVStore db} `{Platform} (config : Config)
    (rs : list (route * request)) (w : World db) : list (outcome response) * World db :=
  match rs with
  | [] => ([], w)
  | (r, req) :: rs =>
      let '(o, w1) := run (handler config r req) w in
      let '(os, w2) := serve config rs w1 in
      (o :: os, w2)
  end.

(** ** The abstract wallet *)

Inductive answer : Type :=
| Refused (code : Z) (why : string)
| AccountOpened (k : string) (b : Z)
| TransferEnded (v : verdict)
| BalanceIs (k : string) (b : Z)
| AccountUnknown
| LogShows (a b : Event).

(** The response that gives an answer.  That of a transfer prints a status that is OK
    unless an account was missing. *)
Definition answers `{Platform} (a : answer) (o : outcome response) : Prop :=
  match a with
  | Refused 200 why => o = Val (Response.of_body (why +:+ endl))
  | Refused code why => o = Val (Response.of_code_body code (why +:+ endl))
  | AccountOpened k b =>
      o = Val (Response.of_body
                 ("Account: " +:+ k +:+ " : Balance: " +:+ to_string b +:+ endl))
  | TransferEnded v =>
      ∃ st, Status.ok st = bool_decide (v ≠ NoSuchAccount) ∧
        o = Val (Response.of_body ("Return Status: " +:+ Status_ToString st +:+ endl))
  | BalanceIs k b =>
      o = Val (Response.of_body
                 ("Account: " +:+ k +:+ " : Balance: " +:+ to_string b +:+ endl))
  | AccountUnknown => o = Val (Response.of_body ("Account not found" +:+ endl))
  | LogShows a b =>
      o = Val (Response.of_body (Event.toString a +:+ endl +:+ Event.toString b +:+ endl))
  end.

Section Spec.
Context `{Platform}.

Definition spec_create (A : wallet) (req : request) : option (answer * wallet) :=
  p ← param (url_params req) "startAmount";
  match p with
  | None => Some (Refused 400 "Missing required parameter: startAmount", A)
  | Some s =>
      match stoi s with
      | inl _ => Some (Refused 400 "Invalid startAmount: must be an integer", A)
      | inr z =>
          if z <? 0 then Some (Refused 400 "Invalid startAmount: must not be negative", A)
          else if issued A <? INT_MAX then
            Some (AccountOpened (account_id (issued A + 1)) z, open_account A z)
          else None
      end
  end.

(** A transfer the promise covers: between two accounts, to a receiver with room. *)
Definition transfer_fits (A : wallet) (a b : string) (n : Z) : bool :=
  negb (String.eqb a b) && has_room (ledger A) a b n.

Definition spec_request_transfer (A : wallet) (u : uuid_state) (req : request) :
    option (answer * (wallet * uuid_state)) :=
  a ← param (url_params req) "fromAccount";
  b ← param (url_params req) "toAccount";
  s ← param (url_params req) "amount";
  match a, b, s with
  | Some a, Some b, Some s =>
      match stoi s with
      | inl _ => Some (Refused 400 "Invalid amount: must be an integer", (A, u))
      | inr n =>
          if n <=? 0 then Some (Refused 400 "Invalid amount: must be a positive integer", (A, u))
          else if transfer_fits A a b n then
            let '(id, u') := uuid_generate u in
            let '(v, L) := spec_transfer (ledger A) a b n in
            Some (TransferEnded v,
                  (settle A (Command.make a b (to_string n) "TRANSFER" id) v L, u'))
          else None
      end
  | _, _, _ =>
      Some (Refused 400 "Missing required parameters: fromAccount, toAccount, amount", (A, u))
  end.

Definition spec_balance (A : wallet) (req : request) : option answer :=
  p ← param (url_params req) "accountID";
  Some match p with
       | None => Refused 200 "Missing required parameter: accountID"
       | Some k =>
           match ledger A !! k with Some b => BalanceIs k b | None => AccountUnknown end
       end.

(** One request; [None] where the promise says nothing. *)
Definition spec_request (A : wallet) (u : uuid_state) (r : route) (req : request) :
    option (answer * (wallet * uuid_state)) :=
  match r with
  | CreateAccount => '(a, A') ← spec_create A req; Some (a, (A', u))
  | BalanceTransfer => spec_request_transfer A u req
  | GetBalance => a ← spec_balance A req; Some (a, (A, u))
  | Events =>
      let '(x, y) := shown_events (done_transfers A) in Some (LogShows x y, (A, u))
  end.

Fixpoint spec_requests (A : wallet) (u : uuid_state) (rs : list (route * request)) :
    option (list answer * (wallet * uuid_state)) :=
  match rs with
  | [] => Some ([], (A, u))
  | (r, req) :: rs =>
      '(a, (A1, u1)) ← spec_request A u r req;
      '(l, (A2, u2)) ← spec_requests A1 u1 rs;
      Some (a :: l, (A2, u2))
  end.
End Spec.

(** ** The handlers implement it *)
Section Refinement.
Context {db : Type} `{KVLaws db} `{!KVReliable db} `{PlatformLaws} (config : Config).

(** One request: the answer, and the next wallet. *)
Definition step_ok (r : route) (req : request) (w : World db)
    (a : answer) (A' : wallet) (u' : uuid_state) : Prop :=
  ∃ o w', run (handler config r req) w = (o, w') ∧ answers a o ∧
          represents config A' w' ∧ uuids w' = u'.

Lemma create_refines A w req a A' :
  represents config A w → config_ok config → spec_create A req = Some (a, A') →
  step_ok CreateAccount req w a A' (uuids w).
Proof.
  intros HA Hc E. unfold spec_create in E. pose proof (create_account_refused config w req) as R.
  destruct (param (url_params req) "startAmount") as [[s|]|] eqn:Hp; simplify_eq/=;
    [|by do 2 eexists].
  destruct (stoi s) as [e|z] eqn:Hz; [by simplify_eq; do 2 eexists|].
  destruct (z <? 0) eqn:Hneg; [|apply Z.ltb_ge in Hneg].
  { apply Z.ltb_lt in Hneg. simplify_eq. specialize (R Hneg). by do 2 eexists. }
  destruct (issued A <? INT_MAX) eqn:Hi; simplify_eq. apply Z.ltb_lt in Hi.
  destruct (create_account_success config A w req s z HA Hc Hi Hp Hz Hneg)
    as (_ & w' & Hr & HA' & Hu). by do 2 eexists.
Qed.

Lemma transfer_refines A w req a A' u' :
  represents config A w → config_ok config →
  spec_request_transfer A (uuids w) req = Some (a, (A', u')) →
  step_ok BalanceTransfer req w a A' u'.
Proof.
  intros HA Hc E. unfold spec_request_transfer in E.
  destruct (param (url_params req) "fromAccount") as [x|] eqn:Pa; [|done].
  destruct (param (url_params req) "toAccount") as [y|] eqn:Pb; [|done].
  destruct (param (url_params req) "amount") as [s|] eqn:Ps; [|done]. cbn [mbind option_bind] in E.
  assert (x = None ∨ y = None ∨ s = None →
          run (balance_transfer config req) w =
          (Val (Response.of_code_body 400
             ("Missing required parameters: fromAccount, toAccount, amount" +:+ endl)), w)) as M.
  { intros Hn. apply balance_transfer_missing; [|destruct Hn as [-> | [-> | ->]]; simpl; eauto 9].
    intros k Hk. simpl in Hk. destruct Hk as [<-|[<-|[<-|[]]]]; congruence. }
  destruct x as [x|]; [|by simplify_eq; eexists _, w; split; [apply M; auto|]].
  destruct y as [y|]; [|by simplify_eq; eexists _, w; split; [apply M; auto|]].
  destruct s as [s|]; [|by simplify_eq; eexists _, w; split; [apply M; auto|]]. clear M.
  pose proof (balance_transfer_bad_amount config w req x y s Pa Pb Ps) as R.
  destruct (stoi s) as [e|n] eqn:Hn; [by simplify_eq; do 2 eexists|].
  destruct (n <=? 0) eqn:Hpos.
  { apply Z.leb_le in Hpos. simplify_eq. specialize (R Hpos). by do 2 eexists. }
  clear R. apply Z.leb_gt in Hpos.
  destruct (transfer_fits A x y n) eqn:Hfit; [|done].
  apply andb_true_iff in Hfit as [Hne Hmax].
  apply negb_true_iff, String.eqb_neq in Hne.
  pose proof (balance_transfer_success config A w req x y s n HA Hc Pa Pb Ps Hn Hpos Hne) as S.
  cbv zeta in S. destruct (uuid_generate (uuids w)) as [id u1] eqn:Hu.
  destruct (spec_transfer (ledger A) x y n) as [v L]. simplify_eq/=.
  destruct (S Hmax) as (st' & w' & Hr & Hok & HA' & Hu').
  do 2 eexists. split; [exact Hr|]. split; [by exists st'|]. done.
Qed.

Lemma request_refines A w r req a A' u' :
  represents config A w → config_ok config →
  spec_request A (uuids w) r req = Some (a, (A', u')) →
  step_ok r req w a A' u'.
Proof.
  intros HA Hc E. destruct r; simpl in E.
  - destruct (spec_create A req) as [[a1 A1]|] eqn:E1; simplify_eq/=. by eapply create_refines.
  - by eapply transfer_refines.
  - unfold spec_balance in E.
    destruct (param (url_params req) "accountID") as [[k|]|] eqn:Hp; simplify_eq/=.
    + destruct (get_balance_run config A' w req k HA Hp) as (w' & Hr & HA' & Hu).
      do 2 eexists. split; [exact Hr|]. split; [|done]. by destruct (ledger A' !! k).
    + do 2 eexists. split; [by apply get_balance_missing|]. done.
  - pose proof (events_run config A w req HA) as Hr.
    destruct (shown_events (done_transfers A)) as [x y]. simplify_eq/=. by do 2 eexists.
Qed.

Lemma requests_refine_aux rs A w l A' u' :
  represents config A w → config_ok config →
  spec_requests A (uuids w) rs = Some (l, (A', u')) →
  ∃ w', (serve config rs w).2 = w' ∧ Forall2 answers l (serve config rs w).1 ∧
        represents config A' w' ∧ uuids w' = u'.
Proof.
  revert A w l. induction rs as [|[r req] rs IH]; intros A w l HA Hc E; simpl in E.
  { simplify_eq. by exists w. }
  destruct (spec_request A (uuids w) r req) as [[a [A1 u1]]|] eqn:E1; [|done].
  destruct (request_refines A w r req a A1 u1 HA Hc E1) as (o & w1 & Hr & Ha & HA1 & Hu1).
  cbn [mbind option_bind] in E. subst u1.
  destruct (spec_requests A1 (uuids w1) rs) as [[l1 [A2 u2]]|] eqn:E2; simplify_eq/=.
  destruct (IH A1 w1 l1 HA1 Hc E2) as (w2 & Hw2 & Hl & HA2 & Hu2).
  rewrite Hr. destruct (serve config rs w1) as [os w3]. simpl in *. subst.
  exists w2. split; [done|]. split; [by constructor|]. done.
Qed.
End Refinement.

(** ** What the abstract wallet keeps *)

Record wallet_ok (A : wallet) : Prop := {
  wok_issued : 0 ≤ issued A;
  wok_names : ∀ k, is_Some (ledger A !! k) → ∃ i, 1 ≤ i ≤ issued A ∧ k = account_id i;
  wok_opened : ∀ k, is_Some (opened A !! k) → is_Some (ledger A !! k);
  wok_done : ∀ c, In c (done_transfers A) →
               is_Some (ledger A !! account1 c) ∧ is_Some (ledger A !! account2 c);
  wok_replay : replay (opened A) (transfer_events (done_transfers A)) = ledger A;
  wok_total : total (ledger A) = total (opened A)
}.

Definition empty_wallet : wallet := MkWallet ∅ ∅ 0 [].

Lemma empty_wallet_ok : wallet_ok empty_wallet.
Proof. split; simpl; try done; intros k; rewrite lookup_empty; by intros []. Qed.

Lemma replay_insert_fresh k z L es :
  (∀ e, In e es → ev_account e ≠ k) →
  replay (<[k := z]> L) es = <[k := z]> (replay L es).
Proof.
  revert L. induction es as [|e es IH]; intros L Hes; [done|].
  unfold replay in *. cbn [foldl].
  assert (replay_event (<[k := z]> L) e = <[k := z]> (replay_event L e)) as ->.
  { unfold replay_event. destruct (stoi (ev_amount e)); [done|].
    apply alter_insert_ne. apply Hes. by left. }
  apply IH. intros e' He'. apply Hes. by right.
Qed.

Lemma open_account_ok A z :
  wallet_ok A → ledger A !! account_id (issued A + 1) = None →
  wallet_ok (open_account A z).
Proof.
  intros [Hi Hn Ho Hd Hr Ht] Hfresh. set (k := account_id (issued A + 1)) in *.
  assert (opened A !! k = None) as Hfo.
  { destruct (opened A !! k) eqn:E; [|done]. destruct (Ho k); [eauto|congruence]. }
  split; unfold open_account; fold k; cbn [ledger opened issued done_transfers].
  - lia.
  - intros j Hj. destruct (decide (j = k)) as [->|Hjk]; [by exists (issued A + 1); split; [lia|]|].
    rewrite lookup_insert_ne in Hj by done. destruct (Hn j Hj) as (i & ? & ->).
    exists i. split; [lia|done].
  - intros j. destruct (decide (j = k)) as [->|Hjk]; rewrite ?lookup_insert_eq; [eauto|].
    rewrite !lookup_insert_ne by done. apply Ho.
  - intros c Hc. destruct (Hd c Hc) as [[x Hx] [y Hy]].
    rewrite !lookup_insert_ne by congruence. eauto.
  - rewrite replay_insert_fresh, Hr; [done|]. intros e He. unfold transfer_events in He.
    apply in_flat_map in He as (c & Hc & He). destruct (Hd c Hc) as [[x Hx] [y Hy]].
    simpl in He. destruct He as [<-|[<-|[]]]; simpl; congruence.
  - rewrite !total_insert_fresh by done. lia.
Qed.

Lemma settle_ok A c n v L :
  wallet_ok A → transfer_command c n →
  spec_transfer (ledger A) (account1 c) (account2 c) n = (v, L) →
  wallet_ok (settle A c v L).
Proof.
  intros [Hi Hn Ho Hd Hr Ht] Hc E.
  assert (∀ k, is_Some (L !! k) ↔ is_Some (ledger A !! k)) as Hdom.
  { intros k. revert E. unfold spec_transfer.
    destruct (ledger A !! account2 c); [|by intros; simplify_eq].
    destruct (ledger A !! account1 c) as [b|]; [|by intros; simplify_eq].
    destruct (b <? n); intros; simplify_eq; [done|].
    rewrite lookup_credit, lookup_debit. repeat case_decide; by rewrite ?fmap_is_Some. }
  split; cbn [settle ledger opened issued done_transfers].
  - done.
  - intros k Hk. by apply Hn, Hdom.
  - intros k Hk. by apply Hdom, Ho.
  - intros c' Hc'. rewrite !Hdom. destruct v; [by apply Hd..|].
    apply in_app_or in Hc' as [Hc'|[<-|[]]]; [by apply Hd|].
    unfold spec_transfer in E. destruct (ledger A !! account2 c); [|done].
    destruct (ledger A !! account1 c); [|done]. eauto.
  - unfold spec_transfer in E. destruct (ledger A !! account2 c); [|by simplify_eq].
    destruct (ledger A !! account1 c) as [b|]; [|by simplify_eq].
    destruct (b <? n); simplify_eq; [done|].
    unfold transfer_events in *. rewrite flat_map_app. unfold replay in *. rewrite foldl_app, Hr.
    exact (replay_transfer _ _ _ Hc).
  - by rewrite (spec_transfer_total _ _ _ _ _ _ E).
Qed.

Section SpecFacts.
Context `{Platform}.

Lemma spec_request_ok A u r req a A' u' :
  wallet_ok A → spec_request A u r req = Some (a, (A', u')) →
  wallet_ok A' ∧ issued A ≤ issued A' ∧
  match a with
  | AccountOpened k _ => k = account_id (issued A + 1) ∧ issued A' = issued A + 1
  | _ => True
  end.
Proof.
  intros HA E. destruct r; simpl in E.
  - unfold spec_create in E.
    destruct (param (url_params req) "startAmount") as [[s|]|]; simplify_eq/=; [|done].
    destruct (stoi s) as [e|z]; simplify_eq/=; [done|].
    destruct (z <? 0); simplify_eq/=; [done|].
    destruct (issued A <? INT_MAX); simplify_eq/=. split; [|by (split; [lia|])].
    apply open_account_ok; [done|].
    destruct (ledger A !! _) as [b|] eqn:Eb; [|done].
    destruct (wok_names A HA _ (mk_is_Some _ _ Eb)) as (i & Hr & Heq).
    pose proof (wok_issued A HA). apply account_id_inj in Heq; lia.
  - unfold spec_request_transfer in E.
    destruct (param _ "fromAccount") as [[x|]|]; [..|done];
    (destruct (param _ "toAccount") as [[y|]|]; [..|done]);
    (destruct (param _ "amount") as [[s|]|]; [..|done]); simplify_eq/=; try done.
    destruct (stoi s) as [e|n] eqn:Hs; simplify_eq/=; [done|].
    destruct (n <=? 0) eqn:Hn; simplify_eq/=; [done|]. apply Z.leb_gt in Hn.
    destruct (transfer_fits A x y n); [|done]. destruct (uuid_generate u) as [id u1].
    destruct (spec_transfer (ledger A) x y n) as [v L] eqn:Et. simplify_eq/=.
    split; [|done]. eapply settle_ok; [done| |exact Et].
    split; [done|]. split; [done|]. split; [done|]. by eapply stoi_in_int.
  - unfold spec_balance in E.
    destruct (param _ "accountID") as [[k|]|]; simplify_eq/=; [|done].
    by destruct (ledger A' !! k).
  - destruct (shown_events (done_transfers A)). by simplify_eq/=.
Qed.

(** The names handed out, in order. *)
Definition opened_names (l : list answer) : list string :=
  omap (λ a, match a with AccountOpened k _ => Some k | _ => None end) l.

Lemma spec_requests_ok rs A u l A' u' :
  wallet_ok A → spec_requests A u rs = Some (l, (A', u')) →
  wallet_ok A' ∧ issued A ≤ issued A' ∧ NoDup (opened_names l) ∧
  (∀ k, k ∈ opened_names l → ∃ i, issued A < i ≤ issued A' ∧ k = account_id i).
Proof.
  revert A u l. induction rs as [|[r req] rs IH]; intros A u l HA E; simpl in E.
  { simplify_eq. split; [done|]. split; [done|]. split; [constructor|]. intros k Hk. set_solver. }
  destruct (spec_request A u r req) as [[a [A1 u1]]|] eqn:E1; [|done].
  destruct (spec_request_ok _ _ _ _ _ _ _ HA E1) as (HA1 & Hle & Ha).
  cbn [mbind option_bind] in E.
  destruct (spec_requests A1 u1 rs) as [[l1 [A2 u2]]|] eqn:E2; simplify_eq/=.
  destruct (IH A1 u1 l1 HA1 E2) as (HA2 & Hle2 & Hnd & Hnames).
  assert (∀ k, k ∈ opened_names l1 → ∃ i, issued A < i ≤ issued A' ∧ k = account_id i) as Hn'.
  { intros k Hk. destruct (Hnames k Hk) as (i & ? & ->). exists i. split; [lia|done]. }
  split; [done|]. split; [lia|]. destruct a; cbn [opened_names omap list_omap]; try done.
  destruct Ha as [-> Hi]. pose proof (wok_issued A HA). split.
  - constructor; [|done]. intros Hin. destruct (Hnames _ Hin) as (i & Hr & Heq).
    apply account_id_inj in Heq; lia.
  - intros k [->|Hk]%elem_of_cons; [|by apply Hn'].
    exists (issued A + 1). split; [lia|done].
Qed.

(** The opening balances, read off the answers. *)
Definition opened_map (l : list answer) (L : Ledger) : Ledger :=
  foldl (λ L a, match a with AccountOpened k b => <[k := b]> L | _ => L end) L l.

Fixpoint opened_sum (l : list answer) : Z :=
  match l with
  | [] => 0
  | AccountOpened _ b :: l => b + opened_sum l
  | _ :: l => opened_sum l
  end.

Lemma spec_request_opened A u r req a A' u' :
  wallet_ok A → spec_request A u r req = Some (a, (A', u')) →
  opened A' = opened_map [a] (opened A) ∧
  total (opened A') = total (opened A) + opened_sum [a].
Proof.
  intros HA E. destruct (spec_request_ok _ _ _ _ _ _ _ HA E) as (_ & _ & Hname).
  destruct r; simpl in E.
  - unfold spec_create in E.
    destruct (param (url_params req) "startAmount") as [[s|]|]; simplify_eq/=; [|by (split; [|simpl; lia])].
    destruct (stoi s) as [e|z]; simplify_eq/=; [by (split; [|simpl; lia])|].
    destruct (z <? 0); simplify_eq/=; [by (split; [|simpl; lia])|].
    destruct (issued A <? INT_MAX); simplify_eq/=. split; [done|].
    rewrite total_insert_fresh; [simpl; lia|].
    destruct (opened A !! _) as [b|] eqn:Eb; [|done].
    destruct (wok_names A HA _ (wok_opened A HA _ (mk_is_Some _ _ Eb))) as (i & Hr & Heq).
    pose proof (wok_issued A HA). apply account_id_inj in Heq; lia.
  - unfold spec_request_transfer in E.
    destruct (param _ "fromAccount") as [[x|]|]; [..|done];
    (destruct (param _ "toAccount") as [[y|]|]; [..|done]);
    (destruct (param _ "amount") as [[s|]|]; [..|done]); simplify_eq/=; try by (split; [|simpl; lia]).
    destruct (stoi s) as [e|n]; simplify_eq/=; [by (split; [|simpl; lia])|].
    destruct (n <=? 0); simplify_eq/=; [by (split; [|simpl; lia])|].
    destruct (transfer_fits A x y n); [|done]. destruct (uuid_generate u).
    destruct (spec_transfer (ledger A) x y n). simplify_eq/=. by (split; [|simpl; lia]).
  - unfold spec_balance in E.
    destruct (param _ "accountID") as [[k|]|]; simplify_eq/=; [|by (split; [|simpl; lia])].
    destruct (ledger A' !! k); (split; [done|simpl; lia]).
  - destruct (shown_events (done_transfers A)). simplify_eq/=. split; [done|simpl; lia].
Qed.

Lemma spec_requests_opened rs A u l A' u' :
  wallet_ok A → spec_requests A u rs = Some (l, (A', u')) →
  opened A' = opened_map l (opened A) ∧
  total (opened A') = total (opened A) + opened_sum l.
Proof.
  revert A u l. induction rs as [|[r req] rs IH]; intros A u l HA E; simpl in E.
  { simplify_eq. split; [done|simpl; lia]. }
  destruct (spec_request A u r req) as [[a [A1 u1]]|] eqn:E1; [|done].
  destruct (spec_request_ok _ _ _ _ _ _ _ HA E1) as (HA1 & _ & _).
  destruct (spec_request_opened _ _ _ _ _ _ _ HA E1) as (Ho & Hs).
  cbn [mbind option_bind] in E.
  destruct (spec_requests A1 u1 rs) as [[l1 [A2 u2]]|] eqn:E2; simplify_eq/=.
  destruct (IH A1 u1 l1 HA1 E2) as (-> & ->).
  split; [by rewrite Ho|]. rewrite Hs. destruct a; simpl; lia.
Qed.
End SpecFacts.

(** ** From a fresh process *)
Section Fresh.
Context {db : Type} `{KVLaws db} `{!KVReliable db} `{PlatformLaws} (config : Config).

(** The process right after [main] constructed the service, over the files found. *)
Definition booted (d : db) (files : gmap string string) (u : uuid_state) : World db :=
  MkWorld (MkService d Status.OK [] ServiceListen Command.empty 0 false) files u [] [].

Lemma booted_represents d u :
  kv_view d = ∅ → represents config empty_wallet (booted d ∅ u).
Proof.
  intros Hd. split; simpl; try done.
  - intros k. rewrite lookup_empty. by intros [].
  - by right.
Qed.

(** A new process over the store and the files of an old one. *)
Lemma reboot_represents A w :
  represents config A w → represents config A (booted (accountDB (service w)) (fs w) (uuids w)).
Proof. intros [Hst HL Hi Hnm Hs Hlog Hls Hq Hm]. by split. Qed.
End Fresh.

(** ** The properties *)
Section Properties.
Context {db : Type} `{KVLaws db} `{!KVReliable db} `{PlatformLaws} (config : Config).

(** C1: any sequence of requests the promise covers is answered as the abstract wallet
    answers it, and leaves the process holding the abstract wallet's next state. *)
Theorem requests_refine_wallet rs A w l A' u' :
  represents config A w → config_ok config →
  spec_requests A (uuids w) rs = Some (l, (A', u')) →
  Forall2 answers l (serve config rs w).1 ∧
  represents config A' (serve config rs w).2.
Proof.
  intros HA Hc E. by destruct (requests_refine_aux config rs A w l A' u' HA Hc E)
    as (w' & <- & Hl & HA' & _).
Qed.

(** C5: the balances in the store are the opening balances the clients were answered,
    with the events of the log replayed over them; the log file holds those events. *)
Theorem event_log_replays_to_balances rs (d : db) u l A' u' :
  kv_view d = ∅ → config_ok config →
  spec_requests empty_wallet u rs = Some (l, (A', u')) →
  let w' := (serve config rs (booted d ∅ u)).2 in
  kv_view (accountDB (service w')) =
    stored (replay (opened_map l ∅) (transfer_events (done_transfers A'))) ∧
  log_is config (fs w') (done_transfers A').
Proof.
  intros Hd Hc E. pose proof (booted_represents config d u Hd) as HA.
  destruct (requests_refine_aux config rs _ _ l A' u' HA Hc E) as (w' & <- & _ & HA' & _).
  destruct (spec_requests_ok _ _ _ _ _ _ empty_wallet_ok E) as (Hok & _).
  destruct (spec_requests_opened _ _ _ _ _ _ empty_wallet_ok E) as (Ho & _). simpl in Ho.
  split; [|exact (rep_log _ _ _ HA')].
  by rewrite <- Ho, (wok_replay A' Hok), (rep_store _ _ _ HA').
Qed.

(** C6: money is neither made nor lost: the balances in the store add up to the
    opening balances the clients were answered. *)
Theorem money_conserved rs d u l A' u' :
  kv_view d = ∅ → config_ok config →
  spec_requests empty_wallet u rs = Some (l, (A', u')) →
  ∃ L, kv_view (accountDB (service (serve config rs (booted d ∅ u)).2)) = stored L ∧
       ledger_ok L ∧ total L = opened_sum l.
Proof.
  intros Hd Hc E. pose proof (booted_represents config d u Hd) as HA.
  destruct (requests_refine_aux config rs _ _ l A' u' HA Hc E) as (w' & <- & _ & HA' & _).
  destruct (spec_requests_ok _ _ _ _ _ _ empty_wallet_ok E) as (Hok & _).
  destruct (spec_requests_opened _ _ _ _ _ _ empty_wallet_ok E) as (_ & Ho).
  exists (ledger A'). split; [exact (rep_store _ _ _ HA')|].
  split; [exact (rep_ledger _ _ _ HA')|]. rewrite (wok_total A' Hok), Ho. done.
Qed.

(** C7: no account number is handed out twice, restarts of the process included:
    accounts opened by a second process over the files of the first are new. *)
Theorem account_numbers_unique rs1 rs2 d u l1 A1 u1 l2 A2 u2 :
  kv_view d = ∅ → config_ok config →
  spec_requests empty_wallet u rs1 = Some (l1, (A1, u1)) →
  spec_requests A1 u1 rs2 = Some (l2, (A2, u2)) →
  let w1 := (serve config rs1 (booted d ∅ u)).2 in
  let r2 := serve config rs2 (booted (accountDB (service w1)) (fs w1) (uuids w1)) in
  Forall2 answers l2 r2.1 ∧ represents config A2 r2.2 ∧
  NoDup (opened_names l1 ++ opened_names l2).
Proof.
  intros Hd Hc E1 E2. pose proof (booted_represents config d u Hd) as HA.
  destruct (requests_refine_aux config rs1 _ _ l1 A1 u1 HA Hc E1) as (w1 & Hw1 & _ & HA1 & <-).
  destruct (spec_requests_ok _ _ _ _ _ _ empty_wallet_ok E1) as (Hok1 & _ & Hnd1 & Hn1).
  destruct (spec_requests_ok _ _ _ _ _ _ Hok1 E2) as (Hok2 & _ & Hnd2 & Hn2).
  cbv zeta. rewrite Hw1.
  destruct (requests_refine_aux config rs2 A1
              (booted (accountDB (service w1)) (fs w1) (uuids w1)) l2 A2 u2)
    as (w2 & <- & Hl2 & HA2 & _); [by apply reboot_represents|done|done|].
  split; [done|]. split; [done|]. apply NoDup_app. split; [done|]. split; [|done].
  intros k Hk1 Hk2. destruct (Hn1 k Hk1) as (i & Hi & ->).
  destruct (Hn2 _ Hk2) as (j & Hj & Heq). simpl in Hi. apply account_id_inj in Heq; lia.
Qed.
End Properties.

(** ** A session, evaluated *)

(** The request a GET of [url] makes: the part before the query, and the parameters. *)
Definition get_request (url : string) : request :=
  let path := string_of_list_ascii (take (strcspn (list_ascii_of_string url) ["?"%char])
                                         (list_ascii_of_string url)) in
  MkRequest Get url path (default query_string_empty (parse_url url)) [] "" 1 1 true false false.

Definition session : list (route * request) :=
  [(CreateAccount, get_request "/api/1.0/wallet/create_account?startAmount=100");
   (CreateAccount, get_request "/api/1.0/wallet/create_account?startAmount=5");
   (CreateAccount, get_request "/api/1.0/wallet/create_account?startAmount=-5");
   (BalanceTransfer, get_request
      "/api/1.0/wallet/balance_transfer?fromAccount=700000001&toAccount=700000002&amount=30");
   (BalanceTransfer, get_request
      "/api/1.0/wallet/balance_transfer?fromAccount=700000002&toAccount=7%300000001&amount=36");
   (GetBalance, get_request "/api/1.0/wallet/get_balance?accountID=700000001");
   (Events, get_request "/api/1.0/wallet/events")].

Definition fresh : World (gmap string string) := booted ∅ ∅ 0%N.

Example session_bodies :
  map (λ o, match o with Val r => (code r, body r) | _ => (0, "") end)
    (serve Config.defaults session fresh).1 =
  [(200, "Account: 700000001 : Balance: 100" +:+ endl);
   (200, "Account: 700000002 : Balance: 5" +:+ endl);
   (400, "Invalid startAmount: must not be negative" +:+ endl);
   (200, "Return Status: OK" +:+ endl);
   (200, "Return Status: OK" +:+ endl);
   (200, "Account: 700000001 : Balance: 70" +:+ endl);
   (200, "Transaction ID: 0 Action: TRANSFER Account: 700000001 Amount: -30" +:+ endl +:+ endl +:+
         "Transaction ID: 0 Action: TRANSFER Account: 700000002 Amount: +30" +:+ endl +:+ endl)].
Proof. vm_compute. reflexivity. Qed.

Lemma defaults_ok : config_ok Config.defaults.
Proof. split; [reflexivity|]. split; [reflexivity|]. discriminate. Qed.

Lemma fresh_represents : represents Config.defaults empty_wallet fresh.
Proof. by apply booted_represents. Qed.

Lemma requests_refine_wallet_witness :
  ∃ l A' u',
    spec_requests empty_wallet 0%N session = Some (l, (A', u')) ∧
    Forall2 answers l (serve Config.defaults session fresh).1 ∧
    represents Config.defaults A' (serve Config.defaults session fresh).2.
Proof.
  eexists _, _, _. split; [vm_compute; reflexivity|].
  eapply (requests_refine_wallet Config.defaults session empty_wallet fresh);
    [apply fresh_represents|apply defaults_ok|vm_compute; reflexivity].
Defined.

Lemma event_log_replays_to_balances_witness :
  ∃ l A' u',
    spec_requests empty_wallet 0%N session = Some (l, (A', u')) ∧
    length (done_transfers A') = 1%nat ∧
    let w' := (serve Config.defaults session fresh).2 in
    kv_view (accountDB (service w')) =
      stored (replay (opened_map l ∅) (transfer_events (done_transfers A'))) ∧
    log_is Config.defaults (fs w') (done_transfers A').
Proof.
  eexists _, _, _. split; [vm_compute; reflexivity|]. split; [reflexivity|].
  eapply (event_log_replays_to_balances Config.defaults session (∅ : gmap string string));
    [reflexivity|apply defaults_ok|vm_compute; reflexivity].
Defined.

Lemma money_conserved_witness :
  ∃ l A' u',
    spec_requests empty_wallet 0%N session = Some (l, (A', u')) ∧ opened_sum l = 105 ∧
    ∃ L, kv_view (accountDB (service (serve Config.defaults session fresh).2)) = stored L ∧
         ledger_ok L ∧ total L = opened_sum l.
Proof.
  eexists _, _, _. split; [vm_compute; reflexivity|]. split; [reflexivity|].
  eapply (money_conserved Config.defaults session (∅ : gmap string string));
    [reflexivity|apply defaults_ok|vm_compute; reflexivity].
Defined.

Lemma account_numbers_unique_witness :
  ∃ l1 A1 u1 l2 A2 u2,
    spec_requests empty_wallet 0%N session = Some (l1, (A1, u1)) ∧
    spec_requests A1 u1 session = Some (l2, (A2, u2)) ∧
    let w1 := (serve Config.defaults session fresh).2 in
    let r2 := serve Config.defaults session
                (booted (accountDB (service w1)) (fs w1) (uuids w1)) in
    Forall2 answers l2 r2.1 ∧ represents Config.defaults A2 r2.2 ∧
    NoDup (opened_names l1 ++ opened_names l2).
Proof.
  eexists _, _, _, _, _, _. split; [vm_compute; reflexivity|]. split; [vm_compute; reflexivity|].
  eapply (account_numbers_unique Config.defaults session session (∅ : gmap string string));
    [reflexivity|apply defaults_ok|vm_compute; reflexivity..].
Defined.
