(* ===== verification/Machine.v ===== *)
(** * The states a transfer goes through

    Over any store, lawful or not: the states [toggle] visits are a path of the state
    machine, it needs no more fuel than [process_depth], it comes back to LISTEN exactly
    when no exception leaves it, and an exception strands it outside LISTEN. *)

From Stdlib Require Import ZArith Lia.
From stdpp Require Import base tactics option strings list gmap.
From S2P Require Import Prelude.
From S2P Require Import CppStd.
From S2P Require Import RocksStatus.
From S2P Require Import Store.
From S2P Require Import World.
From S2P Require Import Service.
From S2P Require Import ServiceFacts.
From S2P Require Import Instances.

(** ** The state machine *)

Inductive transition : ServiceState → ServiceState → Prop :=
| listen_validate : transition ServiceListen ServiceValidate
| validate_listen : transition ServiceValidate ServiceListen
| validate_apply : transition ServiceValidate ServiceApply
| apply_listen : transition ServiceApply ServiceListen.

#[global] Instance transition_dec s s' : Decision (transition s s').
Proof. destruct s, s'; first [left; constructor|right; by inversion 1]. Defined.

(** The successive values of [currentState], one after each atom that changes it. *)
Fixpoint visited {db} `{Platform} {A} (p : prog (World db) A) (w : World db) : list ServiceState :=
  match p with
  | Done _ => []
  | Atom f =>
      let '(o, w') := f w in
      let l := match o with Val q => visited q w' | _ => [] end in
      if decide (currentState (service w') = currentState (service w)) then l
      else currentState (service w') :: l
  end.

(** A path of the machine. *)
Fixpoint is_path (s : ServiceState) (l : list ServiceState) : Prop :=
  match l with
  | [] => True
  | s' :: l => transition s s' ∧ is_path s' l
  end.

Lemma is_path_app s l1 l2 :
  is_path s (l1 ++ l2) ↔ is_path s l1 ∧ is_path (default s (last l1)) l2.
Proof.
  revert s. induction l1 as [|s' l1 IH]; intros s; simpl; [tauto|].
  rewrite IH, last_cons. destruct (last l1); simpl; tauto.
Qed.

Section Visited.
Context {db : Type} `{Platform}.
Local Open Scope prog_scope.

Lemma visited_bind {A B} (p : prog (World db) A) (k : A → prog (World db) B) w :
  visited (prog_bind p k) w =
  visited p w ++ match run p w with (Val a, w') => visited (k a) w' | _ => [] end.
Proof.
  revert w. induction p as [a|f IH] using prog_rect_atoms; intros w; [done|].
  simpl. specialize (IH w). destruct (f w) as [o w']. simpl in IH.
  destruct o as [q| | | | |]; simpl; [rewrite IH|..];
    case_decide; by rewrite ?app_nil_r.
Qed.

Lemma last_visited {A} (p : prog (World db) A) w :
  default (currentState (service w)) (last (visited p w)) = currentState (service (run p w).2).
Proof.
  revert w. induction p as [a|f IH] using prog_rect_atoms; intros w; [done|].
  simpl. specialize (IH w). destruct (f w) as [o w']. simpl in IH.
  destruct o as [q| | | | |]; simpl; case_decide as Hs; try done.
  - by rewrite <- Hs.
  - rewrite <- IH. by destruct (last (visited q w')) eqn:E; rewrite last_cons, E.
Qed.

(** *** A small program logic for [currentState]

    From every world in state [s], [p] visits a path of the machine and ends in an
    outcome and a state that [Q] allows. *)
Definition walk {A} (s : ServiceState) (p : prog (World db) A)
    (Q : outcome A → ServiceState → Prop) : Prop :=
  ∀ w, currentState (service w) = s →
    is_path s (visited p w) ∧ Q (run p w).1 (currentState (service (run p w).2)).

Lemma walk_bind {A B} s (p : prog (World db) A) (k : A → prog (World db) B) Q :
  walk s p (λ o s', match o with
                    | Val a => walk s' (k a) Q
                    | Throw e => Q (Throw e) s'
                    | Undef u => Q (Undef u) s'
                    | Aborted => Q Aborted s'
                    | Blocked => Q Blocked s'
                    | OutOfFuel => Q OutOfFuel s'
                    end) →
  walk s (prog_bind p k) Q.
Proof.
  intros Hp w Hs. destruct (Hp w Hs) as [Hpath HQ].
  rewrite visited_bind, is_path_app, run_bind.
  pose proof (last_visited p w) as L. rewrite Hs in L. rewrite L.
  destruct (run p w) as [[a| | | | |] w']; simpl in *; try done.
  destruct (HQ w' eq_refl). done.
Qed.

Lemma walk_done {A} s (a : A) Q : Q (Val a) s → walk s (Done a) Q.
Proof. intros HQ w <-. done. Qed.
Lemma walk_throw {A} s e (Q : outcome A → ServiceState → Prop) : Q (Throw e) s → walk s (throw e) Q.
Proof. intros HQ w <-. simpl. by rewrite decide_True. Qed.
Lemma walk_undef {A} s u (Q : outcome A → ServiceState → Prop) : Q (Undef u) s → walk s (undef u) Q.
Proof. intros HQ w <-. simpl. by rewrite decide_True. Qed.

(** Atoms that leave the state alone, whatever value they give. *)
Lemma walk_gets {A} s (g : World db → A) Q : (∀ a, Q (Val a) s) → walk s (gets g) Q.
Proof. intros HQ w <-. simpl. by rewrite decide_True. Qed.
Lemma walk_state s Q : Q (Val s) s → walk s (gets (λ w, currentState (service w))) Q.
Proof. intros HQ w <-. simpl. by rewrite decide_True. Qed.
Lemma walk_modify s (g : World db → World db) Q :
  (∀ w, currentState (service (g w)) = currentState (service w)) → Q (Val tt) s →
  walk s (modify g) Q.
Proof. intros Hg HQ w <-. simpl. rewrite decide_True by done. by rewrite Hg. Qed.
Lemma walk_update {A} s (g : World db → A * World db) Q :
  (∀ w, currentState (service (g w).2) = currentState (service w)) → (∀ a, Q (Val a) s) →
  walk s (update g) Q.
Proof.
  intros Hg HQ w <-. simpl. specialize (Hg w). destruct (g w) as [a w']. simpl in *.
  rewrite decide_True by done. by rewrite Hg.
Qed.
Lemma walk_await {A} s (g : World db → option (A * World db)) Q :
  (∀ w a w', g w = Some (a, w') → currentState (service w') = currentState (service w)) →
  (∀ a, Q (Val a) s) → Q Blocked s → walk s (await g) Q.
Proof.
  intros Hg HQ HB w <-. simpl. specialize (Hg w). destruct (g w) as [[a w']|]; simpl.
  - specialize (Hg a w' eq_refl). rewrite decide_True by done. by rewrite Hg.
  - by rewrite decide_True.
Qed.
Lemma walk_lift_exn {A} s (r : exn + A) Q :
  (∀ e, r = inl e → Q (Throw e) s) → (∀ a, r = inr a → Q (Val a) s) → walk s (lift_exn r) Q.
Proof. intros HE HV. destruct r; [by apply walk_throw, HE|by apply walk_done, HV]. Qed.
Lemma walk_lift_ub {A} s u (r : option A) Q :
  (r = None → Q (Undef u) s) → (∀ a, r = Some a → Q (Val a) s) → walk s (lift_ub u r) Q.
Proof. intros HE HV. destruct r; [by apply walk_done, HV|by apply walk_undef, HE]. Qed.

(** [setState] takes one transition. *)
Lemma walk_setState s s' Q : transition s s' → Q (Val tt) s' → walk s (setState s') Q.
Proof.
  intros Ht HQ. apply walk_bind. intros w Hw. split.
  { simpl. rewrite decide_False by (rewrite Hw; by inversion Ht). done. }
  apply walk_bind, walk_state. destruct s'; simpl; [by apply walk_modify|by apply walk_done..].
Qed.
End Visited.

Create HintDb walk.
#[export] Hint Constructors transition : walk.

(** One step of a program text under [walk]: any result of an access is considered. *)
Ltac walk_step :=
  match goal with
  | |- walk _ (prog_bind _ _) _ => apply walk_bind
  | |- walk _ (Done _) _ => apply walk_done
  | |- walk _ (throw _) _ => apply walk_throw
  | |- walk _ (gets (λ w, currentState (service w))) _ => apply walk_state
  | |- walk _ (gets _) _ => apply walk_gets; intros ?
  | |- walk _ (modify _) _ => apply walk_modify; [done|]
  | |- walk _ (update _) _ =>
      apply walk_update; [intros ?; repeat case_match; simplify_eq/=; done|intros ?]
  | |- walk _ (lift_exn _) _ => apply walk_lift_exn; intros ? ?
  | |- walk _ (lift_ub _ _) _ => apply walk_lift_ub; [intros ?|intros ? ?]
  | |- walk _ (setState _) _ => apply walk_setState; [by eauto with walk|]
  | |- walk _ (if ?b then _ else _) _ => destruct b eqn:?
  | |- walk _ (match ?x with (_, _) => _ end) _ => destruct x
  end.

Section Machine.
Context {db : Type} `{KVStore db} `{Platform} (config : Config).

(** What may come of a handler of a state other than LISTEN: back to LISTEN, or an
    exception that leaves the machine where it was, or an overflow. *)
Definition back_or_stranded (o : outcome unit) (s : ServiceState) : Prop :=
  match o with
  | Val _ => s = ServiceListen
  | Throw _ => s ≠ ServiceListen
  | Undef u => u = signed_overflow ∧ s = ServiceApply
  | Aborted | Blocked | OutOfFuel => False
  end.

Lemma apply_walks : walk ServiceApply (apply_process config : prog (World db) unit) back_or_stranded.
Proof.
  unfold apply_process, db_error, append_file, db_Get, db_Put, assign_status, read_status,
    command_field, write_cerr.
  repeat (walk_step; cbv beta iota); simpl; try done.
Qed.

Lemma validate_walks k :
  walk ServiceApply k back_or_stranded →
  walk ServiceValidate (validate_process k : prog (World db) unit) back_or_stranded.
Proof.
  intros Hk.
  unfold validate_process, db_Get, assign_status, read_status, command_field, write_cout,
    write_cerr.
  repeat (walk_step; cbv beta iota); simpl; try done.
Qed.

Lemma process_walks :
  walk ServiceValidate (process config process_depth : prog (World db) unit) back_or_stranded.
Proof.
  cbn [process process_depth]. apply walk_bind, walk_state, validate_walks.
  apply walk_bind, walk_state, apply_walks.
Qed.

(** What comes after the command is received. *)
Definition received (c : Command) : prog (World db) unit :=
  prog_bind (modify (with_service (set_command_to_process c))) (λ _,
    prog_bind (setState ServiceValidate) (λ _, process config process_depth)).

Lemma received_walks c : walk ServiceListen (received c) back_or_stranded.
Proof. unfold received. repeat walk_step. apply process_walks. Qed.

Lemma receive_nonempty {T} (q : list T) :
  q ≠ [] → ∃ c q', MessageQueue.receive q = Some (c, q') ∧ q = q' ++ [c].
Proof.
  intros Hq. destruct (exists_last Hq) as (q' & c & ->). exists c, q'.
  unfold MessageQueue.receive. by rewrite last_snoc, removelast_last.
Qed.

Lemma toggle_received w c q :
  currentState (service w) = ServiceListen →
  MessageQueue.receive (command_queue (service w)) = Some (c, q) →
  run (toggle config) w = run (received c) (with_service (set_command_queue q) w) ∧
  visited (toggle config) w = visited (received c) (with_service (set_command_queue q) w).
Proof.
  intros Hs Hr. unfold toggle, listen_toggle, queue_receive. split.
  - rewrite run_bind, run_gets. cbn [and_then]. rewrite Hs, run_bind, run_await, Hr. done.
  - rewrite visited_bind, run_gets, Hs. cbn [visited gets]. rewrite decide_True by done.
    rewrite app_nil_l, visited_bind, run_await, Hr. cbn [visited await]. rewrite Hr.
    by rewrite decide_True.
Qed.

(** [toggle] from LISTEN with a command waiting, up to the end of the transfer. *)
Lemma toggle_walks w :
  currentState (service w) = ServiceListen → command_queue (service w) ≠ [] →
  is_path ServiceListen (visited (toggle config) w) ∧
  back_or_stranded (run (toggle config) w).1 (currentState (service (run (toggle config) w).2)).
Proof.
  intros Hs Hq. destruct (receive_nonempty _ Hq) as (c & q & Hr & _).
  destruct (toggle_received w c q Hs Hr) as [-> ->]. by apply received_walks.
Qed.

Lemma toggle_empty w :
  currentState (service w) = ServiceListen → command_queue (service w) = [] →
  run (toggle config) w = (Blocked, w) ∧ visited (toggle config) w = [].
Proof.
  intros Hs Hq. unfold toggle, listen_toggle, queue_receive. split.
  - rewrite run_bind, run_gets. cbn [and_then]. rewrite Hs, run_bind, run_await, Hq. done.
  - rewrite visited_bind, run_gets, Hs. cbn [visited gets]. rewrite decide_True by done.
    rewrite app_nil_l, visited_bind, run_await, Hq. cbn [visited await].
    rewrite Hq. cbn. by rewrite decide_True.
Qed.

(** C8: over any store, [toggle] follows the state machine LISTEN, VALIDATE, APPLY and
    always ends: it is back in LISTEN when it returns, an exception leaves it in the
    state that raised it, the only undefined behaviour is an overflow in APPLY, and it
    waits only in LISTEN with no command queued.  In any other state it does nothing. *)
Theorem toggle_follows_state_machine w :
  let '(o, w') := run (toggle config) w in
  is_path (currentState (service w)) (visited (toggle config) w) ∧
  match currentState (service w) with
  | ServiceListen =>
      match o with
      | Blocked => command_queue (service w) = [] ∧ w' = w
      | _ => command_queue (service w) ≠ [] ∧ back_or_stranded o (currentState (service w'))
      end
  | _ => o = Val tt ∧ w' = w
  end.
Proof.
  destruct (currentState (service w)) eqn:Hs.
  - destruct (command_queue (service w)) as [|c q] eqn:Hq.
    + destruct (toggle_empty w Hs Hq) as [-> ->]. done.
    + destruct (toggle_walks w Hs) as [Hp Hb]; [by rewrite Hq|].
      destruct (run (toggle config) w) as [o w']. simpl in *. split; [done|].
      by destruct o.
  - unfold toggle. simpl. by rewrite Hs, decide_True.
  - unfold toggle. simpl. by rewrite Hs, decide_True.
Qed.
End Machine.
