(* ===== verification/Concurrent.v ===== *)
(** * Requests served concurrently

    [app.port(...).multithreaded().run()]: a pool of worker threads, each serving one
    request at a time (lib/crowapi/crow_all.h, [Router::handle]: an exception that leaves a
    handler becomes a response 500).  The threads share the [Service]; a schedule says
    which thread makes the next atomic step. *)

From Stdlib Require Import ZArith.
From stdpp Require Import base tactics option strings list gmap relations.
From S2P Require Import Prelude.
From S2P Require Import CppStd.
From S2P Require Import RocksStatus.
From S2P Require Import Store.
From S2P Require Import World.
From S2P Require Import QueryString.
From S2P Require Import Crow.
From S2P Require Import Service.
From S2P Require Import Api.
From S2P Require Import Wallet.

Section Concurrent.
Context {db : Type} `{KVStore db} `{Platform} (config : Config).

(** The [try] block of [Router::handle]. *)
Definition internal_error (e : exn) : prog (World db) response :=
  Done (Response.of_code 500).
Definition serve_request (r : route) (req : request) : prog (World db) response :=
  catch internal_error (handler config r req).

(** A busy worker: the request it serves and the rest of its handler. *)
Record thread : Type := MkThread {
  t_route : route;
  t_request : request;
  t_code : prog (World db) response
}.

Record conf : Type := MkConf {
  world : World db;
  running : list thread;
  answered : list (route * request * response)
}.

(** One choice of the scheduler: an idle worker takes a request, a thread makes its next
    atomic step, a finished thread hands its response to the connection. *)
Inductive choice : Type :=
| Accept (r : route) (req : request)
| Run (i : nat)
| Answer (i : nat).

(** The next step of a thread, if it is not waiting. *)
Definition advance (p : prog (World db) response) (w : World db) :
    option (prog (World db) response * World db) :=
  match p with
  | Done _ => None
  | Atom f => match f w with (Val q, w') => Some (q, w') | _ => None end
  end.

Definition take_step (workers : nat) (ch : choice) (c : conf) : option conf :=
  match ch with
  | Accept r req =>
      if (length (running c) <? workers)%nat then
        Some (MkConf (world c) (running c ++ [MkThread r req (serve_request r req)])
                (answered c))
      else None
  | Run i =>
      t ← running c !! i;
      '(q, w) ← advance (t_code t) (world c);
      Some (MkConf w (<[i := MkThread (t_route t) (t_request t) q]> (running c)) (answered c))
  | Answer i =>
      t ← running c !! i;
      match t_code t with
      | Done res =>
          Some (MkConf (world c) (delete i (running c))
                  (answered c ++ [(t_route t, t_request t, res)]))
      | Atom _ => None
      end
  end.

Fixpoint schedule (workers : nat) (chs : list choice) (c : conf) : option conf :=
  match chs with
  | [] => Some c
  | ch :: chs => c' ← take_step workers ch c; schedule workers chs c'
  end.

(** The process has crashed, or is about to: the next step of a thread has undefined
    behaviour, fails an assertion, or is an exception nobody catches. *)
Definition crashing (c : conf) : Prop :=
  ∃ i t f, running c !! i = Some t ∧ t_code t = Atom f ∧
    match (f (world c)).1 with Val _ | Blocked => False | _ => True end.

(** The steps of a process whose clients send only requests that satisfy [P]. *)
Definition step (workers : nat) (P : route → request → Prop) (c c' : conf) : Prop :=
  ∃ ch, take_step workers ch c = Some c' ∧
    match ch with Accept r req => P r req | _ => True end.

Definition idle (w : World db) : conf := MkConf w [] [].
End Concurrent.

Arguments thread _ {_}.
Arguments conf _ {_}.
