(* ===== verification/App.v ===== *)
(** * The wallet's application: its routes and what each request is answered

    src/main.cpp, the four [CROW_ROUTE]s and the route of static files that
    [app.run()] adds; what the router makes of them for every method and URL, and that a
    request for a route is served as [Concurrent.serve_request] says. *)

From Stdlib Require Import ZArith Lia Ascii String.
From stdpp Require Import base tactics option strings list gmap.
From S2P Require Import Prelude.
From S2P Require Import CppStd.
From S2P Require Import Store.
From S2P Require Import World.
From S2P Require Import QueryString.
From S2P Require Import Crow.
From S2P Require Import Trie.
From S2P Require Import TrieFacts.
From S2P Require Import RouteParams.
From S2P Require Import Router.
From S2P Require Import RouterFacts.
From S2P Require Import Instances.
From S2P Require Import Api.
From S2P Require Import Wallet.
From S2P Require Import Concurrent.

Section App.
Context `{Doubles} {db : Type} `{KVStore db} `{Platform}.
(** [C] is the state of the connection, which the handlers do not touch. *)
Context {C : Type} (config : Config) (complete : prog (response * (C * World db)) unit)
        (stat : string → prog (C * World db) (option Z)).

(** ** The routes *)

Definition route_url (rt : route) : string :=
  match rt with
  | CreateAccount => "/api/1.0/wallet/create_account"
  | BalanceTransfer => "/api/1.0/wallet/balance_transfer"
  | GetBalance => "/api/1.0/wallet/get_balance"
  | Events => "/api/1.0/wallet/events"
  end.

(** [CROW_ROUTE(app, url)(handler)] *)
Definition wallet_rule (rt : route) : BaseRule :=
  with_handler (wrapped_handler_call complete (λ req, on_state (handler config rt req)))
               (TaggedRule (list_ascii_of_string (route_url rt))).
Definition routes : list route := [CreateAccount; BalanceTransfer; GetBalance; Events].
Definition wallet_app : router := fold_left (λ app rt, new_rule_tagged (wallet_rule rt) app) routes new_router.

(** The router once [app.run()] has validated the application. *)
Definition wallet_router : outcome router := app_validate complete stat wallet_app.

(** ** What a URL is *)

Inductive target : Type := Api (rt : route) | StaticFile | NoTarget.

Definition target_of (url : string) : target :=
  match List.find (λ rt, String.eqb url (route_url rt)) routes with
  | Some rt => Api rt
  | None => if String.prefix "/static/" url && negb (String.eqb url "/static/") then StaticFile
            else NoTarget
  end.

Definition static_rule : BaseRule :=
  with_handler (serve_static complete stat) (TaggedRule static_endpoint).

(** What is left of a static file's URL, the handler's parameter. *)
Definition static_params (url : string) : routing_params :=
  push_all no_params [StringValue (drop 8 (list_ascii_of_string url))].

(** What the application does with a request: a route is called for GET and HEAD. *)
Definition wallet_get (req : request) : prog (response * (C * World db)) unit :=
  match target_of (req_url req) with
  | Api rt => call_rule complete (wallet_rule rt) req no_params
  | StaticFile => call_rule complete static_rule req (static_params (req_url req))
  | NoTarget => prog_bind (res_do (Response.set_code 404)) (λ _, res_end complete)
  end.
Definition wallet_handle (req : request) : prog (response * (C * World db)) unit :=
  let allow := respond complete 204 (res_do (Response.set_header "Allow" "OPTIONS, HEAD, GET")) in
  match req_method req, target_of (req_url req) with
  | Get, _ => wallet_get req
  | Head, _ => prog_bind (res_do (Response.set_skip_body true)) (λ _, wallet_get req)
  | Options, NoTarget => if String.eqb (req_url req) "/*" then allow else respond complete 404 (Done tt)
  | Options, _ => allow
  | _, NoTarget => prog_bind (res_do (Response.set_code 404)) (λ _, res_end complete)
  | _, _ => prog_bind (res_do (Response.set_code 405)) (λ _, res_end complete)
  end.

(** ** The table of the wallet's rules *)

Definition wallet_table : list BaseRule := (wallet_rule <$> routes) ++ [static_rule].

Lemma wallet_table_ok : table_ok wallet_table.
Proof.
  split.
  - unfold wallet_table, routes. cbn [fmap list_fmap app].
    repeat (apply Forall_cons_2; [split; [..|by eexists]|]);
      try apply Forall_nil_2; unfold rule_entries, rooted;
      (refine (bool_decide_eq_true_1 _ _); by vm_compute).
  - intros m. apply distinct_methods. refine (bool_decide_eq_true_1 _ _). by vm_compute.
  - by vm_compute.
Qed.

Lemma wallet_rule_methods o : o ∈ wallet_table → foreach_method o = [1%nat].
Proof.
  assert (Forall (λ o, foreach_method o = [1%nat]) wallet_table) as Hf.
  { unfold wallet_table, routes. cbn [fmap list_fmap app].
    repeat (apply Forall_cons_2; [by vm_compute|]). apply Forall_nil_2. }
  rewrite Forall_forall in Hf. apply Hf.
Qed.

Lemma filter_all {A} (f : A → bool) b l :
  (∀ a, a ∈ l → f a = b) → List.filter f l = if b then l else [].
Proof.
  induction l as [|a l IH]; intros Hf; [by destruct b|]. cbn.
  rewrite (Hf a), IH by (by left || intros; apply Hf; by right). by destruct b.
Qed.

Lemma wallet_methods m :
  method_rules m wallet_table = if bool_decide (m = 1%nat) then wallet_table else [].
Proof.
  apply filter_all. intros o Ho. rewrite (wallet_rule_methods o Ho).
  apply bool_decide_ext. rewrite list_elem_of_singleton. done.
Qed.

(** The table's answer for a URL. *)
Definition target_answer (url : string) : RouterFacts.answer :=
  match target_of url with
  | Api rt => RouterFacts.Answer (wallet_rule rt) []
  | StaticFile => RouterFacts.Answer static_rule [StringValue (drop 8 (list_ascii_of_string url))]
  | NoTarget => NoAnswer
  end.

Lemma list_ascii_eqb url t :
  bool_decide (list_ascii_of_string url = list_ascii_of_string t) = String.eqb url t.
Proof.
  destruct (String.eqb_spec url t) as [->|Hne]; [by apply bool_decide_eq_true_2|].
  apply bool_decide_eq_false_2. intros E. apply Hne.
  by rewrite <- (string_of_list_ascii_of_string url), E, string_of_list_ascii_of_string.
Qed.

Lemma compare_at_prefix t url :
  compare_at (list_ascii_of_string url) 0 (list_ascii_of_string t) = String.prefix t url.
Proof.
  unfold compare_at. rewrite drop_0. revert url. induction t as [|c t IH]; intros url; [by rewrite bool_decide_eq_true_2; [destruct url|]|].
  destruct url as [|d url]; [done|]. cbn [list_ascii_of_string length take String.prefix].
  rewrite bool_decide_cons, IH. destruct (ascii_dec c d) as [->|Hcd].
  - by rewrite bool_decide_eq_true_2.
  - by rewrite bool_decide_eq_false_2 by congruence.
Qed.

(** Reading a URL without parameters. *)
Lemma read_static s k :
  read_url s (inl <$> k) 0 = if bool_decide (s = k) then Some [] else None.
Proof.
  rewrite <- (app_nil_r (inl <$> k)), read_key. cbn [read_url]. rewrite Nat.add_0_l.
  unfold compare_at. rewrite drop_0. case_bool_decide as Ht.
  - destruct (Nat.eqb_spec (length k) (length s)) as [E|E].
    + rewrite bool_decide_eq_true_2; [done|]. rewrite <- Ht, E. by rewrite firstn_all.
    + rewrite bool_decide_eq_false_2; [done|]. by intros ->.
  - rewrite bool_decide_eq_false_2; [done|]. intros ->. apply Ht, firstn_all.
Qed.

Lemma reads_route rt url :
  read_url (list_ascii_of_string url) (items_of (rule_ (wallet_rule rt))) 0 =
  if String.eqb url (route_url rt) then Some [] else None.
Proof.
  assert (items_of (rule_ (wallet_rule rt)) = inl <$> list_ascii_of_string (route_url rt)) as ->
    by (destruct rt; vm_compute; reflexivity).
  by rewrite read_static, list_ascii_eqb.
Qed.
Lemma reads_static url :
  read_url (list_ascii_of_string url) (items_of (rule_ static_rule)) 0 =
  if String.prefix "/static/" url && negb (String.eqb url "/static/")
  then Some [StringValue (drop 8 (list_ascii_of_string url))] else None.
Proof.
  assert (items_of (rule_ static_rule) = (inl <$> list_ascii_of_string "/static/") ++ [inr PATH]) as ->
    by (vm_compute; reflexivity).
  rewrite read_key, compare_at_prefix. destruct (String.prefix "/static/" url) eqn:Ep; [|done].
  rewrite <- compare_at_prefix in Ep. unfold compare_at in Ep. apply bool_decide_eq_true_1 in Ep.
  rewrite drop_0 in Ep. change (length (list_ascii_of_string "/static/")) with 8%nat in *.
  cbn [andb Nat.add read_url match_param]. set (u := list_ascii_of_string url) in *.
  pose proof (take_drop 8 u) as Hu. rewrite Ep in Hu.
  destruct (drop 8 u) as [|c r] eqn:Ed.
  - assert (String.eqb url "/static/" = true) as ->; [|done].
    rewrite <- list_ascii_eqb. apply bool_decide_eq_true_2. fold u. by rewrite <- Hu, app_nil_r.
  - assert (String.eqb url "/static/" = false) as ->.
    { rewrite <- list_ascii_eqb. apply bool_decide_eq_false_2. fold u. intros E. by rewrite E in Ed. }
    cbn [negb fmap option_fmap option_map]. rewrite <- Ed, length_drop.
    rewrite (proj2 (Nat.eqb_eq _ _)); [by rewrite Ed|].
    assert (8 < length u)%nat; [|lia]. apply (f_equal length) in Ed. rewrite length_drop in Ed. cbn in Ed. lia.
Qed.

Lemma wallet_answer url :
  table_answer wallet_table (list_ascii_of_string url) = target_answer url.
Proof.
  unfold table_answer.
  assert (redirects wallet_table (list_ascii_of_string url) = false) as -> by done.
  unfold wallet_table, target_answer, target_of, routes. cbn [fmap list_fmap app List.find pick].
  rewrite !reads_route, reads_static.
  repeat match goal with |- context [String.eqb url (route_url ?t)] => destruct (String.eqb url (route_url t)) end;
    by destruct (String.prefix "/static/" url && negb (String.eqb url "/static/")).
Qed.
Lemma existsb_ext {A} (f g : A → bool) l : (∀ a, f a = g a) → existsb f l = existsb g l.
Proof. intros Hfg. induction l as [|a l IH]; [done|]. cbn. by rewrite Hfg, IH. Qed.

Lemma wallet_known url :
  known_url wallet_table (list_ascii_of_string url) =
  match target_of url with NoTarget => false | _ => true end.
Proof.
  unfold known_url. rewrite (existsb_ext _ (λ m, if bool_decide (m = 1%nat)
    then match target_of url with NoTarget => false | _ => true end else false)).
  { by destruct (target_of url). }
  intros m. rewrite wallet_methods. case_bool_decide; [|done]. rewrite wallet_answer. unfold target_answer.
  by destruct (target_of url).
Qed.

(** A method that only the wallet's rules could have. *)
Lemma list_methods_get b f :
  (∀ m, f m = if bool_decide (m = 1%nat) then b else false) →
  list_methods f = if b then "OPTIONS, HEAD, GET, " else "OPTIONS, HEAD, ".
Proof.
  intros Hf. unfold list_methods.
  rewrite (fold_left_ext_in _ (λ allow i, if (if bool_decide (i = 1%nat) then b else false)
             then allow +:+ method_name (method_of_value i) +:+ ", " else allow)).
  { by destruct b; vm_compute. }
  intros allow i _. by rewrite Hf.
Qed.

Lemma wallet_dispatch r m req :
  catchall_rule_ r = None →
  table_dispatch complete r wallet_table m req =
  if bool_decide (m = Get) then wallet_get req
  else prog_bind (res_do (Response.set_code
                    (match target_of (req_url req) with NoTarget => 404 | _ => 405 end)))
                 (λ _, res_end complete).
Proof.
  intros Hc. unfold table_dispatch, get_error. rewrite Hc, wallet_methods.
  unfold url_of. rewrite wallet_known.
  assert (bool_decide (method_value m = 1%nat) = bool_decide (m = Get)) as -> by by destruct m.
  case_bool_decide; [|by destruct (target_of _)]. rewrite wallet_answer. unfold target_answer, wallet_get.
  by destruct (target_of _).
Qed.

Lemma wallet_options r req :
  req_method req = Options →
  table_handle complete r wallet_table req = wallet_handle req.
Proof.
  intros Hm. unfold table_handle, wallet_handle. rewrite Hm.
  destruct (String.eqb (req_url req) "/*") eqn:Eu; cbn [negb andb].
  - rewrite (list_methods_get true).
    + apply String.eqb_eq in Eu. by rewrite Eu.
    + intros m. rewrite wallet_methods. by destruct (bool_decide (m = 1%nat)).
  - rewrite (list_methods_get (match target_of (req_url req) with NoTarget => false | _ => true end)).
    + by destruct (target_of _).
    + intros m. rewrite wallet_methods. case_bool_decide; [|done]. unfold url_of.
      rewrite wallet_answer. unfold target_answer. by destruct (target_of _).
Qed.

Lemma wallet_table_handle r req :
  catchall_rule_ r = None →
  table_handle complete r wallet_table req = wallet_handle req.
Proof.
  intros Hc. destruct (req_method req) eqn:Hm; try (by apply wallet_options);
    unfold table_handle, wallet_handle; rewrite Hm, wallet_dispatch by done;
    by destruct (target_of _).
Qed.

Lemma wallet_router_handles :
  ∃ r, wallet_router = Val r ∧ ∀ req, handle complete r req = wallet_handle req.
Proof.
  destruct (validate_serves wallet_table None wallet_table_ok) as (r & Hv & Hc & _ & Hs).
  exists r. split; [exact Hv|]. intros req.
  rewrite (serves_handle complete r wallet_table req Hs). by apply wallet_table_handle.
Qed.
(** ** What serving a route does *)

Lemma run_assign_end resp res s :
  run (prog_bind (assign_res resp) (λ _, res_end complete)) (res, s) =
  run (res_end complete) (Response.move_assign res resp, s).
Proof. done. Qed.

(** The state after the handler of a route has run alone and its answer is sent. *)
Definition served (rt : route) (req : request) (res : response) (c : C) (w : World db) :
    outcome unit * (response * (C * World db)) :=
  match run (serve_request config rt req) w with
  | (Val resp, w') => run (res_end complete) (Response.move_assign res resp, (c, w'))
  | (o, w') => (outcome_map (λ _, tt) o, (res, (c, w')))
  end.

Lemma run_call_route rt req params res c w :
  (∀ s, match (run complete s).1 with Throw _ => False | _ => True end) →
  run (call_rule complete (wallet_rule rt) req params) (res, (c, w)) = served rt req res c w.
Proof.
  intros Hc. unfold call_rule, served, serve_request. rewrite !run_catch.
  cbn [handler_ wallet_rule with_handler]. unfold wrapped_handler_call.
  rewrite run_bind, !run_on_state.
  destruct (run (handler config rt req) w) as [[resp|e| | | |] w'] eqn:E; try done.
  cbn [and_then]. rewrite run_assign_end.
  assert (∀ s, match (run (res_end complete) s).1 with Throw _ => False | _ => True end) as Hend.
  { intros [r v]. unfold res_end. rewrite run_bind, run_update. cbn.
    destruct (Response.end_ r) as [r' []]; cbn; [apply Hc|done]. }
  specialize (Hend (Response.move_assign res resp, (c, w'))).
  destruct (run (res_end complete) _) as [[] ?]; done.
Qed.
End App.

(** C31: The wallet's application validates, and its router answers every request, whatever the
    method and the URL, as [wallet_handle] reads: the four routes and the static files, with what follows
    /static/ in the URL, for GET and HEAD, 405 for another method on them, 404 for any other URL,
    and the methods allowed for OPTIONS. *)
Theorem wallet_routes_requests `{Doubles} {db} `{KVStore db} `{Platform} {C} config complete stat :
  ∃ r, wallet_router (C := C) config complete stat = Val r ∧
    ∀ req, handle complete r req = wallet_handle config complete stat req.
Proof. apply wallet_router_handles. Qed.

(** C33: Over the network or called directly, a route gives the same answer: a GET request for
    the URL of a route, handled by the router, leaves the world [Concurrent.serve_request]
    leaves, and its response with the fields of serve_request's response, then ends it.  The
    completion handler does not throw. *)
Theorem wallet_serves_route `{Doubles} {db} `{KVStore db} `{Platform}
    {C} config complete stat r rt req res (c : C) w :
  wallet_router config complete stat = Val r →
  (∀ s, match (run complete s).1 with Throw _ => False | _ => True end) →
  req_method req = Get → req_url req = route_url rt →
  run (handle complete r req) (res, (c, w)) = served config complete rt req res c w.
Proof.
  intros Hr Hc Hm Hu.
  destruct (wallet_router_handles config complete stat) as (r' & Hr' & Hh).
  rewrite Hr in Hr'. injection Hr' as <-. rewrite (Hh req).
  unfold wallet_handle, wallet_get. rewrite Hm, Hu.
  assert (target_of (route_url rt) = Api rt) as -> by by destruct rt.
  by apply run_call_route.
Qed.

Lemma wallet_serves_route_witness :
  let req := get_request "/api/1.0/wallet/create_account?startAmount=100" in
  ∃ r, @wallet_router integer_doubles (gmap string string) _ _ unit Config.defaults (Done tt)
         (λ _, Done None) = Val r ∧
    (let '(o, (res, _)) := run (handle (Done tt) r req) (Response.empty, (tt, fresh)) in
     (o, code res, body res)) = (Val tt, 200%Z, "Account: 700000001 : Balance: 100" +:+ endl).
Proof.
  intros req.
  destruct (@wallet_router_handles integer_doubles (gmap string string) _ _ unit Config.defaults
              (Done tt) (λ _, Done None)) as (r & Hr & _).
  exists r. split; [exact Hr|].
  rewrite (wallet_serves_route Config.defaults (Done tt) (λ _, Done None) r CreateAccount req
             Response.empty tt fresh Hr (λ _, I) eq_refl eq_refl).
  vm_compute. reflexivity.
Defined.
