(* ===== verification/ConcurrentFacts.v ===== *)
(** * Concurrent transfers are serialised

    Whatever the schedule, transfers and reads of the log served concurrently leave what
    some sequential order of the transfers leaves: the invariant, its preservation by every
    step, and what follows from it. *)

From Stdlib Require Import ZArith Lia Permutation.
From stdpp Require Import base tactics option strings list gmap relations.
From S2P Require Import Prelude.
From S2P Require Import CppStd.
From S2P Require Import RocksStatus.
From S2P Require Import Store.
From S2P Require Import World.
From S2P Require Import QueryString.
From S2P Require Import Crow.
From S2P Require Import Service.
From S2P Require Import Ledger.
From S2P Require Import ServiceFacts.
From S2P Require Import Transfer.
From S2P Require Import Api.
From S2P Require Import ApiFacts.
From S2P Require Import Wallet.
From S2P Require Import Machine.
From S2P Require Import Concurrent.
From S2P Require Import Instances.

(** ** What the other threads may change under a transfer in progress

    They draw identifiers and queue commands; only the lock itself could change besides.  A
    framed program neither sees nor touches any of these. *)
Section Frames.
Context {db : Type} `{Platform}.

Definition reenv (u : uuid_state) (q : list Command) (m : bool) (w : World db) : World db :=
  with_uuids u (with_service (λ s, set_cv_m m (set_command_queue q s)) w).

Lemma reenv_id w : reenv (uuids w) (command_queue (service w)) (cv_m (service w)) w = w.
Proof. by destruct w as [[] ? ? ? ?]. Qed.

Fixpoint frames {A} (p : prog (World db) A) : Prop :=
  match p with
  | Done _ => True
  | Atom f =>
      ∀ w, (∀ u q m, f (reenv u q m w) = ((f w).1, reenv u q m (f w).2)) ∧
           match (f w).1 with Val r => frames r | _ => True end
  end.

Lemma frames_bind {A B} (p : prog (World db) A) (k : A → prog (World db) B) :
  frames p → (∀ a, frames (k a)) → frames (prog_bind p k).
Proof.
  intros Hp Hk. induction p as [a|f IH] using prog_rect_atoms; [apply Hk|].
  intros w. destruct (Hp w) as [E F]. specialize (IH w). split.
  - intros u q m. rewrite E. by destruct (f w).
  - destruct (f w) as [[r| | | | |] w']; simpl in *; auto.
Qed.

Lemma frames_gets {A} (g : World db → A) :
  (∀ u q m w, g (reenv u q m w) = g w) → frames (gets g).
Proof. intros Hg w. split; [|done]. intros u q m. simpl. by rewrite Hg. Qed.
Lemma frames_modify (g : World db → World db) :
  (∀ u q m w, g (reenv u q m w) = reenv u q m (g w)) → frames (modify g).
Proof. intros Hg w. split; [|done]. intros u q m. simpl. by rewrite Hg. Qed.
Lemma frames_update {A} (g : World db → A * World db) :
  (∀ u q m w, g (reenv u q m w) = ((g w).1, reenv u q m (g w).2)) → frames (update g).
Proof.
  intros Hg w. split; [intros u q m; simpl; rewrite Hg|simpl]; by destruct (g w).
Qed.
Lemma frames_throw {A} e : frames (@throw (World db) A e).
Proof. done. Qed.
Lemma frames_lift_exn {A} (r : exn + A) : frames (lift_exn r : prog (World db) A).
Proof. by destruct r. Qed.
Lemma frames_lift_ub {A} u (r : option A) : frames (lift_ub u r : prog (World db) A).
Proof. by destruct r. Qed.

(** A step of a framed program keeps what it does not see. *)
Lemma frames_keeps (f : World db → outcome (prog (World db) response) * World db) w :
  frames (Atom f) →
  command_queue (service (f w).2) = command_queue (service w) ∧
  cv_m (service (f w).2) = cv_m (service w).
Proof.
  intros Hf. destruct (Hf w) as [E _].
  specialize (E (uuids w) (command_queue (service w)) (cv_m (service w))).
  rewrite reenv_id in E. split; by rewrite E at 1.
Qed.

Lemma run_frames {A} (p : prog (World db) A) w u q m :
  frames p → run p (reenv u q m w) = ((run p w).1, reenv u q m (run p w).2).
Proof.
  revert w. induction p as [a|f IH] using prog_rect_atoms; intros w Hp; [done|].
  destruct (Hp w) as [E F]. specialize (IH w). simpl. rewrite E.
  destruct (f w) as [[r| | | | |] w']; simpl in *; auto.
Qed.
End Frames.

Create HintDb frames.
#[export] Hint Resolve frames_throw frames_lift_exn frames_lift_ub : frames.

Ltac frames_step :=
  match goal with
  | |- frames (prog_bind _ _) => apply frames_bind; [|intros ?]
  | |- frames (Done _) => exact I
  | |- frames (gets _) => apply frames_gets; done
  | |- frames (modify _) => apply frames_modify; done
  | |- frames (update _) =>
      apply frames_update; intros ? ? ? ?; simpl; repeat case_match; simplify_eq/=; done
  | |- frames (if ?b then _ else _) => destruct b
  | |- frames (match ?x with (_, _) => _ end) => destruct x
  | |- frames _ => solve [eauto with frames]
  end.

Section FramedPrograms.
Context {db : Type} `{KVStore db} `{Platform} (config : Config).

Lemma frames_setState s : frames (setState s : prog (World db) unit).
Proof. unfold setState, onEnter. repeat frames_step. destruct a0; repeat frames_step. Qed.
#[local] Hint Resolve frames_setState : frames.

Lemma frames_apply : frames (apply_process config : prog (World db) unit).
Proof.
  unfold apply_process, db_error, append_file, db_Get, db_Put, assign_status, read_status,
    command_field, write_cerr.
  repeat (frames_step; cbv beta iota).
Qed.

Lemma frames_validate k : frames k → frames (validate_process k : prog (World db) unit).
Proof.
  intros Hk.
  unfold validate_process, db_Get, assign_status, read_status, command_field, write_cout,
    write_cerr.
  repeat (frames_step; cbv beta iota).
Qed.

Lemma frames_process n : frames (process config n : prog (World db) unit).
Proof.
  induction n as [|n IH]; [done|]. cbn [process]. apply frames_bind; [repeat frames_step|].
  intros []; [done|by apply frames_validate|apply frames_apply].
Qed.

Lemma frames_received c : frames (received config c : prog (World db) unit).
Proof.
  unfold received. repeat frames_step. apply frames_process.
Qed.
End FramedPrograms.

(** ** Counting over the threads *)

Section Counting.
Context {A : Type}.

Fixpoint tally (f : A → nat) (l : list A) : nat :=
  match l with [] => 0 | x :: l => f x + tally f l end.

Lemma tally_app f l1 l2 : tally f (l1 ++ l2) = (tally f l1 + tally f l2)%nat.
Proof. induction l1 as [|x l1 IH]; simpl; [done|]. rewrite IH. lia. Qed.

Lemma tally_insert f l i x y :
  l !! i = Some x → (tally f (<[i := y]> l) + f x = tally f l + f y)%nat.
Proof.
  revert i. induction l as [|z l IH]; intros i Hi; [done|].
  destruct i as [|i]; simpl in *; [simplify_eq; lia|]. specialize (IH i Hi). lia.
Qed.

Lemma tally_delete f l i x : l !! i = Some x → (tally f (delete i l) + f x = tally f l)%nat.
Proof.
  revert i. induction l as [|z l IH]; intros i Hi; [done|].
  destruct i as [|i]; simpl in *; [simplify_eq; lia|]. specialize (IH i Hi). lia.
Qed.

Lemma tally_lookup f l i x : l !! i = Some x → (f x ≤ tally f l)%nat.
Proof. intros Hi. pose proof (tally_delete f l i x Hi). lia. Qed.

Lemma tally_zero f l : tally f l = 0%nat → ∀ i x, l !! i = Some x → f x = 0%nat.
Proof. intros Hz i x Hi. pose proof (tally_lookup f l i x Hi). lia. Qed.

Lemma tally_two f l i j x y :
  l !! i = Some x → l !! j = Some y → i ≠ j → (f x + f y ≤ tally f l)%nat.
Proof.
  intros Hi Hj Hne. pose proof (tally_insert f l i x y Hi) as E.
  pose proof (tally_insert f (<[i := y]> l) j y x) as E'.
  rewrite list_lookup_insert_ne in E' by done. specialize (E' Hj).
  revert i j Hi Hj Hne E E'. induction l as [|z l IH]; intros i j Hi Hj Hne E E'; [done|].
  destruct i as [|i], j as [|j]; simpl in *; simplify_eq; try lia.
  - pose proof (tally_lookup f l j y Hj). lia.
  - pose proof (tally_lookup f l i x Hi). lia.
  - assert (i ≠ j) by lia. specialize (IH i j Hi Hj). lia.
Qed.
End Counting.

Local Open Scope Z_scope.

(** ** Transfers *)

(** What a transfer request asks for, as its command prints it. *)
Definition transfer_of (r : route) (req : request) : option (string * string * string) :=
  match r with
  | BalanceTransfer =>
      match param (url_params req) "fromAccount", param (url_params req) "toAccount",
            param (url_params req) "amount" with
      | Some (Some a), Some (Some b), Some (Some s) =>
          match stoi s with
          | inr n => if n <=? 0 then None else Some (a, b, to_string n)
          | inl _ => None
          end
      | _, _, _ => None
      end
  | _ => None
  end.

Definition command_transfer (c : Command) : string * string * string :=
  (account1 c, account2 c, cmd_amount c).

(** The requests considered: reads of the log, and transfers between two accounts whose
    URLs the server can read. *)
Definition transfers_only (r : route) (req : request) : Prop :=
  match r with
  | Events => True
  | BalanceTransfer =>
      Forall (λ k, param (url_params req) k ≠ None) ["fromAccount"; "toAccount"; "amount"] ∧
      match transfer_of r req with Some (a, b, _) => a ≠ b | None => True end
  | _ => False
  end.

Definition good_command (c : Command) : Prop :=
  ∃ n, transfer_command c n ∧ account1 c ≠ account2 c.

(** The abstract wallet after a command, and after several. *)
Definition settle_command (A : wallet) (c : Command) : wallet :=
  match stoi (cmd_amount c) with
  | inl _ => A
  | inr n =>
      let '(v, L) := spec_transfer (ledger A) (account1 c) (account2 c) n in settle A c v L
  end.

Definition settle_all (A : wallet) (cs : list Command) : wallet := foldl settle_command A cs.

Lemma settle_all_snoc A cs c : settle_all A (cs ++ [c]) = settle_command (settle_all A cs) c.
Proof. unfold settle_all. by rewrite foldl_app. Qed.

Lemma settle_all_total A cs : total (ledger (settle_all A cs)) = total (ledger A).
Proof.
  induction cs as [|c cs IH] using rev_ind; [done|]. rewrite settle_all_snoc, <- IH.
  unfold settle_command. destruct (stoi (cmd_amount c)); [done|].
  destruct (spec_transfer _ _ _ _) as [v L] eqn:E. simpl. by eapply spec_transfer_total.
Qed.

Lemma total_nonneg (L : Ledger) : ledger_ok L → 0 ≤ total L.
Proof.
  intros HL. induction L as [|k v L Hk IH] using map_ind.
  - unfold total. by rewrite map_fold_empty.
  - rewrite total_insert_fresh by done. apply map_Forall_insert in HL as [Hv HL]; [|done].
    specialize (IH HL). simpl in Hv. lia.
Qed.

(** When all the money fits an [int], every transfer has room. *)
Lemma total_room L a b n :
  ledger_ok L → total L ≤ INT_MAX → a ≠ b → has_room L a b n = true.
Proof.
  intros HL Ht Hab. unfold has_room.
  destruct (L !! a) as [x|] eqn:Ea; [|done]. destruct (L !! b) as [y|] eqn:Eb; [|done].
  apply orb_true_iff. destruct (Z.le_gt_cases n x); [right; apply Z.leb_le|left; by apply Z.ltb_lt].
  assert (delete a L !! b = Some y) as Eb' by (by rewrite lookup_delete_ne).
  rewrite (total_delete a x L Ea), (total_delete b y _ Eb') in Ht.
  assert (0 ≤ total (delete b (delete a L))).
  { apply total_nonneg. by apply map_Forall_delete, map_Forall_delete. }
  lia.
Qed.

(** ** The world apart from the lock and the queue *)
Section Settled.
Context {db : Type} `{KVLaws db} `{!KVReliable db} `{PlatformLaws} (config : Config).

Definition holds (A : wallet) (w : World db) : Prop :=
  represents config A (with_service (λ s, set_cv_m false (set_command_queue [] s)) w).

Lemma holds_listen A w : holds A w → currentState (service w) = ServiceListen.
Proof. intros HA. apply (rep_state _ _ _ HA). Qed.

(** A change of what [holds] does not look at. *)
Lemma holds_ext A w w' :
  holds A w → accountDB (service w') = accountDB (service w) → fs w' = fs w →
  currentState (service w') = currentState (service w) → holds A w'.
Proof.
  intros [Hst HL Hi Hnm Hs Hlog Hls Hq Hm] E1 E2 E3.
  split; simpl in *; rewrite ?E1, ?E2, ?E3; done.
Qed.

(** Receiving a command and processing it settles it. *)
Lemma received_settles A w c :
  holds A w → config_ok config → good_command c → total (ledger A) ≤ INT_MAX →
  ∃ w', run (received config c) w = (Val tt, w') ∧ holds (settle_command A c) w' ∧
        cv_m (service w') = cv_m (service w).
Proof.
  intros HA Hcfg (n & Hc & Hab) Htot. pose proof Hcfg as (_ & Hw2 & _).
  pose proof (total_room _ _ _ n (rep_ledger _ _ _ HA) Htot Hab) as Hroom.
  pose proof (rep_store _ _ _ HA) as Hst. pose proof (rep_ledger _ _ _ HA) as HL.
  pose proof (holds_listen A w HA) as Hls.
  unfold settle_command. rewrite (command_amount c n Hc).
  destruct w as [[d st q cs c0 k m] f u co ce]. simpl in Hst, Hls. subst cs.
  destruct (spec_transfer (ledger A) (account1 c) (account2 c) n) as [v L'] eqn:E.
  pose proof (toggle_transfer config (ledger A) d st q c c0 k m f u co ce n Hst HL Hc Hab
                Hroom Hw2) as Ht.
  rewrite E in Ht. destruct Ht as (d' & st' & Hst' & _ & Hrun).
  destruct (toggle_received config
              (MkWorld (MkService d st (MessageQueue.send c q) ServiceListen c0 k m) f u co ce)
              c q eq_refl (queue_receive_send c q)) as [Hr _].
  rewrite Hrun in Hr. unfold with_service, set_command_queue in Hr. world_simpl.
  eexists. split; [symmetry; exact Hr|]. split; [|done].
  unfold holds. eapply (represents_settle config A d st c0 k f u co ce d' st' (S k) u); try done.
Qed.
End Settled.

(** ** Where a thread is in its handler *)
Section Phases.
Context {db : Type} `{KVLaws db} `{!KVReliable db} `{PlatformLaws} (config : Config).
Local Open Scope prog_scope.

Abbreviation code := (prog (World db) response).

(** The statements of the transfer handler from a given point on. *)
Definition report : code :=
  s ← read_status;
  Done (Response.of_body ("Return Status: " +:+ Status_ToString s +:+ endl)).
Definition woken_code : code := toggle config ;; report.
Definition in_lock_code : code := cv_wait ;; woken_code.
Definition listening_code : code := listen_toggle config ;; report.
Definition received_code (c : Command) : code := received config c ;; report.
Definition locked_code (p : code) : code :=
  catch internal_error (on_exit unlock_cv_m p).
Definition waiting_code : code := catch internal_error (transfer_locked config).
Definition sending_code (c : Command) : code :=
  catch internal_error (queue_send c ;; transfer_locked config).
Definition fresh_code (t : string * string * string) : code :=
  let '(a, b, n) := t in
  catch internal_error
    (id ← generateID;
     queue_send (Command.make a b n "TRANSFER" id) ;;
     transfer_locked config).

(** A handler that only reads. *)
Fixpoint reader (p : code) : Prop :=
  match p with
  | Done _ => True
  | Atom f =>
      ∀ w, (f w).2 = w ∧
           match (f w).1 with Val q => reader q | Throw _ => True | _ => False end
  end.

Inductive phase : Type :=
| Reading (p : code)
| Fresh
| Sending (c : Command)
| Waiting
| Inside (p : code)
| Over (res : response).

Definition linked (th : thread db * phase) : Prop :=
  let '(t, ph) := th in
  let tr := transfer_of (t_route t) (t_request t) in
  match ph with
  | Reading p => tr = None ∧ t_code t = catch internal_error p ∧ reader p
  | Fresh => ∃ a b n, tr = Some (a, b, n) ∧ t_code t = fresh_code (a, b, n) ∧
                      ∀ id, good_command (Command.make a b n "TRANSFER" id)
  | Sending c => tr = Some (command_transfer c) ∧ t_code t = sending_code c ∧ good_command c
  | Waiting => t_code t = waiting_code
  | Inside p => t_code t = locked_code p
  | Over res => t_code t = Done res
  end.

Lemma serve_events_reading req :
  serve_request config Events req = catch internal_error (events config req) ∧
  reader (events config req).
Proof.
  split; [done|]. unfold events. intros w. split; [done|]. simpl.
  destruct (bool_decide _); simpl; [|done].
  intros w'. split; [done|]. simpl. by destruct (mbind _ _) as [[]|].
Qed.

(** What a handler is when its request is accepted. *)
Lemma accepted_linked r req :
  transfers_only r req → ∃ ph, linked (MkThread r req (serve_request config r req), ph) ∧
    match ph with Reading _ | Fresh => True | _ => False end.
Proof.
  intros Hr. destruct r; try done.
  - destruct Hr as [Hdef Hab]. unfold transfer_of in Hab.
    unfold linked, serve_request. cbn [handler t_route t_request t_code transfer_of].
    unfold balance_transfer, url_param, transfer_of.
    rewrite !Forall_cons in Hdef. destruct Hdef as (D1 & D2 & D3 & _).
    destruct (param (url_params req) "fromAccount") as [[a|]|]; [|by eexists (Reading _)|done].
    destruct (param (url_params req) "toAccount") as [[b|]|]; [|by eexists (Reading _)|done].
    destruct (param (url_params req) "amount") as [[s|]|]; [|by eexists (Reading _)|done].
    cbn [lift_ub prog_bind].
    destruct (stoi s) as [e|n] eqn:Hs; [by eexists (Reading _)|].
    destruct (n <=? 0) eqn:Hn; [by eexists (Reading _)|]. apply Z.leb_gt in Hn.
    exists Fresh. split; [|done]. exists a, b, (to_string n). split; [done|]. split; [done|].
    intros id. exists n. split; [|done].
    split; [done|]. split; [done|]. split; [done|]. by eapply stoi_in_int.
  - exists (Reading (events config req)). split; [|done].
    split; [done|]. apply serve_events_reading.
Qed.

(** *** One step of each phase *)

Lemma reading_advance p (w : World db) q w' :
  reader p → advance (catch internal_error p) w = Some (q, w') →
  w' = w ∧ ((∃ p', q = catch internal_error p' ∧ reader p') ∨ ∃ res, q = Done res).
Proof.
  intros Hp E. destruct p as [res|f]; [done|]. cbn [catch advance] in E.
  destruct (Hp w) as [E1 E2]. destruct (f w) as [[p'|e| | | |] w1]; simplify_eq/=; try done.
  - split; [done|]. left. by exists p'.
  - split; [done|]. right. by eexists.
Qed.

Lemma fresh_advance a b n (w : World db) :
  advance (fresh_code (a, b, n)) w =
  Some (sending_code (Command.make a b n "TRANSFER" (uuid_generate (uuids w)).1),
        with_uuids (uuid_generate (uuids w)).2 w).
Proof. simpl. by destruct (uuid_generate (uuids w)). Qed.

Lemma sending_advance c (w : World db) :
  advance (sending_code c) w =
  Some (waiting_code,
        with_service (λ s, set_command_queue (MessageQueue.send c (command_queue s)) s) w).
Proof. done. Qed.

Lemma waiting_advance (w : World db) :
  advance waiting_code w =
  if cv_m (service w) then None
  else Some (locked_code in_lock_code, with_service (set_cv_m true) w).
Proof. simpl. by destruct (cv_m (service w)). Qed.

Lemma in_lock_advance (w : World db) :
  currentState (service w) = ServiceListen →
  advance (locked_code in_lock_code) w = Some (locked_code woken_code, w).
Proof. intros Hs. simpl. unfold in_listen. by rewrite Hs. Qed.

Lemma woken_advance (w : World db) :
  currentState (service w) = ServiceListen →
  advance (locked_code woken_code) w = Some (locked_code listening_code, w).
Proof. intros Hs. simpl. by rewrite Hs. Qed.

Lemma listening_advance c q (w : World db) :
  MessageQueue.receive (command_queue (service w)) = Some (c, q) →
  advance (locked_code listening_code) w =
  Some (locked_code (received_code c), with_service (set_command_queue q) w).
Proof. intros Hr. simpl. by rewrite Hr. Qed.

(** A framed program that will return makes its next step. *)
Lemma framed_advance f (w : World db) res w1 :
  run (Atom f : code) w = (Val res, w1) →
  ∃ q w', f w = (Val q, w') ∧ run q w' = (Val res, w1) ∧
    advance (locked_code (Atom f)) w = Some (locked_code q, w').
Proof.
  intros Hr. simpl in *. destruct (f w) as [[q| | | | |] w']; simplify_eq/=. by exists q, w'.
Qed.

Lemma finished_advance res (w : World db) :
  advance (locked_code (Done res)) w = Some (Done res, unlock_cv_m w).
Proof. done. Qed.
End Phases.

(** ** The invariant *)
Section Invariant.
Context {db : Type} `{KVLaws db} `{!KVReliable db} `{PlatformLaws} (config : Config).
Local Open Scope nat_scope.

Abbreviation entry := (thread db * phase (db := db))%type.

Definition is_waiting (th : entry) : nat := match th.2 with Waiting => 1 | _ => 0 end.
Definition is_inside (th : entry) : nat := match th.2 with Inside _ => 1 | _ => 0 end.

(** The transfer a thread has queued. *)
Definition sent_transfer (th : entry) : option (string * string * string) :=
  match th.2 with
  | Waiting | Inside _ | Over _ => transfer_of (t_route th.1) (t_request th.1)
  | _ => None
  end.

Definition counts (x : string * string * string) (o : option (string * string * string)) : nat :=
  if decide (o = Some x) then 1 else 0.

Definition sent_count x (gs : list entry) : nat := tally (λ th, counts x (sent_transfer th)) gs.
Definition answered_count x (l : list (route * request * response)) : nat :=
  tally (λ a, counts x (transfer_of a.1.1 a.1.2)) l.
Definition command_count x (cs : list Command) : nat :=
  tally (λ c, counts x (Some (command_transfer c))) cs.

(** Who has the lock, and what the world holds: nobody, and every waiting thread has a
    command queued; a thread that has not taken its command yet; a thread that has one,
    and that will settle it if left alone. *)
Inductive lock_ok (A : wallet) (w : World db) (gs : list entry) : Prop :=
| lock_free :
    cv_m (service w) = false → tally is_inside gs = 0 → holds config A w →
    length (command_queue (service w)) = tally is_waiting gs → lock_ok A w gs
| lock_entering t p :
    cv_m (service w) = true → tally is_inside gs = 1 → (t, Inside p) ∈ gs →
    p = in_lock_code config ∨ p = woken_code config ∨ p = listening_code config →
    holds config A w →
    length (command_queue (service w)) = S (tally is_waiting gs) → lock_ok A w gs
| lock_processing t p res w1 :
    cv_m (service w) = true → tally is_inside gs = 1 → (t, Inside p) ∈ gs →
    frames p → run p w = (Val res, w1) → cv_m (service w1) = true → holds config A w1 →
    length (command_queue (service w)) = tally is_waiting gs → lock_ok A w gs.

Record inv (A0 : wallet) (c : conf db) (gs : list entry) (history : list Command) : Prop := {
  inv_threads : running c = map fst gs;
  inv_linked : Forall (linked config) gs;
  inv_queue : Forall good_command (command_queue (service (world c)));
  inv_account : ∀ x,
    sent_count x gs + answered_count x (answered c) =
    command_count x history + command_count x (command_queue (service (world c)));
  inv_lock : lock_ok (settle_all A0 history) (world c) gs
}.

Lemma inv_idle A0 w : represents config A0 w → inv A0 (idle w) [] [].
Proof.
  intros HA. split; simpl; try done.
  - by rewrite (rep_queue _ _ _ HA).
  - intros x. unfold command_count. by rewrite (rep_queue _ _ _ HA).
  - apply lock_free; simpl; try done.
    + apply (rep_lock _ _ _ HA).
    + destruct HA as [Hst HL Hi Hnm Hs Hlog Hls Hq Hm]. by split.
    + by rewrite (rep_queue _ _ _ HA).
Qed.

(** *** Lists of threads *)

Lemma elem_of_insert_other (gs : list entry) i x y z :
  gs !! i = Some x → x ≠ z → z ∈ gs → z ∈ <[i := y]> gs.
Proof.
  intros Hi Hne (j & Hj)%list_elem_of_lookup. apply list_elem_of_lookup. exists j.
  rewrite list_lookup_insert_ne; [done|]. intros <-. congruence.
Qed.

Lemma elem_of_delete_other (gs : list entry) i x z :
  gs !! i = Some x → x ≠ z → z ∈ gs → z ∈ delete i gs.
Proof.
  intros Hi Hne Hz. rewrite <- (take_drop_middle gs i x Hi) in Hz.
  rewrite delete_take_drop. apply elem_of_app in Hz. rewrite elem_of_cons in Hz.
  apply elem_of_app. destruct Hz as [Hz|[Hz|Hz]]; [by left|by subst|by right].
Qed.

Lemma inside_unique (gs : list entry) i t p t' p' :
  tally is_inside gs = 1 → gs !! i = Some (t, Inside p) → (t', Inside p') ∈ gs →
  t' = t ∧ p' = p.
Proof.
  intros Hi1 Hi (j & Hj)%list_elem_of_lookup. destruct (decide (i = j)) as [->|Hne].
  - rewrite Hi in Hj. by simplify_eq.
  - pose proof (tally_two is_inside gs i j _ _ Hi Hj Hne) as T2. cbn [is_inside is_waiting snd] in T2. lia.
Qed.

Lemma map_fst_insert (gs : list entry) i y : map fst (<[i := y]> gs) = <[i := y.1]> (map fst gs).
Proof. exact (list_fmap_insert fst gs i y). Qed.

Lemma map_fst_delete (gs : list entry) i : map fst (delete i gs) = delete i (map fst gs).
Proof. revert i. induction gs as [|g gs IH]; intros [|i]; simpl; try done. by f_equal. Qed.

(** *** Steps outside the lock *)

(** A thread outside the lock goes on, changing at most the environment. *)
Lemma lock_env A w gs i x y u q :
  lock_ok A w gs → gs !! i = Some x → is_inside x = 0 → is_inside y = 0 →
  length q + is_waiting x = length (command_queue (service w)) + is_waiting y →
  lock_ok A (reenv u q (cv_m (service w)) w) (<[i := y]> gs).
Proof.
  intros HL Hi Hx Hy Hlen.
  pose proof (tally_insert is_inside gs i x y Hi) as Ti.
  pose proof (tally_insert is_waiting gs i x y Hi) as Tw.
  destruct HL as [Hm Hi1 HA Hq|t p Hm Hi1 Hin Hp HA Hq|t p res w1 Hm Hi1 Hin Hf Hr Hm1 HA Hq].
  - apply lock_free; simpl; try done; try lia. by eapply holds_ext.
  - apply (lock_entering _ _ _ t p); simpl; try done; try lia.
    + eapply elem_of_insert_other; [done| |done]. intros ->. done.
    + by eapply holds_ext.
  - apply (lock_processing _ _ _ t p res (reenv u q (cv_m (service w)) w1)); simpl; try done; try lia.
    + eapply elem_of_insert_other; [done| |done]. intros ->. done.
    + by rewrite run_frames, Hr.
    + by eapply holds_ext.
Qed.

Lemma lock_accept A w gs y :
  lock_ok A w gs → is_inside y = 0 → is_waiting y = 0 → lock_ok A w (gs ++ [y]).
Proof.
  intros HL Hy Hz.
  pose proof (tally_app is_inside gs [y]) as Ti. pose proof (tally_app is_waiting gs [y]) as Tw.
  simpl in Ti, Tw.
  destruct HL as [Hm Hi1 HA Hq|t p Hm Hi1 Hin Hp HA Hq|t p res w1 Hm Hi1 Hin Hf Hr Hm1 HA Hq].
  - apply lock_free; try done; lia.
  - apply (lock_entering _ _ _ t p); try done; try lia. apply elem_of_app. by left.
  - apply (lock_processing _ _ _ t p res w1); try done; try lia. apply elem_of_app. by left.
Qed.

Lemma lock_answer A w gs i x :
  lock_ok A w gs → gs !! i = Some x → is_inside x = 0 → is_waiting x = 0 →
  lock_ok A w (delete i gs).
Proof.
  intros HL Hi Hx Hz.
  pose proof (tally_delete is_inside gs i x Hi) as Ti.
  pose proof (tally_delete is_waiting gs i x Hi) as Tw.
  destruct HL as [Hm Hi1 HA Hq|t p Hm Hi1 Hin Hp HA Hq|t p res w1 Hm Hi1 Hin Hf Hr Hm1 HA Hq].
  - apply lock_free; try done; lia.
  - apply (lock_entering _ _ _ t p); try done; try lia.
    eapply elem_of_delete_other; [done| |done]. intros ->. done.
  - apply (lock_processing _ _ _ t p res w1); try done; try lia.
    eapply elem_of_delete_other; [done| |done]. intros ->. done.
Qed.

(** *** Steps under the lock *)

Lemma lock_taken A w gs i t y :
  lock_ok A w gs → gs !! i = Some (t, Waiting) → cv_m (service w) = false →
  lock_ok A (with_service (set_cv_m true) w)
    (<[i := (y, Inside (in_lock_code config))]> gs).
Proof.
  intros HL Hi Hfree.
  pose proof (tally_insert is_inside gs i _ (y, Inside (in_lock_code config)) Hi) as Ti.
  pose proof (tally_insert is_waiting gs i _ (y, Inside (in_lock_code config)) Hi) as Tw.
  cbn [is_inside is_waiting snd] in Ti, Tw.
  destruct HL as [Hm Hi1 HA Hq|t' p Hm|t' p res w1 Hm]; [|congruence..].
  apply (lock_entering _ _ _ y (in_lock_code config)); try done; try (simpl; lia).
  - apply list_elem_of_lookup. exists i. apply list_lookup_insert_eq. by eapply lookup_lt_Some.
  - by left.
Qed.

(** The two steps that find the machine in LISTEN. *)
Lemma lock_enters A w gs i t p y p' :
  lock_ok A w gs → gs !! i = Some (t, Inside p) →
  p = in_lock_code config ∨ p = woken_code config ∨ p = listening_code config →
  p' = in_lock_code config ∨ p' = woken_code config ∨ p' = listening_code config →
  holds config A w → length (command_queue (service w)) = S (tally is_waiting gs) →
  lock_ok A w (<[i := (y, Inside p')]> gs).
Proof.
  intros HL Hi Hp Hp' HA Hq.
  pose proof (tally_insert is_inside gs i _ (y, Inside p') Hi) as Ti.
  pose proof (tally_insert is_waiting gs i _ (y, Inside p') Hi) as Tw.
  pose proof (tally_lookup is_inside gs i _ Hi) as Tl. cbn [is_inside is_waiting snd] in Ti, Tw, Tl.
  destruct HL as [Hm Hi1|t1 p1 Hm Hi1|t1 p1 res w1 Hm Hi1]; [lia|..];
    (apply (lock_entering _ _ _ y p'); try done; try lia;
     apply list_elem_of_lookup; exists i; apply list_lookup_insert_eq; by eapply lookup_lt_Some).
Qed.

Lemma lock_processes A gs i t p y p' res w' w1 :
  gs !! i = Some (t, Inside p) → tally is_inside gs = 1 → cv_m (service w') = true →
  frames p' → run p' w' = (Val res, w1) → cv_m (service w1) = true → holds config A w1 →
  length (command_queue (service w')) = tally is_waiting gs →
  lock_ok A w' (<[i := (y, Inside p')]> gs).
Proof.
  intros Hi Hi1 Hm Hf Hr Hm1 HA Hq.
  pose proof (tally_insert is_inside gs i _ (y, Inside p') Hi) as Ti.
  pose proof (tally_insert is_waiting gs i _ (y, Inside p') Hi) as Tw. cbn [is_inside is_waiting snd] in Ti, Tw.
  apply (lock_processing _ _ _ y p' res w1); try done; try lia.
  apply list_elem_of_lookup. exists i. apply list_lookup_insert_eq. by eapply lookup_lt_Some.
Qed.

Lemma lock_released A w gs i t y res :
  gs !! i = Some (t, Inside (Done res)) → tally is_inside gs = 1 → holds config A w →
  length (command_queue (service w)) = tally is_waiting gs →
  lock_ok A (unlock_cv_m w) (<[i := (y, Over res)]> gs).
Proof.
  intros Hi Hi1 HA Hq.
  pose proof (tally_insert is_inside gs i _ (y, Over res) Hi) as Ti.
  pose proof (tally_insert is_waiting gs i _ (y, Over res) Hi) as Tw. cbn [is_inside is_waiting snd] in Ti, Tw.
  apply lock_free; try done; simpl; lia.
Qed.

(** *** The bookkeeping of transfers *)

Lemma account_same x gs i th y :
  gs !! i = Some th → sent_transfer y = sent_transfer th →
  sent_count x (<[i := y]> gs) = sent_count x gs.
Proof.
  intros Hi E. unfold sent_count.
  pose proof (tally_insert (λ th, counts x (sent_transfer th)) gs i th y Hi) as T.
  simpl in T. rewrite E in T. lia.
Qed.

Lemma account_sends x gs i th y tr :
  gs !! i = Some th → sent_transfer th = None → sent_transfer y = Some tr →
  sent_count x (<[i := y]> gs) = sent_count x gs + counts x (Some tr).
Proof.
  intros Hi E E'. unfold sent_count.
  pose proof (tally_insert (λ th, counts x (sent_transfer th)) gs i th y Hi) as T.
  simpl in T. rewrite E, E' in T. unfold counts at 2 in T. rewrite decide_False in T by done. lia.
Qed.

Lemma command_count_snoc x cs c :
  command_count x (cs ++ [c]) = command_count x cs + counts x (Some (command_transfer c)).
Proof. unfold command_count. rewrite tally_app. simpl. lia. Qed.

(** *** Every step keeps the invariant *)

Definition next_inv (A0 : wallet) (c' : conf db) (history : list Command) : Prop :=
  ∃ gs' history', inv A0 c' gs' history' ∧ history `prefix_of` history'.

Lemma accept_inv A0 c gs h r req :
  inv A0 c gs h → transfers_only r req →
  next_inv A0 (MkConf (world c) (running c ++ [MkThread r req (serve_request config r req)])
                 (answered c)) h.
Proof.
  intros [Ht Hl Hq Ha HL] Hr. destruct (accepted_linked config r req Hr) as (ph & Hlink & Hph).
  set (th := MkThread r req (serve_request config r req)) in *.
  exists (gs ++ [(th, ph)]), h. split; [|done]. split; simpl.
  - by rewrite Ht, map_app.
  - apply Forall_app. split; [done|]. by constructor.
  - done.
  - intros x. rewrite <- Ha. unfold sent_count. rewrite tally_app. simpl.
    destruct ph; try done; unfold counts at 2; simpl; lia.
  - apply lock_accept; [done|..]; by destruct ph.
Qed.

(** A thread makes a step: what the phases before and after are, and what the step
    does to the shared state. *)
Lemma run_inv_env A0 c gs h i t ph t' ph' u q :
  inv A0 c gs h → gs !! i = Some (t, ph) →
  linked config (t', ph') → is_inside (t, ph) = 0 → is_inside (t', ph') = 0 →
  length q + is_waiting (t, ph) =
    length (command_queue (service (world c))) + is_waiting (t', ph') →
  Forall good_command q →
  (∀ x, sent_count x (<[i := (t', ph')]> gs) + command_count x (command_queue (service (world c)))
        = sent_count x gs + command_count x q) →
  next_inv A0 (MkConf (reenv u q (cv_m (service (world c))) (world c)) (<[i := t']> (running c)) (answered c)) h.
Proof.
  intros [Ht Hl Hq Ha HL] Hi Hlink Hx Hy Hlen Hgood Hacc.
  exists (<[i := (t', ph')]> gs), h. split; [|done]. split; simpl.
  - by rewrite Ht, map_fst_insert.
  - by apply Forall_insert.
  - done.
  - intros x. specialize (Ha x). specialize (Hacc x). lia.
  - by eapply lock_env.
Qed.

Lemma run_reading A0 c gs h i t p q w' :
  inv A0 c gs h → gs !! i = Some (t, Reading p) → linked config (t, Reading p) →
  advance (t_code t) (world c) = Some (q, w') →
  next_inv A0 (MkConf w' (<[i := MkThread (t_route t) (t_request t) q]> (running c))
                 (answered c)) h.
Proof.
  intros HI Hi (Htr & Hc & Hp) E. rewrite Hc in E.
  destruct (reading_advance p _ _ _ Hp E) as [-> Hq].
  rewrite <- (reenv_id (world c)).
  destruct Hq as [(p' & -> & Hp')|(res & ->)].
  - eapply (run_inv_env A0 c gs h i t (Reading p) _ (Reading p')); try done.
    + apply (inv_queue _ _ _ _ HI).
    + intros x. by rewrite (account_same x gs i _ _ Hi).
  - eapply (run_inv_env A0 c gs h i t (Reading p) _ (Over res)); try done.
    + apply (inv_queue _ _ _ _ HI).
    + intros x. rewrite (account_same x gs i _ _ Hi); [done|].
      unfold sent_transfer. cbn [snd fst t_route t_request]. exact Htr.
Qed.

Lemma run_fresh A0 c gs h i t q w' :
  inv A0 c gs h → gs !! i = Some (t, Fresh) → linked config (t, Fresh) →
  advance (t_code t) (world c) = Some (q, w') →
  next_inv A0 (MkConf w' (<[i := MkThread (t_route t) (t_request t) q]> (running c))
                 (answered c)) h.
Proof.
  intros HI Hi (a & b & n & Htr & Hc & Hg) E. rewrite Hc, fresh_advance in E. simplify_eq.
  set (cmd := Command.make a b n "TRANSFER" (uuid_generate (uuids (world c))).1).
  set (u := (uuid_generate (uuids (world c))).2).
  assert (with_uuids u (world c) =
    reenv u (command_queue (service (world c))) (cv_m (service (world c))) (world c)) as ->
    by (by destruct (world c) as [[] ? ? ? ?]).
  eapply (run_inv_env A0 c gs h i t Fresh _ (Sending cmd)); try done.
  - split; [done|]. split; [done|]. apply Hg.
  - apply (inv_queue _ _ _ _ HI).
  - intros x. by rewrite (account_same x gs i _ _ Hi).
Qed.

Lemma run_sending A0 c gs h i t cmd q w' :
  inv A0 c gs h → gs !! i = Some (t, Sending cmd) → linked config (t, Sending cmd) →
  advance (t_code t) (world c) = Some (q, w') →
  next_inv A0 (MkConf w' (<[i := MkThread (t_route t) (t_request t) q]> (running c))
                 (answered c)) h.
Proof.
  intros HI Hi (Htr & Hc & Hg) E. rewrite Hc, sending_advance in E. simplify_eq.
  set (qu := MessageQueue.send cmd (command_queue (service (world c)))).
  assert (with_service (λ s, set_command_queue (MessageQueue.send cmd (command_queue s)) s)
            (world c) =
    reenv (uuids (world c)) qu (cv_m (service (world c))) (world c)) as ->
    by (by destruct (world c) as [[] ? ? ? ?]).
  eapply (run_inv_env A0 c gs h i t (Sending cmd) _ Waiting); try done.
  - unfold qu, MessageQueue.send. rewrite length_app. cbn [is_waiting snd length]. lia.
  - apply Forall_app. split; [apply (inv_queue _ _ _ _ HI)|by constructor].
  - intros x. rewrite (account_sends x gs i _ _ (command_transfer cmd) Hi); [|done..].
    unfold qu, MessageQueue.send. rewrite command_count_snoc. lia.
Qed.

(** A step of the thread that has, takes or gives back the lock. *)
Lemma inv_update A0 c gs h h' i t ph t' ph' w' :
  inv A0 c gs h → gs !! i = Some (t, ph) → linked config (t', ph') →
  sent_transfer (t', ph') = sent_transfer (t, ph) →
  Forall good_command (command_queue (service w')) → h `prefix_of` h' →
  (∀ x, command_count x h' + command_count x (command_queue (service w')) =
        command_count x h + command_count x (command_queue (service (world c)))) →
  lock_ok (settle_all A0 h') w' (<[i := (t', ph')]> gs) →
  next_inv A0 (MkConf w' (<[i := t']> (running c)) (answered c)) h.
Proof.
  intros [Ht Hl Hq Ha HL] Hi Hlink Hs Hgood Hpre Hacc HL'.
  exists (<[i := (t', ph')]> gs), h'. split; [|done]. split; simpl; try done.
  - by rewrite Ht, map_fst_insert.
  - by apply Forall_insert.
  - intros x. rewrite (account_same x gs i (t, ph)) by done.
    specialize (Ha x). specialize (Hacc x). lia.
Qed.

Lemma run_waiting A0 c gs h i t q w' :
  inv A0 c gs h → gs !! i = Some (t, Waiting) → linked config (t, Waiting) →
  advance (t_code t) (world c) = Some (q, w') →
  next_inv A0 (MkConf w' (<[i := MkThread (t_route t) (t_request t) q]> (running c))
                 (answered c)) h.
Proof.
  intros HI Hi Hlink E. simpl in Hlink. rewrite Hlink, waiting_advance in E.
  destruct (cv_m (service (world c))) eqn:Hm; simplify_eq.
  eapply (inv_update A0 c gs h h i t Waiting _ (Inside (in_lock_code config))); try done.
  - apply (inv_queue _ _ _ _ HI).
  - eapply lock_taken; [apply (inv_lock _ _ _ _ HI)|done..].
Qed.

(** A thread in the lock that has not taken its command. *)
Lemma run_entering A0 c gs h i t p q w' :
  inv A0 c gs h → gs !! i = Some (t, Inside p) → t_code t = locked_code p →
  p = in_lock_code config ∨ p = woken_code config ∨ p = listening_code config →
  cv_m (service (world c)) = true → tally is_inside gs = 1 →
  (total (ledger A0) ≤ INT_MAX)%Z → config_ok config →
  holds config (settle_all A0 h) (world c) →
  length (command_queue (service (world c))) = S (tally is_waiting gs) →
  advance (t_code t) (world c) = Some (q, w') →
  next_inv A0 (MkConf w' (<[i := MkThread (t_route t) (t_request t) q]> (running c))
                 (answered c)) h.
Proof.
  intros HI Hi Hc Hp Hm Hi1 Htot Hcfg HA Hlen E. rewrite Hc in E.
  pose proof (holds_listen config _ _ HA) as Hls.
  destruct Hp as [-> | [-> | ->]].
  - rewrite in_lock_advance in E by done. simplify_eq.
    eapply (inv_update A0 c gs h h i t (Inside (in_lock_code config)) _
              (Inside (woken_code config))); try done.
    + apply (inv_queue _ _ _ _ HI).
    + eapply lock_enters; try done; [apply (inv_lock _ _ _ _ HI)|tauto..].
  - rewrite woken_advance in E by done. simplify_eq.
    eapply (inv_update A0 c gs h h i t (Inside (woken_code config)) _
              (Inside (listening_code config))); try done.
    + apply (inv_queue _ _ _ _ HI).
    + eapply lock_enters; try done; [apply (inv_lock _ _ _ _ HI)|tauto..].
  - destruct (receive_nonempty (command_queue (service (world c)))) as (cmd & qu & Hr & Hqu).
    { intros E0. by rewrite E0 in Hlen. }
    rewrite (listening_advance config cmd qu) in E by done. simplify_eq.
    pose proof (inv_queue _ _ _ _ HI) as Hgood. rewrite Hqu, Forall_app in Hgood.
    destruct Hgood as [Hgq Hgc]. apply Forall_cons in Hgc as [Hgc _].
    destruct (received_settles config (settle_all A0 h)
                (with_service (set_command_queue qu) (world c)) cmd)
      as (w1 & Hrun & HA1 & Hm1).
    { by eapply holds_ext. } { done. } { done. } { by rewrite settle_all_total. }
    rewrite <- settle_all_snoc in HA1.
    eapply (inv_update A0 c gs h (h ++ [cmd]) i t (Inside (listening_code config)) _
              (Inside (received_code config cmd))); try done.
    + by eexists.
    + intros x. rewrite Hqu at 1. rewrite !command_count_snoc. simpl. lia.
    + rewrite Hqu, length_app in Hlen. simpl in Hlen.
      eapply (lock_processes _ gs i t _ _ _ _ _ w1); try done; [..|simpl; lia].
      * unfold received_code. apply frames_bind; [apply frames_received|intros ?].
        unfold report, read_status. repeat frames_step.
      * unfold received_code. rewrite run_bind, Hrun. cbn [and_then]. reflexivity.
      * rewrite Hm1. done.
Qed.

(** A thread that is processing its command. *)
Lemma run_processing A0 c gs h i t p q w' res w1 :
  inv A0 c gs h → gs !! i = Some (t, Inside p) → t_code t = locked_code p →
  cv_m (service (world c)) = true → tally is_inside gs = 1 → frames p →
  run p (world c) = (Val res, w1) → cv_m (service w1) = true →
  holds config (settle_all A0 h) w1 →
  length (command_queue (service (world c))) = tally is_waiting gs →
  advance (t_code t) (world c) = Some (q, w') →
  next_inv A0 (MkConf w' (<[i := MkThread (t_route t) (t_request t) q]> (running c))
                 (answered c)) h.
Proof.
  intros HI Hi Hc Hm Hi1 Hf Hr Hm1 HA Hlen E. rewrite Hc in E.
  pose proof (inv_queue _ _ _ _ HI) as Hgood. destruct p as [r|f].
  - rewrite finished_advance in E. simpl in Hr. simplify_eq.
    eapply (inv_update A0 c gs h h i t (Inside (Done res)) _ (Over res)); try done.
    by eapply lock_released.
  - destruct (framed_advance f (world c) res w1 Hr) as (q0 & w0 & Ef & Hr0 & Ea).
    rewrite Ea in E. simplify_eq.
    destruct (frames_keeps f (world c) Hf) as [Hk Hkm]. rewrite Ef in Hk, Hkm.
    simpl in Hk, Hkm.
    destruct (Hf (world c)) as [_ Hf']. rewrite Ef in Hf'. simpl in Hf'.
    eapply (inv_update A0 c gs h h i t (Inside (Atom f)) _ (Inside q0)); try done.
    + by rewrite Hk.
    + intros x. by rewrite Hk.
    + eapply lock_processes; try done; by rewrite ?Hk, ?Hkm.
Qed.

Lemma run_inside A0 c gs h i t p q w' :
  inv A0 c gs h → gs !! i = Some (t, Inside p) → t_code t = locked_code p →
  (total (ledger A0) ≤ INT_MAX)%Z → config_ok config →
  advance (t_code t) (world c) = Some (q, w') →
  next_inv A0 (MkConf w' (<[i := MkThread (t_route t) (t_request t) q]> (running c))
                 (answered c)) h.
Proof.
  intros HI Hi Hc Htot Hcfg E. destruct (inv_lock _ _ _ _ HI)
    as [Hm Hi1 HA Hq|t1 p1 Hm Hi1 Hin Hp HA Hq|t1 p1 res w1 Hm Hi1 Hin Hf Hr Hm1 HA Hq].
  - pose proof (tally_lookup is_inside gs i _ Hi) as Tl. cbn [is_inside snd] in Tl. lia.
  - destruct (inside_unique gs i t p t1 p1 Hi1 Hi Hin) as [-> ->]. by eapply run_entering.
  - destruct (inside_unique gs i t p t1 p1 Hi1 Hi Hin) as [-> ->]. by eapply run_processing.
Qed.

(** The phase of a running thread. *)
Lemma inv_lookup A0 c gs h i t :
  inv A0 c gs h → running c !! i = Some t →
  ∃ ph, gs !! i = Some (t, ph) ∧ linked config (t, ph).
Proof.
  intros HI Hi. rewrite (inv_threads _ _ _ _ HI) in Hi.
  destruct (list_lookup_fmap_Some_1 fst gs i t Hi) as ([t' ph] & -> & Hg).
  exists ph. split; [done|]. by eapply (Forall_lookup_1 _ _ _ _ (inv_linked _ _ _ _ HI)).
Qed.

Lemma linked_code_done t ph res :
  linked config (t, ph) → t_code t = Done res →
  match ph with
  | Reading _ => transfer_of (t_route t) (t_request t) = None
  | Over _ => True
  | _ => False
  end.
Proof.
  intros Hl Hd. destruct ph as [p| |c| |p|r]; simpl in Hl; rewrite ?Hd in Hl.
  - by destruct Hl.
  - by destruct Hl as (a & b & n & _ & E & _).
  - by destruct Hl as (_ & E & _).
  - done.
  - by destruct p.
  - done.
Qed.

Lemma answer_inv A0 c gs h i t res :
  inv A0 c gs h → running c !! i = Some t → t_code t = Done res →
  next_inv A0 (MkConf (world c) (delete i (running c))
                 (answered c ++ [(t_route t, t_request t, res)])) h.
Proof.
  intros HI Hi Hd. destruct (inv_lookup _ _ _ _ _ _ HI Hi) as (ph & Hg & Hlink).
  pose proof (linked_code_done _ _ _ Hlink Hd) as Hph. destruct HI as [Ht Hl Hq Ha HL].
  exists (delete i gs), h. split; [|done]. split; simpl; try done.
  - by rewrite Ht, map_fst_delete.
  - by apply Forall_delete.
  - intros x. rewrite <- Ha. unfold sent_count, answered_count. rewrite tally_app. cbn [tally fst snd].
    pose proof (tally_delete (λ th, counts x (sent_transfer th)) gs i _ Hg) as T.
    assert (sent_transfer (t, ph) = transfer_of (t_route t) (t_request t)) as Es
      by (by destruct ph).
    cbv beta in T. rewrite Es in T. lia.
  - eapply lock_answer; [done|done|by destruct ph..].
Qed.

Lemma step_inv workers A0 c c' gs h :
  inv A0 c gs h → (total (ledger A0) ≤ INT_MAX)%Z → config_ok config →
  step config workers transfers_only c c' → next_inv A0 c' h.
Proof.
  intros HI Htot Hcfg (ch & Hs & HP). destruct ch as [r req|i|i]; simpl in Hs.
  - case_match; simplify_eq. by apply accept_inv with (gs := gs).
  - destruct (running c !! i) as [t|] eqn:Hi; [|done]. cbn [mbind option_bind] in Hs.
    destruct (advance (t_code t) (world c)) as [[q w']|] eqn:E; simplify_eq/=.
    destruct (inv_lookup _ _ _ _ _ _ HI Hi) as (ph & Hg & Hlink).
    destruct ph as [p| |cmd| |p|res].
    + by eapply run_reading.
    + by eapply run_fresh.
    + by eapply run_sending.
    + by eapply run_waiting.
    + by eapply run_inside.
    + simpl in Hlink. by rewrite Hlink in E.
  - destruct (running c !! i) as [t|] eqn:Hi; [|done]. cbn [mbind option_bind] in Hs.
    destruct (t_code t) as [res|f] eqn:Hd; simplify_eq. by eapply answer_inv.
Qed.

Lemma reachable_inv workers A0 w c :
  represents config A0 w → (total (ledger A0) ≤ INT_MAX)%Z → config_ok config →
  rtc (step config workers transfers_only) (idle w) c →
  ∃ gs h, inv A0 c gs h.
Proof.
  intros HA Htot Hcfg Hsteps. pose proof (inv_idle A0 w HA) as HI.
  assert (∃ gs h, inv A0 (idle w) gs h) as Hex by eauto. clear HI.
  induction Hsteps as [|c1 c2 c3 Hstep _ IH]; [done|]. apply IH.
  destruct Hex as (gs & h & HI).
  destruct (step_inv workers A0 c1 c2 gs h HI Htot Hcfg Hstep) as (gs' & h' & HI' & _). eauto.
Qed.
End Invariant.

(** ** Threads left alone *)
Section Progress.
Context {db : Type} `{KVLaws db} `{!KVReliable db} `{PlatformLaws} (config : Config).
Context (A0 : wallet) (Htot : total (ledger A0) ≤ INT_MAX) (Hcfg : config_ok config).

Lemma run_received c A (w : World db) :
  holds config A w → good_command c → total (ledger A) = total (ledger A0) →
  ∃ res w', run (received_code config c) w = (Val res, w') ∧ cv_m (service w') = cv_m (service w).
Proof.
  intros HA Hc Ht.
  destruct (received_settles config A w c HA Hcfg Hc) as (w' & Hr & _ & Hm); [by rewrite Ht|].
  do 2 eexists. unfold received_code. rewrite run_bind, Hr. cbn [and_then]. split; [reflexivity|done].
Qed.

(** From any point of the critical section before the command is taken. *)
Lemma run_entered p A (w : World db) :
  p = in_lock_code config ∨ p = woken_code config ∨ p = listening_code config →
  holds config A w → total (ledger A) = total (ledger A0) →
  Forall good_command (command_queue (service w)) → command_queue (service w) ≠ [] →
  ∃ res w', run p w = (Val res, w').
Proof.
  intros Hp HA Ht Hgood Hq. pose proof (holds_listen config _ _ HA) as Hls.
  destruct (receive_nonempty _ Hq) as (c & q & Hr & Hcq).
  rewrite Hcq, Forall_app in Hgood. destruct Hgood as [_ [Hc _]%Forall_cons].
  destruct (run_received c A (with_service (set_command_queue q) w)) as (res & w' & Hrun & _);
    [by eapply holds_ext|done|done|].
  assert (run (listening_code config) w = (Val res, w')) as R0.
  { rewrite <- Hrun. unfold listening_code, listen_toggle, queue_receive, received_code, received.
    rewrite !run_bind, run_await, Hr. cbn [and_then]. by rewrite !run_bind. }
  assert (run (woken_code config) w = (Val res, w')) as R1.
  { rewrite <- R0. unfold woken_code, toggle, listening_code.
    rewrite !run_bind, run_gets. cbn [and_then]. by rewrite Hls. }
  assert (run (in_lock_code config) w = (Val res, w')) as R2.
  { rewrite <- R1. unfold in_lock_code. rewrite run_bind, run_cv_wait; [done|].
    unfold in_listen. by rewrite Hls. }
  exists res, w'. by destruct Hp as [-> | [-> | ->]].
Qed.

Lemma run_locked p (w : World db) res w1 :
  run p w = (Val res, w1) →
  run (locked_code p) w = (Val res, unlock_cv_m w1).
Proof. intros Hr. unfold locked_code. rewrite run_catch, run_on_exit, Hr. done. Qed.

Lemma run_waiting_code A (w : World db) :
  holds config A w → total (ledger A) = total (ledger A0) → cv_m (service w) = false →
  Forall good_command (command_queue (service w)) → command_queue (service w) ≠ [] →
  ∃ res w', run (transfer_locked config) w = (Val res, w') ∧ cv_m (service w') = false.
Proof.
  intros HA Ht Hm Hgood Hq.
  destruct (run_entered (in_lock_code config) A (with_service (set_cv_m true) w))
    as (res & w' & Hr); [by left|by eapply holds_ext|done..|].
  exists res, (unlock_cv_m w'). split; [|done].
  unfold transfer_locked, lock_cv_m. rewrite run_bind, run_await, Hm. cbn [and_then].
  unfold in_lock_code, woken_code, report in Hr. by rewrite run_on_exit, Hr.
Qed.

Lemma run_reader p (w : World db) :
  reader p → ∃ res, run (catch internal_error p) w = (Val res, w).
Proof.
  intros Hp. rewrite run_catch. revert w.
  induction p as [res|f IH] using prog_rect_atoms; intros w; [by exists res|].
  destruct (Hp w) as [E1 E2]. specialize (IH w). simpl.
  destruct (f w) as [[p|e| | | |] w1]; simpl in *; subst; try done; [by apply IH|by eexists].
Qed.

(** A thread that has the lock, or finds it free, runs to its end. *)
Lemma run_thread c gs h i t ph :
  inv config A0 c gs h → gs !! i = Some (t, ph) → linked config (t, ph) →
  cv_m (service (world c)) = false ∨ (∃ p, ph = Inside p) →
  ∃ res w', run (t_code t) (world c) = (Val res, w') ∧ cv_m (service w') = false.
Proof.
  intros [Ht Hl Hq Ha HL] Hi Hlink Hcase.
  pose proof (settle_all_total A0 h) as Hth.
  pose proof (tally_lookup is_inside gs i _ Hi) as Ti.
  pose proof (tally_lookup is_waiting gs i _ Hi) as Tw.
  unfold is_inside at 1 in Ti. unfold is_waiting at 1 in Tw. cbn [snd] in Ti, Tw.
  destruct HL as [Hm Hi1 HA Hlen|t1 p1 Hm Hi1 Hin Hp HA Hlen|t1 p1 res w1 Hm Hi1 Hin Hf Hr Hm1 HA Hlen].
  - destruct ph as [p| |cmd| |p|res]; cbn [linked] in Hlink; [..|lia|].
    + destruct Hlink as (_ & Hc & Hp). destruct (run_reader p (world c) Hp) as (res & Hr).
      rewrite Hc. eauto.
    + destruct Hlink as (a & b & n & _ & Hc & Hg).
      set (cmd := Command.make a b n "TRANSFER" (uuid_generate (uuids (world c))).1).
      set (w2 := with_service
                   (λ s, set_command_queue (MessageQueue.send cmd (command_queue s)) s)
                   (with_uuids (uuid_generate (uuids (world c))).2 (world c))).
      destruct (run_waiting_code (settle_all A0 h) w2) as (res & w' & Hr & Hm');
        [by apply (holds_ext config _ (world c))|done|done| | |].
      { apply Forall_app. split; [done|]. constructor; [apply Hg|done]. }
      { simpl. unfold MessageQueue.send. by intros [_ E]%app_eq_nil. }
      exists res, w'. split; [|done]. rewrite Hc. unfold fresh_code, generateID, queue_send. cbv beta iota.
      rewrite run_catch, !run_bind, run_update. cbn [and_then].
      rewrite run_bind, run_modify. cbn [and_then].
      subst w2 cmd. destruct (uuid_generate (uuids (world c))) as [id u]. simpl in *. by rewrite Hr.
    + destruct Hlink as (_ & Hc & Hg).
      set (w2 := with_service
                   (λ s, set_command_queue (MessageQueue.send cmd (command_queue s)) s) (world c)).
      destruct (run_waiting_code (settle_all A0 h) w2) as (res & w' & Hr & Hm');
        [by apply (holds_ext config _ (world c))|done|done| | |].
      { apply Forall_app. split; [done|]. by constructor. }
      { simpl. unfold MessageQueue.send. by intros [_ E]%app_eq_nil. }
      exists res, w'. split; [|done]. rewrite Hc. unfold sending_code, queue_send.
      rewrite run_catch, run_bind, run_modify. cbn [and_then]. subst w2. by rewrite Hr.
    + destruct (run_waiting_code (settle_all A0 h) (world c)) as (res & w' & Hr & Hm'); try done.
      { intros E. rewrite E in Hlen. simpl in Hlen. lia. }
      exists res, w'. split; [|done]. rewrite Hlink. unfold waiting_code. by rewrite run_catch, Hr.
    + rewrite Hlink. by exists res, (world c).
  - destruct Hcase as [Hcase|[p ->]]; [congruence|].
    destruct (inside_unique gs i t p t1 p1 Hi1 Hi Hin) as [-> ->].
    destruct (run_entered p (settle_all A0 h) (world c)) as (res & w' & Hr); try done.
    { intros E. by rewrite E in Hlen. }
    cbn [linked] in Hlink. rewrite Hlink, (run_locked _ _ _ _ Hr). by do 2 eexists.
  - destruct Hcase as [Hcase|[p ->]]; [congruence|].
    destruct (inside_unique gs i t p t1 p1 Hi1 Hi Hin) as [-> ->].
    cbn [linked] in Hlink. rewrite Hlink, (run_locked _ _ _ _ Hr). by do 2 eexists.
Qed.
End Progress.
