(* ===== verification/Schedules.v ===== *)
(** * Chosen schedules

    Partial runs of a program, as steps of one thread; and two schedules of the wallet's
    workers: two transfers of which each is processed by the other one's worker, and a balance
    asked for in the middle of a transfer. *)

From Stdlib Require Import ZArith Lia.
From stdpp Require Import base tactics option strings list gmap relations.
From S2P Require Import Prelude.
From S2P Require Import CppStd.
From S2P Require Import RocksStatus.
From S2P Require Import Store.
From S2P Require Import World.
From S2P Require Import QueryString.
From S2P Require Import Crow.
From S2P Require Import Service.
From S2P Require Import Ledger.
From S2P Require Import ServiceFacts.
From S2P Require Import Transfer.
From S2P Require Import Api.
From S2P Require Import ApiFacts.
From S2P Require Import Wallet.
From S2P Require Import Machine.
From S2P Require Import Concurrent.
From S2P Require Import ConcurrentFacts.

Local Open Scope Z_scope.

(** ** Partial runs

    [creeps p w q w']: after some of its atoms, [p] started in [w] is [q], in [w']. *)
Section Creeps.
Context {W : Type}.
Local Open Scope prog_scope.

Inductive creeps {A} : prog W A → W → prog W A → W → Prop :=
| creeps_refl p w : creeps p w p w
| creeps_atom f w p w1 q w2 :
    f w = (Val p, w1) → creeps p w1 q w2 → creeps (Atom f) w q w2.

Lemma creeps_trans {A} (p q r : prog W A) w w1 w2 :
  creeps p w q w1 → creeps q w1 r w2 → creeps p w r w2.
Proof. induction 1; [done|]. intros Hr. econstructor; eauto. Qed.

Lemma creeps_bind {A B} (p q : prog W A) (k : A → prog W B) w w' :
  creeps p w q w' → creeps (prog_bind p k) w (prog_bind q k) w'.
Proof.
  induction 1 as [|f w p w1 q w2 E _ IH]; [constructor|].
  simpl. eapply creeps_atom; [|exact IH]. by rewrite E.
Qed.

(** A statement that runs to its end. *)
Lemma creeps_run {A B} (p : prog W A) (k : A → prog W B) w a w' :
  run p w = (Val a, w') → creeps (prog_bind p k) w (k a) w'.
Proof.
  revert w. induction p as [x|f IH] using prog_rect_atoms; intros w Hr; simpl in *.
  - simplify_eq. constructor.
  - specialize (IH w). destruct (f w) as [[p| | | | |] w1] eqn:E; simplify_eq/=.
    eapply creeps_atom; [by rewrite E|]. by apply IH.
Qed.
Lemma creeps_value {A} (p : prog W A) w a w' : run p w = (Val a, w') → creeps p w (Done a) w'.
Proof.
  revert w. induction p as [x|f IH] using prog_rect_atoms; intros w Hr; simpl in *.
  - simplify_eq. constructor.
  - specialize (IH w). destruct (f w) as [[p| | | | |] w1] eqn:E; simplify_eq/=.
    eapply creeps_atom; [exact E|]. by apply IH.
Qed.

Lemma creeps_catch {A} h (p q : prog W A) w w' :
  creeps p w q w' → creeps (catch h p) w (catch h q) w'.
Proof.
  induction 1 as [|f w p w1 q w2 E _ IH]; [constructor|].
  simpl. eapply creeps_atom; [|exact IH]. by rewrite E.
Qed.
Lemma creeps_on_exit {A} c (p q : prog W A) w w' :
  creeps p w q w' → creeps (on_exit c p) w (on_exit c q) w'.
Proof.
  induction 1 as [|f w p w1 q w2 E _ IH]; [constructor|].
  simpl. eapply creeps_atom; [|exact IH]. by rewrite E.
Qed.
End Creeps.

(** A statement of a sequence is run. *)
Ltac creep := eapply creeps_trans; [eapply creeps_run; prog_unfold; repeat prog_step; reflexivity|].

(** One whose result a hypothesis gives. *)
Ltac creep_by H :=
  eapply creeps_trans;
  [eapply creeps_run; prog_unfold; repeat prog_step; rewrite ?H; repeat prog_step; reflexivity|];
  cbv beta iota zeta.

Section Threads.
Context {db : Type} `{KVStore db} `{Platform} (config : Config).
Context (workers : nat) (P : route → request → Prop).

Abbreviation steps := (rtc (step config workers P)).

Lemma creeps_steps (p q : prog (World db) response) c w' i r req :
  creeps p (world c) q w' → running c !! i = Some (MkThread r req p) →
  steps c (MkConf w' (<[i := MkThread r req q]> (running c)) (answered c)).
Proof.
  destruct c as [w ts l]. simpl. intros Hc. revert ts. induction Hc as [p w|f w p w1 q w2 E _ IH];
    intros ts Hi.
  - rewrite list_insert_id by done. constructor.
  - assert (i < length ts)%nat as Hlen by (by eapply lookup_lt_Some).
    eapply rtc_l.
    + exists (Run i). split; [|done]. simpl. rewrite Hi. cbn [mbind option_bind].
      simpl. rewrite E. reflexivity.
    + simpl. specialize (IH (<[i := MkThread r req p]> ts)).
      rewrite list_insert_insert_eq in IH. by apply IH, list_lookup_insert_eq.
Qed.

Lemma steps_run (p : prog (World db) response) c i r req res w' :
  running c !! i = Some (MkThread r req p) → run p (world c) = (Val res, w') →
  steps c (MkConf w' (<[i := MkThread r req (Done res)]> (running c)) (answered c)).
Proof. intros Hi Hr. by eapply creeps_steps; [apply creeps_value|]. Qed.

Lemma steps_accept c r req :
  P r req → (length (running c) < workers)%nat →
  steps c (MkConf (world c) (running c ++ [MkThread r req (serve_request config r req)]) (answered c)).
Proof.
  intros HP Hw. apply rtc_once. exists (Accept r req). split; [|done]. simpl.
  by rewrite (proj2 (Nat.ltb_lt _ _)).
Qed.

Lemma steps_answer c i r req res :
  running c !! i = Some (MkThread r req (Done res)) →
  steps c (MkConf (world c) (delete i (running c)) (answered c ++ [(r, req, res)])).
Proof. intros Hi. apply rtc_once. exists (Answer i). split; [|done]. simpl. by rewrite Hi. Qed.

Lemma advance_creeps (p q : prog (World db) response) w w' :
  advance p w = Some (q, w') → creeps p w q w'.
Proof.
  destruct p as [|f]; [done|]. simpl. destruct (f w) as [[]] eqn:E; intros; simplify_eq.
  by eapply creeps_atom; [|constructor].
Qed.
End Threads.

(** ** Transfer requests *)

(** The amount of a transfer request. *)
Lemma transfer_amount req t s n :
  transfer_of BalanceTransfer req = Some (t, s) → stoi s = inr n →
  s = to_string n ∧ 0 < n ∧ in_int n = true.
Proof.
  unfold transfer_of.
  destruct (param (url_params req) "fromAccount") as [[a|]|]; [|done..].
  destruct (param (url_params req) "toAccount") as [[b|]|]; [|done..].
  destruct (param (url_params req) "amount") as [[s'|]|]; [|done..].
  destruct (stoi s') as [e|m] eqn:Hs'; [done|]. destruct (m <=? 0) eqn:Hn; [done|].
  intros [= <- <-] Hs. apply Z.leb_gt in Hn. pose proof (stoi_in_int _ _ Hs') as Hm.
  rewrite stoi_to_string in Hs by done. by injection Hs as ->.
Qed.

(** The command a transfer queues. *)
Definition command_of `{Platform} (t : string * string * string) (u : uuid_state) : Command :=
  Command.make t.1.1 t.1.2 t.2 "TRANSFER" (uuid_generate u).1.

Lemma command_of_transfer `{Platform} a b s n u :
  s = to_string n ∧ 0 < n ∧ in_int n = true → transfer_command (command_of (a, b, s) u) n.
Proof. intros (-> & Hn & Hi). by repeat split. Qed.

Definition status_response `{Platform} (s : Status) : response :=
  Response.of_body ("Return Status: " +:+ Status_ToString s +:+ endl).

(** ** Two transfers queued, each processed by the other one's worker *)
Section Swap.
Context {db : Type} `{KVLaws db} `{!KVReliable db} `{PlatformLaws} (config : Config).
Context (workers : nat) (P : route → request → Prop).

Abbreviation steps := (rtc (step config workers P)).

(** What a transfer request becomes when it is accepted. *)
Lemma serve_transfer req t :
  transfer_of BalanceTransfer req = Some t →
  serve_request config BalanceTransfer req = fresh_code config t.
Proof.
  unfold transfer_of, serve_request. cbn [handler]. unfold balance_transfer, url_param.
  destruct (param (url_params req) "fromAccount") as [[a|]|]; [|done..].
  destruct (param (url_params req) "toAccount") as [[b|]|]; [|done..].
  destruct (param (url_params req) "amount") as [[s|]|]; [|done..].
  destruct (stoi s) as [e|n] eqn:Hs; [done|]. destruct (n <=? 0) eqn:Hn; [done|].
  intros [= <-]. cbn [lift_ub prog_bind]. by rewrite Hs, Hn.
Qed.

(** The world after the command is queued. *)
Definition queued (c : Command) (w : World db) : World db :=
  with_service (λ s, set_command_queue (MessageQueue.send c (command_queue s)) s)
    (with_uuids (uuid_generate (uuids w)).2 w).

Lemma fresh_creeps t (w : World db) :
  creeps (fresh_code config t) w (waiting_code config) (queued (command_of t (uuids w)) w).
Proof.
  destruct t as [[a b] n]. eapply creeps_trans; [eapply advance_creeps, fresh_advance|].
  eapply advance_creeps, sending_advance.
Qed.

(** A worker at the lock takes the command queued last. *)
Lemma waiting_run d st q cmd c0 k f u co ce L n :
  kv_view d = stored L → ledger_ok L → transfer_command cmd n → account1 cmd ≠ account2 cmd →
  has_room L (account1 cmd) (account2 cmd) n = true → fs_writable (event_log config) = true →
  let '(v, L') := spec_transfer L (account1 cmd) (account2 cmd) n in
  ∃ d' st' k' f' co' ce',
    run (waiting_code config)
      (MkWorld (MkService d st (MessageQueue.send cmd q) ServiceListen c0 k false) f u co ce) =
    (Val (status_response st'), MkWorld (MkService d' st' q ServiceListen cmd k' false) f' u co' ce') ∧
    kv_view d' = stored L' ∧ Status.ok st' = bool_decide (v ≠ NoSuchAccount).
Proof.
  intros Hd HL Hc Hab Hroom Hw.
  pose proof (toggle_transfer config L d st q cmd c0 k true f u co ce n Hd HL Hc Hab Hroom Hw) as Ht.
  destruct (spec_transfer L _ _ n) as [v L'] eqn:E. destruct Ht as (d' & st' & Hd' & Hok & Hrun).
  do 6 eexists. unfold waiting_code. rewrite run_catch, (transfer_locked_run config _ _ _ _ _ _ _ _ _ _ _ _ _ _ _ _ _ Hrun).
  split; [reflexivity|done].
Qed.

(** Both commands are queued before a worker takes one. *)
Lemma swapped A w r1 r2 a1 b1 s1 n1 a2 b2 s2 n2 :
  (2 ≤ workers)%nat → represents config A w → config_ok config → total (ledger A) ≤ INT_MAX →
  P BalanceTransfer r1 → P BalanceTransfer r2 →
  transfer_of BalanceTransfer r1 = Some (a1, b1, s1) → stoi s1 = inr n1 → a1 ≠ b1 →
  transfer_of BalanceTransfer r2 = Some (a2, b2, s2) → stoi s2 = inr n2 → a2 ≠ b2 →
  let '(v2, L2) := spec_transfer (ledger A) a2 b2 n2 in
  let '(v1, L1) := spec_transfer L2 a1 b1 n1 in
  ∃ c st1 st2,
    steps (idle w) c ∧ running c = [] ∧
    answered c = [(BalanceTransfer, r1, status_response st2); (BalanceTransfer, r2, status_response st1)] ∧
    Status.ok st1 = bool_decide (v1 ≠ NoSuchAccount) ∧
    Status.ok st2 = bool_decide (v2 ≠ NoSuchAccount) ∧
    kv_view (accountDB (service (world c))) = stored L1.
Proof.
  intros Hw2 HA (_ & Hw & _) Htot P1 P2 T1 S1 N1 T2 S2 N2.
  pose proof (transfer_amount _ _ _ _ T1 S1) as A1. pose proof (transfer_amount _ _ _ _ T2 S2) as A2.
  pose proof (serve_transfer _ _ T1) as E1. pose proof (serve_transfer _ _ T2) as E2.
  destruct HA as [Hst HL _ _ _ _ Hls Hq Hm].
  set (cmd1 := command_of (a1, b1, s1) (uuids w)). set (w1 := queued cmd1 w).
  set (cmd2 := command_of (a2, b2, s2) (uuids w1)).
  destruct (spec_transfer (ledger A) a2 b2 n2) as [v2 L2] eqn:X2.
  destruct (spec_transfer L2 a1 b1 n1) as [v1 L1] eqn:X1.
  pose proof (total_room _ _ _ n2 HL Htot N2) as R2.
  assert (ledger_ok L2) as HL2 by (by apply (spec_transfer_ok _ _ _ _ _ _ X2); [|apply A2|..]).
  assert (has_room L2 a1 b1 n1 = true) as R1.
  { apply total_room; try done. by rewrite (spec_transfer_total _ _ _ _ _ _ X2). }
  destruct w as [[d st q cs c0 k m] f u co ce]. simpl in Hst, Hls, Hq, Hm. subst.
  pose proof (waiting_run d st [cmd1] cmd2 c0 k f
    (uuid_generate (uuid_generate u).2).2 co ce (ledger A) n2 Hst HL
    (command_of_transfer _ _ _ _ _ A2) N2 R2 Hw) as Run2.
  cbn [account1 account2 command_of Command.make cmd2 fst snd] in Run2. rewrite X2 in Run2.
  destruct Run2 as (d2 & st2 & k2 & f2 & co2 & ce2 & Run2 & Hst2 & Ok2).
  pose proof (waiting_run d2 st2 [] cmd1 cmd2 k2 f2
    (uuid_generate (uuid_generate u).2).2 co2 ce2 L2 n1 Hst2 HL2
    (command_of_transfer _ _ _ _ _ A1) N1 R1 Hw) as Run1.
  cbn [account1 account2 command_of Command.make cmd1 fst snd] in Run1. rewrite X1 in Run1.
  destruct Run1 as (d1 & st1 & k1 & f1 & co1 & ce1 & Run1 & Hst1 & Ok1).
  exists (MkConf (MkWorld (MkService d1 st1 [] ServiceListen cmd1 k1 false) f1
                    (uuid_generate (uuid_generate u).2).2 co1 ce1) []
            [(BalanceTransfer, r1, status_response st2); (BalanceTransfer, r2, status_response st1)]),
    st1, st2. split; [|done].
  etrans; [apply (steps_accept config workers P _ BalanceTransfer r1); [done|simpl; lia]|].
  etrans; [apply (steps_accept config workers P _ BalanceTransfer r2); [done|simpl; lia]|].
  rewrite E1, E2. cbn [app running world answered idle].
  etrans.
  { eapply (creeps_steps config workers P); [apply fresh_creeps|exact (eq_refl : [_; _] !! 0%nat = _)]. }
  etrans.
  { eapply (creeps_steps config workers P); [apply fresh_creeps|exact (eq_refl : [_; _] !! 1%nat = _)]. }
  cbn [insert list_insert running world answered]. etrans.
  { eapply (steps_run config workers P _ _ 0 BalanceTransfer r1); [done|]. exact Run2. }
  etrans.
  { eapply (steps_run config workers P _ _ 1 BalanceTransfer r2); [done|]. exact Run1. }
  etrans; [by apply (steps_answer config workers P _ 0)|].
  etrans; [by apply (steps_answer config workers P _ 0)|]. simpl. reflexivity.
Qed.
End Swap.

(** ** A balance asked for between the debit and the test of its status *)
Section Race.
Context {db : Type} `{KVLaws db} `{!KVReliable db} `{PlatformLaws} (config : Config).
Local Open Scope prog_scope.

(** The transfer up to there: the sender is debited; what is left of APPLY prints the status
    and returns to LISTEN, if the status is then an error. *)
Lemma apply_debits d st q c n m fs u co ce bal1 bal2 a1 a2 amt :
  kv_view d !! account1 c = Some bal1 → stoi bal1 = inr a1 →
  kv_view d !! account2 c = Some bal2 → stoi bal2 = inr a2 →
  stoi (cmd_amount c) = inr amt → in_int (a1 - amt) = true → in_int (a2 + amt) = true →
  ∃ rest d' st',
    kv_view d' = <[account1 c := to_string (a1 - amt)]> (kv_view d) ∧
    creeps (apply_process config : prog (World db) unit)
      (MkWorld (MkService d st q ServiceApply c n m) fs u co ce) rest
      (MkWorld (MkService d' st' q ServiceApply c n m) fs u co ce) ∧
    ∀ d2 st2 q2 u2 ce2, Status.ok st2 = false →
      run rest (MkWorld (MkService d2 st2 q2 ServiceApply c n m) fs u2 co ce2) =
      (Val tt, MkWorld (MkService d2 st2 q2 ServiceListen c (S n) m) fs u2 co
                 (ce2 ++ ["DB error: " +:+ Status_ToString st2 +:+ endl])).
Proof.
  intros Hv1 Hs1 Hv2 Hs2 Ha I1 I2.
  destruct (kv_get_present d (account1 c) bal1 Hv1) as (d1 & s1 & E1 & O1 & V1).
  rewrite <- V1 in Hv2.
  destruct (kv_get_present d1 (account2 c) bal2 Hv2) as (d2 & s2 & E2 & O2 & V2).
  destruct (kv_put_reliable d2 (account1 c) (to_string (a1 - amt))) as (d3 & s3 & E3 & O3 & V3).
  eexists _, d3, s3. split; [congruence|]. split.
  - unfold apply_process. do 8 creep.
    creep_by E1. do 2 creep. rewrite O1. cbn [negb]. creep_by Hs1.
    creep_by E2. do 2 creep. rewrite O2. cbn [negb]. creep_by Hs2.
    creep. creep_by Ha. unfold int_sub at 1. creep_by I1.
    creep. creep_by Ha. unfold int_add at 1. creep_by I2.
    creep_by E3. creep. apply creeps_refl.
  - intros d4 st4 q4 u4 ce4 O4. cbv beta. prog_run. rewrite O4. prog_run. done.
Qed.

Lemma validate_creeps (k : prog (World db) unit) d st q c n m fs u co ce b bal amt x :
  kv_view d !! account2 c = Some x → kv_view d !! account1 c = Some bal →
  stoi bal = inr b → stoi (cmd_amount c) = inr amt → amt ≤ b → cmd_action c = "TRANSFER" →
  ∃ d' st', kv_view d' = kv_view d ∧
    creeps (validate_process k) (MkWorld (MkService d st q ServiceValidate c n m) fs u co ce)
      k (MkWorld (MkService d' st' q ServiceApply c n m) fs u co ce).
Proof.
  intros Hv2 Hv1 Hb Ha Hle Hact.
  destruct (kv_get_present d (account2 c) x Hv2) as (d1 & s1 & E1 & O1 & V1).
  rewrite <- V1 in Hv1.
  destruct (kv_get_present d1 (account1 c) bal Hv1) as (d2 & s2 & E2 & O2 & V2).
  exists d2, s2. split; [congruence|].
  unfold validate_process. creep. creep_by E1. do 2 creep. rewrite O1. cbn [negb].
  creep. creep_by E2. do 2 creep. rewrite O2. cbn [negb].
  creep_by Hb. creep. creep_by Ha. rewrite (proj2 (Z.ltb_ge b amt)) by done.
  creep. rewrite Hact, String.eqb_refl. creep. apply creeps_refl.
Qed.

(** The world of a worker that is in the middle of a transfer. *)
Lemma transfer_debits d st cmd c0 k f u co ce L x y n :
  kv_view d = stored L → ledger_ok L → transfer_command cmd n →
  L !! account1 cmd = Some x → L !! account2 cmd = Some y → n ≤ x → y + n ≤ INT_MAX →
  ∃ (rest : prog (World db) unit) d' st',
    kv_view d' = stored (<[account1 cmd := x - n]> L) ∧
    creeps (waiting_code config)
      (MkWorld (MkService d st [cmd] ServiceListen c0 k false) f u co ce)
      (locked_code (rest ;; report))
      (MkWorld (MkService d' st' [] ServiceApply cmd k true) f u co ce) ∧
    ∀ d2 st2 u2 ce2, Status.ok st2 = false →
      run (locked_code (rest ;; report))
        (MkWorld (MkService d2 st2 [] ServiceApply cmd k true) f u2 co ce2) =
      (Val (status_response st2), MkWorld (MkService d2 st2 [] ServiceListen cmd (S k) false) f u2 co
               (ce2 ++ ["DB error: " +:+ Status_ToString st2 +:+ endl])).
Proof.
  intros Hd HL Hc Hx Hy Hle Hmax.
  pose proof (command_amount cmd n Hc) as Ha. destruct Hc as (_ & Hact & Hpos & Hin).
  destruct (view_balance d L _ _ Hd HL Hx) as [V1 S1].
  destruct (view_balance d L _ _ Hd HL Hy) as [V2 S2].
  pose proof (HL _ _ Hx) as Rx. pose proof (HL _ _ Hy) as Ry. simpl in Rx, Ry.
  destruct (validate_creeps (process config 1) d st [] cmd k true f u co ce x _ n _ V2 V1 S1 Ha Hle Hact)
    as (d1 & st1 & W1 & C1).
  destruct (apply_debits d1 st1 [] cmd k true f u co ce (to_string x) (to_string y) x y n)
    as (rest & d2 & st2 & W2 & C2 & Hrest); rewrite ?W1; try done;
    try (apply in_int_spec; unfold INT_MIN, INT_MAX in *; lia).
  exists rest, d2, st2. split; [|split].
  - rewrite W2, W1, Hd. symmetry. apply stored_insert.
  - eapply creeps_trans; [eapply advance_creeps; rewrite waiting_advance; reflexivity|].
    eapply creeps_trans; [by eapply advance_creeps, in_lock_advance|].
    eapply creeps_trans; [by eapply advance_creeps, woken_advance|].
    eapply creeps_trans; [by eapply advance_creeps, (listening_advance config cmd [])|].
    apply creeps_catch, creeps_on_exit. unfold received_code. apply creeps_bind.
    unfold received. creep. creep. unfold process_depth. cbn [process]. creep. cbn iota.
    eapply creeps_trans; [exact C1|]. cbn [process]. creep. cbn iota. exact C2.
  - intros d3 st3 u3 ce3 O3. unfold locked_code, report. rewrite run_catch, run_on_exit, run_bind.
    rewrite Hrest by done. prog_run. done.
Qed.

(** A balance of an unknown account leaves the status of the failed [Get]. *)
Lemma get_unknown_balance d st q s c n m fs u co ce req k :
  param (url_params req) "accountID" = Some (Some k) → kv_view d !! k = None →
  ∃ d' st' ce', kv_view d' = kv_view d ∧ Status.ok st' = false ∧
    run (serve_request config GetBalance req) (MkWorld (MkService d st q s c n m) fs u co ce) =
    (Val (Response.of_body ("Account not found" +:+ endl)), MkWorld (MkService d' st' q s c n m) fs u co ce').
Proof.
  intros Hp Hk. destruct (kv_get_missing d k Hk) as (d' & st' & o & G & O & _ & V).
  exists d', st'. eexists. split; [done|]. split; [done|].
  unfold serve_request. cbn [handler]. unfold get_balance, url_param. rewrite Hp, run_catch.
  api_run. rewrite G. api_run. rewrite O. api_run. reflexivity.
Qed.

Lemma raced workers (P : route → request → Prop) A w r r' a b s n x y k :
  (2 ≤ workers)%nat → represents config A w → P BalanceTransfer r → P GetBalance r' →
  transfer_of BalanceTransfer r = Some (a, b, s) → stoi s = inr n →
  ledger A !! a = Some x → ledger A !! b = Some y → n ≤ x → y + n ≤ INT_MAX →
  param (url_params r') "accountID" = Some (Some k) → ledger A !! k = None →
  ∃ c st,
    rtc (step config workers P) (idle w) c ∧ running c = [] ∧
    answered c = [(GetBalance, r', Response.of_body ("Account not found" +:+ endl));
                  (BalanceTransfer, r, status_response st)] ∧
    Status.ok st = false ∧ fs (world c) = fs w ∧
    kv_view (accountDB (service (world c))) = stored (<[a := x - n]> (ledger A)).
Proof.
  intros Hw2 HA HP HP' Ht Hs Hx Hy Hle Hmax Hp Hk.
  pose proof (transfer_amount _ _ _ _ Ht Hs) as Hamt. pose proof (serve_transfer config _ _ Ht) as Es.
  destruct HA as [Hst HL _ _ _ _ Hls Hq Hm].
  destruct w as [[d st q cs c0 m ml] f u co ce]. simpl in Hst, Hls, Hq, Hm. subst.
  set (cmd := command_of (a, b, s) u).
  destruct (transfer_debits d st cmd c0 m f (uuid_generate u).2 co ce (ledger A) x y n Hst HL
              (command_of_transfer _ _ _ _ _ Hamt) Hx Hy Hle Hmax)
    as (rest & d1 & st1 & V1 & C1 & Hrest).
  destruct (get_unknown_balance d1 st1 [] ServiceApply cmd m true f (uuid_generate u).2 co ce r' k Hp)
    as (d2 & st2 & ce2 & V2 & O2 & Hbal).
  { rewrite V1, lookup_stored. cbn [cmd account1 command_of Command.make fst].
    rewrite lookup_insert_ne by congruence. by rewrite Hk. }
  exists (MkConf (MkWorld (MkService d2 st2 [] ServiceListen cmd (S m) false) f (uuid_generate u).2 co
                    (ce2 ++ ["DB error: " +:+ Status_ToString st2 +:+ endl])) []
            [(GetBalance, r', Response.of_body ("Account not found" +:+ endl));
             (BalanceTransfer, r, status_response st2)]), st2.
  split; [|repeat split; try done; cbn; by rewrite V2].
  etrans; [apply (steps_accept config workers P _ BalanceTransfer r); [done|simpl; lia]|].
  etrans; [apply (steps_accept config workers P _ GetBalance r'); [done|simpl; lia]|].
  rewrite Es. cbn [app running world answered idle].
  etrans.
  { eapply (creeps_steps config workers P); [|exact (eq_refl : [_; _] !! 0%nat = _)].
    eapply creeps_trans; [apply fresh_creeps|exact C1]. }
  cbn [insert list_insert running world answered]. etrans.
  { eapply (steps_run config workers P _ _ 1 GetBalance r'); [done|]. exact Hbal. }
  etrans; [by apply (steps_answer config workers P _ 1)|].
  etrans.
  { eapply (steps_run config workers P _ _ 0 BalanceTransfer r); [done|]. by apply Hrest. }
  etrans; [by apply (steps_answer config workers P _ 0)|]. reflexivity.
Qed.
End Race.
