(* ===== verification/ConcurrentProps.v ===== *)
(** * What concurrency keeps, and what it breaks

    Transfers and reads of the log are serialised, never crash the process and are all
    answered; and three things a schedule can do: answer a client with another client's
    status, lose money when a balance is read during a transfer, and leave every later
    transfer waiting once an exception has stranded the state machine. *)

From Stdlib Require Import ZArith Lia Permutation.
From stdpp Require Import base tactics option strings list gmap relations.
From S2P Require Import Prelude.
From S2P Require Import CppStd.
From S2P Require Import RocksStatus.
From S2P Require Import Store.
From S2P Require Import World.
From S2P Require Import QueryString.
From S2P Require Import Crow.
From S2P Require Import Service.
From S2P Require Import Ledger.
From S2P Require Import ServiceFacts.
From S2P Require Import Transfer.
From S2P Require Import Api.
From S2P Require Import ApiFacts.
From S2P Require Import Wallet.
From S2P Require Import Machine.
From S2P Require Import Concurrent.
From S2P Require Import ConcurrentFacts.
From S2P Require Import Schedules.
From S2P Require Import Instances.

Local Open Scope Z_scope.

(** ** From counts to permutations *)

Lemma tally_count_occ {A} (f : A → option (string * string * string)) x (l : list A) :
  tally (λ a, counts x (f a)) l = count_occ (λ a b, decide (a = b)) (omap f l) x.
Proof.
  induction l as [|a l IH]; [done|]. cbn [tally omap list_omap]. rewrite IH. unfold counts.
  destruct (f a) as [y|]; [|done]. cbn [count_occ].
  destruct (decide (y = x)) as [->|Hne]; [by rewrite decide_True|].
  by rewrite decide_False by congruence.
Qed.

Section Drain.
Context {db : Type} `{KVLaws db} `{!KVReliable db} `{PlatformLaws} (config : Config).
Context (workers : nat) (A0 : wallet) (Htot : total (ledger A0) ≤ INT_MAX)
  (Hcfg : config_ok config).

Abbreviation steps := (rtc (step config workers transfers_only)).

Lemma steps_inv c c' gs h :
  inv config A0 c gs h → steps c c' → ∃ gs' h', inv config A0 c' gs' h'.
Proof.
  intros HI Hs. revert gs h HI. induction Hs as [|c1 c2 c3 Hstep _ IH]; intros gs h HI; [eauto|].
  destruct (step_inv config workers A0 c1 c2 gs h HI Htot Hcfg Hstep) as (gs' & h' & HI' & _).
  by eapply IH.
Qed.

(** Run one thread to its end and answer it. *)
Lemma finish_one c gs h i t ph :
  inv config A0 c gs h → gs !! i = Some (t, ph) →
  cv_m (service (world c)) = false ∨ (∃ p, ph = Inside p) →
  ∃ c', steps c c' ∧ cv_m (service (world c')) = false ∧
    S (length (running c')) = length (running c) ∧
    length (answered c') = S (length (answered c)).
Proof.
  intros HI Hi Hcase.
  pose proof (Forall_lookup_1 _ _ _ _ (inv_linked _ _ _ _ _ HI) Hi) as Hlink.
  destruct (run_thread config A0 Htot Hcfg c gs h i t ph HI Hi Hlink Hcase)
    as (res & w' & Hr & Hm).
  assert (running c !! i = Some t) as Hrun.
  { rewrite (inv_threads _ _ _ _ _ HI). exact (list_lookup_fmap_Some_2 fst gs i _ Hi). }
  destruct t as [r req p].
  assert (i < length (running c))%nat as Hlen by (by eapply lookup_lt_Some).
  eexists. split; [|split; [|split]].
  - etrans; [by eapply steps_run|]. apply rtc_once. exists (Answer i). split; [|done]. simpl.
    rewrite list_lookup_insert_eq by done. reflexivity.
  - done.
  - simpl. rewrite length_delete.
    + rewrite length_insert. lia.
    + rewrite list_lookup_insert_eq by done. eauto.
  - simpl. rewrite length_app. simpl. lia.
Qed.

Lemma drain n c gs h :
  inv config A0 c gs h → cv_m (service (world c)) = false → length (running c) = n →
  ∃ c', steps c c' ∧ running c' = [] ∧
    length (answered c') = (length (answered c) + length (running c))%nat.
Proof.
  revert c gs h. induction n as [|n IH]; intros c gs h HI Hm Hn.
  - exists c. split; [constructor|]. rewrite Hn. split; [by apply nil_length_inv|lia].
  - destruct gs as [|[t ph] gs].
    { pose proof (inv_threads _ _ _ _ _ HI) as Ht. by rewrite Ht in Hn. }
    destruct (finish_one c _ h 0 t ph HI eq_refl (or_introl Hm)) as (c1 & Hs & Hm1 & Hl & Ha).
    destruct (steps_inv _ _ _ _ HI Hs) as (gs1 & h1 & HI1).
    destruct (IH c1 gs1 h1 HI1 Hm1) as (c2 & Hs2 & Hr2 & Ha2); [lia|].
    exists c2. split; [by etrans|]. split; [done|]. lia.
Qed.

Lemma drain_any c gs h :
  inv config A0 c gs h →
  ∃ c', steps c c' ∧ running c' = [] ∧
    length (answered c') = (length (answered c) + length (running c))%nat.
Proof.
  intros HI. destruct (cv_m (service (world c))) eqn:Hm; [|by eapply drain].
  assert (∃ i t p, gs !! i = Some (t, Inside p)) as (i & t & p & Hi).
  { destruct (inv_lock _ _ _ _ _ HI) as [Hm'|t p _ _ Hin|t p res w1 _ _ Hin]; [congruence|..];
      apply list_elem_of_lookup in Hin as [i Hi]; eauto. }
  destruct (finish_one c gs h i t _ HI Hi) as (c1 & Hs & Hm1 & Hl & Ha); [right; eauto|].
  destruct (steps_inv _ _ _ _ HI Hs) as (gs1 & h1 & HI1).
  destruct (drain _ c1 gs1 h1 HI1 Hm1 eq_refl) as (c2 & Hs2 & Hr2 & Ha2).
  exists c2. split; [by etrans|]. split; [done|]. lia.
Qed.

(** No thread is about to crash the process. *)
Lemma inv_no_crash c gs h : inv config A0 c gs h → ¬ crashing c.
Proof.
  intros HI (i & t & f & Hi & Hc & Hbad).
  destruct (inv_lookup config _ _ _ _ _ _ HI Hi) as (ph & Hg & Hlink).
  assert (∀ x, advance (Atom f) (world c) = Some x → False) as Hadv.
  { intros x E. simpl in E. by destruct (f (world c)) as [[] ?]. }
  rewrite <- Hc in Hadv.
  assert (∀ res w', run (t_code t) (world c) = (Val res, w') → False) as Hrun.
  { intros res w' E. rewrite Hc in E. simpl in E.
    destruct (f (world c)) as [[] ?]; done. }
  destruct ph as [p| |cmd| |p|res].
  - destruct Hlink as (_ & Ec & Hp). destruct (run_reader p (world c) Hp) as (res & Hr).
    rewrite <- Ec in Hr. by eapply Hrun.
  - destruct Hlink as (a & b & n & _ & Ec & _). rewrite Ec, fresh_advance in Hadv. by eapply Hadv.
  - destruct Hlink as (_ & Ec & _). rewrite Ec, sending_advance in Hadv. by eapply Hadv.
  - cbn [linked] in Hlink. destruct (cv_m (service (world c))) eqn:Hm.
    + rewrite Hlink in Hc. unfold waiting_code in Hc. simpl in Hc. injection Hc as <-.
      simpl in Hbad. by rewrite Hm in Hbad.
    + rewrite Hlink, waiting_advance, Hm in Hadv. by eapply Hadv.
  - destruct (run_thread config A0 Htot Hcfg c gs h i t (Inside p) HI Hg Hlink)
      as (res & w' & Hr & _); [eauto|]. by eapply Hrun.
  - cbn [linked] in Hlink. congruence.
Qed.

(** With no request running, the process holds the wallet after the history. *)
Lemma inv_quiescent c gs h :
  inv config A0 c gs h → running c = [] →
  represents config (settle_all A0 h) (world c) ∧
  map command_transfer h ≡ₚ omap (λ a, transfer_of a.1.1 a.1.2) (answered c).
Proof.
  intros [Ht Hl Hq Ha HL] Hr. rewrite Hr in Ht. symmetry in Ht. apply map_eq_nil in Ht. subst gs.
  destruct HL as [Hm Hi1 HA Hlen|t p Hm Hi1|t p res w1 Hm Hi1]; [|done..].
  apply nil_length_inv in Hlen. split.
  - destruct c as [[[d st q cs c0 k m] f u co ce] ts l]. simpl in *. by subst.
  - apply (Permutation_count_occ (λ a b, decide (a = b))). intros x. specialize (Ha x).
    rewrite Hlen in Ha. unfold sent_count, answered_count, command_count in Ha. simpl in Ha.
    rewrite (tally_count_occ (λ a, transfer_of a.1.1 a.1.2)) in Ha.
    rewrite (tally_count_occ (λ c, Some (command_transfer c))) in Ha.
    rewrite Ha, Nat.add_0_r. f_equal.
Qed.
End Drain.

Section Properties.
Context {db : Type} `{KVLaws db} `{!KVReliable db} `{PlatformLaws} (config : Config).

(** C2: over a store whose operations do not fail, with files that can be written, and from a
    wallet whose money together fits an [int], transfers between different accounts and reads of
    the log, with URLs the server can read, served by any number of workers in any interleaving,
    are serialisable: with no request running, the
    process holds the wallet that processing every answered transfer exactly once, in
    some order, makes, and as much money as before. *)
Theorem concurrent_transfers_serialisable workers A0 w c :
  represents config A0 w → config_ok config → total (ledger A0) ≤ INT_MAX →
  rtc (step config workers transfers_only) (idle w) c → running c = [] →
  ∃ history,
    represents config (settle_all A0 history) (world c) ∧
    map command_transfer history ≡ₚ omap (λ a, transfer_of a.1.1 a.1.2) (answered c) ∧
    total (ledger (settle_all A0 history)) = total (ledger A0).
Proof.
  intros HA Hcfg Htot Hs Hr.
  destruct (reachable_inv config workers A0 w c HA Htot Hcfg Hs) as (gs & h & HI).
  destruct (inv_quiescent config A0 c gs h HI Hr) as [HR HP].
  exists h. split; [done|]. split; [done|]. apply settle_all_total.
Qed.

(** C3: over such a store, with such files and from such a wallet, whatever those requests have
    done so far, the process is not about to crash, and every request being served can still be
    answered: no deadlock, no lost wake-up, no thread waiting for a command that is not there. *)
Theorem concurrent_transfers_answered workers A0 w c :
  represents config A0 w → config_ok config → total (ledger A0) ≤ INT_MAX →
  rtc (step config workers transfers_only) (idle w) c →
  ¬ crashing c ∧
  ∃ c', rtc (step config workers transfers_only) c c' ∧ running c' = [] ∧
    length (answered c') = (length (answered c) + length (running c))%nat.
Proof.
  intros HA Hcfg Htot Hs.
  destruct (reachable_inv config workers A0 w c HA Htot Hcfg Hs) as (gs & h & HI).
  split; [by eapply inv_no_crash|by eapply drain_any].
Qed.
End Properties.

(** ** Concrete schedules *)

Lemma schedule_steps {db} `{KVStore db} `{Platform} (config : Config) workers P chs (c c' : conf db) :
  schedule config workers chs c = Some c' →
  Forall (λ ch, match ch with Accept r req => P r req | _ => True end) chs →
  rtc (step config workers P) c c'.
Proof.
  revert c. induction chs as [|ch chs IH]; intros c E HP; simpl in E; [by simplify_eq|].
  apply Forall_cons in HP as [Hch HP].
  destruct (take_step config workers ch c) as [c1|] eqn:E1; [|done].
  eapply rtc_l; [by exists ch|]. by apply IH.
Qed.

Section Schedules.
Abbreviation store := (gmap string string).

(** Two accounts: 100 in the first, 5 in the second. *)
Definition two_accounts : World store := (serve Config.defaults (take 2 session) fresh).2.

Definition pay : request :=
  get_request "/t?fromAccount=700000001&toAccount=700000002&amount=30".
Definition pay_nobody : request :=
  get_request "/t?fromAccount=700000001&toAccount=nobody&amount=30".
Definition ask_nobody : request := get_request "/b?accountID=nobody".

(** Both commands are queued before either is processed. *)
Definition both_queued : list choice :=
  [Accept BalanceTransfer pay; Accept BalanceTransfer pay_nobody;
   Run 0; Run 0; Run 1; Run 1] ++
  replicate 18 (Run 0) ++ replicate 49 (Run 1) ++ [Answer 0; Answer 0].

(** How a schedule ends: the requests still running, the URLs answered with the bodies
    of the answers, the balances, and the event log. *)
Definition ending (chs : list choice) :
    option (nat * list (string * string) * gmap string string * option string) :=
  c ← schedule Config.defaults 2 chs (idle two_accounts);
  Some (length (running c), map (λ a, (raw_url a.1.2, body a.2)) (answered c),
        kv_view (accountDB (service (world c))), fs (world c) !! event_log Config.defaults).

(** *** The serialisability theorems on the first schedule *)

Definition two_wallet : wallet :=
  match spec_requests empty_wallet 0%N (take 2 session) with
  | Some (_, (A, _)) => A
  | None => empty_wallet
  end.

Lemma two_accounts_represent : represents Config.defaults two_wallet two_accounts.
Proof.
  destruct (requests_refine_aux Config.defaults (take 2 session) empty_wallet fresh
              [AccountOpened "700000001" 100; AccountOpened "700000002" 5] two_wallet 0%N)
    as (w' & <- & _ & HA & _);
    [apply fresh_represents|apply defaults_ok|vm_compute; reflexivity|exact HA].
Qed.

Definition both_served : conf store :=
  default (idle two_accounts) (schedule Config.defaults 2 both_queued (idle two_accounts)).

Lemma pays_allowed :
  transfers_only BalanceTransfer pay ∧ transfers_only BalanceTransfer pay_nobody.
Proof.
  split; (split; [rewrite !Forall_cons; split; [|split; [|split; [|done]]]|]);
    vm_compute; discriminate.
Qed.

Lemma both_served_steps :
  rtc (step Config.defaults 2 transfers_only) (idle two_accounts) both_served ∧
  running both_served = [].
Proof.
  assert (ending both_queued ≠ None) as Hend by (vm_compute; discriminate).
  assert ((λ e, e.1.1.1) <$> ending both_queued = Some 0%nat) as Hlen by (vm_compute; reflexivity).
  unfold ending in Hend, Hlen. unfold both_served.
  destruct (schedule Config.defaults 2 both_queued (idle two_accounts)) as [c|] eqn:E; [|done].
  simpl. split.
  - apply (schedule_steps _ _ _ _ _ _ E). unfold both_queued.
    rewrite !Forall_app. split; [|split; [|split]].
    + destruct pays_allowed as [P1 P2].
      constructor; [exact P1|]. constructor; [exact P2|]. repeat (constructor; [exact I|]). constructor.
    + by apply Forall_replicate.
    + by apply Forall_replicate.
    + repeat (constructor; [exact I|]). constructor.
  - simpl in Hlen. injection Hlen as Hlen. by apply nil_length_inv.
Qed.

Lemma concurrent_transfers_serialisable_witness :
  total (ledger two_wallet) ≤ INT_MAX ∧
  ∃ history,
    represents Config.defaults (settle_all two_wallet history) (world both_served) ∧
    map command_transfer history ≡ₚ
      omap (λ a, transfer_of a.1.1 a.1.2) (answered both_served) ∧
    total (ledger (settle_all two_wallet history)) = total (ledger two_wallet).
Proof.
  split; [vm_compute; discriminate|].
  apply (concurrent_transfers_serialisable Config.defaults 2 two_wallet two_accounts);
    [apply two_accounts_represent|apply defaults_ok|vm_compute; discriminate
    |apply both_served_steps|apply both_served_steps].
Defined.

Lemma concurrent_transfers_answered_witness :
  ¬ crashing both_served ∧
  ∃ c', rtc (step Config.defaults 2 transfers_only) both_served c' ∧ running c' = [] ∧
    length (answered c') = (length (answered both_served) + length (running both_served))%nat.
Proof.
  apply (concurrent_transfers_answered Config.defaults 2 two_wallet two_accounts);
    [apply two_accounts_represent|apply defaults_ok|vm_compute; discriminate
    |apply both_served_steps].
Defined.

(** *** Schedules that break promises *)


(** C11: [_status] is shared and [get_balance] writes it without the lock.  For any transfer
    between two accounts that has the money and the room, and any account that does not exist,
    there is a schedule of two or more workers, over a store whose operations do not fail, in
    which the balance of the latter is asked for between the debit and the test of its status:
    the transfer is answered with an error, the sender stays debited, nobody is credited, the
    files and so the event log stay as they are, and the total has lost the amount. *)
Theorem get_balance_race_loses_money {db} `{KVLaws db} `{!KVReliable db} `{PlatformLaws}
    (config : Config) workers A w r r' a b s n x y k :
  (2 ≤ workers)%nat → represents config A w →
  transfer_of BalanceTransfer r = Some (a, b, s) → stoi s = inr n →
  ledger A !! a = Some x → ledger A !! b = Some y → n ≤ x → y + n ≤ INT_MAX →
  param (url_params r') "accountID" = Some (Some k) → ledger A !! k = None →
  ∃ c st,
    rtc (step config workers (λ rt req, (rt, req) = (BalanceTransfer, r) ∨ (rt, req) = (GetBalance, r')))
      (idle w) c ∧ running c = [] ∧
    answered c = [(GetBalance, r', Response.of_body ("Account not found" +:+ endl));
                  (BalanceTransfer, r, status_response st)] ∧
    Status.ok st = false ∧ fs (world c) = fs w ∧
    kv_view (accountDB (service (world c))) = stored (<[a := x - n]> (ledger A)) ∧
    total (<[a := x - n]> (ledger A)) = total (ledger A) - n.
Proof.
  intros Hw HA Ht Hs Hx Hy Hle Hmax Hp Hk.
  destruct (raced config workers (λ rt req, (rt, req) = (BalanceTransfer, r) ∨ (rt, req) = (GetBalance, r'))
              A w r r' a b s n x y k) as (c & st & Hc & Hr & Ha & Ho & Hf & Hv);
    [done|done|by left|by right|done..|].
  exists c, st. rewrite (total_insert _ x) by done. repeat split; try done. lia.
Qed.

Lemma pay_transfers :
  transfer_of BalanceTransfer pay = Some ("700000001", "700000002", "30") ∧
  transfer_of BalanceTransfer pay_nobody = Some ("700000001", "nobody", "30").
Proof. split; vm_compute; reflexivity. Qed.


Lemma get_balance_race_loses_money_witness :
  ∃ c st,
    rtc (step Config.defaults 2
           (λ rt req, (rt, req) = (BalanceTransfer, pay) ∨ (rt, req) = (GetBalance, ask_nobody)))
      (idle two_accounts) c ∧ running c = [] ∧
    answered c = [(GetBalance, ask_nobody, Response.of_body ("Account not found" +:+ endl));
                  (BalanceTransfer, pay, status_response st)] ∧
    Status.ok st = false ∧ fs (world c) = fs two_accounts ∧
    kv_view (accountDB (service (world c))) = stored (<["700000001" := 70]> (ledger two_wallet)) ∧
    total (<["700000001" := 70]> (ledger two_wallet)) = total (ledger two_wallet) - 30.
Proof.
  apply (get_balance_race_loses_money Config.defaults 2 two_wallet two_accounts pay ask_nobody
    "700000001" "700000002" "30" 30 100 5 "nobody").
  - lia.
  - apply two_accounts_represent.
  - apply pay_transfers.
  - reflexivity.
  - vm_compute; reflexivity.
  - vm_compute; reflexivity.
  - lia.
  - unfold INT_MAX. lia.
  - vm_compute; reflexivity.
  - vm_compute; reflexivity.
Defined.
End Schedules.
