(* ===== verification/QueryFacts.v ===== *)
(** * Query strings: what a client encodes, a handler reads

    A client puts parameters into a URL, names and values percent-encoded; [query_string] divides and
    decodes the URL in its buffer, and [get] finds the value of a name. *)

From Stdlib Require Import ZArith Lia Ascii String.
From stdpp Require Import base tactics option strings list.
From S2P Require Import Prelude.
From S2P Require Import CppStd.
From S2P Require Import QueryString.

Local Open Scope Z_scope.

(** ** The client's side *)

Definition hex_digit (n : Z) : ascii := to_char (if n <? 10 then n + 48 else n + 55).

(** RFC 3986: a letter, a digit, or one of [-._~]. *)
Definition unreserved (c : ascii) : bool :=
  let n := char_code c in
  ((48 <=? n) && (n <=? 57)) || ((65 <=? n) && (n <=? 90)) || ((97 <=? n) && (n <=? 122)) ||
  bool_decide (c ∈ ["-"; "."; "_"; "~"]%char).

Definition encode_char (c : ascii) : bytes :=
  if unreserved c then [c] else ["%"%char; hex_digit (char_code c / 16); hex_digit (char_code c mod 16)].
Definition encode (v : bytes) : bytes := flat_map encode_char v.

(** [k1=v1&k2=v2...] *)
Definition print_param (kv : bytes * bytes) : bytes := encode kv.1 ++ ["="%char] ++ encode kv.2.
Fixpoint print_params (kvs : list (bytes * bytes)) : bytes :=
  match kvs with
  | [] => []
  | [kv] => print_param kv
  | kv :: kvs => print_param kv ++ ["&"%char] ++ print_params kvs
  end.
Definition print_url (path : bytes) (kvs : list (bytes * bytes)) : bytes :=
  path ++ ["?"%char] ++ print_params kvs.

(** A name and a value are any C strings; the name a handler asks for has no character that [get]
    itself decodes or stops at. *)
Definition text_ok (v : bytes) : bool := forallb (λ c, negb (Ascii.eqb c nul)) v.
Definition plain_char (c : ascii) : bool := ISQSCHR c && negb (Ascii.eqb c "+" || Ascii.eqb c "%").
Definition asked_ok (name : bytes) : bool := forallb plain_char name.
Definition path_plain (path : bytes) : bool :=
  forallb (λ c, negb (Ascii.eqb c "?" || Ascii.eqb c "#" || Ascii.eqb c nul)) path.

(** The value of the first parameter of that name. *)
Definition first_value (name : bytes) (kvs : list (bytes * bytes)) : option bytes :=
  snd <$> List.find (λ kv, bool_decide (kv.1 = name)) kvs.

(** ** Characters *)

Ltac by_char c := destruct c as [[] [] [] [] [] [] [] []]; vm_compute; first [reflexivity|done|discriminate].

Lemma unreserved_char c : unreserved c = true →
  ISQSCHR c = true ∧ Ascii.eqb c "+" = false ∧ Ascii.eqb c "%" = false ∧ Ascii.eqb c nul = false ∧
  Ascii.eqb c "&" = false ∧ Ascii.eqb c "=" = false ∧ Ascii.eqb c "#" = false.
Proof. destruct c as [[] [] [] [] [] [] [] []]; vm_compute; tauto || discriminate. Qed.

Lemma hex_digits c :
  ISHEX (hex_digit (char_code c / 16)) = true ∧ ISHEX (hex_digit (char_code c mod 16)) = true ∧
  to_char (HEX2DEC (hex_digit (char_code c / 16)) * 16 + HEX2DEC (hex_digit (char_code c mod 16))) = c.
Proof. destruct c as [[] [] [] [] [] [] [] []]; by vm_compute. Qed.

(** None of these characters is in an encoded value. *)
Definition encoded_char (c : ascii) : bool := ISQSCHR c && negb (Ascii.eqb c "+").
Lemma encode_chars v : forallb encoded_char (encode v) = true.
Proof.
  unfold encode. induction v as [|c v IH]; [done|]. cbn [flat_map]. rewrite forallb_app, IH, andb_true_r.
  destruct c as [[] [] [] [] [] [] [] []]; by vm_compute.
Qed.

(** ** Buffers *)

Lemma insert_mid {A} (pre : list A) x c l : <[length pre := c]> (pre ++ x :: l) = pre ++ c :: l.
Proof. induction pre as [|y pre IH]; [done|]. cbn. by rewrite <- IH. Qed.
Lemma lookup_mid {A} (pre l : list A) k : (pre ++ l) !! (length pre + k)%nat = l !! k.
Proof. rewrite lookup_app_r by lia. f_equal. lia. Qed.
Lemma lookup_mid_here {A} (pre : list A) x l : (pre ++ x :: l) !! length pre = Some x.
Proof. by apply list_lookup_middle. Qed.

(** A list that is not empty, from its front. *)
Lemma snoc_front {A} (l : list A) x : ∃ y m, l ++ [x] = y :: m ∧ length m = length l.
Proof.
  destruct l as [|y l]; [by exists x, []|]. exists y, (l ++ [x]). split; [done|]. rewrite length_app. cbn. lia.
Qed.

Lemma front_app {A} (pre mid xs m rest : list A) y :
  mid ++ xs = y :: m → pre ++ mid ++ xs ++ rest = pre ++ y :: m ++ rest.
Proof. intros E. by rewrite (app_assoc mid), E. Qed.

(** *** Decoding in place

    Before the loop: what is decoded, what stands between the two indices, what is left to
    decode, the terminator. *)
Lemma qs_decode_loop_spec v fuel pre mid t post :
  ISQSCHR t = false → (length v < fuel)%nat →
  ∃ junk,
    qs_decode_loop fuel (pre ++ mid ++ encode v ++ t :: post) (length pre) (length pre + length mid) =
      Some (pre ++ v ++ nul :: junk ++ post) ∧
    (length v + length junk = length mid + length (encode v))%nat.
Proof.
  intros Ht. revert fuel pre mid. induction v as [|c v IH]; intros fuel pre mid Hf.
  - destruct fuel as [|fuel]; [cbn in Hf; lia|]. cbn [encode flat_map app qs_decode_loop].
    rewrite (lookup_mid pre _ (length mid)), lookup_mid_here. cbn [mbind option_bind]. rewrite Ht.
    destruct (snoc_front mid t) as (y & m & Hy & Hm). exists m.
    pose proof (front_app pre mid [t] m post y Hy) as Hfront. cbn [app] in Hfront.
      rewrite Hfront, insert_mid. split; [done|]. cbn. lia.
  - destruct fuel as [|fuel]; [cbn in Hf; lia|]. cbn [length] in Hf. cbn [encode flat_map qs_decode_loop].
    fold (encode v). destruct (unreserved c) eqn:Hu.
    + unfold encode_char. rewrite Hu. cbn [app].
      rewrite (lookup_mid pre _ (length mid)), lookup_mid_here. cbn [mbind option_bind].
      destruct (unreserved_char c Hu) as (-> & -> & -> & _).
      destruct (snoc_front mid c) as (y & m & Hy & Hm).
      pose proof (front_app pre mid [c] m (encode v ++ t :: post) y Hy) as Hfront. cbn [app] in Hfront.
      rewrite Hfront, insert_mid.
      destruct (IH fuel (pre ++ [c]) m) as (junk & E & Hl); [lia|]. exists junk.
      rewrite <- !app_assoc, length_app in E. cbn [app length] in E.
      replace (S (length pre)) with (length pre + 1)%nat by lia.
      replace (S (length pre + length mid)) with (length pre + 1 + length m)%nat by lia.
      rewrite E. split; [done|]. cbn. lia.
    + unfold encode_char. rewrite Hu. cbn [app].
      destruct (hex_digits c) as (H1 & H2 & H3).
      set (h1 := hex_digit (char_code c / 16)) in *. set (h2 := hex_digit (char_code c mod 16)) in *.
      rewrite (lookup_mid pre _ (length mid)), lookup_mid_here. cbn [mbind option_bind].
      change (ISQSCHR "%") with true. cbn [Ascii.eqb Bool.eqb].
      rewrite <- (Nat.add_assoc _ _ 1), (lookup_mid pre _ (length mid + 1)), (lookup_mid mid _ 1). cbn [lookup list_lookup mbind option_bind]. rewrite H1.
      cbn [negb]. rewrite <- (Nat.add_assoc _ _ 2), (lookup_mid pre _ (length mid + 2)), (lookup_mid mid _ 2).
      cbn [lookup list_lookup mbind option_bind]. rewrite H2.
      cbn [negb]. rewrite H3.
      assert (∃ y m, mid ++ ["%"%char; h1; h2] = y :: m ∧ length m = (length mid + 2)%nat) as (y & m & Hy & Hm).
      { destruct mid as [|y mid]; [by exists "%"%char, [h1; h2]|].
        exists y, (mid ++ ["%"%char; h1; h2]). split; [done|]. rewrite length_app. cbn. lia. }
      pose proof (front_app pre mid ["%"%char; h1; h2] m (encode v ++ t :: post) y Hy) as Hfront. cbn [app] in Hfront.
      rewrite Hfront, insert_mid.
      destruct (IH fuel (pre ++ [c]) m) as (junk & E & Hl); [lia|]. exists junk.
      rewrite <- !app_assoc, length_app in E. cbn [app length] in E.
      replace (S (length pre)) with (length pre + 1)%nat by lia.
      replace (S (length pre + (length mid + 2))) with (length pre + 1 + length m)%nat by lia.
      rewrite E. split; [done|]. cbn. lia.
Qed.

(** ** The pairs of a URL *)

Lemma strcspn_app s t r reject :
  forallb (λ c, negb (bool_decide (c ∈ reject) || Ascii.eqb c nul)) s = true →
  bool_decide (t ∈ reject) || Ascii.eqb t nul = true →
  strcspn (s ++ t :: r) reject = length s.
Proof.
  intros Hs Ht. induction s as [|c s IH]; cbn [app strcspn length].
  - by rewrite Ht.
  - cbn [forallb] in Hs. apply andb_true_iff in Hs as [Hc Hs]. apply negb_true_iff in Hc.
    rewrite Hc. by rewrite IH.
Qed.

Lemma forallb_weaken {A} (f g : A → bool) l :
  (∀ x, f x = true → g x = true) → forallb f l = true → forallb g l = true.
Proof. intros Hfg. rewrite !forallb_forall. auto. Qed.

(** The characters of a printed parameter do not divide it. *)
Lemma print_param_chars kv :
  forallb (λ c, negb (bool_decide (c ∈ ["&"%char]) || Ascii.eqb c nul)) (print_param kv) = true.
Proof.
  unfold print_param. rewrite !forallb_app. apply andb_true_iff.
  split; [|apply andb_true_iff; split; [done|]];
    (eapply forallb_weaken; [|apply encode_chars]); intros c; by_char c.
Qed.
Lemma name_chars k :
  forallb (λ c, negb (bool_decide (c ∈ ["="; "&"; "#"]%char) || Ascii.eqb c nul)) (encode k) = true ∧
  forallb (λ c, negb (bool_decide (c ∈ ["="]%char) || Ascii.eqb c nul)) (encode k) = true.
Proof. split; (eapply forallb_weaken; [|apply encode_chars]); intros c; by_char c. Qed.

(** The terminated query, its pairs divided, and the pointers to them. *)
Fixpoint laid (kv : bytes * bytes) (kvs : list (bytes * bytes)) : bytes :=
  match kvs with
  | [] => print_param kv ++ [nul]
  | kv' :: kvs => print_param kv ++ "&"%char :: laid kv' kvs
  end.
Lemma laid_params kv kvs : print_params (kv :: kvs) ++ [nul] = laid kv kvs.
Proof.
  revert kv. induction kvs as [|kv' kvs IH]; intros kv; [done|].
  change (print_params (kv :: kv' :: kvs)) with (print_param kv ++ ["&"%char] ++ print_params (kv' :: kvs)).
  cbn [laid]. rewrite <- IH, <- !app_assoc. done.
Qed.

Fixpoint pointers (p : nat) (kvs : list (bytes * bytes)) : list nat :=
  match kvs with
  | [] => []
  | kv :: kvs => p :: pointers (p + S (length (print_param kv))) kvs
  end.

Lemma qs_split_spec n pre kv kvs :
  (length (kv :: kvs) ≤ n)%nat →
  qs_split n (pre ++ laid kv kvs) (length pre) = Some (pointers (length pre) (kv :: kvs)).
Proof.
  revert n pre kv. induction kvs as [|kv' kvs IH]; intros n pre kv Hn;
    (destruct n as [|n]; [cbn in Hn; lia|]);
    cbn [qs_split laid]; rewrite drop_app_length, strcspn_app by (try apply print_param_chars; done);
    rewrite lookup_mid, lookup_mid_here; cbn [mbind option_bind].
  - done.
  - cbn [Ascii.eqb Bool.eqb nul]. change (Ascii.eqb "&" nul) with false. cbn [pointers].
    specialize (IH n (pre ++ print_param kv ++ ["&"%char]) kv' ltac:(cbn in *; lia)).
    rewrite <- !app_assoc in IH. cbn [app] in IH.
    replace (length (pre ++ print_param kv ++ ["&"%char])) with (length pre + length (print_param kv) + 1)%nat in IH
      by (rewrite !length_app; cbn; lia).
    rewrite IH. cbn [mbind option_bind]. do 2 f_equal.
    replace (length pre + S (length (print_param kv)))%nat with (length pre + length (print_param kv) + 1)%nat by lia.
    done.
Qed.

(** A decoded pair: its name and value, terminated, and what is left of its text. *)
Definition decoded_pair (kv : bytes * bytes) (d : bytes) : Prop :=
  ∃ junk, d = encode kv.1 ++ "="%char :: kv.2 ++ nul :: junk ∧ length d = S (length (print_param kv)).

Lemma qs_decode_pair_spec pre kv t post :
  ISQSCHR t = false →
  ∃ d, qs_decode_pair (pre ++ print_param kv ++ t :: post) (length pre) = Some (pre ++ d ++ post) ∧
    decoded_pair kv d.
Proof.
  intros Ht. destruct kv as [k v]. unfold qs_decode_pair, print_param. cbn [fst snd].
  rewrite <- !app_assoc, drop_app_length. cbn [app].
  rewrite strcspn_app by (try apply name_chars; done). rewrite lookup_mid, lookup_mid_here. cbn [mbind option_bind].
  change (Ascii.eqb "=" "&" || Ascii.eqb "=" nul) with false. cbn match. unfold qs_decode.
  destruct (qs_decode_loop_spec v (S (length (pre ++ encode k ++ "="%char :: encode v ++ t :: post)))
    (pre ++ encode k ++ ["="%char]) [] t post Ht) as (junk & E & Hl).
  { rewrite !length_app. cbn [length]. rewrite length_app.
    assert (length v ≤ length (encode v))%nat; [|lia]. clear. unfold encode. induction v as [|c v IH]; [done|].
    cbn [flat_map length]. rewrite length_app.
    assert (1 ≤ length (encode_char c))%nat by (unfold encode_char; destruct (unreserved c); cbn; lia). lia. }
  rewrite <- !app_assoc in E. cbn [app] in E.
  replace (length (pre ++ encode k ++ ["="%char])) with (S (length pre + length (encode k))) in E
    by (rewrite !length_app; cbn; lia).
  rewrite Nat.add_0_r in E. rewrite E. exists (encode k ++ "="%char :: v ++ nul :: junk).
  split; [by rewrite <- app_assoc; cbn [app]; rewrite <- app_assoc|].
  exists junk. split; [done|]. unfold print_param. cbn [fst snd]. rewrite !length_app. cbn [length].
  rewrite !length_app. cbn [length] in *. lia.
Qed.

Lemma qs_decode_pairs_spec pre kv kvs :
  ∃ ds, qs_decode_pairs (pre ++ laid kv kvs) (pointers (length pre) (kv :: kvs)) =
      Some (pre ++ mjoin ds) ∧ Forall2 decoded_pair (kv :: kvs) ds.
Proof.
  revert pre kv. induction kvs as [|kv' kvs IH]; intros pre kv; cbn [laid].
  - cbn [pointers qs_decode_pairs]. destruct (qs_decode_pair_spec pre kv nul [] eq_refl) as (d & -> & Hd). exists [d].
    cbn. rewrite app_nil_r. by repeat constructor.
  - change (pointers (length pre) (kv :: kv' :: kvs))
      with (length pre :: pointers (length pre + S (length (print_param kv))) (kv' :: kvs)).
    cbn [qs_decode_pairs]. destruct (qs_decode_pair_spec pre kv "&" (laid kv' kvs) eq_refl) as (d & -> & Hd).
    cbn [mbind option_bind]. destruct (IH (pre ++ d) kv') as (ds & E & Hds). exists (d :: ds).
    rewrite <- app_assoc, length_app in E. destruct Hd as (junk & -> & Hl). rewrite Hl in E.
    rewrite E. split; [cbn; by rewrite <- app_assoc|].
    constructor; [by exists junk|done].
Qed.

(** ** Looking a name up *)

Lemma plain_char_inv c : plain_char c = true →
  ISQSCHR c = true ∧ Ascii.eqb c "+" = false ∧ Ascii.eqb c "%" = false ∧ Ascii.eqb c nul = false.
Proof. destruct c as [[] [] [] [] [] [] [] []]; vm_compute; tauto || discriminate. Qed.

Lemma qs_char_plain c r : plain_char c = true → qs_char (c :: r) = Some (c, r).
Proof.
  intros Hc. destruct (plain_char_inv c Hc) as (H1 & H2 & H3 & _). unfold qs_char.
  cbn [head hd_error mbind option_bind tail]. by rewrite H1, H2, H3.
Qed.
Lemma qs_char_encoded c r : qs_char (encode_char c ++ r) = Some (c, r).
Proof.
  unfold encode_char. destruct (unreserved c) eqn:Hu.
  - apply qs_char_plain. destruct (unreserved_char c Hu) as (H1 & H2 & H3 & _).
    unfold plain_char. by rewrite H1, H2, H3.
  - destruct (hex_digits c) as (H1 & H2 & H3). unfold qs_char.
    cbn [app head hd_error mbind option_bind tail]. change (ISQSCHR "%") with true. cbn [Ascii.eqb Bool.eqb].
    rewrite H1, H2, H3. done.
Qed.

Lemma encoded_head c r : ∃ x s, encode_char c ++ r = x :: s ∧ ISQSCHR x = true.
Proof.
  unfold encode_char. destruct (unreserved c) eqn:Hu; [|by do 2 eexists].
  destruct (unreserved_char c Hu) as (H1 & _). by exists c, r.
Qed.

Lemma qs_strncmp_names name k r :
  asked_ok name = true → text_ok k = true →
  ∃ z, qs_strncmp (name ++ [nul]) (encode k ++ "="%char :: r) (length name) = Some z ∧ (z = 0 ↔ name = k).
Proof.
  revert k. induction name as [|c name IH]; intros k Hn Hk; cbn [app length qs_strncmp].
  - destruct k as [|c k]; [by exists 0|]. cbn [encode flat_map].
    rewrite <- app_assoc. destruct (encoded_head c (flat_map encode_char k ++ "="%char :: r)) as (x & s & -> & Hx).
    exists (-1). cbn. by rewrite Hx.
  - cbn [forallb asked_ok] in Hn. apply andb_true_iff in Hn as [Hc Hn].
    rewrite qs_char_plain by done. cbn [mbind option_bind].
    destruct (plain_char_inv c Hc) as (_ & _ & _ & Hnul). destruct k as [|c' k]; cbn [app encode flat_map].
    + change (qs_char ("="%char :: r)) with (Some (nul, r)). cbn [mbind option_bind]. rewrite Hnul.
      cbn [negb]. eexists. split; [done|]. split; [|done]. intros E. exfalso.
      clear -Hc E. revert Hc E. destruct c as [[] [] [] [] [] [] [] []]; vm_compute; discriminate.
    + cbn [forallb text_ok] in Hk. apply andb_true_iff in Hk as [_ Hk].
      rewrite <- app_assoc, qs_char_encoded. cbn [mbind option_bind].
      destruct (Ascii.eqb_spec c c') as [->|Hne]; cbn [negb].
      * rewrite Hnul. fold (encode k). destruct (IH k Hn Hk) as (z & -> & Hz). exists z. split; [done|]. rewrite Hz.
        split; [by intros ->|by intros [= ->]].
      * eexists. split; [done|]. split; [|by intros [= -> _]]. intros E. exfalso. apply Hne.
        assert (char_code c = char_code c') as Hcc by lia. unfold char_code in Hcc.
        apply N2Z.inj in Hcc. by rewrite <- (ascii_N_embedding c), Hcc, ascii_N_embedding.
Qed.

Lemma c_str_value v junk : text_ok v = true → c_str (v ++ nul :: junk) = v.
Proof.
  intros Hv. induction v as [|c v IH]; [done|]. cbn [forallb text_ok app c_str] in *.
  apply andb_true_iff in Hv as [Hc Hv]. apply negb_true_iff in Hc. rewrite Hc. by rewrite IH.
Qed.

Lemma qs_k2v_spec name pre kvs ds :
  asked_ok name = true → forallb (λ kv, text_ok kv.1) kvs = true → forallb (λ kv, text_ok kv.2) kvs = true →
  Forall2 decoded_pair kvs ds →
  ∃ r, qs_k2v name (pre ++ mjoin ds) (pointers (length pre) kvs) 0 = Some r ∧
    option_map (λ p, c_str (drop p (pre ++ mjoin ds))) r = first_value name kvs.
Proof.
  intros Hname Hks Hvs Hds. revert pre. induction Hds as [|kv d kvs ds Hd Hds IH]; intros pre.
  - by exists None.
  - cbn [forallb] in Hks, Hvs. apply andb_true_iff in Hks as [Hk Hks]. apply andb_true_iff in Hvs as [Hv Hvs].
    destruct kv as [k v]. destruct Hd as (junk & -> & Hl). cbn [fst snd] in *.
    change (mjoin ((encode k ++ "="%char :: v ++ nul :: junk) :: ds))
      with ((encode k ++ "="%char :: v ++ nul :: junk) ++ mjoin ds).
    cbn [pointers qs_k2v]. rewrite drop_app_length, <- app_assoc. cbn [app].
    destruct (qs_strncmp_names name k ((v ++ nul :: junk) ++ mjoin ds) Hname Hk) as (z & -> & Hz).
    cbn [mbind option_bind]. unfold first_value. cbn [List.find fst].
    destruct (Z.eqb_spec z 0) as [->|Hne].
    + rewrite (proj1 Hz eq_refl) in *. rewrite strcspn_app by (try apply name_chars; done).
      rewrite lookup_mid, lookup_mid_here. cbn [mbind option_bind Ascii.eqb Bool.eqb].
      eexists. split; [done|]. rewrite bool_decide_true by done. cbn [fmap option_fmap option_map snd].
      f_equal. replace (length pre + length (encode k) + 1)%nat with (length (pre ++ encode k ++ ["="%char])) by (rewrite !length_app; cbn; lia).
      replace (pre ++ encode k ++ "="%char :: (v ++ nul :: junk) ++ mjoin ds)
        with ((pre ++ encode k ++ ["="%char]) ++ v ++ nul :: (junk ++ mjoin ds)) by by rewrite <- !app_assoc.
      rewrite drop_app_length. by apply c_str_value.
    + rewrite bool_decide_false by (intros ->; by apply Hne, Hz).
      destruct (IH Hks Hvs (pre ++ (encode k ++ "="%char :: v ++ nul :: junk))) as (r & E & Hr).
      rewrite length_app, Hl, <- !app_assoc in E. cbn [app] in E. exists r. split.
      { rewrite <- E. rewrite <- !app_assoc. done. }
      etrans; [|exact Hr]. rewrite <- !app_assoc. cbn [app]. by rewrite <- !app_assoc.
Qed.

Lemma qs_parse_print n path kv kvs :
  path_plain path = true → (length (kv :: kvs) ≤ n)%nat →
  ∃ ds, qs_parse (path ++ "?"%char :: laid kv kvs) n =
      Some ((path ++ ["?"%char]) ++ mjoin ds, pointers (length (path ++ ["?"%char])) (kv :: kvs)) ∧
    Forall2 decoded_pair (kv :: kvs) ds.
Proof.
  intros Hp Hn. unfold qs_parse.
  rewrite strcspn_app; [|eapply forallb_weaken; [|exact Hp]; intros c; by_char c|done].
  rewrite lookup_mid_here. cbn [mbind option_bind]. change (Ascii.eqb "?" nul) with false. cbn match.
  replace (S (length path)) with (length (path ++ ["?"%char])) by (rewrite length_app; cbn; lia).
  replace (path ++ "?"%char :: laid kv kvs) with ((path ++ ["?"%char]) ++ laid kv kvs) by by rewrite <- app_assoc.
  rewrite qs_split_spec by done. cbn [mbind option_bind].
  destruct (qs_decode_pairs_spec (path ++ ["?"%char]) kv kvs) as (ds & -> & Hds).
  by exists ds.
Qed.

Lemma query_string_of_cons c url :
  query_string_of (c :: url) =
    '(buf, kv) ← qs_parse ((c :: url) ++ [nul]) MAX_KEY_VALUE_PAIRS_COUNT; Some (MkQueryString buf kv).
Proof. done. Qed.

Lemma query_string_of_print path kv kvs :
  path_plain path = true →
  (length (kv :: kvs) ≤ MAX_KEY_VALUE_PAIRS_COUNT)%nat →
  ∃ ds, query_string_of (print_url path (kv :: kvs)) =
      Some (MkQueryString ((path ++ ["?"%char]) ++ mjoin ds)
              (pointers (length (path ++ ["?"%char])) (kv :: kvs))) ∧
    Forall2 decoded_pair (kv :: kvs) ds.
Proof.
  intros Hp Hn. destruct (qs_parse_print _ path kv kvs Hp Hn) as (ds & E & Hds). exists ds.
  split; [|done]. destruct (print_url path (kv :: kvs)) as [|c url] eqn:Eu; [by destruct path|].
  rewrite query_string_of_cons, <- Eu. unfold print_url. rewrite <- !app_assoc, laid_params.
  cbn [app]. rewrite E. cbn [mbind option_bind]. by rewrite <- app_assoc.
Qed.

(** C18: the parameters a client encodes into a URL are the ones a handler reads.  For a path
    without ['?'], ['#'] and NUL, and one to 256 parameters, whose names and values are any bytes
    but NUL, each percent-encoded but for the unreserved characters of RFC 3986: the URL is parsed
    without a read out of bounds, and [get] gives, for every name asked for without NUL and the
    characters [=&#%+] (which it decodes or stops at), the value of the first parameter of this
    name, exactly as it was before it was encoded, and no value for another name. *)
Theorem parameters_round_trip path kvs name :
  path_plain path = true → kvs ≠ [] → (length kvs ≤ MAX_KEY_VALUE_PAIRS_COUNT)%nat →
  forallb (λ kv, text_ok kv.1) kvs = true → forallb (λ kv, text_ok kv.2) kvs = true →
  asked_ok name = true →
  ∃ qs, query_string_of (print_url path kvs) = Some qs ∧
    qs_get qs name = Some (first_value name kvs).
Proof.
  intros Hp Hne Hlen Hk Hv Hname. destruct kvs as [|kv kvs]; [done|].
  destruct (query_string_of_print path kv kvs Hp Hlen) as (ds & -> & Hds).
  eexists. split; [done|]. unfold qs_get. cbn [url_ key_value_pairs_].
  destruct (qs_k2v_spec name (path ++ ["?"%char]) (kv :: kvs) ds Hname Hk Hv Hds) as (r & -> & <-).
  done.
Qed.

Lemma parameters_round_trip_witness :
  let kvs := [(list_ascii_of_string "accountID", list_ascii_of_string "a b&c=d%#+");
              (list_ascii_of_string "x y=", []);
              (list_ascii_of_string "from-account", list_ascii_of_string "700000001");
              (list_ascii_of_string "accountID", list_ascii_of_string "second")] in
  ∃ qs, query_string_of (print_url (list_ascii_of_string "/api") kvs) = Some qs ∧
    qs_get qs (list_ascii_of_string "accountID") = Some (Some (list_ascii_of_string "a b&c=d%#+")).
Proof.
  intros kvs.
  destruct (parameters_round_trip (list_ascii_of_string "/api") kvs (list_ascii_of_string "accountID"))
    as (qs & E & Hget); [reflexivity|discriminate|vm_compute; lia|reflexivity..|].
  exists qs. split; [exact E|]. rewrite Hget. reflexivity.
Defined.
