(* ===== verification/Base64.v ===== *)
(** * Base 64

    lib/crowapi/crow_all.h, [utility::base64encode] and [utility::base64decode]: the loops over
    the input, three bytes and four characters at a time, and the bytes that are left.  An
    [unsigned char] is an integer below 256; reading outside the input has no value. *)

From Stdlib Require Import ZArith Lia Ascii String.
From stdpp Require Import base tactics option strings list.
From S2P Require Import Prelude.
From S2P Require Import CppStd.
From S2P Require Import QueryString.

Local Open Scope Z_scope.

Definition standard_key : bytes :=
  list_ascii_of_string "ABCDEFGHIJKLMNOPQRSTUVWXYZabcdefghijklmnopqrstuvwxyz0123456789+/".
Definition urlsafe_key : bytes :=
  list_ascii_of_string "ABCDEFGHIJKLMNOPQRSTUVWXYZabcdefghijklmnopqrstuvwxyz0123456789-_".

(** [key[i]], for an index that is an [unsigned char]. *)
Definition key_char (key : bytes) (i : Z) : option ascii := key !! Z.to_nat i.

(** ** base64encode *)

(** The [while] loop and what follows it: the characters written. *)
Fixpoint base64encode_loop (key : bytes) (data : list Z) : option bytes :=
  match data with
  | d0 :: d1 :: d2 :: data =>
      c0 ← key_char key (Z.shiftr (Z.land d0 252) 2);
      let h := Z.shiftl (Z.land d0 3) 4 in
      c1 ← key_char key (Z.lor h (Z.shiftr (Z.land d1 240) 4));
      let h := Z.shiftl (Z.land d1 15) 2 in
      c2 ← key_char key (Z.lor h (Z.shiftr (Z.land d2 192) 6));
      c3 ← key_char key (Z.land d2 63);
      rest ← base64encode_loop key data;
      Some (c0 :: c1 :: c2 :: c3 :: rest)
  | [d0] =>
      c0 ← key_char key (Z.shiftr (Z.land d0 252) 2);
      let h := Z.shiftl (Z.land d0 3) 4 in
      c1 ← key_char key h;
      Some [c0; c1; "="%char; "="%char]
  | [d0; d1] =>
      c0 ← key_char key (Z.shiftr (Z.land d0 252) 2);
      let h := Z.shiftl (Z.land d0 3) 4 in
      c1 ← key_char key (Z.lor h (Z.shiftr (Z.land d1 240) 4));
      let h := Z.shiftl (Z.land d1 15) 2 in
      c2 ← key_char key h;
      Some [c0; c1; c2; "="%char]
  | [] => Some []
  end.

(** [base64encode(data, size, key)], with [size] the length of the data. *)
Definition base64encode (key : bytes) (data : bytes) : option bytes :=
  base64encode_loop key (char_code <$> data).
Definition base64encode_urlsafe (data : bytes) : option bytes := base64encode urlsafe_key data.

(** ** base64decode *)

(** The lambda [key]. *)
Definition decode_char (c : ascii) : Z :=
  let n := char_code c in
  if (65 <=? n) && (n <=? 90) then n - 65
  else if (97 <=? n) && (n <=? 122) then n - 97 + 26
  else if (48 <=? n) && (n <=? 57) then n - 48 + 52
  else if Ascii.eqb c "+" || Ascii.eqb c "-" then 62
  else if Ascii.eqb c "/" || Ascii.eqb c "_" then 63
  else 0.

(** The number of bytes: [data[size - 2]] and [data[size - 1]] are read when [size] leaves
    the remainder 0 or 1 by 4. *)
Definition decoded_size (data : bytes) : option Z :=
  let size := Z.of_nat (length data) in
  if size mod 4 =? 2 then Some (size / 4 * 3 + 1)
  else if size mod 4 =? 3 then Some (size / 4 * 3 + 2)
  else if size <? 2 then None
  else
    c2 ← data !! Z.to_nat (size - 2);
    if Ascii.eqb c2 "=" then Some (size / 4 * 3 - 2)
    else
      c1 ← data !! Z.to_nat (size - 1);
      if Ascii.eqb c1 "=" then Some (size / 4 * 3 - 1)
      else Some (size / 4 * 3).

(** One decoded byte: [unsigned char] results are cut to eight bits. *)
Definition byte1 (odd even : Z) : ascii := to_char (Z.lor (Z.shiftl odd 2) (Z.shiftr (Z.land even 48) 4)).
Definition byte2 (even odd : Z) : ascii :=
  to_char (Z.lor (Z.shiftl (Z.land even 15) 4) (Z.shiftr (Z.land odd 60) 2)).
Definition byte3 (odd even : Z) : ascii := to_char (Z.lor (Z.shiftl (Z.land odd 3) 6) even).

(** The loop, with [size] bytes to write, and what follows it. *)
Fixpoint base64decode_loop (fuel : nat) (data : bytes) (size : Z) : option bytes :=
  match fuel with
  | O => None
  | S fuel =>
      if 3 <=? size then
        match data with
        | c1 :: c2 :: c3 :: c4 :: data =>
            rest ← base64decode_loop fuel data (size - 3);
            Some (byte1 (decode_char c1) (decode_char c2) :: byte2 (decode_char c2) (decode_char c3) ::
                  byte3 (decode_char c3) (decode_char c4) :: rest)
        | _ => None
        end
      else if size =? 2 then
        match data with
        | c1 :: c2 :: c3 :: _ =>
            Some [byte1 (decode_char c1) (decode_char c2); byte2 (decode_char c2) (decode_char c3)]
        | _ => None
        end
      else if size =? 1 then
        match data with
        | c1 :: c2 :: _ => Some [byte1 (decode_char c1) (decode_char c2)]
        | _ => None
        end
      else Some []
  end.

Definition base64decode (data : bytes) : option bytes :=
  size ← decoded_size data;
  base64decode_loop (S (length data)) data size.

(** ** Lemmas on groups

    Each statement on characters is checked on all of them. *)

(** The index of a character in the key: what [decode_char] gives back. *)
Definition keeps_index (key : bytes) : bool :=
  forallb (λ i, match key_char key (Z.of_nat i) with
                | Some c => (decode_char c =? Z.of_nat i) && negb (Ascii.eqb c "=")
                | None => false
                end) (seq 0 64).

Lemma key_char_decode key i :
  keeps_index key = true → 0 ≤ i < 64 →
  ∃ c, key_char key i = Some c ∧ decode_char c = i ∧ Ascii.eqb c "=" = false.
Proof.
  intros Hk Hi. unfold keeps_index in Hk. rewrite forallb_forall in Hk.
  specialize (Hk (Z.to_nat i)). rewrite in_seq, Z2Nat.id in Hk by lia.
  destruct (key_char key i) as [c|]; [|by discriminate Hk; lia].
  destruct (andb_prop _ _ (Hk ltac:(lia))) as [H1 H2].
  exists c. split_and!; [done|by apply Z.eqb_eq|by apply negb_true_iff].
Qed.

Definition all_chars : list ascii := ascii_of_nat <$> seq 0 256.
Lemma all_chars_in c : In c all_chars.
Proof.
  apply in_map_iff. exists (nat_of_ascii c). split; [apply ascii_nat_embedding|].
  apply in_seq. pose proof (nat_ascii_bounded c). lia.
Qed.

Lemma check_pairs (f : ascii → ascii → bool) :
  forallb (λ c, forallb (f c) all_chars) all_chars = true → ∀ c d, f c d = true.
Proof.
  intros Hf c d. rewrite forallb_forall in Hf. specialize (Hf c (all_chars_in c)).
  rewrite forallb_forall in Hf. apply Hf, all_chars_in.
Qed.

(** The four indices of a group of three bytes. *)
Definition index1 (a : ascii) : Z := Z.shiftr (Z.land (char_code a) 252) 2.
Definition index2 (a b : ascii) : Z :=
  Z.lor (Z.shiftl (Z.land (char_code a) 3) 4) (Z.shiftr (Z.land (char_code b) 240) 4).
Definition index3 (b c : ascii) : Z :=
  Z.lor (Z.shiftl (Z.land (char_code b) 15) 2) (Z.shiftr (Z.land (char_code c) 192) 6).
Definition index4 (c : ascii) : Z := Z.land (char_code c) 63.

Definition is_index (i : Z) : bool := (0 <=? i) && (i <? 64).
Lemma is_index_range i : is_index i = true → 0 ≤ i < 64.
Proof. unfold is_index. lia. Qed.

Lemma index2_facts a b :
  0 ≤ index2 a b < 64 ∧ byte1 (index1 a) (index2 a b) = a ∧
  Z.land (index2 a b) 15 = Z.shiftr (Z.land (char_code b) 240) 4.
Proof.
  pose proof (check_pairs (λ a b, is_index (index2 a b) &&
    Ascii.eqb (byte1 (index1 a) (index2 a b)) a &&
    (Z.land (index2 a b) 15 =? Z.shiftr (Z.land (char_code b) 240) 4)) ltac:(vm_compute; reflexivity) a b) as Hc.
  cbv beta in Hc. rewrite !andb_true_iff, Z.eqb_eq in Hc. destruct Hc as [[Hi Hb] Hl].
  split; [by apply is_index_range|]. split; [by apply Ascii.eqb_eq|done].
Qed.

Lemma index3_facts b c :
  0 ≤ index3 b c < 64 ∧ Z.land (index3 b c) 60 = Z.shiftl (Z.land (char_code b) 15) 2 ∧
  byte3 (index3 b c) (index4 c) = c.
Proof.
  pose proof (check_pairs (λ b c, is_index (index3 b c) &&
    (Z.land (index3 b c) 60 =? Z.shiftl (Z.land (char_code b) 15) 2) &&
    Ascii.eqb (byte3 (index3 b c) (index4 c)) c) ltac:(vm_compute; reflexivity) b c) as Hc.
  cbv beta in Hc. rewrite !andb_true_iff, Z.eqb_eq in Hc. destruct Hc as [[Hi Hl] Hb].
  split; [by apply is_index_range|]. split; [done|by apply Ascii.eqb_eq].
Qed.

Lemma index_facts a :
  0 ≤ index1 a < 64 ∧ 0 ≤ index4 a < 64 ∧ 0 ≤ Z.shiftl (Z.land (char_code a) 3) 4 < 64 ∧
  0 ≤ Z.shiftl (Z.land (char_code a) 15) 2 < 64 ∧
  byte1 (index1 a) (Z.shiftl (Z.land (char_code a) 3) 4) = a.
Proof. split_and!; destruct a as [[] [] [] [] [] [] [] []]; by vm_compute. Qed.

(** The middle byte, from what its two indices share of it. *)
Lemma byte2_facts b even odd :
  Z.land even 15 = Z.shiftr (Z.land (char_code b) 240) 4 →
  Z.land odd 60 = Z.shiftl (Z.land (char_code b) 15) 2 → byte2 even odd = b.
Proof.
  intros He Ho. unfold byte2. rewrite He, Ho. clear.
  destruct b as [[] [] [] [] [] [] [] []]; by vm_compute.
Qed.

Lemma byte2_last b even :
  Z.land even 15 = Z.shiftr (Z.land (char_code b) 240) 4 →
  byte2 even (Z.shiftl (Z.land (char_code b) 15) 2) = b.
Proof.
  intros He. apply byte2_facts; [done|]. clear. destruct b as [[] [] [] [] [] [] [] []]; by vm_compute.
Qed.

(** ** What is encoded is decoded *)

(** An encoding: its length, its end, and what the loop makes of it. *)
Definition encodes (data : bytes) (e : bytes) : Prop :=
  ∀ fuel rest, (length data < fuel)%nat →
    base64decode_loop fuel (e ++ rest) (Z.of_nat (length data)) = Some data.

Definition no_pad (c : ascii) : Prop := Ascii.eqb c "=" = false.
(** The last two characters say how many bytes the last group holds. *)
Definition padding (data e : bytes) : Prop :=
  ∃ pre c1 c2, e = pre ++ [c1; c2] ∧
    match (length data mod 3)%nat with
    | 1%nat => c1 = "="%char
    | 2%nat => no_pad c1 ∧ c2 = "="%char
    | _ => no_pad c1 ∧ no_pad c2
    end.

Lemma list_ind3 {A} (P : list A → Prop) :
  P [] → (∀ a, P [a]) → (∀ a b, P [a; b]) → (∀ a b c l, P l → P (a :: b :: c :: l)) → ∀ l, P l.
Proof.
  intros H0 H1 H2 H3. fix IH 1. intros [|a [|b [|c l]]]; [apply H0|apply H1|apply H2|]. apply H3, IH.
Qed.

Lemma loop_step fuel c1 c2 c3 c4 data rest n :
  3 ≤ n → base64decode_loop fuel data (n - 3) = Some rest →
  base64decode_loop (S fuel) (c1 :: c2 :: c3 :: c4 :: data) n =
  Some (byte1 (decode_char c1) (decode_char c2) :: byte2 (decode_char c2) (decode_char c3) ::
        byte3 (decode_char c3) (decode_char c4) :: rest).
Proof. intros Hn E. cbn [base64decode_loop]. rewrite (proj2 (Z.leb_le 3 n) Hn), E. done. Qed.

Ltac take_key Hk f :=
  let c := fresh "c" in let E := fresh "E" in let D := fresh "D" in let N := fresh "N" in
  destruct (key_char_decode _ _ Hk f) as (c & E & D & N); rewrite E; cbn [mbind option_bind].

Lemma encode_spec key data :
  keeps_index key = true →
  ∃ e, base64encode key data = Some e ∧ encodes data e ∧
    length e = ((length data + 2) / 3 * 4)%nat ∧ (data ≠ [] → padding data e).
Proof.
  intros Hk. unfold base64encode. induction data as [|a|a b|a b c data IH] using list_ind3.
  - exists []. split_and!; [done| |done|done]. intros [|fuel] rest Hf; [cbn in Hf; lia|done].
  - cbn [fmap list_fmap base64encode_loop].
    destruct (index_facts a) as (H1 & _ & H2 & _ & H3). change (char_code a) with (char_code a) in *.
    fold (index1 a). take_key Hk H1. take_key Hk H2.
    eexists. split; [done|]. split_and!; [|done|].
    + intros [|fuel] rest Hf; [cbn in Hf; lia|]. cbn. by rewrite D, D0, H3.
    + intros _. exists [c; c0], "="%char, "="%char. done.
  - cbn [fmap list_fmap base64encode_loop].
    destruct (index_facts a) as (H1 & _). destruct (index_facts b) as (_ & _ & _ & H2 & _).
    destruct (index2_facts a b) as (H3 & H4 & H5).
    fold (index1 a) (index2 a b). take_key Hk H1. take_key Hk H3. take_key Hk H2.
    eexists. split; [done|]. split_and!; [|done|].
    + intros [|fuel] rest Hf; [cbn in Hf; lia|]. cbn. by rewrite D, D0, D1, H4, byte2_last.
    + intros _. exists [c; c0], c1, "="%char. done.
  - destruct IH as (e & E & He & Hl & Hpad).
    cbn [fmap list_fmap base64encode_loop] in *.
    destruct (index_facts a) as (H1 & _). destruct (index_facts c) as (_ & H2 & _).
    destruct (index2_facts a b) as (H3 & H4 & H5). destruct (index3_facts b c) as (H6 & H7 & H8).
    fold (index1 a) (index2 a b) (index3 b c) (index4 c).
    take_key Hk H1. take_key Hk H3. take_key Hk H6. take_key Hk H2.
    rewrite E. cbn [mbind option_bind]. eexists. split; [done|]. split_and!.
    + intros [|fuel] rest Hf; [cbn in Hf; lia|]. cbn [app].
      rewrite (loop_step fuel _ _ _ _ (e ++ rest) data) by
        (try (cbn [length]; lia);
         rewrite <- (He fuel rest) by (cbn in Hf; lia); f_equal; cbn [length]; lia).
      rewrite D, D0, D1, D2, H4, H8. by rewrite (byte2_facts b).
    + cbn [length]. rewrite Hl.
      replace (S (S (S (length data))) + 2)%nat with (length data + 2 + 1 * 3)%nat by lia.
      rewrite Nat.div_add by lia. lia.
    + intros _. unfold padding. cbn [length].
      replace (S (S (S (length data))) mod 3)%nat with (length data mod 3)%nat
        by (replace (S (S (S (length data)))) with (length data + 1 * 3)%nat by lia; by rewrite Nat.Div0.mod_add).
      destruct data as [|d data].
      * destruct e; [|cbn in Hl; lia]. exists [c0; c1], c2, c3. done.
      * destruct (Hpad ltac:(done)) as (pre & x & y & -> & Hxy).
        exists (c0 :: c1 :: c2 :: c3 :: pre), x, y. done.
Qed.

Lemma decoded_size_spec data e :
  data ≠ [] → padding data e → length e = ((length data + 2) / 3 * 4)%nat →
  decoded_size e = Some (Z.of_nat (length data)).
Proof.
  intros Hne (pre & c1 & c2 & -> & Hp) Hl. set (n := length data) in *.
  assert (n ≠ 0)%nat as Hn by (unfold n; destruct data; [done|cbn; lia]).
  rewrite length_app in Hl. cbn [length] in Hl.
  pose proof (Nat.div_mod n 3 ltac:(lia)) as Hdm. pose proof (Nat.mod_upper_bound n 3 ltac:(lia)) as Hub.
  set (q := (n / 3)%nat) in *. set (r := (n mod 3)%nat) in *.
  assert ((n + 2) / 3 = if decide (r = 0) then q else S q)%nat as Hk.
  { destruct (decide (r = 0%nat)); symmetry.
    - apply (Nat.div_unique _ 3 _ 2); lia.
    - apply (Nat.div_unique _ 3 _ (r - 1)); lia. }
  rewrite Hk in Hl. unfold decoded_size. rewrite length_app. cbn [length].
  set (k := (if decide (r = 0) then q else S q)%nat) in *. rewrite Hl.
  assert (0 < k)%nat as Hk0 by (unfold k; destruct (decide (r = 0%nat)); lia).
  assert (Z.of_nat (k * 4) = Z.of_nat k * 4) as Hz by lia. rewrite Hz, Z.mod_mul, Z.div_mul by lia.
  cbn [Z.eqb]. rewrite (proj2 (Z.ltb_ge _ _)) by lia.
  rewrite lookup_app_r by lia. rewrite lookup_app_r by lia.
  replace (Z.to_nat (Z.of_nat k * 4 - 2) - length pre)%nat with 0%nat by lia.
  replace (Z.to_nat (Z.of_nat k * 4 - 1) - length pre)%nat with 1%nat by lia.
  cbn [lookup list_lookup mbind option_bind]. unfold no_pad in Hp.
  destruct r as [|[|[|r]]]; [| | |lia].
  - destruct Hp as [-> ->]. f_equal. change k with q. lia.
  - subst c1. change (Ascii.eqb "=" "=") with true. cbn match. f_equal. change k with (S q). lia.
  - destruct Hp as [-> ->]. change (Ascii.eqb "=" "=") with true. cbn match. f_equal.
    change k with (S q). lia.
Qed.

Lemma standard_keeps : keeps_index standard_key = true ∧ keeps_index urlsafe_key = true.
Proof. by vm_compute. Qed.

(** C29: base 64 loses nothing.  Whatever the bytes, if there are any, either alphabet encodes
    them, into four characters for each three bytes begun, without a read outside the
    alphabet, and the one decoder gives them back without a read outside its input. *)
Theorem base64_round_trip key data :
  key = standard_key ∨ key = urlsafe_key → data ≠ [] →
  ∃ e, base64encode key data = Some e ∧ length e = ((length data + 2) / 3 * 4)%nat ∧
    base64decode e = Some data.
Proof.
  intros Hkey Hne. assert (keeps_index key = true) as Hk by (destruct Hkey as [-> | ->]; apply standard_keeps).
  destruct (encode_spec key data Hk) as (e & He & Hdec & Hl & Hp). exists e. split_and!; [done|done|].
  unfold base64decode. rewrite (decoded_size_spec data e Hne (Hp Hne) Hl). cbn [mbind option_bind].
  rewrite <- (app_nil_r e) at 2. apply Hdec. rewrite Hl.
  assert (length data ≤ (length data + 2) / 3 * 4)%nat; [|lia].
  pose proof (Nat.div_mod (length data + 2) 3 ltac:(lia)).
  pose proof (Nat.mod_upper_bound (length data + 2) 3 ltac:(lia)). lia.
Qed.

Lemma base64_round_trip_witness :
  ∃ e, base64encode urlsafe_key (list_ascii_of_string "any old bytes") = Some e ∧
    base64decode e = Some (list_ascii_of_string "any old bytes").
Proof.
  destruct (base64_round_trip urlsafe_key (list_ascii_of_string "any old bytes"))
    as (e & He & _ & Hd); [right; reflexivity|discriminate|].
  exists e. split; [exact He|exact Hd].
Defined.

(** The decoder of no characters reads before its input. *)
Example base64decode_nothing : base64decode [] = None.
Proof. reflexivity. Qed.
