(* ===== verification/Multipart.v ===== *)
(** * Multipart messages

    lib/crowapi/crow_all.h, namespace [multipart]: a message of several parts, each with
    headers that have parameters; printing a message ([dump]) and parsing the body of a request.

    Positions and counts are [size_t]: [npos], what [find] gives when there is nothing to find,
    is the largest, and sums wrap around.  The hash tables of headers and parameters are lists
    of their entries in insertion order, which stands for the order they are iterated in. *)

From Stdlib Require Import ZArith Lia Ascii String.
From stdpp Require Import base tactics option strings list.
From S2P Require Import Prelude.
From S2P Require Import CppStd.
From S2P Require Import QueryString.
From S2P Require Import Crow.

Local Open Scope Z_scope.

(** ** std::string *)

Definition npos : Z := 2 ^ 64 - 1.
(** The sum of two values of type [size_t]. *)
Definition plus64 (a b : Z) : Z := (a + b) mod 2 ^ 64.
Definition size (s : bytes) : Z := Z.of_nat (length s).

Definition starts_with (sub s : bytes) : bool := bool_decide (take (length sub) s = sub).
(** The index of the first occurrence. *)
Fixpoint find_index (sub s : bytes) : option nat :=
  if starts_with sub s then Some 0%nat
  else match s with [] => None | _ :: s => S <$> find_index sub s end.
Definition find (s sub : bytes) : Z :=
  match find_index sub s with Some i => Z.of_nat i | None => npos end.

(** The first [n] characters, or all when there are fewer. *)
Definition upto (n : Z) (s : bytes) : bytes := take (Z.to_nat (Z.min n (size s))) s.
Definition from (n : Z) (s : bytes) : bytes := drop (Z.to_nat (Z.min n (size s))) s.

(** [substr(pos, n)] *)
Definition substr (s : bytes) (pos n : Z) : outcome bytes :=
  if size s <? pos then Throw out_of_range else Val (upto n (from pos s)).
(** [erase(0, n)] *)
Definition erase_front (s : bytes) (n : Z) : bytes := from n s.

Definition crlf : bytes := ["013"%char; "010"%char].
Definition dd : bytes := ["-"; "-"]%char.
Definition lit (s : string) : bytes := list_ascii_of_string s.

(** ** The data *)

Record header : Type := MkHeader { value : bytes; params : list (bytes * bytes) }.
Abbreviation mph_map := (list (bytes * header)).
Record part : Type := MkPart { headers : mph_map; body : bytes }.
Abbreviation mp_map := (list (bytes * part)).
Record multipart_message : Type := MkMultipart {
  content_type : bytes;
  message_headers : ci_map;
  boundary : bytes;
  parts : list part;
  part_map : mp_map
}.

Definition ci_eq (a b : bytes) : bool :=
  iequals (string_of_list_ascii a) (string_of_list_ascii b).
(** [find(key)->second] of a map with case-insensitive keys. *)
Definition ci_find {A} (m : list (bytes * A)) (key : bytes) : option A :=
  snd <$> List.find (λ e, ci_eq e.1 key) m.

(** [get_header_object]: an empty header when there is none. *)
Definition get_header_object (m : mph_map) (key : bytes) : header :=
  default (MkHeader [] []) (ci_find m key).

(** [params.find(name)->second]: undefined when there is no such parameter. *)
Definition param_value (h : header) (name : bytes) : outcome bytes :=
  match List.find (λ e, bool_decide (e.1 = name)) (params h) with
  | Some e => Val e.2
  | None => Undef out_of_bounds
  end.

(** [get_part_by_name]: undefined when there is no such part. *)
Definition get_part_by_name (m : multipart_message) (name : bytes) : outcome part :=
  match ci_find (part_map m) name with Some p => Val p | None => Undef out_of_bounds end.

(** ** dump *)

Definition pad (s : bytes) : bytes := "034"%char :: s ++ ["034"%char].

Definition dump_header (h : bytes * header) : bytes :=
  h.1 ++ lit ": " ++ value h.2 ++
  List.concat ((λ it : bytes * bytes, lit "; " ++ it.1 ++ ["="%char] ++ pad it.2) <$> params h.2) ++
  crlf.
Definition dump_part (item : part) : bytes :=
  List.concat (dump_header <$> headers item) ++ crlf ++ body item ++ crlf.
Definition dump (m : multipart_message) : bytes :=
  let delimiter := dd ++ boundary m in
  List.concat ((λ item, delimiter ++ crlf ++ dump_part item) <$> parts m) ++ delimiter ++ dd ++ crlf.

(** ** Parsing *)

Local Open Scope outcome_scope.

Definition trim (s : bytes) : bytes :=
  match s, last s with
  | "034"%char :: _ :: _, Some "034"%char => take (length s - 2) (tail s)
  | _, _ => s
  end.

(** One turn of the loop over the parameters of a line. *)
Definition parse_param (line : bytes) (ps : list (bytes * bytes))
    : outcome (bytes * list (bytes * bytes)) :=
  let found := find line (lit "; ") in
  param ← substr line 0 found;
  let line := if found =? npos then [] else erase_front line (plus64 found 2) in
  let param_split := find param ["="%char] in
  value ← substr param (plus64 param_split 1) npos;
  name ← substr param 0 param_split;
  Val (line, dict_insert (name, trim value) ps).

Fixpoint parse_params (fuel : nat) (line : bytes) (ps : list (bytes * bytes))
    : outcome (list (bytes * bytes)) :=
  match line with
  | [] => Val ps
  | _ =>
      match fuel with
      | O => OutOfFuel
      | S fuel => '(line, ps) ← parse_param line ps; parse_params fuel line ps
      end
  end.

(** The header of a line: the key, the value, and the rest of the line. *)
Definition parse_header (line : bytes) : outcome (bytes * bytes * bytes) :=
  match line with
  | [] => Val ([], [], [])
  | _ =>
      let found := find line (lit "; ") in
      header ← substr line 0 found;
      let line := if found =? npos then [] else erase_front line (plus64 found 2) in
      let header_split := find header (lit ": ") in
      key ← substr header 0 header_split;
      value ← substr header (plus64 header_split 2) npos;
      Val (key, value, line)
  end.

(** One turn of the loop over the lines. *)
Definition parse_head_line (lines : bytes) (hs : mph_map) : outcome (bytes * mph_map) :=
  let found := find lines crlf in
  line ← substr lines 0 found;
  let lines := erase_front lines (plus64 found 2) in
  '(key, value, line) ← parse_header line;
  ps ← parse_params (length line) line [];
  Val (lines, hs ++ [(key, MkHeader value ps)]).

Fixpoint parse_section_head (fuel : nat) (lines : bytes) (hs : mph_map) : outcome mph_map :=
  match lines with
  | [] => Val hs
  | _ =>
      match fuel with
      | O => OutOfFuel
      | S fuel => '(lines, hs) ← parse_head_line lines hs; parse_section_head fuel lines hs
      end
  end.

Definition parse_section (section : bytes) : outcome part :=
  let found := find section (crlf ++ crlf) in
  head_line ← substr section 0 (plus64 found 2);
  let section := erase_front section (plus64 found 4) in
  hs ← parse_section_head (length head_line) head_line [];
  body ← substr section 0 ((size section - 2) mod 2 ^ 64);
  Val (MkPart hs body).

(** One turn of the loop of [parse_body]. *)
Definition parse_next (delimiter body : bytes) (sections : list part) (part_map : mp_map)
    : outcome (bytes * list part * mp_map) :=
  let found := find body delimiter in
  section ← substr body 0 found;
  let body := erase_front body (plus64 (plus64 found (size delimiter)) 2) in
  match section with
  | [] => Val (body, sections, part_map)
  | _ =>
      parsed_section ← parse_section section;
      name ← param_value (get_header_object (headers parsed_section) (lit "Content-Disposition"))
               (lit "name");
      Val (body, sections ++ [parsed_section], part_map ++ [(name, parsed_section)])
  end.

(** The loop of [parse_body], which ends when the body is an end of line and nothing else. *)
Fixpoint parse_body (fuel : nat) (delimiter body : bytes) (sections : list part) (part_map : mp_map)
    : outcome (list part * mp_map) :=
  if bool_decide (body = crlf) then Val (sections, part_map)
  else
    match fuel with
    | O => OutOfFuel
    | S fuel =>
        '(body, sections, part_map) ← parse_next delimiter body sections part_map;
        parse_body fuel delimiter body sections part_map
    end.

(** [get_boundary]: the test is on the position, which is 0 only when the text comes first. *)
Definition get_boundary (content_type : bytes) : outcome bytes :=
  let found := find content_type (lit "boundary=") in
  if found =? 0 then Val []
  else
    to_return ← substr content_type (plus64 found 9) npos;
    match to_return with
    | "034"%char :: _ => substr to_return 1 ((size to_return - 2) mod 2 ^ 64)
    | _ => Val to_return
    end.

Definition multipart_type (boundary : bytes) : bytes :=
  lit "multipart/form-data; boundary=" ++
  match boundary with [] => lit "CROW-BOUNDARY" | _ => boundary end.

(** [message(req)] *)
Definition message_of_request (fuel : nat) (req : request) : outcome multipart_message :=
  boundary ← get_boundary (lit (get_header_value (req_headers req) "Content-Type"));
  '(parts, part_map) ← parse_body fuel (dd ++ boundary) (lit (req_body req)) [] [];
  Val (MkMultipart (multipart_type boundary) (req_headers req) boundary parts part_map).

(** The entries the constructor puts in [part_map]. *)
Fixpoint name_parts (sections : list part) : outcome mp_map :=
  match sections with
  | [] => Val []
  | item :: sections =>
      name ← param_value (get_header_object (headers item) (lit "Content-Disposition")) (lit "name");
      rest ← name_parts sections;
      Val ((name, item) :: rest)
  end.
(** [message(headers, boundary, sections)] *)
Definition new_message (headers : ci_map) (boundary : bytes) (sections : list part) : outcome multipart_message :=
  part_map ← name_parts sections;
  Val (MkMultipart (multipart_type boundary) headers boundary sections part_map).
