(* ===== verification/MultipartFacts.v ===== *)
(** * Multipart messages: the round trip

    A printed message, received as the body of a request with the content type it announces, is
    parsed to the same message: the same boundary, headers, parameters and bodies, part by part. *)

From Stdlib Require Import ZArith Lia Ascii String.
From stdpp Require Import base tactics option strings list.
From S2P Require Import Prelude.
From S2P Require Import CppStd.
From S2P Require Import QueryString.
From S2P Require Import Crow.
From S2P Require Import Multipart.

Local Open Scope Z_scope.

(** ** Which messages can be read back *)

Definition cr : ascii := "013"%char.
Definition lf : ascii := "010"%char.
Definition lacks (c : ascii) (s : bytes) : bool := bool_decide (c ∉ s).

Definition param_ok (p : bytes * bytes) : bool :=
  lacks cr p.1 && lacks ";" p.1 && lacks "=" p.1 && lacks cr p.2 && lacks ";" p.2.
Definition header_ok (h : bytes * header) : bool :=
  lacks cr h.1 && lacks ";" h.1 && lacks ":" h.1 && lacks cr (value h.2) && lacks ";" (value h.2) &&
  forallb param_ok (params h.2) && bool_decide (NoDup (params h.2).*1).
Definition boundary_ok (b : bytes) : bool :=
  lacks lf b && match b with [] => false | c :: _ => negb (bool_decide (c = "034"%char)) end.
(** The delimiter does not occur in the part. *)
Definition part_ok (delimiter : bytes) (item : part) : bool :=
  forallb header_ok (headers item) && bool_decide (find_index delimiter (dump_part item) = None).
(** A text with a length of type [size_t], other than [npos]. *)
Definition short (s : bytes) : Prop := size s < npos.

Lemma lacks_not_in c s : lacks c s = true → c ∉ s.
Proof. apply bool_decide_eq_true_1. Qed.

(** ** Searching *)

Lemma starts_with_here sub r : starts_with sub (sub ++ r) = true.
Proof. apply bool_decide_eq_true_2, take_app_length. Qed.

Lemma starts_with_other x sub y s : x ≠ y → starts_with (x :: sub) (y :: s) = false.
Proof. intros N. apply bool_decide_eq_false_2. simpl. congruence. Qed.

(** What [find_index] gives does not depend on how it recurs. *)
Lemma find_index_eq sub s :
  find_index sub s =
  if starts_with sub s then Some 0%nat
  else match s with [] => None | _ :: s => S <$> find_index sub s end.
Proof. by destruct s. Qed.

Lemma find_index_here sub r : find_index sub (sub ++ r) = Some 0%nat.
Proof. by rewrite find_index_eq, starts_with_here. Qed.

Lemma find_index_skip x sub s r : x ∉ s →
  find_index (x :: sub) (s ++ r) = Nat.add (length s) <$> find_index (x :: sub) r.
Proof.
  induction s as [|y s IH]; intros N; simpl app.
  - by destruct (find_index (x :: sub) r).
  - apply not_elem_of_cons in N as [Ny N].
    rewrite find_index_eq, starts_with_other by done. rewrite IH by done.
    by destruct (find_index (x :: sub) r).
Qed.

Lemma find_index_first x sub s r : x ∉ s →
  find_index (x :: sub) (s ++ (x :: sub) ++ r) = Some (length s).
Proof. intros N. rewrite find_index_skip, find_index_here by done. simpl. f_equal. lia. Qed.

Lemma find_index_absent x sub s : x ∉ s → find_index (x :: sub) s = None.
Proof.
  intros N. rewrite <- (app_nil_r s), find_index_skip by done. done.
Qed.

(** A text that begins within [t ++ r] and has no [c] ends before the [c] of [t]. *)
Lemma starts_with_inside c sub t r : c ∉ sub → c ∈ t →
  starts_with sub (t ++ r) = true → starts_with sub t = true.
Proof.
  intros N I E. apply bool_decide_eq_true_1 in E. apply bool_decide_eq_true_2.
  rewrite take_app in E. destruct (decide (length sub ≤ length t)%nat) as [L|L].
  - replace (length sub - length t)%nat with 0%nat in E by lia. by rewrite take_0, app_nil_r in E.
  - destruct N. rewrite <- E, take_ge by lia. apply elem_of_app. by left.
Qed.

Lemma find_index_last c sub s r : c ∉ sub → find_index sub (s ++ [c]) = None →
  find_index sub ((s ++ [c]) ++ sub ++ r) = Some (length (s ++ [c])).
Proof.
  intros N. assert (A : ∀ s, find_index sub (s ++ [c]) = None →
    starts_with sub ((s ++ [c]) ++ sub ++ r) = false).
  { intros t F. apply not_true_iff_false. intros B. apply (starts_with_inside c) in B; [|done|].
    - rewrite find_index_eq, B in F. done.
    - apply elem_of_app. right. by apply list_elem_of_singleton. }
  induction s as [|x s IH]; intros F; rewrite find_index_eq, A by done; simpl.
  - by rewrite find_index_here.
  - simpl in F. rewrite IH; [done|].
    destruct (starts_with sub _); [done|]. by destruct (find_index sub (s ++ [c])).
Qed.

(** ** Positions *)

Lemma size_app s t : size (s ++ t) = size s + size t.
Proof. unfold size. rewrite length_app. lia. Qed.
Lemma size_cons c t : size (c :: t) = 1 + size t.
Proof. unfold size. simpl. lia. Qed.
Lemma size_nonneg s : 0 ≤ size s.
Proof. unfold size. lia. Qed.

#[local] Hint Rewrite size_app size_cons : size.
Ltac sizes :=
  unfold short in *; autorewrite with size in *; unfold npos in *; change (size []) with 0 in *;
  repeat match goal with
  | s : bytes |- _ => lazymatch goal with H : 0 ≤ size s |- _ => fail | _ => pose proof (size_nonneg s) end
  end; lia.

Lemma short_app_l a b : short (a ++ b) → short a.
Proof. intros. sizes. Qed.
Lemma short_app_r a b : short (a ++ b) → short b.
Proof. intros. sizes. Qed.

Lemma upto_app n a b : n = size a → upto n (a ++ b) = a.
Proof.
  intros ->. unfold upto. rewrite Z.min_l by (rewrite size_app; pose proof (size_nonneg b); lia).
  unfold size. rewrite Nat2Z.id. apply take_app_length.
Qed.
Lemma from_app n a b : n = size a → from n (a ++ b) = b.
Proof.
  intros ->. unfold from. rewrite Z.min_l by (rewrite size_app; pose proof (size_nonneg b); lia).
  unfold size. rewrite Nat2Z.id. apply drop_app_length.
Qed.
Lemma upto_all n s : size s ≤ n → upto n s = s.
Proof. intros L. unfold upto. rewrite Z.min_r by done. apply take_ge. unfold size. lia. Qed.

Lemma substr_front n a b : n = size a → substr (a ++ b) 0 n = Val a.
Proof.
  intros E. unfold substr. destruct (Z.ltb_spec (size (a ++ b)) 0).
  - pose proof (size_nonneg (a ++ b)). lia.
  - replace (from 0 (a ++ b)) with (a ++ b) by (symmetry; by apply (from_app 0 [])).
    by rewrite upto_app.
Qed.
Lemma substr_rest n a b : n = size a → short b → substr (a ++ b) n npos = Val b.
Proof.
  intros -> L. unfold substr. destruct (Z.ltb_spec (size (a ++ b)) (size a)); [sizes|].
  rewrite from_app, upto_all by (done || sizes). done.
Qed.
Lemma substr_all s : short s → substr s 0 npos = Val s.
Proof. intros L. apply (substr_rest 0 [] s); done. Qed.

Lemma plus64_small a b : 0 ≤ a + b → a + b < 2 ^ 64 → plus64 a b = a + b.
Proof. intros. unfold plus64. by rewrite Z.mod_small. Qed.

Lemma find_some s sub (t : bytes) : find_index sub s = Some (length t) → find s sub = size t.
Proof. unfold find. by intros ->. Qed.
Lemma find_none s sub : find_index sub s = None → find s sub = npos.
Proof. unfold find. by intros ->. Qed.

(** ** The parameters of a header *)

(** The common step: take the text before the separator, leave the text behind it. *)
Lemma cut_at sep s r : short (s ++ sep ++ r) → find_index sep (s ++ sep ++ r) = Some (length s) →
  find (s ++ sep ++ r) sep = size s ∧
  substr (s ++ sep ++ r) 0 (size s) = Val s ∧
  erase_front (s ++ sep ++ r) (plus64 (size s) (size sep)) = r ∧
  size s ≠ npos.
Proof.
  intros L F. split_and!.
  - by apply find_some.
  - by apply substr_front.
  - unfold erase_front. rewrite app_assoc, plus64_small by sizes. apply from_app. by sizes.
  - sizes.
Qed.

Lemma trim_pad v : trim (pad v) = v.
Proof.
  unfold trim, pad. destruct (v ++ ["034"%char]) as [|c l] eqn:E; [by destruct v|].
  cbv iota beta. rewrite <- E.
  assert (last ("034"%char :: v ++ ["034"%char]) = Some "034"%char) as ->
    by exact (last_snoc "034"%char ("034"%char :: v)).
  simpl tail. cbv iota. rewrite take_app_le by (simpl; rewrite length_app; simpl; lia).
  apply take_ge. simpl. rewrite length_app. simpl. lia.
Qed.

Lemma dict_insert_fresh k v ps : k ∉ ps.*1 → dict_insert (k, v) ps = ps ++ [(k, v)].
Proof. intros N. unfold dict_insert. by rewrite bool_decide_eq_false_2. Qed.

Definition print_param (it : bytes * bytes) : bytes := it.1 ++ ["="%char] ++ pad it.2.
(** The rest of the line before the loop over the parameters. *)
Fixpoint params_line (ps : list (bytes * bytes)) : bytes :=
  match ps with
  | [] => []
  | [p] => print_param p
  | p :: ps => print_param p ++ lit "; " ++ params_line ps
  end.

(** A printed parameter is split at its sign. *)
Lemma split_param n v : "="%char ∉ n → short (print_param (n, v)) →
  find (print_param (n, v)) ["="%char] = size n ∧
  substr (print_param (n, v)) (plus64 (size n) 1) npos = Val (pad v) ∧
  substr (print_param (n, v)) 0 (size n) = Val n.
Proof.
  unfold print_param. simpl fst. simpl snd. generalize (pad v) as w. intros w N L.
  assert (F := find_index_first "="%char [] n w N). split_and!.
  - by apply find_some.
  - rewrite plus64_small by sizes. rewrite app_assoc. apply substr_rest; sizes.
  - by apply substr_front.
Qed.

Lemma param_ok_spec n v : param_ok (n, v) = true →
  cr ∉ print_param (n, v) ∧ ";"%char ∉ print_param (n, v) ∧ "="%char ∉ n.
Proof.
  unfold param_ok, print_param, pad. rewrite !andb_true_iff.
  intros [[[[A B] C] D] E]. apply lacks_not_in in A, B, C, D, E. simpl in *.
  rewrite !not_elem_of_app, !not_elem_of_cons, !not_elem_of_app, !list_elem_of_singleton.
  repeat split; (done || discriminate).
Qed.

Lemma parse_param_printed p ps done_ : param_ok p = true → short (params_line (p :: ps)) →
  p.1 ∉ done_.*1 →
  parse_param (params_line (p :: ps)) done_ = Val (params_line ps, done_ ++ [p]).
Proof.
  destruct p as [n v]. intros O L N. destruct (param_ok_spec _ _ O) as (_ & S & E).
  unfold parse_param. destruct ps as [|q ps].
  - simpl params_line in *. rewrite (find_none _ (lit "; ")) by by apply find_index_absent.
    rewrite substr_all by done. simpl outcome_bind. cbv beta iota zeta.
    destruct (split_param n v) as (-> & -> & ->); try done.
    cbv beta iota zeta delta [outcome_bind]. by rewrite trim_pad, dict_insert_fresh.
  - change (params_line ((n, v) :: q :: ps)) with
      (print_param (n, v) ++ lit "; " ++ params_line (q :: ps)) in *.
    destruct (cut_at (lit "; ") (print_param (n, v)) (params_line (q :: ps))) as (-> & -> & C & M);
      [done|by apply find_index_first|].
    change (size (lit "; ")) with 2 in C. rewrite C.
    rewrite (proj2 (Z.eqb_neq _ _)) by done. simpl outcome_bind. cbv beta iota zeta.
    destruct (split_param n v) as (-> & -> & ->); [done|by eapply short_app_l|].
    cbv beta iota zeta delta [outcome_bind]. by rewrite trim_pad, dict_insert_fresh.
Qed.

Lemma parse_params_printed ps done_ fuel : forallb param_ok ps = true → short (params_line ps) →
  NoDup (done_ ++ ps).*1 → (length ps ≤ fuel)%nat →
  parse_params fuel (params_line ps) done_ = Val (done_ ++ ps).
Proof.
  revert done_ fuel. induction ps as [|p ps IH]; intros done_ fuel O L N U.
  - rewrite app_nil_r. by destruct fuel.
  - simpl in O. apply andb_true_iff in O as [Op O]. destruct fuel as [|fuel]; [simpl in U; lia|].
    assert (R : ∃ c l, params_line (p :: ps) = c :: l).
    { destruct ps; simpl; unfold print_param; destruct p as [[|c n] v]; simpl; eauto. }
    destruct R as (c & l & R).
    assert (E : parse_params (S fuel) (params_line (p :: ps)) done_ =
      outcome_bind (parse_param (params_line (p :: ps)) done_)
        (λ r, parse_params fuel r.1 r.2)) by (rewrite R; simpl; by destruct (parse_param _ _) as [[]| | | | |]).
    rewrite E, parse_param_printed; [|done|done|].
    + cbn [outcome_bind fst snd]. rewrite IH, <- app_assoc; try done.
      * destruct ps; [done|]. exact (short_app_r (lit "; ") _ (short_app_r (print_param p) _ L)).
      * by rewrite <- app_assoc.
      * simpl in U. lia.
    + rewrite fmap_app in N. simpl in N. apply NoDup_app in N as (_ & N & _).
      intros I. destruct (N _ I). by left.
Qed.

(** ** The headers of a part *)

Definition print_header (h : bytes * header) : bytes :=
  h.1 ++ lit ": " ++ value h.2 ++
  match params h.2 with [] => [] | _ => lit "; " ++ params_line (params h.2) end.

Lemma params_line_cons ps :
  List.concat ((λ it : bytes * bytes, lit "; " ++ it.1 ++ ["="%char] ++ pad it.2) <$> ps) =
  match ps with [] => [] | _ => lit "; " ++ params_line ps end.
Proof.
  induction ps as [|p ps IH]; [done|]. cbn [fmap list_fmap List.concat]. setoid_rewrite IH.
  change (p.1 ++ _ ++ pad p.2) with (print_param p). simpl lit. simpl. f_equal. f_equal.
  destruct ps; [by rewrite app_nil_r|done].
Qed.

Lemma dump_header_line h : dump_header h = print_header h ++ crlf.
Proof.
  unfold dump_header, print_header. rewrite params_line_cons. by rewrite <- !app_assoc.
Qed.

(** A printed header is split into its key, its value and its parameters. *)
Lemma split_header k v : ":"%char ∉ k → short (k ++ lit ": " ++ v) →
  find (k ++ lit ": " ++ v) (lit ": ") = size k ∧
  substr (k ++ lit ": " ++ v) 0 (size k) = Val k ∧
  substr (k ++ lit ": " ++ v) (plus64 (size k) 2) npos = Val v.
Proof.
  intros N L. destruct (cut_at (lit ": ") k v) as (F & S & _ & M); [done|by apply find_index_first|].
  split_and!; [done|done|]. change (lit ": ") with [":"; " "]%char in *.
  rewrite plus64_small by sizes. rewrite app_assoc. apply substr_rest; sizes.
Qed.

Lemma params_line_lacks c ps : (∀ p, p ∈ ps → c ∉ print_param p) → c ∉ lit "; " → c ∉ params_line ps.
Proof.
  intros N S. induction ps as [|p [|q ps] IH]; [apply not_elem_of_nil|by apply N; left|].
  change (params_line _) with (print_param p ++ lit "; " ++ params_line (q :: ps)).
  rewrite !not_elem_of_app. split_and!; [apply N; by left|done|].
  apply IH. intros r I. apply N. by right.
Qed.

(** What [header_ok] says, as propositions. *)
Lemma header_ok_spec k v ps : header_ok (k, MkHeader v ps) = true →
  cr ∉ print_header (k, MkHeader v ps) ∧ ";"%char ∉ k ++ lit ": " ++ v ∧ ":"%char ∉ k ∧
  forallb param_ok ps = true ∧ NoDup ps.*1.
Proof.
  unfold header_ok, print_header. rewrite !andb_true_iff. simpl.
  intros [[[[[[A B] C] D] E] O] U]. apply lacks_not_in in A, B, C, D, E.
  apply bool_decide_eq_true_1 in U.
  split_and!; try done.
  - rewrite not_elem_of_app, !not_elem_of_cons, not_elem_of_app. split_and!; try (done || discriminate).
    destruct ps as [|p ps]; [apply not_elem_of_nil|]. rewrite !not_elem_of_cons.
    split_and!; try discriminate. apply params_line_lacks.
    + intros q I. rewrite forallb_forall in O. destruct q as [n w].
      exact (proj1 (param_ok_spec n w (O _ (proj1 (list_elem_of_In _ _) I)))).
    + by apply lacks_not_in.
  - rewrite not_elem_of_app, !not_elem_of_cons. split_and!; (done || discriminate).
Qed.

Lemma parse_header_printed k v ps : header_ok (k, MkHeader v ps) = true →
  short (print_header (k, MkHeader v ps)) →
  parse_header (print_header (k, MkHeader v ps)) = Val (k, v, params_line ps).
Proof.
  intros O L. destruct (header_ok_spec _ _ _ O) as (_ & S & N & _ & _).
  assert (R : ∃ c l, print_header (k, MkHeader v ps) = c :: l)
    by (unfold print_header; destruct k; simpl; eauto).
  destruct R as (c & l & R). unfold parse_header. rewrite R, <- R. clear c l R.
  unfold print_header in *. simpl fst in *. simpl snd in *. simpl value in *. simpl params in *.
  destruct ps as [|p ps].
  - rewrite !app_nil_r in *. rewrite (find_none _ (lit "; ")) by by apply find_index_absent.
    rewrite substr_all by done. cbn [outcome_bind].
    destruct (split_header k v N L) as (-> & -> & ->). done.
  - assert (A : k ++ lit ": " ++ v ++ lit "; " ++ params_line (p :: ps) =
      (k ++ lit ": " ++ v) ++ lit "; " ++ params_line (p :: ps)) by by rewrite <- !app_assoc.
    rewrite A in *. destruct (cut_at (lit "; ") (k ++ lit ": " ++ v) (params_line (p :: ps)))
      as (-> & -> & C & M); [done|by apply find_index_first|].
    change (size (lit "; ")) with 2 in C. rewrite C.
    rewrite (proj2 (Z.eqb_neq _ _)) by done. cbn [outcome_bind].
    apply short_app_l in L. destruct (split_header k v N L) as (-> & -> & ->). done.
Qed.

Lemma params_line_length ps : (length ps ≤ length (params_line ps))%nat.
Proof.
  induction ps as [|p [|q ps] IH]; [done| |].
  - simpl. unfold print_param. rewrite length_app. simpl. lia.
  - change (params_line _) with (print_param p ++ lit "; " ++ params_line (q :: ps)).
    rewrite !length_app. cbn [length] in *. simpl (length (lit _)). lia.
Qed.

Lemma print_header_short k v ps : short (print_header (k, MkHeader v ps)) → short (params_line ps).
Proof.
  unfold print_header. simpl. intros L. destruct ps as [|p ps]; [done|].
  apply short_app_r in L. apply (short_app_r (lit ": ")) in L. apply short_app_r in L.
  by apply (short_app_r (lit "; ")) in L.
Qed.

Lemma parse_head_line_printed h rest hs : header_ok h = true → short (dump_header h ++ rest) →
  parse_head_line (dump_header h ++ rest) hs = Val (rest, hs ++ [h]).
Proof.
  destruct h as [k [v ps]]. intros O L. destruct (header_ok_spec _ _ _ O) as (R & _ & _ & P & U).
  rewrite dump_header_line, <- app_assoc in *. unfold parse_head_line.
  destruct (cut_at crlf (print_header (k, MkHeader v ps)) rest) as (-> & -> & C & _);
    [done|by apply find_index_first|].
  change (size crlf) with 2 in C. rewrite C. cbn [outcome_bind].
  apply short_app_l in L. rewrite parse_header_printed by done. cbn [outcome_bind].
  rewrite (parse_params_printed ps []); [done|done|by eapply print_header_short|done|].
  apply params_line_length.
Qed.

Lemma dump_header_cons h : ∃ c l, dump_header h = c :: l ∧ (c = cr → cr ∈ h.1).
Proof.
  unfold dump_header. destruct h.1 as [|c k]; simpl; eexists _, _; split; try done.
  intros ->. by left.
Qed.

Lemma parse_section_head_printed hs done_ fuel : forallb header_ok hs = true →
  short (List.concat (dump_header <$> hs)) → (length hs ≤ fuel)%nat →
  parse_section_head fuel (List.concat (dump_header <$> hs)) done_ = Val (done_ ++ hs).
Proof.
  revert done_ fuel. induction hs as [|h hs IH]; intros done_ fuel O L U.
  - rewrite app_nil_r. by destruct fuel.
  - simpl in O. apply andb_true_iff in O as [Oh O]. destruct fuel as [|fuel]; [simpl in U; lia|].
    cbn [fmap list_fmap List.concat] in *. set (rest := List.concat _) in *.
    assert (E : parse_section_head (S fuel) (dump_header h ++ rest) done_ =
      outcome_bind (parse_head_line (dump_header h ++ rest) done_)
        (λ r, parse_section_head fuel r.1 r.2)).
    { destruct (dump_header_cons h) as (c & l & -> & _). simpl.
      by destruct (parse_head_line _ _) as [[]| | | | |]. }
    rewrite E, parse_head_line_printed by done. cbn [outcome_bind fst snd].
    unfold rest. rewrite IH; [by rewrite <- app_assoc|done|by eapply short_app_r|simpl in U; lia].
Qed.

Lemma headers_length hs : (length hs ≤ length (List.concat (dump_header <$> hs)))%nat.
Proof.
  induction hs as [|h hs IH]; [done|]. cbn [fmap list_fmap List.concat]. rewrite length_app.
  destruct (dump_header_cons h) as (c & l & -> & _). simpl length in *. lia.
Qed.

(** ** A part *)

(** The first empty line is the one behind the headers. *)
Lemma head_end h hs : forallb header_ok (h :: hs) = true →
  ∃ t, List.concat (dump_header <$> h :: hs) = t ++ crlf ∧
    ∀ r, find_index (crlf ++ crlf) (t ++ (crlf ++ crlf) ++ r) = Some (length t).
Proof.
  revert h. induction hs as [|h2 hs IH]; intros h O; cbn [forallb] in O; apply andb_true_iff in O as [Oh O];
    destruct h as [k [v ps]]; destruct (header_ok_spec _ _ _ Oh) as (R & _).
  - exists (print_header (k, MkHeader v ps)). split.
    + cbn [fmap list_fmap List.concat]. by rewrite app_nil_r, dump_header_line.
    + intros r. by apply find_index_first.
  - destruct (IH h2 O) as (t & E & F).
    exists (print_header (k, MkHeader v ps) ++ crlf ++ t). split.
    + cbn [fmap list_fmap List.concat] in *. rewrite E, dump_header_line. by rewrite <- !app_assoc.
    + intros r. specialize (F r).
      assert (∃ c l, t ++ crlf = c :: l ∧ c ≠ cr) as (c & l & T & C).
      { rewrite <- E. cbn [fmap list_fmap List.concat].
        destruct (dump_header_cons h2) as (c & l & -> & C).
        eexists c, _. split; [reflexivity|]. intros X. apply C in X.
        cbn [forallb] in O. apply andb_true_iff in O as [O2 _].
        destruct h2 as [k2 [v2 ps2]]. destruct (header_ok_spec _ _ _ O2) as (R2 & _).
        apply R2. unfold print_header. apply elem_of_app. by left. }
      assert (T' : t ++ (crlf ++ crlf) ++ r = c :: l ++ crlf ++ r)
        by (rewrite <- app_assoc, (app_assoc t), T; done).
      assert (A : ∀ p, (p ++ crlf ++ t) ++ (crlf ++ crlf) ++ r = p ++ cr :: lf :: c :: l ++ crlf ++ r)
        by (intros p; rewrite <- app_assoc, <- (app_assoc crlf t), T'; done).
      rewrite A. rewrite T' in F. change (crlf ++ crlf) with (cr :: lf :: crlf) in *.
      rewrite find_index_skip by done. rewrite find_index_eq.
      assert (starts_with (cr :: lf :: crlf) (cr :: lf :: c :: l ++ crlf ++ r) = false) as ->.
      { apply bool_decide_eq_false_2. cbn. intros X. by injection X. }
      rewrite find_index_eq, starts_with_other by done. rewrite F.
      simpl. rewrite !length_app. simpl. f_equal; lia.
Qed.

Lemma name_needs_headers item name v :
  param_value (get_header_object (headers item) name) v ≠ Undef out_of_bounds → headers item ≠ [].
Proof. intros N E. apply N. by rewrite E. Qed.

Lemma parse_section_printed item : headers item ≠ [] → forallb header_ok (headers item) = true →
  short (dump_part item) → parse_section (dump_part item) = Val item.
Proof.
  destruct item as [[|h hs] b]; [done|]. intros _ O L. unfold parse_section, dump_part in *.
  simpl headers in *. simpl body in *. destruct (head_end h hs O) as (t & E & F).
  pose proof (parse_section_head_printed (h :: hs) []) as H. pose proof (headers_length (h :: hs)) as U.
  rewrite E in *.
  assert (A : (t ++ crlf) ++ crlf ++ b ++ crlf = t ++ (crlf ++ crlf) ++ b ++ crlf) by by rewrite <- !app_assoc.
  rewrite A in *. destruct (cut_at (crlf ++ crlf) t (b ++ crlf)) as (-> & _ & C & _); [done|apply F|].
  change (size (crlf ++ crlf)) with 4 in C. rewrite C. rewrite plus64_small by (revert L; unfold crlf; intros; sizes).
  rewrite <- A. rewrite substr_front by (rewrite size_app; done). cbn [outcome_bind].
  rewrite H; [|done| |done].
  - cbn [outcome_bind]. rewrite substr_front; [done|]. rewrite size_app. change (size crlf) with 2.
    rewrite Z.mod_small; [lia|]. revert L. unfold crlf. intros. sizes.
  - rewrite <- A in L. by eapply short_app_l.
Qed.

(** ** The body *)

Section Body.
Context (delimiter : bytes) (D : lf ∉ delimiter).

(** What follows a delimiter, and the text behind it. *)
Definition after_delimiter (items : list part) : bytes := match items with [] => dd | _ => crlf end.
Fixpoint parts_text (items : list part) : bytes :=
  match items with
  | [] => crlf
  | item :: items => dump_part item ++ delimiter ++ after_delimiter items ++ parts_text items
  end.

Lemma dump_parts_text items :
  List.concat ((λ item, delimiter ++ crlf ++ dump_part item) <$> items) ++ delimiter ++ dd ++ crlf =
  delimiter ++ after_delimiter items ++ parts_text items.
Proof.
  induction items as [|item items IH]; [done|]. cbn [fmap list_fmap List.concat parts_text].
  rewrite <- app_assoc. setoid_rewrite IH. unfold after_delimiter at 2. by rewrite <- !app_assoc.
Qed.

Lemma after_delimiter_size items : size (after_delimiter items) = 2.
Proof. by destruct items. Qed.

(** One turn takes the text before the delimiter. *)
Lemma parse_next_section s items rest sections pm :
  short (s ++ delimiter ++ after_delimiter items ++ rest) →
  find_index delimiter (s ++ delimiter ++ after_delimiter items ++ rest) = Some (length s) →
  parse_next delimiter (s ++ delimiter ++ after_delimiter items ++ rest) sections pm =
  match s with
  | [] => Val (rest, sections, pm)
  | _ =>
      outcome_bind (parse_section s) (λ item,
      outcome_bind (param_value (get_header_object (headers item) (lit "Content-Disposition")) (lit "name"))
        (λ name, Val (rest, sections ++ [item], pm ++ [(name, item)])))
  end.
Proof.
  intros L F. unfold parse_next.
  destruct (cut_at delimiter s (after_delimiter items ++ rest)) as (-> & -> & _ & _); [done|done|].
  pose proof (after_delimiter_size items) as A.
  assert (B : erase_front (s ++ delimiter ++ after_delimiter items ++ rest)
    (plus64 (plus64 (size s) (size delimiter)) 2) = rest).
  { revert L A. generalize (after_delimiter items) as sep. intros sep L A.
    rewrite (plus64_small (size s) (size delimiter)) by sizes.
    rewrite plus64_small by sizes. unfold erase_front.
    rewrite (app_assoc delimiter), (app_assoc s). apply from_app. rewrite !size_app. lia. }
  rewrite B. by destruct s.
Qed.

Lemma dump_part_ends item : ∃ s, dump_part item = s ++ [lf].
Proof.
  eexists (List.concat (dump_header <$> headers item) ++ crlf ++ body item ++ [cr]).
  unfold dump_part. by rewrite <- !app_assoc.
Qed.
Lemma dump_part_size item : 4 ≤ size (dump_part item).
Proof.
  unfold dump_part, crlf. rewrite size_app. pose proof (size_nonneg (List.concat (dump_header <$> headers item))).
  pose proof (size_nonneg (body item)). autorewrite with size. change (size []) with 0. lia.
Qed.

Lemma parse_body_step fuel text sections pm : text ≠ crlf →
  parse_body (S fuel) delimiter text sections pm =
  outcome_bind (parse_next delimiter text sections pm)
    (λ r, parse_body fuel delimiter r.1.1 r.1.2 r.2).
Proof.
  intros N. simpl. rewrite bool_decide_eq_false_2 by done.
  by destruct (parse_next _ _ _ _) as [[[]]| | | | |].
Qed.

Lemma parse_body_parts items pm fuel sections done_ :
  forallb (part_ok delimiter) items = true → name_parts items = Val pm →
  short (parts_text items) → (length items ≤ fuel)%nat →
  parse_body fuel delimiter (parts_text items) sections done_ = Val (sections ++ items, done_ ++ pm).
Proof.
  revert pm fuel sections done_. induction items as [|item items IH]; intros pm fuel sections done_ O N L U.
  { injection N as <-. rewrite !app_nil_r. by destruct fuel. }
  cbn [forallb] in O. apply andb_true_iff in O as [Oi O]. destruct fuel as [|fuel]; [simpl in U; lia|].
  unfold part_ok in Oi. apply andb_true_iff in Oi as [Oh Of]. apply bool_decide_eq_true_1 in Of.
  cbn [name_parts] in N. destruct (param_value _ _) as [name| | | | |] eqn:V; try discriminate N.
  cbn [outcome_bind] in N. destruct (name_parts items) as [rest| | | | |] eqn:R; try discriminate N.
  injection N as <-. cbn [parts_text] in *. pose proof (dump_part_size item) as Z.
  rewrite parse_body_step.
  2:{ intros E. apply (f_equal size) in E. rewrite !size_app in E. change (size crlf) with 2 in E.
      pose proof (size_nonneg delimiter). pose proof (size_nonneg (after_delimiter items)).
      pose proof (size_nonneg (parts_text items)). lia. }
  rewrite parse_next_section; [|done|].
  2:{ destruct (dump_part_ends item) as (s & E). rewrite E in *. by apply find_index_last. }
  destruct (dump_part item) as [|c l] eqn:E; [change (size []) with 0 in Z; lia|]. rewrite <- E in *.
  rewrite parse_section_printed; [|by eapply name_needs_headers; rewrite V|done|by eapply short_app_l].
  cbn [outcome_bind]. rewrite V. cbn [outcome_bind fst snd].
  rewrite (IH rest) by (done || (simpl in U; lia) || by eapply short_app_r, short_app_r, short_app_r).
  by rewrite <- !app_assoc.
Qed.

(** Enough fuel: a turn for each part, and one before the first. *)
Lemma parse_body_printed items pm fuel : (∃ l, delimiter = "-"%char :: l) →
  forallb (part_ok delimiter) items = true → name_parts items = Val pm →
  short (delimiter ++ after_delimiter items ++ parts_text items) → (length items < fuel)%nat →
  parse_body fuel delimiter (delimiter ++ after_delimiter items ++ parts_text items) [] [] =
  Val (items, pm).
Proof.
  intros [l E] O N L U. destruct fuel as [|fuel]; [lia|].
  rewrite parse_body_step by (rewrite E; discriminate).
  pose proof (parse_next_section [] items (parts_text items) [] []) as P. simpl app in P.
  rewrite P; [|done|apply find_index_here]. cbn [outcome_bind fst snd].
  apply (parse_body_parts items pm fuel [] []); try done; [|lia].
  by eapply short_app_r, short_app_r.
Qed.
End Body.

(** ** The boundary a content type announces *)

Lemma get_boundary_type b : boundary_ok b = true → short (multipart_type b) →
  get_boundary (multipart_type b) = Val b.
Proof.
  unfold boundary_ok. intros O L. apply andb_true_iff in O as [_ O]. destruct b as [|c b]; [done|].
  apply negb_true_iff, bool_decide_eq_false_1 in O.
  unfold get_boundary, multipart_type in *.
  assert (find (lit "multipart/form-data; boundary=" ++ c :: b) (lit "boundary=") = 21) as ->
    by (unfold find; reflexivity).
  cbv beta iota zeta. change (21 =? 0) with false. change (plus64 21 9) with 30. cbv iota.
  rewrite substr_rest; [|done|by eapply short_app_r]. cbn [outcome_bind].
  destruct c as [[] [] [] [] [] [] [] []]; try reflexivity. by destruct O.
Qed.

(** C28: a message whose texts keep clear of the separators of the format, printed and sent with
    the content type it announces, is received as the same message. *)
Theorem multipart_round_trip fuel req b sections m
    (B : boundary_ok b = true)
    (P : forallb (part_ok (dd ++ b)) sections = true)
    (M : new_message (req_headers req) b sections = Val m)
    (H : lit (get_header_value (req_headers req) "Content-Type") = content_type m)
    (T : lit (req_body req) = dump m)
    (L : short (content_type m) ∧ short (dump m))
    (U : (length sections < fuel)%nat) :
  message_of_request fuel req = Val m.
Proof.
  unfold new_message in M. destruct (name_parts sections) as [pm| | | | |] eqn:N; try discriminate M.
  injection M as <-. destruct L as [Lt Ld]. unfold message_of_request. rewrite H, T.
  simpl content_type in *. rewrite get_boundary_type by done. cbn [outcome_bind].
  unfold dump in *. simpl boundary in *. simpl parts in *. rewrite dump_parts_text in *.
  rewrite (parse_body_printed (dd ++ b)) with (pm := pm); try done.
  - unfold dd. rewrite not_elem_of_app, !not_elem_of_cons. apply andb_true_iff in B as [B _].
    apply lacks_not_in in B. split_and!; (done || discriminate || apply not_elem_of_nil).
  - by eexists.
Qed.

(** Two parts: a field with a parameter that quotes characters of the format, and a file. *)
Definition test_sections : list part :=
  [MkPart [(lit "Content-Disposition", MkHeader (lit "form-data") [(lit "name", lit "to: a=" ++ ["034"%char] ++ lit "b")])]
     (lit "-- bob");
   MkPart
     [(lit "Content-Disposition",
       MkHeader (lit "form-data") [(lit "name", lit "receipt"); (lit "filename", lit "r.txt")]);
      (lit "Content-Type", MkHeader (lit "text/plain") [])]
     (lit "line" ++ crlf ++ crlf ++ lit "line")].
Definition test_headers : ci_map := [("Content-Type", "multipart/form-data; boundary=XyZ")].
Definition test_message : multipart_message :=
  match new_message test_headers (lit "XyZ") test_sections with
  | Val m => m
  | _ => MkMultipart [] [] [] [] []
  end.
Definition test_upload : request :=
  MkRequest Post "" "" query_string_empty
    test_headers
    (string_of_list_ascii (dump test_message)) 1 1 true false false.

Lemma multipart_round_trip_witness :
  boundary_ok (lit "XyZ") = true ∧ length (parts test_message) = 2%nat ∧
  message_of_request 3 test_upload = Val test_message.
Proof.
  split; [by vm_compute|]. split; [by vm_compute|].
  apply (multipart_round_trip 3 test_upload (lit "XyZ") test_sections test_message);
    by vm_compute.
Defined.

(** ** What is not read back *)

(** An empty body has no end of line to stop at: [found] is [npos], the section is empty, and
    the loop goes on without an end. *)
Lemma empty_body_never_ends fuel b sections pm :
  parse_body fuel (dd ++ b) [] sections pm = OutOfFuel.
Proof.
  induction fuel as [|fuel IH]; [done|].
  rewrite parse_body_step by discriminate. unfold parse_next. rewrite find_none by done.
  rewrite substr_all by done. cbn [outcome_bind]. unfold erase_front.
  assert (E : ∀ n, from n [] = []) by (intros n; unfold from; by rewrite drop_nil).
  rewrite E. cbn [outcome_bind fst snd]. apply IH.
Qed.

(** A part without a parameter [name], or without headers, is dereferenced at the end of its map. *)
Example nameless_part :
  parse_body 3 (lit "--X") (lit "--X" ++ crlf ++ lit "A: b" ++ crlf ++ crlf ++ lit "v" ++ crlf ++
    lit "--X--" ++ crlf) [] [] = Undef out_of_bounds.
Proof. vm_compute. reflexivity. Qed.

(** A content type that announces no boundary has one all the same: [npos] plus the length of the
    text wraps around to 8, and when there is nothing there [substr] raises an exception. *)
Example boundary_not_announced :
  get_boundary (lit "text/plain; charset=utf-8") = Val (lit "in; charset=utf-8") ∧
  get_boundary [] = Throw out_of_range.
Proof. by vm_compute. Qed.

(** A message with an empty boundary announces one that it does not use. *)
Example empty_boundary :
  outcome_bind (new_message [] [] []) (λ m, Val (content_type m, dump m)) =
    Val (lit "multipart/form-data; boundary=CROW-BOUNDARY", lit "----" ++ crlf) ∧
  get_boundary (multipart_type []) = Val (lit "CROW-BOUNDARY").
Proof. by vm_compute. Qed.
