(* ===== verification/Json.v ===== *)
(** * JSON: escaping, and values that were read

    lib/crowapi/crow_all.h, namespace [json]: [escape], [r_string] and [rvalue], the value of a
    text that was parsed in place.

    A read value keeps pointers into the buffer of its text, which the model has as a list of
    characters; a pointer is a position in it.  Reading a string removes its escapes in place, so
    the buffer is threaded through the operations, and the value they leave behind is returned:
    its fields are [mutable]. *)

From Stdlib Require Import ZArith Lia Ascii String.
From stdpp Require Import base tactics option strings list.
From S2P Require Import Prelude.
From S2P Require Import CppStd.
From S2P Require Import QueryString.

Local Open Scope Z_scope.

(** ** Characters *)

(** The value of a [char], which is signed. *)
Definition schar (c : ascii) : Z := if char_code c <? 128 then char_code c else char_code c - 256.

Definition quote : ascii := "034"%char.
Definition backslash : ascii := "\"%char.

(** ** escape *)

Definition to_hex (c : Z) : ascii :=
  let c := Z.land c 15 in if c <? 10 then to_char (48 + c) else to_char (97 + c - 10).

Definition escape_char (c : ascii) : bytes :=
  if Ascii.eqb c quote then [backslash; quote]
  else if Ascii.eqb c backslash then [backslash; backslash]
  else if Ascii.eqb c "010" then [backslash; "n"%char]
  else if Ascii.eqb c "008" then [backslash; "b"%char]
  else if Ascii.eqb c "012" then [backslash; "f"%char]
  else if Ascii.eqb c "013" then [backslash; "r"%char]
  else if Ascii.eqb c "009" then [backslash; "t"%char]
  else if (0 <=? schar c) && (schar c <? 32) then
    [backslash; "u"; "0"; "0"]%char ++ [to_hex (schar c / 16); to_hex (schar c mod 16)]
  else [c].
(** What [escape(str, ret)] appends to [ret]. *)
Fixpoint escape (str : bytes) : bytes :=
  match str with [] => [] | c :: str => escape_char c ++ escape str end.

(** ** Types *)

Inductive type : Type := tNull | tFalse | tTrue | tNumber | tString | tList | tObject | tFunction.
#[global] Instance type_eq_dec : EqDecision type.
Proof. solve_decision. Defined.

Definition get_type_str (t : type) : string :=
  match t with
  | tNumber => "Number"
  | tFalse => "False"
  | tTrue => "True"
  | tList => "List"
  | tString => "String"
  | tObject => "Object"
  | tFunction => "Function"
  | tNull => "Unknown"
  end%string.

Inductive num_type : Type := Signed_integer | Unsigned_integer | Floating_point | NoNumber.
#[global] Instance num_type_eq_dec : EqDecision num_type.
Proof. solve_decision. Defined.

(** ** The buffer *)

Local Open Scope outcome_scope.

Definition at_ (mem : bytes) (i : nat) : outcome ascii :=
  match mem !! i with Some c => Val c | None => Undef out_of_bounds end.
Definition put (mem : bytes) (i : nat) (c : ascii) : outcome bytes :=
  match mem !! i with Some _ => Val (<[i := c]> mem) | None => Undef out_of_bounds end.
(** The characters from [s] to [e]. *)
Definition slice (mem : bytes) (s e : nat) : bytes := take (e - s) (drop s mem).

(** [r_string]: the positions of its start and its end. *)
Abbreviation r_string := (nat * nat)%type.

Definition string_of_r (mem : bytes) (r : r_string) : bytes := slice mem r.1 r.2.

(** [boost::lexicographical_compare] *)
Fixpoint less (l r : bytes) : bool :=
  match l, r with
  | _, [] => false
  | [], _ :: _ => true
  | a :: l, b :: r =>
      if schar a <? schar b then true else if schar b <? schar a then false else less l r
  end.

(** ** rvalue *)

Inductive rvalue : Type := RValue {
  start_ : nat;
  end_ : nat;
  key_ : r_string;
  l_ : list rvalue;
  lremain_ : Z;
  t_ : type;
  nt_ : num_type;
  option_ : Z
}.

Definition cached_bit : Z := 2.
Definition error_bit : Z := 4.

(** [rvalue()]: no value.  The fields the constructor leaves uninitialised are not read before
    the bit is tested. *)
Definition rvalue_error : rvalue := RValue 0 0 (0, 0)%nat [] 0 tNull NoNumber error_bit.
(** [rvalue(t)] *)
Definition rvalue_of_type (t : type) : rvalue := RValue 0 0 (0, 0)%nat [] 0 t NoNumber 0.

Definition has_char (c : ascii) (s : bytes) : bool := bool_decide (c ∈ s).

(** [determine_num_type] *)
Definition determine_num_type (t : type) (text : bytes) : num_type :=
  if negb (bool_decide (t = tNumber)) then NoNumber
  else
    let has_minus := has_char "-" text in
    let has_e := has_char "e" text || has_char "E" text in
    let has_dec_sep := has_char "." text in
    if has_dec_sep || has_e then Floating_point
    else if has_minus then Signed_integer
    else Unsigned_integer.
(** [rvalue(t, s, e)] *)
Definition rvalue_of_text (mem : bytes) (t : type) (s e : nat) : rvalue :=
  RValue s e (0, 0)%nat [] 0 t (determine_num_type t (slice mem s e)) 0.

Definition set_option (o : Z) (v : rvalue) : rvalue :=
  RValue (start_ v) (end_ v) (key_ v) (l_ v) (lremain_ v) (t_ v) (nt_ v) o.
Definition set_key (k : r_string) (v : rvalue) : rvalue :=
  RValue (start_ v) (end_ v) k (l_ v) (lremain_ v) (t_ v) (nt_ v) (option_ v).
Definition set_end (e : nat) (v : rvalue) : rvalue :=
  RValue (start_ v) e (key_ v) (l_ v) (lremain_ v) (t_ v) (nt_ v) (option_ v).
Definition set_list (l : list rvalue) (r : Z) (v : rvalue) : rvalue :=
  RValue (start_ v) (end_ v) (key_ v) l r (t_ v) (nt_ v) (option_ v).

Definition set_error (v : rvalue) : rvalue := set_option (Z.lor (option_ v) error_bit) v.
Definition error (v : rvalue) : bool := negb (Z.land (option_ v) error_bit =? 0).
Definition is_cached (v : rvalue) : bool := negb (Z.land (option_ v) cached_bit =? 0).
Definition set_cached (v : rvalue) : rvalue := set_option (Z.lor (option_ v) cached_bit) v.

Definition lsize_ (v : rvalue) : Z := Z.of_nat (length (l_ v)).

(** [t()] and [nt()] *)
Definition t (v : rvalue) : outcome type :=
  if error v then Throw (runtime_error "invalid json object") else Val (t_ v).
Definition nt (v : rvalue) : outcome num_type :=
  if error v then Throw (runtime_error "invalid json object") else Val (nt_ v).

(** [emplace_back(v)], with the room it keeps: [lsize_] is a [uint32_t], [new_size] an [int]. *)
Definition as_int (n : Z) : Z := (n + 2 ^ 31) mod 2 ^ 32 - 2 ^ 31.
Definition room (lsize : Z) : Z :=
  let new_size := as_int (lsize + lsize) in
  let new_size := if 60000 <? (new_size - lsize) mod 2 ^ 32 then as_int (lsize + 60000) else new_size in
  let new_size := if new_size <? 4 then 4 else new_size in
  (new_size - lsize) mod 2 ^ 16.
Definition emplace_back (v x : rvalue) : rvalue :=
  let r := if lremain_ v =? 0 then room (lsize_ v) else lremain_ v in
  set_list (l_ v ++ [x]) ((r - 1) mod 2 ^ 16) v.

(** *** unescape *)

Definition from_hex (c : ascii) : Z :=
  if 97 <=? schar c then schar c - 97 + 10
  else if 65 <=? schar c then schar c - 65 + 10
  else schar c - 48.

(** The bytes that are written for a code. *)
Definition utf8 (code : Z) : bytes :=
  if 2048 <=? code then
    [to_char (Z.lor 224 (Z.shiftr code 12));
     to_char (Z.lor 128 (Z.land (Z.shiftr code 6) 63));
     to_char (Z.lor 128 (Z.land code 63))]
  else if 128 <=? code then
    [to_char (Z.lor 192 (Z.shiftr code 6)); to_char (Z.lor 128 (Z.land code 63))]
  else [to_char code].

Fixpoint put_all (mem : bytes) (tail : nat) (cs : bytes) : outcome (bytes * nat) :=
  match cs with
  | [] => Val (mem, tail)
  | c :: cs => mem ← put mem tail c; put_all mem (S tail) cs
  end.

(** The case of an escape, with [head] on the character behind the backslash; afterwards [head]
    is on the last character of the escape. *)
Definition unescape_case (mem : bytes) (head tail : nat) : outcome (bytes * nat * nat) :=
  c ← at_ mem head;
  let one c := '(mem, tail) ← put_all mem tail [c]; Val (mem, head, tail) in
  if Ascii.eqb c quote then one quote
  else if Ascii.eqb c backslash then one backslash
  else if Ascii.eqb c "/" then one "/"%char
  else if Ascii.eqb c "b" then one "008"%char
  else if Ascii.eqb c "f" then one "012"%char
  else if Ascii.eqb c "n" then one "010"%char
  else if Ascii.eqb c "r" then one "013"%char
  else if Ascii.eqb c "t" then one "009"%char
  else if Ascii.eqb c "u" then
    h1 ← at_ mem (head + 1); h2 ← at_ mem (head + 2);
    h3 ← at_ mem (head + 3); h4 ← at_ mem (head + 4);
    let code := (Z.shiftl (from_hex h1) 12 + Z.shiftl (from_hex h2) 8 +
                 Z.shiftl (from_hex h3) 4 + from_hex h4) mod 2 ^ 32 in
    '(mem, tail) ← put_all mem tail (utf8 code);
    Val (mem, (head + 4)%nat, tail)
  else Val (mem, head, tail).

Fixpoint unescape_loop (fuel : nat) (mem : bytes) (head tail end_ : nat) : outcome (bytes * nat) :=
  if (head =? end_)%nat then Val (mem, tail)
  else
    match fuel with
    | O => OutOfFuel
    | S fuel =>
        c ← at_ mem head;
        '(mem, head, tail) ←
          (if Ascii.eqb c backslash then unescape_case mem (S head) tail
           else '(mem, tail) ← put_all mem tail [c]; Val (mem, head, tail));
        unescape_loop fuel mem (S head) tail end_
    end.

(** The character before a string says whether it has escapes. *)
Definition unescape (mem : bytes) (v : rvalue) : outcome (bytes * rvalue) :=
  match start_ v with
  | O => Undef out_of_bounds
  | S before =>
      c ← at_ mem before;
      if Ascii.eqb c nul then Val (mem, v)
      else
        '(mem, tail) ← unescape_loop (length mem) mem (start_ v) (start_ v) (end_ v);
        mem ← put mem tail nul;
        mem ← put mem before nul;
        Val (mem, set_end tail v)
  end.

(** [s()]: the buffer, the value after the call, and the string. *)
Definition s (mem : bytes) (v : rvalue) : outcome (bytes * rvalue * r_string) :=
  ty ← t v;
  if negb (bool_decide (ty = tString)) then Throw (runtime_error "value is not string")
  else '(mem, v) ← unescape mem v; Val (mem, v, (start_ v, end_ v)).

(** [==] and [!=] with a string. *)
Definition equals_string (mem : bytes) (v : rvalue) (str : bytes) : outcome (bytes * rvalue * bool) :=
  '(mem, v, r) ← s mem v; Val (mem, v, bool_decide (string_of_r mem r = str)).
Definition differs_from_string (mem : bytes) (v : rvalue) (str : bytes) : outcome (bytes * rvalue * bool) :=
  '(mem, v, equal) ← equals_string mem v str; Val (mem, v, negb equal).

(** *** Other values *)

Definition is_container (ty : type) : bool := bool_decide (ty = tObject) || bool_decide (ty = tList).

(** [operator std::string] *)
Definition as_string (mem : bytes) (v : rvalue) : outcome (bytes * rvalue * bytes) :=
  ty ← t v;
  if is_container ty then Throw (runtime_error "json type container")
  else
    match ty with
    | tString => '(mem, v, r) ← s mem v; Val (mem, v, string_of_r mem r)
    | tNull => Val (mem, v, list_ascii_of_string "null")
    | tTrue => Val (mem, v, list_ascii_of_string "true")
    | tFalse => Val (mem, v, list_ascii_of_string "false")
    | _ => Val (mem, v, slice mem (start_ v) (end_ v))
    end.

Definition b (v : rvalue) : outcome bool :=
  ty ← t v;
  if negb (bool_decide (ty = tTrue)) && negb (bool_decide (ty = tFalse))
  then Throw (runtime_error "value is not boolean")
  else Val (bool_decide (ty = tTrue)).

(** [begin()] to [end()] *)
Definition elements (v : rvalue) : outcome (list rvalue) :=
  ty ← t v;
  if negb (is_container ty) then Throw (runtime_error "value is not a container")
  else Val (l_ v).

Definition key (v : rvalue) : r_string := key_ v.

Definition size (mem : bytes) (v : rvalue) : outcome (bytes * rvalue * Z) :=
  ty ← t v;
  if bool_decide (ty = tString)
  then '(mem, v, r) ← s mem v; Val (mem, v, Z.of_nat (r.2 - r.1))
  else if negb (is_container ty) then Throw (runtime_error "value is not a container")
  else Val (mem, v, lsize_ v).

(** [operator[]] with an [int] and with a [size_t]; the comparison is on [int]s in the first. *)
Definition to_int (z : Z) : Z := (z + 2 ^ 31) mod 2 ^ 32 - 2 ^ 31.
Definition at_index (v : rvalue) (index : Z) : outcome rvalue :=
  match l_ v !! Z.to_nat index with Some x => Val x | None => Undef out_of_bounds end.
Definition get_int (v : rvalue) (index : Z) : outcome rvalue :=
  ty ← t v;
  if negb (bool_decide (ty = tList)) then Throw (runtime_error "value is not a list")
  else if (to_int (lsize_ v) <=? index) || (index <? 0) then Throw (runtime_error "list out of bound")
  else at_index v index.
Definition get_size (v : rvalue) (index : Z) : outcome rvalue :=
  ty ← t v;
  if negb (bool_decide (ty = tList)) then Throw (runtime_error "value is not a list")
  else if lsize_ v <=? index then Throw (runtime_error "list out of bound")
  else at_index v index.

Definition keys (mem : bytes) (v : rvalue) : outcome (list bytes) :=
  ty ← t v;
  if negb (bool_decide (ty = tObject)) then Throw (runtime_error "value is not an object")
  else Val ((λ x, string_of_r mem (key x)) <$> l_ v).

(** Copying a value, with its elements: an exception when one of them is no value. *)
Fixpoint copies (copy : rvalue → outcome rvalue) (l : list rvalue) : outcome (list rvalue) :=
  match l with [] => Val [] | x :: l => x ← copy x; l ← copies copy l; Val (x :: l) end.
Fixpoint copy (v : rvalue) : outcome rvalue :=
  ty ← t v;
  if negb (is_container ty) then Val (set_list [] 0 v)
  else l ← copies copy (l_ v); Val (set_list l 0 v).

(** [lo()]: copies of the elements. *)
Definition lo (v : rvalue) : outcome (list rvalue) :=
  ty ← t v;
  if negb (is_container ty) then Throw (runtime_error "value is not a container")
  else copies copy (l_ v).

(** *** Looking up a key

    [std::sort] by the keys, and [std::lower_bound]. *)

Fixpoint insert_by (lt : rvalue → rvalue → bool) (x : rvalue) (l : list rvalue) : list rvalue :=
  match l with
  | [] => [x]
  | y :: r => if lt y x then y :: insert_by lt x r else x :: y :: r
  end.
Definition sort_by (lt : rvalue → rvalue → bool) (l : list rvalue) : list rvalue :=
  foldr (insert_by lt) [] l.

Definition key_text (mem : bytes) (x : rvalue) : bytes := string_of_r mem (key_ x).
Definition pred (mem : bytes) (l r : rvalue) : bool := less (key_text mem l) (key_text mem r).

(** The binary search: [first] and the [count] of the elements behind it. *)
Fixpoint lower_bound (fuel : nat) (mem : bytes) (l : list rvalue) (str : bytes) (first count : nat)
    : outcome nat :=
  match count with
  | O => Val first
  | _ =>
      match fuel with
      | O => OutOfFuel
      | S fuel =>
          let step := (count / 2)%nat in
          match l !! (first + step)%nat with
          | None => Undef out_of_bounds
          | Some x =>
              if less (key_text mem x) str
              then lower_bound fuel mem l str (first + step + 1) (count - (step + 1))
              else lower_bound fuel mem l str first step
          end
      end
  end.

(** What [has] and [operator[]] share: the value with its elements sorted, and the element. *)
Definition sorted (mem : bytes) (v : rvalue) : rvalue :=
  if is_cached v then v else set_cached (set_list (sort_by (pred mem) (l_ v)) (lremain_ v) v).
Definition find_key (mem : bytes) (v : rvalue) (str : bytes) : outcome (rvalue * option rvalue) :=
  let v := sorted mem v in
  it ← lower_bound (length (l_ v)) mem (l_ v) str 0 (length (l_ v));
  match l_ v !! it with
  | Some x => Val (v, if bool_decide (key_text mem x = str) then Some x else None)
  | None => Val (v, None)
  end.

Definition has (mem : bytes) (v : rvalue) (str : bytes) : outcome (rvalue * bool) :=
  _ ← elements v;
  '(v, x) ← find_key mem v str;
  Val (v, match x with Some _ => true | None => false end).
Definition count (mem : bytes) (v : rvalue) (str : bytes) : outcome (rvalue * Z) :=
  '(v, x) ← has mem v str; Val (v, if x then 1 else 0).
Definition get_key (mem : bytes) (v : rvalue) (str : bytes) : outcome (rvalue * rvalue) :=
  ty ← t v;
  if negb (bool_decide (ty = tObject)) then Throw (runtime_error "value is not an object")
  else
    '(v, x) ← find_key mem v str;
    match x with Some x => Val (v, x) | None => Throw (runtime_error "cannot find key") end.

(** *** Numbers

    The conversions are Boost's. *)

Section Numbers.
Context (lexical_cast_int64 lexical_cast_uint64 : bytes → option Z).

Definition expected_number {A} (ty : type) : outcome A :=
  Throw (runtime_error ("expected number, got: " +:+ get_type_str ty)).
Definition integer (cast : bytes → option Z) (mem : bytes) (v : rvalue) : outcome Z :=
  ty ← t v;
  if bool_decide (ty = tNumber) || bool_decide (ty = tString) then
    match cast (slice mem (start_ v) (end_ v)) with
    | Some z => Val z
    | None => Throw bad_lexical_cast
    end
  else expected_number ty.
Definition i (mem : bytes) (v : rvalue) : outcome Z := integer lexical_cast_int64 mem v.
Definition u (mem : bytes) (v : rvalue) : outcome Z := integer lexical_cast_uint64 mem v.
End Numbers.

(** [d()], with a representation of doubles that Boost's conversion gives. *)
Definition d {double} (lexical_cast_double : bytes → option double) (mem : bytes) (v : rvalue)
    : outcome double :=
  ty ← t v;
  if negb (bool_decide (ty = tNumber)) then Throw (runtime_error "value is not number")
  else
    match lexical_cast_double (slice mem (start_ v) (end_ v)) with
    | Some z => Val z
    | None => Throw bad_lexical_cast
    end.
