(* ===== verification/JsonParser.v ===== *)
(** * JSON: the parser

    lib/crowapi/crow_all.h, [load_nocopy_internal] with its [Parser], and [load].

    The parser walks over a buffer that ends in NUL and writes to it: the end of a string becomes
    NUL, the quote before it says whether it has escapes, and keys are unescaped.  Its state is
    the buffer and the position [data]; a decoding function gives a value and the state.  A loop
    has the length of the buffer as its fuel; [load] gives the recursion three for each
    character, which file JsonFacts shows to be enough. *)

From Stdlib Require Import ZArith Lia Ascii String.
From stdpp Require Import base tactics option strings list.
From S2P Require Import Prelude.
From S2P Require Import CppStd.
From S2P Require Import QueryString.
From S2P Require Import Json.

Local Open Scope Z_scope.
Local Open Scope outcome_scope.

Abbreviation result := (rvalue * bytes * nat)%type.

Definition max_depth : Z := 10000.

Definition consume (mem : bytes) (data : nat) (c : ascii) : outcome (bool * nat) :=
  x ← at_ mem data;
  if Ascii.eqb x c then Val (true, S data) else Val (false, data).

Definition is_ws (c : ascii) : bool :=
  Ascii.eqb c " " || Ascii.eqb c "009" || Ascii.eqb c "013" || Ascii.eqb c "010".
Fixpoint ws_skip_loop (fuel : nat) (mem : bytes) (data : nat) : outcome nat :=
  c ← at_ mem data;
  if is_ws c then match fuel with O => OutOfFuel | S fuel => ws_skip_loop fuel mem (S data) end
  else Val data.
Definition ws_skip (mem : bytes) (data : nat) : outcome nat := ws_skip_loop (length mem) mem data.

(** ** Strings *)

Definition check (c : ascii) : bool :=
  let c := schar c in
  ((48 <=? c) && (c <=? 57)) || ((97 <=? c) && (c <=? 102)) || ((65 <=? c) && (c <=? 70)).

(** The four digits, up to the first that is none. *)
Fixpoint check_digits (n : nat) (mem : bytes) (data : nat) : outcome bool :=
  match n with
  | O => Val true
  | S n => c ← at_ mem data; if check c then check_digits n mem (S data) else Val false
  end.

Definition is_simple_escape (c : ascii) : bool :=
  Ascii.eqb c quote || Ascii.eqb c backslash || Ascii.eqb c "/" || Ascii.eqb c "b" ||
  Ascii.eqb c "f" || Ascii.eqb c "n" || Ascii.eqb c "r" || Ascii.eqb c "t".

Fixpoint string_loop (fuel : nat) (mem : bytes) (data start : nat) (has_escaping : ascii)
    : outcome result :=
  match fuel with
  | O => OutOfFuel
  | S fuel =>
      c ← at_ mem data;
      if negb (Ascii.eqb c quote) && negb (Ascii.eqb c backslash) && negb (Ascii.eqb c nul)
      then string_loop fuel mem (S data) start has_escaping
      else if Ascii.eqb c quote then
        mem ← put mem data nul;
        mem ← put mem (start - 1) has_escaping;
        Val (rvalue_of_text mem tString start data, mem, S data)
      else if Ascii.eqb c backslash then
        let data := S data in
        c ← at_ mem data;
        if Ascii.eqb c "u" then
          ok ← check_digits 4 mem (S data);
          if ok then string_loop fuel mem (data + 5) start "001" else Val (rvalue_error, mem, data)
        else if is_simple_escape c then string_loop fuel mem (S data) start "001"
        else Val (rvalue_error, mem, data)
      else Val (rvalue_error, mem, data)
  end.

Definition decode_string (mem : bytes) (data : nat) : outcome result :=
  '(ok, data) ← consume mem data quote;
  if negb ok then Val (rvalue_error, mem, data)
  else string_loop (length mem) mem data data nul.

(** ** Numbers *)

Inductive NumberParsingState : Type :=
  Minus | AfterMinus | ZeroFirst | Digits | DigitsAfterPoints | E | DigitsAfterE | Invalid.
#[global] Instance NumberParsingState_eq_dec : EqDecision NumberParsingState.
Proof. solve_decision. Defined.

Definition state_number (state : NumberParsingState) : nat :=
  match state with
  | Minus => 0 | AfterMinus => 1 | ZeroFirst => 2 | Digits => 3 | DigitsAfterPoints => 4 | E => 5
  | DigitsAfterE => 6 | Invalid => 7
  end.
(** The tables are string literals, which end in NUL: the number of [Minus]. *)
Definition next_state (table : list NumberParsingState) (state : NumberParsingState) :
    NumberParsingState := nth (state_number state) table Minus.
Definition on_zero :=
  [ZeroFirst; ZeroFirst; Invalid; Digits; DigitsAfterPoints; DigitsAfterE; DigitsAfterE].
Definition on_digit :=
  [Digits; Digits; Invalid; Digits; DigitsAfterPoints; DigitsAfterE; DigitsAfterE].
Definition on_point :=
  [Invalid; Invalid; DigitsAfterPoints; DigitsAfterPoints; Invalid; Invalid; Invalid].
Definition on_minus := [AfterMinus; Invalid; Invalid; Invalid; Invalid; DigitsAfterE; Invalid].
Definition on_plus := [Invalid; Invalid; Invalid; Invalid; Invalid; DigitsAfterE; Invalid].
Definition on_e := [Invalid; Invalid; Invalid; E; E; Invalid; Invalid].

Definition accepting (state : NumberParsingState) : bool :=
  match state with ZeroFirst | Digits | DigitsAfterPoints | DigitsAfterE => true | _ => false end.

Definition is_digit (c : ascii) : bool := (48 <=? schar c) && (schar c <=? 57).

(** The inner loop: [data] is on the last digit of a row. *)
Fixpoint digits_loop (fuel : nat) (mem : bytes) (data : nat) : outcome nat :=
  c ← at_ mem (S data);
  if is_digit c
  then match fuel with O => OutOfFuel | S fuel => digits_loop fuel mem (S data) end
  else Val data.

(** One turn: the state and the position of the last character, or nothing when the number ends. *)
Definition number_step (mem : bytes) (data : nat) (state : NumberParsingState)
    : outcome (option (NumberParsingState * nat)) :=
  c ← at_ mem data;
  if Ascii.eqb c "0" then Val (Some (next_state on_zero state, data))
  else if is_digit c then
    data ← digits_loop (length mem) mem data; Val (Some (next_state on_digit state, data))
  else if Ascii.eqb c "." then Val (Some (next_state on_point state, data))
  else if Ascii.eqb c "-" then Val (Some (next_state on_minus state, data))
  else if Ascii.eqb c "+" then Val (Some (next_state on_plus state, data))
  else if Ascii.eqb c "e" || Ascii.eqb c "E" then Val (Some (next_state on_e state, data))
  else Val None.

Fixpoint number_loop (fuel : nat) (mem : bytes) (data start : nat) (state : NumberParsingState)
    : outcome result :=
  if bool_decide (state = Invalid) then Val (rvalue_error, mem, data)
  else
    match fuel with
    | O => OutOfFuel
    | S fuel =>
        next ← number_step mem data state;
        match next with
        | Some (state, data) => number_loop fuel mem (S data) start state
        | None =>
            if accepting state then Val (rvalue_of_text mem tNumber start data, mem, data)
            else Val (rvalue_error, mem, data)
        end
    end.
Definition decode_number (mem : bytes) (data : nat) : outcome result :=
  number_loop (length mem) mem data data Minus.

(** ** Words *)

(** [data[1] == ... && data[2] == ...] *)
Fixpoint matches (word : bytes) (mem : bytes) (data : nat) : outcome bool :=
  match word with
  | [] => Val true
  | w :: word => c ← at_ mem data; if Ascii.eqb c w then matches word mem (S data) else Val false
  end.
Definition decode_word (word : string) (ty : type) (mem : bytes) (data : nat) : outcome result :=
  ok ← matches (tail (list_ascii_of_string word)) mem (S data);
  if ok then Val (rvalue_of_type ty, mem, (data + String.length word)%nat)
  else Val (rvalue_error, mem, data).

(** ** Values *)

(** What a list and an object share: [open] and the depth, then [close] for an empty one. *)
Definition container_start (open : ascii) (ty : type) (mem : bytes) (data : nat) (depth : Z)
    : outcome (rvalue * nat) :=
  '(ok, data) ← consume mem data open;
  let ret := rvalue_of_type ty in
  if negb ok || (max_depth <? depth) then Val (set_error ret, data)
  else data ← ws_skip mem data; Val (ret, data).

(** Behind a value of a container: the end, a comma, or an error. *)
Inductive after_value : Type := Close | Next | Broken.
Definition container_next (close : ascii) (mem : bytes) (data : nat) : outcome (after_value * nat) :=
  c ← at_ mem data;
  if Ascii.eqb c close then Val (Close, S data)
  else
    '(ok, data) ← consume mem data ",";
    if negb ok then Val (Broken, data) else data ← ws_skip mem data; Val (Next, data).

(** The key of a member, up to its value. *)
Definition decode_key (mem : bytes) (data : nat) : outcome (option r_string * bytes * nat) :=
  '(key, mem, data) ← decode_string mem data;
  if error key then Val (None, mem, data)
  else
    data ← ws_skip mem data;
    '(ok, data) ← consume mem data ":";
    if negb ok then Val (None, mem, data)
    else
      '(mem, _, r) ← s mem key;
      data ← ws_skip mem data;
      Val (Some r, mem, data).

Fixpoint decode_value (fuel : nat) (mem : bytes) (data : nat) (depth : Z) : outcome result :=
  match fuel with
  | O => OutOfFuel
  | S fuel =>
      c ← at_ mem data;
      if Ascii.eqb c "[" then decode_list fuel mem data (depth + 1)
      else if Ascii.eqb c "{" then decode_object fuel mem data (depth + 1)
      else if Ascii.eqb c quote then decode_string mem data
      else if Ascii.eqb c "t" then decode_word "true" tTrue mem data
      else if Ascii.eqb c "f" then decode_word "false" tFalse mem data
      else if Ascii.eqb c "n" then decode_word "null" tNull mem data
      else decode_number mem data
  end
with decode_list (fuel : nat) (mem : bytes) (data : nat) (depth : Z) : outcome result :=
  match fuel with
  | O => OutOfFuel
  | S fuel =>
      '(ret, data) ← container_start "[" tList mem data depth;
      if error ret then Val (ret, mem, data)
      else
        c ← at_ mem data;
        if Ascii.eqb c "]" then Val (ret, mem, S data) else list_loop fuel mem data depth ret
  end
with list_loop (fuel : nat) (mem : bytes) (data : nat) (depth : Z) (ret : rvalue) : outcome result :=
  match fuel with
  | O => OutOfFuel
  | S fuel =>
      '(v, mem, data) ← decode_value fuel mem data (depth + 1);
      if error v then Val (set_error ret, mem, data)
      else
        data ← ws_skip mem data;
        let ret := emplace_back ret v in
        '(after, data) ← container_next "]" mem data;
        match after with
        | Close => Val (ret, mem, data)
        | Broken => Val (set_error ret, mem, data)
        | Next => list_loop fuel mem data depth ret
        end
  end
with decode_object (fuel : nat) (mem : bytes) (data : nat) (depth : Z) : outcome result :=
  match fuel with
  | O => OutOfFuel
  | S fuel =>
      '(ret, data) ← container_start "{" tObject mem data depth;
      if error ret then Val (ret, mem, data)
      else
        c ← at_ mem data;
        if Ascii.eqb c "}" then Val (ret, mem, S data) else object_loop fuel mem data depth ret
  end
with object_loop (fuel : nat) (mem : bytes) (data : nat) (depth : Z) (ret : rvalue) : outcome result :=
  match fuel with
  | O => OutOfFuel
  | S fuel =>
      '(k, mem, data) ← decode_key mem data;
      match k with
      | None => Val (set_error ret, mem, data)
      | Some k =>
          '(v, mem, data) ← decode_value fuel mem data (depth + 1);
          if error v then Val (set_error ret, mem, data)
          else
            data ← ws_skip mem data;
            let ret := emplace_back ret (set_key k v) in
            '(after, data) ← container_next "}" mem data;
            match after with
            | Close => Val (ret, mem, data)
            | Broken => Val (set_error ret, mem, data)
            | Next => object_loop fuel mem data depth ret
            end
      end
  end.

Definition parse (fuel : nat) (mem : bytes) : outcome (rvalue * bytes) :=
  data ← ws_skip mem 0;
  '(ret, mem, data) ← decode_value fuel mem data 0;
  data ← ws_skip mem data;
  if error ret then Val (ret, mem)
  else c ← at_ mem data; Val (if Ascii.eqb c nul then ret else set_error ret, mem).

(** [load(data, size)]: the value owns the copy of the text, as its key. *)
Definition load_fuel (data : bytes) : nat := 3 * length data + 2.
Definition load (data : bytes) : outcome (rvalue * bytes) :=
  '(ret, mem) ← parse (load_fuel data) (data ++ [nul]);
  if error ret then Val (ret, mem)
  else Val (set_key (0%nat, Z.to_nat (Z.of_nat (length data) mod 2 ^ 32)) ret, mem).

(** ** Examples *)

(** A text whose quotes are written as backquotes. *)
Definition quoted (text : string) : bytes :=
  (λ c, if Ascii.eqb c "`" then quote else c) <$> list_ascii_of_string text.
Example load_object :
  match load (quoted " {`a`: [1, -2.5e3], `b\n`: `x\ty`} ") with
  | Val (v, mem) =>
      bool_decide (error v = false) &&
      bool_decide (key_text mem <$> l_ v = [["a"%char]; ["b"%char; "010"%char]])
  | _ => false
  end = true.
Proof. vm_compute. reflexivity. Qed.

(** What the tables make of numbers that JSON and the parser disagree on: 0 may not have an
    exponent, a point and a sign may end a number. *)
Definition accepts (text : string) : outcome bool :=
  '(v, _) ← load (list_ascii_of_string text); Val (negb (error v)).
Example numbers :
  accepts <$> ["0e5"; "0.0e5"; "1."; "1e+"; "1e"; "01"; "-"]%string =
  [Val false; Val true; Val true; Val true; Val false; Val false; Val false].
Proof. vm_compute. reflexivity. Qed.
