(* ===== verification/JsonFacts.v ===== *)
(** * JSON: the parser reads and writes inside of its buffer

    For every text, [load] answers, and what it reads and writes lies in the buffer; the strings
    of the value it gives can be unescaped where they lie. *)

From Stdlib Require Import ZArith Lia Ascii String.
From stdpp Require Import base tactics option strings list.
From S2P Require Import Prelude.
From S2P Require Import CppStd.
From S2P Require Import QueryString.
From S2P Require Import Json.
From S2P Require Import JsonParser.

Local Open Scope Z_scope.
Local Open Scope outcome_scope.

(** ** Escaped text as a sequence of pieces *)

Inductive piece : Type :=
| Plain (c : ascii)
| Simple (c : ascii)
| Unicode (h1 h2 h3 h4 : ascii).

Definition piece_ok (p : piece) : bool :=
  match p with
  | Plain c => negb (Ascii.eqb c backslash)
  | Simple c => is_simple_escape c
  | Unicode h1 h2 h3 h4 => check h1 && check h2 && check h3 && check h4
  end.
Definition piece_text (p : piece) : bytes :=
  match p with
  | Plain c => [c]
  | Simple c => [backslash; c]
  | Unicode h1 h2 h3 h4 => [backslash; "u"%char; h1; h2; h3; h4]
  end.
(** The character a simple escape stands for. *)
Definition simple_char (c : ascii) : ascii :=
  if Ascii.eqb c "b" then "008"
  else if Ascii.eqb c "f" then "012"
  else if Ascii.eqb c "n" then "010"
  else if Ascii.eqb c "r" then "013"
  else if Ascii.eqb c "t" then "009"
  else c.
Definition unicode_code (h1 h2 h3 h4 : ascii) : Z :=
  (Z.shiftl (from_hex h1) 12 + Z.shiftl (from_hex h2) 8 + Z.shiftl (from_hex h3) 4 + from_hex h4)
  mod 2 ^ 32.
Definition piece_out (p : piece) : bytes :=
  match p with
  | Plain c => [c]
  | Simple c => [simple_char c]
  | Unicode h1 h2 h3 h4 => utf8 (unicode_code h1 h2 h3 h4)
  end.
Fixpoint pieces_text (ps : list piece) : bytes :=
  match ps with [] => [] | p :: ps => piece_text p ++ pieces_text ps end.
Fixpoint pieces_out (ps : list piece) : bytes :=
  match ps with [] => [] | p :: ps => piece_out p ++ pieces_out ps end.

Lemma pieces_text_app ps qs : pieces_text (ps ++ qs) = pieces_text ps ++ pieces_text qs.
Proof. induction ps as [|p ps IH]; [done|]. simpl. by rewrite IH, app_assoc. Qed.

Lemma piece_out_short p : (length (piece_out p) ≤ length (piece_text p))%nat.
Proof. destruct p; simpl; try lia. unfold utf8. repeat case_match; simpl; lia. Qed.

Lemma piece_text_cons p : ∃ c r, piece_text p = c :: r.
Proof. destruct p; simpl; eauto. Qed.
Lemma pieces_out_short ps : (length (pieces_out ps) ≤ length (pieces_text ps))%nat.
Proof.
  induction ps as [|p ps IH]; [done|]. simpl. rewrite !length_app.
  pose proof (piece_out_short p). lia.
Qed.
Lemma pieces_count ps : (length ps ≤ length (pieces_text ps))%nat.
Proof.
  induction ps as [|p ps IH]; [done|]. simpl. rewrite length_app.
  destruct (piece_text_cons p) as (c & r & ->). simpl. lia.
Qed.

(** ** The loop of unescape, on a buffer cut at its two positions *)

Lemma at_mem_here pre c rest k : k = length pre → at_ (pre ++ c :: rest) k = Val c.
Proof. intros ->. unfold at_. by rewrite list_lookup_middle. Qed.

Lemma put_here pre c d rest k : k = length pre → put (pre ++ c :: rest) k d = Val (pre ++ d :: rest).
Proof.
  intros ->. unfold put. rewrite list_lookup_middle by done. by rewrite insert_app_r_alt, Nat.sub_diag by lia.
Qed.

Lemma put_all_gap w cs gap rest k : k = length w → (length cs ≤ length gap)%nat →
  put_all (w ++ gap ++ rest) k cs =
  Val (w ++ cs ++ drop (length cs) gap ++ rest, (k + length cs)%nat).
Proof.
  revert w gap k. induction cs as [|c cs IH]; intros w gap k -> L.
  - simpl. rewrite drop_0. f_equal. f_equal. lia.
  - destruct gap as [|g gap]; [simpl in L; lia|]. cbn [put_all]. simpl app.
    rewrite put_here by done. cbn [outcome_bind].
    specialize (IH (w ++ [c]) gap (S (length w))). rewrite <- !app_assoc in IH. simpl app in IH.
    rewrite IH by (rewrite ?length_app; simpl in *; lia). simpl. f_equal. f_equal. lia.
Qed.

(** Reading in the text behind a gap. *)
Lemma at_behind a b c rest k : k = (length a + length b)%nat → at_ (a ++ b ++ c :: rest) k = Val c.
Proof. intros ->. rewrite app_assoc. apply at_mem_here. by rewrite length_app. Qed.

Ltac eqb_cases :=
  repeat match goal with
  | |- context [Ascii.eqb ?x ?y] =>
      let E := fresh "Q" in destruct (Ascii.eqb_spec x y) as [E|E]; [subst|]
  end.

Lemma simple_case w gap c rest : is_simple_escape c = true →
  unescape_case (w ++ (gap ++ [backslash]) ++ c :: rest) (S (length w + length gap)) (length w) =
  Val (w ++ [simple_char c] ++ drop 1 (gap ++ [backslash]) ++ c :: rest,
       S (length w + length gap), S (length w)).
Proof.
  intros O. unfold unescape_case.
  rewrite at_behind by (rewrite length_app; simpl; lia). cbn [outcome_bind].
  assert (P : ∀ d, put_all (w ++ (gap ++ [backslash]) ++ c :: rest) (length w) [d] =
    Val (w ++ [d] ++ drop 1 (gap ++ [backslash]) ++ c :: rest, S (length w))).
  { intros d. rewrite put_all_gap by (done || (rewrite length_app; simpl; lia)). simpl. f_equal. f_equal. lia. }
  unfold simple_char. revert O. unfold is_simple_escape.
  eqb_cases; try discriminate; intros _; by rewrite P.
Qed.

Lemma unicode_case w gap h1 h2 h3 h4 rest :
  unescape_case (w ++ (gap ++ [backslash]) ++ ["u"%char; h1; h2; h3; h4] ++ rest)
    (S (length w + length gap)) (length w) =
  Val (w ++ utf8 (unicode_code h1 h2 h3 h4) ++
         drop (length (utf8 (unicode_code h1 h2 h3 h4)))
           (gap ++ [backslash; "u"%char; h1; h2; h3; h4]) ++ rest,
       (length w + length gap + 5)%nat, (length w + length (utf8 (unicode_code h1 h2 h3 h4)))%nat).
Proof.
  unfold unescape_case. set (mem := w ++ _).
  assert (A : ∀ k c, [backslash; "u"%char; h1; h2; h3; h4] !! k = Some c →
    at_ mem (length w + length gap + k) = Val c).
  { intros k c K. unfold at_, mem. rewrite lookup_app_r by lia. rewrite <- app_assoc.
    rewrite lookup_app_r by lia.
    replace (length w + length gap + k - length w - length gap)%nat with k by lia.
    change ([backslash] ++ ["u"%char; h1; h2; h3; h4] ++ rest)
      with ([backslash; "u"%char; h1; h2; h3; h4] ++ rest).
    rewrite lookup_app_l by (by eapply lookup_lt_Some). by rewrite K. }
  replace (S (length w + length gap)) with (length w + length gap + 1)%nat by lia.
  rewrite (A 1%nat "u"%char) by done. cbn [outcome_bind Ascii.eqb Bool.eqb quote backslash].
  rewrite <- !Nat.add_assoc. cbn [Nat.add]. rewrite !Nat.add_assoc.
  rewrite (A 2%nat h1), (A 3%nat h2), (A 4%nat h3), (A 5%nat h4) by done. cbn [outcome_bind].
  change (_ mod _) with (unicode_code h1 h2 h3 h4).
  assert (M : mem = w ++ (gap ++ [backslash; "u"%char; h1; h2; h3; h4]) ++ rest)
    by (unfold mem; rewrite <- !app_assoc; done).
  rewrite M, put_all_gap; [done|done|].
  pose proof (piece_out_short (Unicode h1 h2 h3 h4)). rewrite length_app. simpl in *. lia.
Qed.

Lemma unescape_loop_eq fuel mem head tail e : head ≠ e →
  unescape_loop (S fuel) mem head tail e =
  outcome_bind (at_ mem head) (λ c,
  outcome_bind (if Ascii.eqb c backslash then unescape_case mem (S head) tail
                else outcome_bind (put_all mem tail [c]) (λ r, Val (r.1, head, r.2)))
    (λ r, unescape_loop fuel r.1.1 (S r.1.2) r.2 e)).
Proof.
  intros N. simpl. rewrite (proj2 (Nat.eqb_neq _ _)) by done.
  destruct (at_ mem head) as [c| | | | |]; try done. cbn [outcome_bind].
  destruct (Ascii.eqb c backslash).
  - by destruct (unescape_case _ _ _) as [[[]]| | | | |].
  - by destruct (put mem tail c) as [m| | | | |].
Qed.

(** One turn of the loop is a piece. *)
Lemma unescape_piece fuel p w gap rest e : piece_ok p = true →
  e ≠ (length w + length gap)%nat →
  unescape_loop (S fuel) (w ++ gap ++ piece_text p ++ rest) (length w + length gap) (length w) e =
  unescape_loop fuel
    ((w ++ piece_out p) ++ drop (length (piece_out p)) (gap ++ piece_text p) ++ rest)
    (length w + length gap + length (piece_text p)) (length w + length (piece_out p)) e.
Proof.
  intros O N. rewrite unescape_loop_eq by done. destruct p as [c|c|h1 h2 h3 h4]; cbn [piece_text].
  - change ([c] ++ rest) with (c :: rest). rewrite at_behind by done. cbn [outcome_bind].
    cbn in O. apply negb_true_iff in O. rewrite O.
    replace (w ++ gap ++ c :: rest) with (w ++ (gap ++ [c]) ++ rest) by by rewrite <- (app_assoc gap).
    rewrite put_all_gap by (done || (rewrite length_app; simpl; lia)).
    cbn [outcome_bind fst snd piece_out]. rewrite <- app_assoc. f_equal; simpl; lia.
  - change ([backslash; c] ++ rest) with (backslash :: c :: rest).
    rewrite at_behind by done. cbn [outcome_bind]. cbn [Ascii.eqb Bool.eqb backslash].
    replace (w ++ gap ++ _) with (w ++ (gap ++ [backslash]) ++ c :: rest) by by rewrite <- (app_assoc gap).
    rewrite simple_case by done. cbn [outcome_bind fst snd piece_out].
    f_equal; [|simpl; lia..].
    replace (gap ++ [backslash; c]) with ((gap ++ [backslash]) ++ [c]) by by rewrite <- app_assoc.
    rewrite (drop_app_le (gap ++ [backslash]) [c]) by (rewrite length_app; simpl; lia).
    by rewrite <- !app_assoc.
  - change ([backslash; "u"%char; h1; h2; h3; h4] ++ rest)
      with (backslash :: ["u"%char; h1; h2; h3; h4] ++ rest).
    rewrite at_behind by done. cbn [outcome_bind]. cbn [Ascii.eqb Bool.eqb backslash].
    replace (w ++ gap ++ _) with (w ++ (gap ++ [backslash]) ++ ["u"%char; h1; h2; h3; h4] ++ rest)
      by by rewrite <- (app_assoc gap).
    rewrite unicode_case. cbn [outcome_bind fst snd piece_out].
    f_equal; [by rewrite <- !app_assoc|simpl; lia].
Qed.

Lemma unescape_loop_pieces ps w gap rest fuel : forallb piece_ok ps = true →
  (length ps ≤ fuel)%nat →
  unescape_loop fuel (w ++ gap ++ pieces_text ps ++ rest) (length w + length gap) (length w)
    (length w + length gap + length (pieces_text ps)) =
  Val (w ++ pieces_out ps ++ drop (length (pieces_out ps)) (gap ++ pieces_text ps) ++ rest,
       (length w + length (pieces_out ps))%nat).
Proof.
  revert w gap fuel. induction ps as [|p ps IH]; intros w gap fuel O U.
  - simpl. rewrite app_nil_r, drop_0, Nat.add_0_r. destruct fuel; simpl; by rewrite Nat.add_0_r, Nat.eqb_refl.
  - cbn [forallb] in O. apply andb_true_iff in O as [Op O]. destruct fuel as [|fuel]; [simpl in U; lia|].
    cbn [pieces_text pieces_out]. pose proof (piece_out_short p) as S.
    rewrite <- (app_assoc (piece_text p)), unescape_piece; [|done|].
    2:{ destruct (piece_text_cons p) as (c & r & ->). simpl. lia. }
    specialize (IH (w ++ piece_out p) (drop (length (piece_out p)) (gap ++ piece_text p)) fuel O).
    rewrite !length_app, length_drop, length_app in IH. rewrite length_app.
    replace (length w + length (piece_out p) + (length gap + length (piece_text p) - length (piece_out p)))%nat
      with (length w + length gap + length (piece_text p))%nat in IH by lia.
    rewrite Nat.add_assoc, IH by (simpl in U; lia). f_equal. f_equal; [|rewrite length_app; lia].
    rewrite <- !app_assoc. do 3 f_equal.
    rewrite length_app, <- drop_drop. f_equal. rewrite app_assoc, (drop_app_le (gap ++ piece_text p)); [done|].
    rewrite length_app. lia.
Qed.

(** A string whose character before it tells of escapes, unescaped; [rest] begins with the NUL
    that stands where its end was. *)
Lemma unescape_escaped pre flag ps rest v : flag ≠ nul → forallb piece_ok ps = true →
  start_ v = S (length pre) → end_ v = (S (length pre) + length (pieces_text ps))%nat →
  unescape (pre ++ flag :: pieces_text ps ++ nul :: rest) v =
  Val (pre ++ nul :: pieces_out ps ++ nul ::
         drop (S (length (pieces_out ps))) (pieces_text ps ++ [nul]) ++ rest,
       set_end (S (length pre) + length (pieces_out ps)) v).
Proof.
  intros F O S E. unfold unescape. rewrite S, E. rewrite at_mem_here by done. cbn [outcome_bind].
  rewrite (proj2 (Ascii.eqb_neq _ _)) by done.
  pose proof (unescape_loop_pieces ps (pre ++ [flag]) [] (nul :: rest)
    (length (pre ++ flag :: pieces_text ps ++ nul :: rest)) O) as L.
  assert (LL : length (pre ++ [flag]) = Datatypes.S (length pre)) by (rewrite length_app; simpl; lia).
  rewrite LL, Nat.add_0_r in L. simpl app in L. rewrite <- !app_assoc in L. simpl app in L.
  rewrite L.
  2:{ rewrite length_app. simpl. rewrite length_app. pose proof (pieces_count ps). lia. }
  cbn [outcome_bind].
  assert (Q : ∃ d, drop (length (pieces_out ps)) (pieces_text ps ++ [nul]) =
    d :: drop (Datatypes.S (length (pieces_out ps))) (pieces_text ps ++ [nul])).
  { pose proof (pieces_out_short ps). destruct ((pieces_text ps ++ [nul]) !! length (pieces_out ps)) as [d|] eqn:D.
    - exists d. by apply drop_S.
    - apply lookup_ge_None in D. rewrite length_app in D. simpl in D. lia. }
  destruct Q as [d Q].
  replace (drop (length (pieces_out ps)) (pieces_text ps) ++ nul :: rest) with
    (d :: drop (Datatypes.S (length (pieces_out ps))) (pieces_text ps ++ [nul]) ++ rest).
  2:{ change (nul :: rest) with ([nul] ++ rest). rewrite app_assoc, app_comm_cons, <- Q. f_equal.
      rewrite drop_app_le; [done|]. apply pieces_out_short. }
  pose proof (put_here (pre ++ flag :: pieces_out ps) d nul
    (drop (Datatypes.S (length (pieces_out ps))) (pieces_text ps ++ [nul]) ++ rest)
    (Datatypes.S (length pre) + length (pieces_out ps))) as P.
  rewrite <- !app_assoc in P. simpl app in P. rewrite P by (rewrite length_app; simpl; lia).
  cbn [outcome_bind]. by rewrite put_here.
Qed.

(** ** Slices of the buffer *)

Lemma slice_snoc mem a p c : (a ≤ p)%nat → mem !! p = Some c → slice mem a (S p) = slice mem a p ++ [c].
Proof.
  intros L C. unfold slice. replace (S p - a)%nat with (S (p - a)) by lia.
  apply take_S_r. rewrite lookup_drop. by replace (a + (p - a))%nat with p by lia.
Qed.
Lemma slice_same mem mem' a e : (∀ k, (a ≤ k < e)%nat → mem !! k = mem' !! k) → slice mem a e = slice mem' a e.
Proof.
  intros S. apply list_eq. intros k. unfold slice.
  destruct (decide (k < e - a)%nat) as [L|L].
  - rewrite !lookup_take_lt, !lookup_drop by done. apply S. lia.
  - by rewrite !lookup_take_ge by lia.
Qed.
Lemma slice_nil mem a : slice mem a a = [].
Proof. unfold slice. by rewrite Nat.sub_diag. Qed.
(** A slice that lies inside of the buffer cuts it. *)
Lemma slice_cut mem a e : (a ≤ e ≤ length mem)%nat → mem = take a mem ++ slice mem a e ++ drop e mem.
Proof.
  intros L. unfold slice. replace (drop e mem) with (drop (e - a) (drop a mem))
    by (rewrite drop_drop; f_equal; lia). by rewrite take_drop, take_drop.
Qed.
Lemma slice_length mem a e : (a ≤ e ≤ length mem)%nat → length (slice mem a e) = (e - a)%nat.
Proof. intros L. unfold slice. rewrite length_take, length_drop. lia. Qed.

(** The text of a string as the parser has checked it. *)
Definition text_ok (mem : bytes) (a e : nat) : Prop :=
  ∃ ps, forallb piece_ok ps = true ∧ slice mem a e = pieces_text ps.

Lemma text_ok_nil mem a : text_ok mem a a.
Proof. exists []. by rewrite slice_nil. Qed.
Lemma text_ok_same mem mem' a e : (∀ k, (a ≤ k < e)%nat → mem !! k = mem' !! k) →
  text_ok mem a e → text_ok mem' a e.
Proof. intros S (ps & O & E). exists ps. split; [done|]. by rewrite <- (slice_same mem). Qed.
Lemma text_ok_piece mem a p q : text_ok mem a p → piece_ok q = true → (a ≤ p)%nat →
  (∀ k c, piece_text q !! k = Some c → mem !! (p + k)%nat = Some c) →
  text_ok mem a (p + length (piece_text q)).
Proof.
  intros (ps & O & E) Q L C. exists (ps ++ [q]). split; [by rewrite forallb_app, O; simpl; rewrite Q|].
  rewrite pieces_text_app, <- E. simpl. rewrite app_nil_r. clear O E Q ps.
  remember (piece_text q) as w eqn:W. clear W. revert p L C. induction w as [|c w IH]; intros p L C.
  - simpl. by rewrite Nat.add_0_r, app_nil_r.
  - replace (p + length (c :: w))%nat with (S p + length w)%nat by (simpl; lia).
    rewrite IH; [|lia|].
    + rewrite (slice_snoc mem a p c), <- app_assoc; [done|lia|]. specialize (C 0%nat c eq_refl).
      by rewrite Nat.add_0_r in C.
    + intros k d D. specialize (C (S k) d D). by rewrite <- C; f_equal; lia.
Qed.

(** ** The buffer: [n] characters and NUL *)

Section Safety.
Context (n : nat).

Definition Buf (mem : bytes) : Prop := length mem = S n ∧ mem !! n = Some nul.
(** What the parser has not reached yet, or has left behind. *)
Definition same_below (p : nat) (mem mem' : bytes) : Prop := ∀ k, (k < p)%nat → mem !! k = mem' !! k.
Definition same_outside (lo hi : nat) (mem mem' : bytes) : Prop :=
  ∀ k, (k < lo ∨ hi ≤ k)%nat → mem !! k = mem' !! k.

Lemma buf_at mem p : Buf mem → (p ≤ n)%nat →
  ∃ c, at_ mem p = Val c ∧ mem !! p = Some c ∧ (c ≠ nul → (p < n)%nat).
Proof.
  intros [L N] Hp. destruct (mem !! p) as [c|] eqn:E.
  - exists c. unfold at_. rewrite E. split_and!; [done..|]. intros C.
    destruct (decide (p = n)) as [->|]; [congruence|lia].
  - apply lookup_ge_None in E. lia.
Qed.

Lemma buf_put mem p c : Buf mem → (p < n)%nat → put mem p c = Val (<[p := c]> mem) ∧ Buf (<[p := c]> mem).
Proof.
  intros [L N] Hp. split.
  - unfold put. destruct (mem !! p) eqn:E; [done|]. apply lookup_ge_None in E. lia.
  - split; [by rewrite length_insert|]. rewrite list_lookup_insert_ne by lia. done.
Qed.

(** What a step of the parser may do from position [p]: it answers, at a position in the buffer. *)
Definition reaches (p : nat) (o : outcome nat) : Prop := ∃ q, o = Val q ∧ (p ≤ q ≤ n)%nat.

Ltac read H := let c := fresh "c" in let N := fresh "N" in
  match goal with
  | B : Buf ?mem |- context [at_ ?mem ?p] =>
      destruct (buf_at mem p B ltac:(lia)) as (c & -> & H & N); cbn [outcome_bind]
  end.

Lemma ws_skip_reaches mem p : Buf mem → (p ≤ n)%nat → reaches p (ws_skip mem p).
Proof.
  intros B Hp. unfold ws_skip.
  assert (∀ fuel q, (q ≤ n)%nat → (n - q ≤ fuel)%nat → reaches q (ws_skip_loop fuel mem q)) as L.
  { induction fuel as [|fuel IH]; intros q Hq F; simpl; read H;
      destruct (is_ws c) eqn:W; try (exists q; split; [done|lia]);
      (assert (c ≠ nul) as C by (intros ->; discriminate W)); apply N in C; [lia|].
    destruct (IH (S q)) as (r & -> & R); [lia..|]. exists r. split; [done|lia]. }
  apply L; [done|]. destruct B as [-> _]. lia.
Qed.

Lemma consume_spec mem p c : Buf mem → (p ≤ n)%nat → c ≠ nul →
  (consume mem p c = Val (true, S p) ∧ (p < n)%nat) ∨ consume mem p c = Val (false, p).
Proof.
  intros B Hp C. unfold consume. read H. destruct (Ascii.eqb_spec c0 c) as [->|]; [left|by right].
  split; [done|]. by apply N.
Qed.

(** A nonzero character that is read is not the last of the buffer. *)
Lemma matches_spec word mem p : Buf mem → (p ≤ n)%nat → nul ∉ word →
  ∃ ok, matches word mem p = Val ok ∧ (ok = true → (p + length word ≤ n)%nat).
Proof.
  intros B. revert p. induction word as [|w word IH]; intros p Hp W.
  - exists true. split; [done|]. simpl. lia.
  - apply not_elem_of_cons in W as [W W']. simpl. read H.
    destruct (Ascii.eqb_spec c w) as [->|]; [|by exists false].
    destruct (IH (S p)) as (ok & -> & R); [|done|].
    + assert (p < n)%nat by (apply N; congruence). lia.
    + exists ok. split; [done|]. intros O. specialize (R O). lia.
Qed.

Lemma check_not_nul c : check c = true → c ≠ nul.
Proof. intros C ->. discriminate C. Qed.

Lemma check_digits_spec k mem p : Buf mem → (p ≤ n)%nat →
  ∃ ok, check_digits k mem p = Val ok ∧
    (ok = true → (p + k ≤ n)%nat ∧ ∀ j, (j < k)%nat → ∃ c, mem !! (p + j)%nat = Some c ∧ check c = true).
Proof.
  intros B. revert p. induction k as [|k IH]; intros p Hp; simpl.
  - exists true. split; [done|]. intros _. split; [lia|]. intros j J. lia.
  - read H. destruct (check c) eqn:C; [|by exists false].
    destruct (IH (S p)) as (ok & -> & R).
    { apply check_not_nul, N in C. lia. }
    exists ok. split; [done|]. intros O. destruct (R O) as [R1 R2]. split; [lia|].
    intros [|j] J; [exists c; by rewrite Nat.add_0_r|]. destruct (R2 j) as (d & D & Cd); [lia|].
    exists d. split; [|done]. rewrite <- D. f_equal. lia.
Qed.

(** *** Strings *)

(** The string between [a] and the NUL at [e]. *)
Definition string_value (a e : nat) (v : rvalue) : Prop :=
  start_ v = a ∧ end_ v = e ∧ key_ v = (0, 0)%nat ∧ t_ v = tString ∧ option_ v = 0.

Lemma string_loop_spec a flag fuel mem p : Buf mem → (1 ≤ a ≤ p)%nat → (p ≤ n)%nat →
  text_ok mem a p → (n - p < fuel)%nat →
  ∃ v mem' q, string_loop fuel mem p a flag = Val (v, mem', q) ∧ Buf mem' ∧ (p ≤ q ≤ n)%nat ∧
    same_outside (a - 1) q mem mem' ∧
    (error v = true ∨ (p < q)%nat ∧ string_value a (q - 1) v ∧ text_ok mem' a (q - 1) ∧
                      mem' !! (q - 1)%nat = Some nul).
Proof.
  intros B A. revert flag p A. induction fuel as [|fuel IH]; intros flag p A Hp T F; [lia|].
  assert (Bad : ∀ q, (p ≤ q ≤ n)%nat → ∃ v mem' q', Val (rvalue_error, mem, q) = Val (v, mem', q') ∧
    Buf mem' ∧ (p ≤ q' ≤ n)%nat ∧ same_outside (a - 1) q' mem mem' ∧
    (error v = true ∨ (p < q')%nat ∧ string_value a (q' - 1) v ∧ text_ok mem' a (q' - 1) ∧
                      mem' !! (q' - 1)%nat = Some nul)).
  { intros q Hq. exists rvalue_error, mem, q. split_and!; try (done || lia). by left. }
  assert (Go : ∀ flag w, piece_ok w = true → (p + length (piece_text w) ≤ n)%nat →
    (∀ k c, piece_text w !! k = Some c → mem !! (p + k)%nat = Some c) →
    ∃ v mem' q, string_loop fuel mem (p + length (piece_text w)) a flag = Val (v, mem', q) ∧ Buf mem' ∧
    (p ≤ q ≤ n)%nat ∧ same_outside (a - 1) q mem mem' ∧
    (error v = true ∨ (p < q)%nat ∧ string_value a (q - 1) v ∧ text_ok mem' a (q - 1) ∧
                      mem' !! (q - 1)%nat = Some nul)).
  { intros flag' w O L C. destruct (piece_text_cons w) as (c & r & W).
    destruct (IH flag' (p + length (piece_text w))%nat) as (v & mem' & q & E & B' & Q & S & R);
      [rewrite W; simpl; lia|done|by apply text_ok_piece; [..|lia|]|rewrite W in *; simpl in *; lia|].
    exists v, mem', q. split_and!; try (done || lia). destruct R as [R|(R & R')]; [by left|right].
    split; [lia|done]. }
  cbn [string_loop]. read H. destruct (Ascii.eqb_spec c quote) as [->|Nq]; cbn [negb andb].
  - assert (p < n)%nat by by apply N.
    destruct (buf_put mem p nul B) as [-> B1]; [done|]. cbn [outcome_bind].
    destruct (buf_put (<[p := nul]> mem) (a - 1) flag B1) as [-> B2]; [lia|]. cbn [outcome_bind].
    eexists _, _, (S p). split; [done|]. replace (S p - 1)%nat with p by lia.
    assert (∀ k, k ≠ p → k ≠ (a - 1)%nat →
      mem !! k = <[(a - 1)%nat := flag]> (<[p := nul]> mem) !! k) as U
      by (intros k K1 K2; by rewrite !list_lookup_insert_ne by done).
    split_and!; [done|lia..| |right; split_and!; [lia|done| |]].
    + intros k K. apply U; lia.
    + apply (text_ok_same mem); [|done]. intros k K. apply U; lia.
    + rewrite list_lookup_insert_ne by lia. apply list_lookup_insert_eq. destruct B as [-> _]. lia.
  - destruct (Ascii.eqb_spec c backslash) as [->|Nb]; cbn [negb andb].
    + assert (p < n)%nat by by apply N. destruct (buf_at mem (S p) B) as (d & -> & D & Nd); [lia|].
      cbn [outcome_bind]. destruct (Ascii.eqb_spec d "u") as [->|Nu].
      * assert (S p < n)%nat by by apply Nd.
        destruct (check_digits_spec 4 mem (S (S p)) B) as (ok & -> & C); [lia|]. cbn [outcome_bind].
        destruct ok; [|by apply Bad; lia]. destruct (C eq_refl) as [C1 C2].
        destruct (C2 0%nat) as (h1 & D1 & K1); [lia|]. destruct (C2 1%nat) as (h2 & D2 & K2); [lia|].
        destruct (C2 2%nat) as (h3 & D3 & K3); [lia|]. destruct (C2 3%nat) as (h4 & D4 & K4); [lia|].
        replace (S p + 5)%nat with (p + length (piece_text (Unicode h1 h2 h3 h4)))%nat by (simpl; lia).
        apply Go; [cbn; by rewrite K1, K2, K3, K4|simpl; lia|].
        intros [|[|[|[|[|[|k]]]]]] x X; simpl in X; try discriminate X; injection X as <-;
          [rewrite Nat.add_0_r; done|replace (p + 1)%nat with (S p) by lia; done|..];
          [rewrite <- D1|rewrite <- D2|rewrite <- D3|rewrite <- D4]; f_equal; lia.
      * destruct (is_simple_escape d) eqn:Sd; [|by apply Bad; lia].
        assert (S p < n)%nat by (apply Nd; intros ->; discriminate Sd).
        replace (S (S p)) with (p + length (piece_text (Simple d)))%nat by (simpl; lia).
        apply Go; [done|simpl; lia|].
        intros [|[|k]] x X; simpl in X; try discriminate X; injection X as <-;
          [by rewrite Nat.add_0_r|]. rewrite <- D. f_equal. lia.
    + destruct (Ascii.eqb_spec c nul) as [->|Nn]; cbn [negb andb]; [by apply Bad; lia|].
      assert (p < n)%nat by by apply N.
      replace (S p) with (p + length (piece_text (Plain c)))%nat by (simpl; lia).
      apply Go; [cbn; by rewrite (proj2 (Ascii.eqb_neq _ _))|simpl; lia|].
      intros [|k] x X; simpl in X; [injection X as <-; by rewrite Nat.add_0_r|discriminate X].
Qed.

Lemma decode_string_spec mem p : Buf mem → (p ≤ n)%nat →
  ∃ v mem' q, decode_string mem p = Val (v, mem', q) ∧ Buf mem' ∧ (p ≤ q ≤ n)%nat ∧
    same_outside p q mem mem' ∧
    (error v = true ∨ (S p < q)%nat ∧ string_value (S p) (q - 1) v ∧ text_ok mem' (S p) (q - 1) ∧
                      mem' !! (q - 1)%nat = Some nul).
Proof.
  intros B Hp. unfold decode_string. destruct (consume_spec mem p quote B Hp) as [[-> P]| ->]; [done|..];
    cbn [outcome_bind negb].
  - destruct (string_loop_spec (S p) nul (length mem) mem (S p)) as (v & mem' & q & -> & B' & Q & S & R);
      [done|lia|lia|apply text_ok_nil|destruct B as [-> _]; lia|].
    exists v, mem', q. replace (Datatypes.S p - 1)%nat with p in S by lia. split_and!; try (done || lia).
  - exists rvalue_error, mem, p. split_and!; try (done || lia). by left.
Qed.

(** A string that can be read where it lies, between [lo] and [hi]. *)
Definition string_ok (mem : bytes) (lo hi : nat) (v : rvalue) : Prop :=
  (lo < start_ v)%nat ∧ (start_ v ≤ end_ v)%nat ∧ (end_ v < hi)%nat ∧
  (mem !! (start_ v - 1)%nat = Some nul ∨
   text_ok mem (start_ v) (end_ v) ∧ mem !! end_ v = Some nul).

Lemma unescape_ok mem lo hi v : Buf mem → (hi ≤ n)%nat → string_ok mem lo hi v →
  ∃ mem' e, unescape mem v = Val (mem', set_end e v) ∧ Buf mem' ∧ same_outside lo hi mem mem' ∧
    (start_ v ≤ e ≤ end_ v)%nat ∧ mem' !! (start_ v - 1)%nat = Some nul.
Proof.
  intros B Hn (L & M & H & T).
  destruct (start_ v) as [|b] eqn:St; [lia|]. replace (S b - 1)%nat with b in * by lia.
  destruct (buf_at mem b B) as (c & A & Cb & _); [lia|].
  destruct (decide (c = nul)) as [->|C].
  - unfold unescape. rewrite St, A. cbn [outcome_bind Ascii.eqb Bool.eqb nul Ascii.zero].
    exists mem, (end_ v). destruct v. split_and!; done || lia.
  - destruct T as [T|[(ps & O & E) Z]]; [congruence|].
    assert (Cut : mem = take b mem ++ c :: pieces_text ps ++ nul :: drop (S (end_ v)) mem).
    { destruct B as [Lm _]. rewrite (slice_cut mem (S b) (end_ v)) at 1 by lia.
      rewrite (take_S_r mem b c), <- app_assoc, E, (drop_S _ _ _ Z) by done. done. }
    assert (Lb : length (take b mem) = b) by (destruct B as [Lm _]; rewrite length_take; lia).
    assert (Lt : length (pieces_text ps) = (end_ v - S b)%nat)
      by (rewrite <- E; destruct B as [Lm _]; apply slice_length; lia).
    pose proof (unescape_escaped (take b mem) c ps (drop (S (end_ v)) mem) v C O) as U.
    rewrite <- Cut, Lb, Lt in U. rewrite U by (done || lia). clear U.
    pose proof (pieces_out_short ps) as Sh.
    set (mid := nul :: pieces_out ps ++ nul :: drop (S (length (pieces_out ps))) (pieces_text ps ++ [nul])).
    assert (Lmid : length mid = (S (end_ v) - b)%nat).
    { unfold mid. simpl. rewrite length_app. simpl. rewrite length_drop, length_app. simpl. lia. }
    eexists _, (S b + length (pieces_out ps))%nat. split; [reflexivity|].
    replace (take b mem ++ nul :: _) with (take b mem ++ mid ++ drop (S (end_ v)) mem)
      by (unfold mid; simpl; by rewrite <- app_assoc).
    assert (Out : ∀ k, (k < b ∨ S (end_ v) ≤ k)%nat →
      mem !! k = (take b mem ++ mid ++ drop (S (end_ v)) mem) !! k).
    { intros k [K|K].
      - rewrite lookup_app_l by lia. by rewrite lookup_take_lt.
      - rewrite lookup_app_r by lia. rewrite lookup_app_r by lia. rewrite lookup_drop. f_equal. lia. }
    split_and!; try lia.
    + destruct B as [Lm Nm]. split; [rewrite !length_app, Lb, Lmid, length_drop; lia|].
      rewrite <- Out by lia. done.
    + intros k K. apply Out. lia.
    + rewrite lookup_app_r by lia. by rewrite Lb, Nat.sub_diag.
Qed.

(** *** Numbers and words *)

Lemma digit_not_nul c : is_digit c = true → c ≠ nul.
Proof. intros D ->. discriminate D. Qed.

Lemma digits_loop_reaches mem p : Buf mem → (p < n)%nat →
  ∃ q, digits_loop (length mem) mem p = Val q ∧ (p ≤ q < n)%nat.
Proof.
  intros B Hp.
  assert (∀ fuel q, (q < n)%nat → (n - q ≤ fuel)%nat → ∃ r, digits_loop fuel mem q = Val r ∧ (q ≤ r < n)%nat) as L.
  { induction fuel as [|fuel IH]; intros q Hq F; [lia|]. simpl. read H.
    destruct (is_digit c) eqn:D; [|exists q; split; [done|lia]].
    apply digit_not_nul, N in D. destruct (IH (S q)) as (r & -> & R); [lia..|].
    exists r. split; [done|lia]. }
  apply L; [done|]. destruct B as [-> _]. lia.
Qed.

Lemma number_step_spec mem p state : Buf mem → (p ≤ n)%nat →
  number_step mem p state = Val None ∨
  ∃ state' q, number_step mem p state = Val (Some (state', q)) ∧ (p ≤ q < n)%nat.
Proof.
  intros B Hp. unfold number_step. read H.
  repeat match goal with
  | |- context [Ascii.eqb c ?x] =>
      destruct (Ascii.eqb_spec c x) as [->|]; [right; eexists _, p; split; [reflexivity|]; split; [lia|by apply N]|]
  | |- context [is_digit c] => destruct (is_digit c) eqn:D
  end; [|by left].
  apply digit_not_nul, N in D. destruct (digits_loop_reaches mem p B D) as (q & -> & Q).
  right. eexists _, q. split; [done|lia].
Qed.

Lemma number_loop_spec mem start fuel p state : Buf mem → (start ≤ p ≤ n)%nat → (n - p < fuel)%nat →
  ∃ v q, number_loop fuel mem p start state = Val (v, mem, q) ∧ (p ≤ q ≤ n)%nat ∧
    (error v = true ∨ v = rvalue_of_text mem tNumber start q).
Proof.
  intros B. revert p state. induction fuel as [|fuel IH]; intros p state Hp F; [lia|]. cbn [number_loop].
  case_bool_decide; [exists rvalue_error, p; split_and!; [done|lia|lia|by left]|].
  destruct (number_step_spec mem p state B) as [->|(state' & q & -> & Q)]; [lia|..]; cbn [outcome_bind].
  - destruct (accepting state); eexists _, p; split_and!; try (done || lia); [by right|by left].
  - destruct (IH (S q) state') as (v & r & E & R & V); [lia..|].
    exists v, r. split_and!; try (done || lia).
Qed.

Lemma decode_word_spec word ty mem p : Buf mem → (p < n)%nat → nul ∉ list_ascii_of_string word →
  ∃ v q, decode_word word ty mem p = Val (v, mem, q) ∧ (p ≤ q ≤ n)%nat ∧
    (error v = true ∨ v = rvalue_of_type ty).
Proof.
  intros B Hp W. unfold decode_word.
  destruct (matches_spec (tail (list_ascii_of_string word)) mem (S p) B) as (ok & -> & R); [lia| |].
  { destruct (list_ascii_of_string word); [done|]. by apply not_elem_of_cons in W as [_ W]. }
  cbn [outcome_bind]. destruct ok.
  - eexists _, _. split; [done|]. split; [|by right]. specialize (R eq_refl).
    assert (length (list_ascii_of_string word) = String.length word) as Lw.
    { clear. induction word as [|c word IH]; [done|]. simpl. by rewrite IH. }
    destruct (list_ascii_of_string word); simpl in *; lia.
  - exists rvalue_error, p. split_and!; try (done || lia). by left.
Qed.

(** *** Values *)

Lemma error_set v : error (set_error v) = true.
Proof.
  unfold error, set_error. simpl. apply negb_true_iff, Z.eqb_neq. intros Z.
  apply (f_equal (λ z, Z.testbit z 2)) in Z. rewrite Z.land_spec, Z.lor_spec in Z.
  change (Z.testbit error_bit 2) with true in Z. by rewrite orb_true_r in Z.
Qed.

(** The values of a container lie one behind the other. *)
Definition chain (P : nat → nat → rvalue → Prop) (hi : nat) :=
  fix chain (lo : nat) (l : list rvalue) : Prop :=
    match l with
    | [] => (lo ≤ hi)%nat
    | x :: l => ∃ mid, P lo mid x ∧ chain mid l
    end.
Fixpoint value_ok (mem : bytes) (lo hi : nat) (v : rvalue) : Prop :=
  error v = false ∧ (lo ≤ hi)%nat ∧ ((key_ v).1 ≤ (key_ v).2 ≤ n)%nat ∧
  match t_ v with
  | tString => string_ok mem lo hi v
  | tNumber => (lo ≤ start_ v ≤ end_ v ∧ end_ v ≤ hi)%nat
  | tList | tObject => chain (value_ok mem) hi lo (l_ v)
  | _ => True
  end.

Lemma value_ok_range mem lo hi v : value_ok mem lo hi v → (lo ≤ hi)%nat.
Proof. destruct v. intros (_ & L & _). exact L. Qed.

Lemma chain_range P hi lo l : (∀ lo hi x, P lo hi x → (lo ≤ hi)%nat) → chain P hi lo l → (lo ≤ hi)%nat.
Proof.
  intros R. revert lo. induction l as [|x l IH]; intros lo; [done|].
  intros (mid & V & C). apply R in V. apply IH in C. lia.
Qed.

(** Induction over a value and the elements of it. *)
Lemma rvalue_ind_list (P : rvalue → Prop)
    (H : ∀ a e k l r t nt o, Forall P l → P (RValue a e k l r t nt o)) : ∀ v, P v.
Proof.
  fix IH 1. intros [a e k l r t nt o]. apply H.
  induction l as [|x l IHl]; constructor; [apply IH|apply IHl].
Qed.

(** What is written elsewhere does not matter. *)
Lemma chain_weaken P Q hi hi' lo lo' l : (lo' ≤ lo)%nat → (hi ≤ hi')%nat →
  (∀ lo hi x, P lo hi x → (lo ≤ hi)%nat) →
  (∀ x a a' c, x ∈ l → (a' ≤ a)%nat → (lo ≤ a)%nat → (c ≤ hi)%nat → P a c x → Q a' c x) →
  chain P hi lo l → chain Q hi' lo' l.
Proof.
  intros Llo Lhi R. revert lo lo' Llo. induction l as [|x l IH]; intros lo lo' Llo W; [simpl; lia|].
  intros (mid & V & C). exists mid. pose proof (R _ _ _ V). pose proof (chain_range P hi mid l R C).
  split.
  - apply (W x lo); [left|lia..|done].
  - apply (IH mid); [lia| |done]. intros y a a' c I L1 L2 L3 Py. apply (W y a); [by right|lia..|done].
Qed.

Lemma string_ok_weaken mem mem' lo lo' hi hi' v : (lo' ≤ lo)%nat → (hi ≤ hi')%nat →
  (∀ k, (lo ≤ k < hi)%nat → mem !! k = mem' !! k) → string_ok mem lo hi v → string_ok mem' lo' hi' v.
Proof.
  intros L1 L2 S (A & B & C & D). split_and!; [lia..|].
  destruct D as [D|[D1 D2]]; [left; by rewrite <- S by lia|right].
  split; [|by rewrite <- S by lia]. eapply text_ok_same; [|done]. intros k K. apply S. lia.
Qed.

Lemma value_ok_weaken mem mem' v : ∀ lo lo' hi hi', (lo' ≤ lo)%nat → (hi ≤ hi')%nat →
  (∀ k, (lo ≤ k < hi)%nat → mem !! k = mem' !! k) → value_ok mem lo hi v → value_ok mem' lo' hi' v.
Proof.
  induction v as [a e k l r t nt o IH] using rvalue_ind_list.
  intros lo lo' hi hi' L1 L2 S (Er & L & K & V). split_and!; [done|lia..|]. simpl t_ in *.
  assert (W : chain (value_ok mem) hi lo l → chain (value_ok mem') hi' lo' l).
  { apply chain_weaken; [done..|apply value_ok_range|].
    intros x b b' c I Lb Lb' Lc. rewrite Forall_forall in IH.
    apply (IH x I); [done|lia|]. intros i Hi. apply S. lia. }
  destruct t; try exact I; [simpl in *; lia|by eapply string_ok_weaken|by apply W..].
Qed.

(** What a decoding function may do from position [p]. *)
Definition decoded (p lo : nat) (mem : bytes) (o : outcome result) : Prop :=
  ∃ v mem' q, o = Val (v, mem', q) ∧ Buf mem' ∧ (p ≤ q ≤ n)%nat ∧ same_outside p q mem mem' ∧
    (error v = true ∨ value_ok mem' lo q v).

Lemma decoded_error p lo mem mem' q v : Buf mem' → (p ≤ q ≤ n)%nat → same_outside p q mem mem' →
  error v = true → decoded p lo mem (Val (v, mem', q)).
Proof. intros. exists v, mem', q. split_and!; try (done || lia). by left. Qed.

Lemma same_outside_trans p q r mem mem' mem'' : (p ≤ q ≤ r)%nat →
  same_outside p q mem mem' → same_outside q r mem' mem'' → same_outside p r mem mem''.
Proof. intros L S S' k K. rewrite S by lia. apply S'. lia. Qed.

Lemma string_decoded mem p : Buf mem → (p ≤ n)%nat → decoded p p mem (decode_string mem p).
Proof.
  intros B Hp. destruct (decode_string_spec mem p B Hp) as (v & mem' & q & -> & B' & Q & S & R).
  exists v, mem', q. split_and!; try (done || lia).
  destruct R as [R|(L & (St & En & Ky & Ty & Op) & T & Z)]; [by left|right].
  destruct v. simpl in *. subst. split_and!; [done|lia|simpl; lia..|]. split_and!; simpl; [lia..|]. by right.
Qed.

Lemma number_decoded mem p : Buf mem → (p ≤ n)%nat → decoded p p mem (decode_number mem p).
Proof.
  intros B Hp. unfold decode_number.
  destruct (number_loop_spec mem p (length mem) p Minus B) as (v & q & -> & Q & V);
    [lia|destruct B as [-> _]; lia|].
  exists v, mem, q. split_and!; try (done || lia). destruct V as [V| ->]; [by left|right].
  split_and!; try done; simpl; lia.
Qed.

Lemma no_nul (w : bytes) : forallb (λ c, negb (Ascii.eqb c nul)) w = true → nul ∉ w.
Proof.
  rewrite forallb_forall. intros F I. apply list_elem_of_In in I.
  specialize (F _ I). discriminate F.
Qed.

Lemma word_decoded word ty mem p : Buf mem → (p < n)%nat → nul ∉ list_ascii_of_string word →
  match ty with tNull | tTrue | tFalse => True | _ => False end →
  decoded p p mem (decode_word word ty mem p).
Proof.
  intros B Hp W T. destruct (decode_word_spec word ty mem p B Hp W) as (v & q & -> & Q & V).
  exists v, mem, q. split_and!; try (done || lia). destruct V as [V| ->]; [by left|right].
  split_and!; [done|simpl; lia..|]. by destruct ty.
Qed.

Lemma container_start_spec open ty mem p depth : Buf mem → (p ≤ n)%nat → open ≠ nul →
  ∃ ret q, container_start open ty mem p depth = Val (ret, q) ∧ (p ≤ q ≤ n)%nat ∧
    (error ret = true ∨ ret = rvalue_of_type ty ∧ (p < q)%nat).
Proof.
  intros B Hp O. unfold container_start.
  destruct (consume_spec mem p open B Hp O) as [[-> P]| ->]; cbn [outcome_bind negb orb].
  - destruct (max_depth <? depth); [eexists _, _; split; [done|]; split; [lia|by left]|].
    destruct (ws_skip_reaches mem (S p) B) as (q & -> & Q); [lia|]. cbn [outcome_bind].
    eexists _, _. split; [done|]. split; [lia|]. right. split; [done|lia].
  - eexists _, _. split; [done|]. split; [lia|by left].
Qed.

Lemma container_next_spec close mem p : Buf mem → (p ≤ n)%nat → close ≠ nul →
  ∃ a q, container_next close mem p = Val (a, q) ∧ (p ≤ q ≤ n)%nat ∧ (a = Next → (p < q)%nat).
Proof.
  intros B Hp O. unfold container_next. read H.
  destruct (Ascii.eqb_spec c close) as [->|].
  - exists Close, (S p). split_and!; try (done || lia). by apply N.
  - destruct (consume_spec mem p "," B Hp) as [[-> P]| ->]; [done|..]; cbn [outcome_bind negb].
    + destruct (ws_skip_reaches mem (S p) B) as (q & -> & Q); [lia|].
      exists Next, q. split_and!; try (done || lia).
    + exists Broken, p. split_and!; try (done || lia).
Qed.

Lemma s_ok mem lo hi v : Buf mem → (hi ≤ n)%nat → error v = false → t_ v = tString →
  string_ok mem lo hi v →
  ∃ mem' e, s mem v = Val (mem', set_end e v, (start_ v, e)) ∧ Buf mem' ∧ same_outside lo hi mem mem' ∧
    (start_ v ≤ e ≤ end_ v)%nat ∧ mem' !! (start_ v - 1)%nat = Some nul.
Proof.
  intros B Hn Er Ty O. unfold s, t. rewrite Er. cbn [outcome_bind].
  rewrite Ty. rewrite bool_decide_eq_true_2 by done. cbn [negb].
  destruct (unescape_ok mem lo hi v B Hn O) as (mem' & e & -> & B' & S & L & Z). cbn [outcome_bind].
  exists mem', e. by destruct v.
Qed.

Lemma decode_key_spec mem p : Buf mem → (p ≤ n)%nat →
  ∃ k mem' q, decode_key mem p = Val (k, mem', q) ∧ Buf mem' ∧ (p ≤ q ≤ n)%nat ∧
    same_outside p q mem mem' ∧ ∀ r, k = Some r → (p < q)%nat ∧ (r.1 ≤ r.2 ≤ n)%nat.
Proof.
  intros B Hp. unfold decode_key.
  destruct (decode_string_spec mem p B Hp) as (v & mem' & q & -> & B' & Q & S & R). cbn [outcome_bind].
  destruct (error v) eqn:Er; [exists None, mem', q; split_and!; try (done || lia)|].
  destruct R as [R|(L & (St & En & Ky & Ty & Op) & T & Z)]; [done|].
  destruct (ws_skip_reaches mem' q B') as (q1 & -> & Q1); [lia|]. cbn [outcome_bind].
  destruct (consume_spec mem' q1 ":" B') as [[-> P]| ->]; [lia|done|..]; cbn [outcome_bind negb].
  - destruct (s_ok mem' p q v B') as (mem2 & e & -> & B2 & S2 & Le & _); [lia|done|done|..].
    { split_and!; [lia..|]. right. by rewrite St, En. }
    cbn [outcome_bind]. destruct (ws_skip_reaches mem2 (Datatypes.S q1) B2) as (q2 & -> & Q2); [lia|].
    cbn [outcome_bind]. eexists _, _, _. split; [done|]. split_and!; [done|lia..| |].
    + intros k K. rewrite S by lia. apply S2. lia.
    + intros r [= <-]. simpl. lia.
  - exists None, mem', q1. split_and!; try (done || lia). intros k K. apply S. lia.
Qed.

(** *** Containers *)

Definition container_ok (mem : bytes) (lo hi : nat) (ret : rvalue) : Prop :=
  error ret = false ∧ is_container (t_ ret) = true ∧ ((key_ ret).1 ≤ (key_ ret).2 ≤ n)%nat ∧
  chain (value_ok mem) hi lo (l_ ret).

Lemma container_value mem lo hi ret : container_ok mem lo hi ret → value_ok mem lo hi ret.
Proof.
  intros (E & T & K & C). pose proof (chain_range _ _ _ _ (value_ok_range mem) C) as L.
  destruct ret as [a e k l r [] nt o]; try discriminate T;
    split_and!; solve [done | simpl in *; lia].
Qed.

Lemma container_next_value mem mem' lo p q r ret : container_ok mem lo p ret → (p ≤ q)%nat →
  same_outside p r mem mem' → container_ok mem' lo q ret.
Proof.
  intros (E & T & K & C) L S. split_and!; [done|done|lia..|]. revert C.
  apply chain_weaken; [done..|apply value_ok_range|]. intros x a a' c _ La La' Lc.
  apply value_ok_weaken; [done..|]. intros i Hi. apply S. lia.
Qed.

Lemma container_emplace mem lo p q ret x : container_ok mem lo p ret → value_ok mem p q x →
  container_ok mem lo q (emplace_back ret x).
Proof.
  intros (E & T & K & C) V. destruct ret as [a e k l r t nt o]. split_and!; [done|done|simpl in *; lia..|]. simpl in *.
  revert lo C. induction l as [|y l IH]; intros lo C.
  - exists q. split; [|simpl; lia]. by eapply value_ok_weaken; [..|exact V].
  - destruct C as (mid & Vy & C). exists mid. split; [done|by apply IH].
Qed.

(** Behind a value of a container that began at [lo]: the loop ends here, or goes on. *)
Lemma after_value_decoded close lo p q mem0 mem ret depth
    (loop : bytes → nat → Z → rvalue → outcome result) :
  Buf mem → (p ≤ q ≤ n)%nat → close ≠ nul → same_outside p q mem0 mem →
  container_ok mem lo q ret →
  (∀ r, (q < r ≤ n)%nat → container_ok mem lo r ret → decoded r lo mem (loop mem r depth ret)) →
  decoded p lo mem0
    (outcome_bind (container_next close mem q) (λ '(after, data),
       match after with
       | Close => Val (ret, mem, data)
       | Broken => Val (set_error ret, mem, data)
       | Next => loop mem data depth ret
       end)).
Proof.
  intros B Q N S C Loop. destruct (container_next_spec close mem q B) as (a & r & -> & R & L); [lia|done|].
  cbn [outcome_bind]. assert (S' : same_outside p r mem0 mem) by (intros k K; apply S; lia).
  assert (C' : container_ok mem lo r ret) by exact (container_next_value mem mem lo q r r ret C ltac:(lia) ltac:(done)).
  destruct a.
  - exists ret, mem, r. split_and!; try (done || lia). right. by apply container_value.
  - destruct (Loop r) as (v & mem' & q' & -> & B' & Q' & S2 & V); [specialize (L eq_refl); lia|done|].
    exists v, mem', q'. split_and!; [done..|lia|lia| |done].
    exact (same_outside_trans p r q' _ _ _ ltac:(lia) S' S2).
  - apply decoded_error; try (done || lia). by apply error_set.
Qed.

(** The fuel a function needs at a position. *)
Definition enough (k fuel p : nat) : Prop := (3 * (n - p) + k ≤ fuel)%nat.

Definition value_spec (fuel : nat) : Prop := ∀ mem p depth, Buf mem → (p ≤ n)%nat → enough 2 fuel p →
  decoded p p mem (decode_value fuel mem p depth).
Definition start_spec (decode : nat → bytes → nat → Z → outcome result) (fuel : nat) : Prop :=
  ∀ mem p depth, Buf mem → (p ≤ n)%nat → enough 1 fuel p → decoded p p mem (decode fuel mem p depth).
Definition loop_spec (loop : nat → bytes → nat → Z → rvalue → outcome result) (fuel : nat) : Prop :=
  ∀ mem lo p depth ret, Buf mem → (lo ≤ p ≤ n)%nat → enough 3 fuel p → container_ok mem lo p ret →
  decoded p lo mem (loop fuel mem p depth ret).

(** What a list and an object do before their loop. *)
Lemma start_decoded open close ty fuel mem p depth
    (loop : nat → bytes → nat → Z → rvalue → outcome result) :
  Buf mem → (p ≤ n)%nat → open ≠ nul → close ≠ nul → is_container ty = true →
  (∀ q ret, (p < q ≤ n)%nat → container_ok mem p q ret → decoded q p mem (loop fuel mem q depth ret)) →
  decoded p p mem
    (outcome_bind (container_start open ty mem p depth) (λ '(ret, data),
       if error ret then Val (ret, mem, data)
       else outcome_bind (at_ mem data) (λ c,
         if Ascii.eqb c close then Val (ret, mem, S data) else loop fuel mem data depth ret))).
Proof.
  intros B Hp O Nc Ty Loop.
  destruct (container_start_spec open ty mem p depth B Hp O) as (ret & q & -> & Q & R).
  cbn [outcome_bind]. destruct (error ret) eqn:Er; [by apply decoded_error|].
  destruct R as [R|[-> L]]; [done|]. read H.
  assert (C : ∀ r, (p ≤ r)%nat → container_ok mem p r (rvalue_of_type ty)) by (intros r Lr; split_and!; try done; cbn; lia).
  destruct (Ascii.eqb_spec c close) as [->|].
  - specialize (N ltac:(done)). exists (rvalue_of_type ty), mem, (S q). split_and!; try (done || lia).
    right. apply container_value, C. lia.
  - destruct (Loop q (rvalue_of_type ty)) as (v & mem' & q' & -> & B' & Q' & S2 & V); [lia|apply C; lia|].
    exists v, mem', q'. split_and!; [done..|lia|lia| |done]. intros k K. apply S2. lia.
Qed.

Lemma value_ok_key mem lo hi v k : value_ok mem lo hi v → (k.1 ≤ k.2 ≤ n)%nat →
  value_ok mem lo hi (set_key k v).
Proof. destruct v. intros (E & L & _ & V) [K1 K2]. by repeat split. Qed.

(** One turn of the loop of a list, and of an object. *)
Lemma list_turn fuel : value_spec fuel → loop_spec list_loop fuel → loop_spec list_loop (S fuel).
Proof.
  intros IHv IHl mem lo p depth ret B Hp F C. unfold enough in *. cbn [list_loop].
  destruct (IHv mem p (depth + 1)) as (v & mem' & q & -> & B' & Q & S & V); [done|lia|unfold enough; lia|].
  cbn [outcome_bind]. destruct (error v) eqn:Er.
  { apply decoded_error; try (done || lia). by apply error_set. }
  destruct V as [V|V]; [done|]. destruct (ws_skip_reaches mem' q B') as (q1 & -> & Q1); [lia|].
  cbn [outcome_bind]. apply (after_value_decoded "]" lo p q1 mem mem'
    (emplace_back ret v) depth (list_loop fuel)); [done|lia|done| | |].
  - intros k K. apply S. lia.
  - apply container_emplace with (p := p).
    + by apply (container_next_value mem mem' lo p p q).
    + eapply value_ok_weaken; [..|exact V]; [lia|lia|done].
  - intros r R C'. apply IHl; [done|lia|unfold enough; lia|done].
Qed.

Lemma object_turn fuel : value_spec fuel → loop_spec object_loop fuel → loop_spec object_loop (S fuel).
Proof.
  intros IHv IHl mem lo p depth ret B Hp F C. unfold enough in *. cbn [object_loop].
  destruct (decode_key_spec mem p B) as (k & mem1 & q & -> & B1 & Q & S1 & K); [lia|].
  cbn [outcome_bind]. destruct k as [k|].
  2:{ apply decoded_error; try (done || lia). by apply error_set. }
  destruct (K k eq_refl) as [L Kk].
  destruct (IHv mem1 q (depth + 1)) as (v & mem' & q' & -> & B' & Q' & S2 & V); [done|lia|unfold enough; lia|].
  assert (S : same_outside p q' mem mem') by exact (same_outside_trans p q q' _ _ _ ltac:(lia) S1 S2).
  cbn [outcome_bind]. destruct (error v) eqn:Er.
  { apply decoded_error; try (done || lia). by apply error_set. }
  destruct V as [V|V]; [done|]. destruct (ws_skip_reaches mem' q' B') as (q1 & -> & Q1); [lia|].
  cbn [outcome_bind]. apply (after_value_decoded "}" lo p q1 mem mem'
    (emplace_back ret (set_key k v)) depth (object_loop fuel)); [done|lia|done| | |].
  - intros i Hi. apply S. lia.
  - apply container_emplace with (p := p).
    + by apply (container_next_value mem mem' lo p p q').
    + apply value_ok_key; [|done]. eapply value_ok_weaken; [..|exact V]; [lia|lia|done].
  - intros r R C'. apply IHl; [done|lia|unfold enough; lia|done].
Qed.

Lemma decode_spec fuel : value_spec fuel ∧ start_spec decode_list fuel ∧ loop_spec list_loop fuel ∧
  start_spec decode_object fuel ∧ loop_spec object_loop fuel.
Proof.
  induction fuel as [|fuel (IHv & IHl & IHll & IHo & IHol)].
  { split_and!; intros mem; intros; unfold enough in *; lia. }
  split_and!.
  - intros mem p depth B Hp F. cbn [decode_value]. read H. unfold enough in *.
    destruct (Ascii.eqb_spec c "["); [apply IHl; [done..|unfold enough; lia]|].
    destruct (Ascii.eqb_spec c "{"); [apply IHo; [done..|unfold enough; lia]|].
    destruct (Ascii.eqb_spec c quote); [by apply string_decoded|].
    destruct (Ascii.eqb_spec c "t") as [->|];
      [apply word_decoded; [done|by apply N|by apply no_nul|done]|].
    destruct (Ascii.eqb_spec c "f") as [->|];
      [apply word_decoded; [done|by apply N|by apply no_nul|done]|].
    destruct (Ascii.eqb_spec c "n") as [->|];
      [apply word_decoded; [done|by apply N|by apply no_nul|done]|].
    by apply number_decoded.
  - intros mem p depth B Hp F. cbn [decode_list]. unfold enough in F.
    apply (start_decoded "[" "]" tList fuel mem p depth list_loop); try done.
    intros q ret Q C. apply IHll; [done|lia|unfold enough; lia|done].
  - by apply list_turn.
  - intros mem p depth B Hp F. cbn [decode_object]. unfold enough in F.
    apply (start_decoded "{" "}" tObject fuel mem p depth object_loop); try done.
    intros q ret Q C. apply IHol; [done|lia|unfold enough; lia|done].
  - by apply object_turn.
Qed.
End Safety.

(** ** load *)

Lemma buf_load data : Buf (length data) (data ++ [nul]).
Proof.
  split; [rewrite length_app; simpl; lia|]. by rewrite list_lookup_middle.
Qed.

Lemma load_decoded data : ∃ v mem, load data = Val (v, mem) ∧ Buf (length data) mem ∧
  (error v = true ∨ value_ok (length data) mem 0 (length data) v).
Proof.
  pose proof (buf_load data) as B. set (n := length data) in *. unfold load, parse.
  destruct (ws_skip_reaches n _ 0 B) as (p & -> & P); [lia|]. cbn [outcome_bind].
  destruct (decode_spec n (load_fuel data)) as (V & _).
  destruct (V _ p 0 B) as (v & mem & q & -> & B' & Q & S & R);
    [lia|unfold enough, load_fuel; fold n; lia|]. cbn [outcome_bind].
  destruct (ws_skip_reaches n mem q B') as (q' & -> & Q'); [lia|]. cbn [outcome_bind].
  destruct (error v) eqn:Er; cbn [outcome_bind].
  { rewrite Er. eexists _, _. split; [done|]. split; [done|by left]. }
  destruct R as [R|R]; [done|].
  destruct (buf_at n mem q' B') as (c & -> & _); [lia|]. cbn [outcome_bind].
  destruct (Ascii.eqb c nul).
  - rewrite Er. eexists _, _. split; [done|]. split; [done|]. right. apply value_ok_key.
    + exact (value_ok_weaken n mem mem v p 0 q n ltac:(lia) ltac:(lia) (λ _ _, eq_refl) R).
    + fold n. simpl. pose proof (Z.mod_le (Z.of_nat n) (2 ^ 32)). lia.
  - rewrite error_set. eexists _, _. split; [done|]. split; [done|left; apply error_set].
Qed.
