(* ===== verification/JsonWrite.v ===== *)
(** * JSON: values to be written

    lib/crowapi/crow_all.h, [json::wvalue]: how one is built, changed, copied and moved, its
    conversion from a value that was read, and [dump].

    The number of a value is a union of 64 bits, which [nt] says how to read; a double is its
    bits.  The pointers [l] and [o] may be null; the hash table [o] is the list of its entries in
    insertion order, which stands for the order it is iterated in.  A reference that an operation
    returns is a function that is applied to what it refers to. *)

From Stdlib Require Import ZArith Lia Ascii String.
From stdpp Require Import base tactics option strings list.
From S2P Require Import Prelude.
From S2P Require Import CppStd.
From S2P Require Import QueryString.
From S2P Require Import Json.

Local Open Scope Z_scope.
Local Open Scope outcome_scope.

Definition text (s : string) : bytes := list_ascii_of_string s.

Inductive wvalue : Type := WValue {
  wt_ : type;
  wnt : num_type;
  num : Z;
  str : bytes;
  l : option (list wvalue);
  o : option (list (bytes * wvalue));
  f : option (bytes → bytes)
}.
Abbreviation object := (list (bytes * wvalue)).

(** ** Numbers *)

(** The three members of the union. *)
Definition ui (num : Z) : Z := num mod 2 ^ 64.
Definition si (num : Z) : Z := (num + 2 ^ 63) mod 2 ^ 64 - 2 ^ 63.
Definition d_negative (num : Z) : bool := Z.testbit num 63.
Definition d_exponent (num : Z) : Z := Z.land (Z.shiftr num 52) 2047.
Definition d_fraction (num : Z) : Z := Z.land num (2 ^ 52 - 1).
Definition d_finite (num : Z) : bool := negb (d_exponent num =? 2047).

(** [m * 2 ^ e * 10 ^ 6], rounded to the nearest, to even when two are as near. *)
Definition millionths (m e : Z) : Z :=
  if 0 <=? e then m * 2 ^ e * 10 ^ 6
  else
    let n := m * 10 ^ 6 in let q := n / 2 ^ (- e) in let r := n mod 2 ^ (- e) in
    if (2 ^ (- e) <? 2 * r) || ((2 ^ (- e) =? 2 * r) && Z.odd q) then q + 1 else q.
(** The output of [%f] for a double that is a number. *)
Definition printf_f (num : Z) : bytes :=
  let x := d_exponent num in
  let m := if x =? 0 then d_fraction num else d_fraction num + 2 ^ 52 in
  let q := millionths m (Z.max x 1 - 1075) in
  (if d_negative num then text "-" else []) ++
  text (to_string (q / 10 ^ 6)) ++ text "." ++ text (setw_fill 6 "0" (to_string (q mod 10 ^ 6))).

(** ** Construction *)

(** The fields that a constructor leaves to their initialisers. *)
Definition wvalue_null : wvalue := WValue tNull NoNumber 0 [] None None None.
Definition wvalue_of_bool (value : bool) : wvalue :=
  WValue (if value then tTrue else tFalse) NoNumber 0 [] None None None.
Definition wvalue_of_unsigned (value : Z) : wvalue :=
  WValue tNumber Unsigned_integer (value mod 2 ^ 64) [] None None None.
Definition wvalue_of_signed (value : Z) : wvalue :=
  WValue tNumber Signed_integer (value mod 2 ^ 64) [] None None None.
Definition wvalue_of_double (bits : Z) : wvalue :=
  WValue tNumber Floating_point bits [] None None None.
Definition wvalue_of_string (value : bytes) : wvalue :=
  WValue tString NoNumber 0 value None None None.
Definition wvalue_of_object (value : object) : wvalue :=
  WValue tObject NoNumber 0 [] None (Some value) None.
(** An object of the entries of a list: the first entry of a key stays. *)
Definition emplace (entry : bytes * wvalue) (o : object) : object :=
  if bool_decide (entry.1 ∈ o.*1) then o else o ++ [entry].
Definition object_of_entries (entries : object) : object := fold_left (λ o e, emplace e o) entries [].
Definition wvalue_of_copies (copies : list wvalue) : wvalue :=
  WValue tList NoNumber 0 [] (Some copies) None None.

Section Copies.
Context (wcopy : wvalue → outcome wvalue).
Fixpoint copy_list (l : list wvalue) : outcome (list wvalue) :=
  match l with [] => Val [] | x :: l => x ← wcopy x; l ← copy_list l; Val (x :: l) end.
Fixpoint copy_object (o : object) : outcome object :=
  match o with
  | [] => Val []
  | (k, x) :: o => x ← wcopy x; o ← copy_object o; Val ((k, x) :: o)
  end.
End Copies.
(** [wvalue(const wvalue&)]: a null pointer is dereferenced. *)
Fixpoint wcopy (r : wvalue) : outcome wvalue :=
  match wt_ r with
  | tNull | tFalse | tTrue => Val (WValue (wt_ r) NoNumber 0 [] None None None)
  | tNumber => Val (WValue tNumber (wnt r) (num r) [] None None None)
  | tString => Val (wvalue_of_string (str r))
  | tList =>
      match l r with
      | None => Undef null_pointer
      | Some l => l ← copy_list wcopy l; Val (wvalue_of_copies l)
      end
  | tObject =>
      match o r with
      | None => Undef null_pointer
      | Some o => o ← copy_object wcopy o; Val (wvalue_of_object o)
      end
  | tFunction => Val (WValue tFunction NoNumber 0 [] None None (f r))
  end.
(** [wvalue(const list&)] *)
Definition wvalue_of_list (r : list wvalue) : outcome wvalue :=
  copies ← copy_list wcopy r; Val (wvalue_of_copies copies).

(** [operator=(wvalue&&)]: this value, and what is left of the other.  The type of a number and
    the function are not moved. *)
Definition move_assign (this r : wvalue) : wvalue * wvalue :=
  (WValue (wt_ r) (wnt this) (num r) (str r) (l r) (o r) (f this),
   WValue (wt_ r) (wnt r) (num r) [] None None (f r)).
(** [wvalue(wvalue&&)] *)
Definition move_construct (r : wvalue) : wvalue * wvalue := move_assign wvalue_null r.

(** ** Assignment *)

Definition reset (v : wvalue) : wvalue := WValue tNull (wnt v) (num v) (str v) None None (f v).
Definition clear (v : wvalue) : wvalue := reset v.

Definition set_type (t : type) (v : wvalue) : wvalue := WValue t (wnt v) (num v) (str v) (l v) (o v) (f v).
Definition set_number (nt : num_type) (n : Z) (v : wvalue) : wvalue :=
  WValue tNumber nt n (str v) (l v) (o v) (f v).
Definition set_l (list : option (list wvalue)) (v : wvalue) : wvalue :=
  WValue tList (wnt v) (num v) (str v) list (o v) (f v).
Definition set_o (object : option object) (v : wvalue) : wvalue :=
  WValue tObject (wnt v) (num v) (str v) (l v) object (f v).

Definition assign_null (v : wvalue) : wvalue := reset v.
Definition assign_bool (v : wvalue) (value : bool) : wvalue :=
  set_type (if value then tTrue else tFalse) (reset v).
Definition assign_double (v : wvalue) (bits : Z) : wvalue := set_number Floating_point bits (reset v).
Definition assign_unsigned (v : wvalue) (value : Z) : wvalue :=
  set_number Unsigned_integer (value mod 2 ^ 64) (reset v).
Definition assign_signed (v : wvalue) (value : Z) : wvalue :=
  set_number Signed_integer (value mod 2 ^ 64) (reset v).
Definition assign_string (v : wvalue) (value : bytes) : wvalue :=
  let v := reset v in WValue tString (wnt v) (num v) value (l v) (o v) (f v).
Definition assign_function (v : wvalue) (func : bytes → bytes) : wvalue :=
  let v := reset v in WValue tFunction (wnt v) (num v) (str v) (l v) (o v) (Some func).

(** [operator=(list&&)], [operator=(const std::vector<T>&)]: each element is assigned to a new
    value. *)
Definition assign_list {T} (assign : wvalue → T → wvalue) (v : wvalue) (elements : list T) : wvalue :=
  let v := if bool_decide (wt_ v = tList) then v else reset v in
  set_l (Some (assign wvalue_null <$> elements)) v.
Definition assign_moved_list (v : wvalue) (elements : list wvalue) : wvalue :=
  assign_list (λ this r, (move_assign this r).1) v elements.

(** [operator=(object)]: an object that is there is assigned to, a null pointer included. *)
Definition assign_object (v : wvalue) (value : object) : outcome wvalue :=
  if negb (bool_decide (wt_ v = tObject)) then Val (set_o (Some value) (reset v))
  else match o v with None => Undef null_pointer | Some _ => Val (set_o (Some value) v) end.

(** ** Access *)

(** [operator[](unsigned)]: the list grows up to the index. *)
Definition resize (n : nat) (l : list wvalue) : list wvalue :=
  take n l ++ replicate (n - length l) wvalue_null.
Definition at_unsigned (v : wvalue) (index : Z) (k : wvalue → outcome wvalue) : outcome wvalue :=
  let v := if bool_decide (wt_ v = tList) then v else reset v in
  let list := default [] (l v) in
  let size := (index + 1) mod 2 ^ 32 in
  let list := if Z.of_nat (length list) <? size then resize (Z.to_nat size) list else list in
  match list !! Z.to_nat index with
  | None => Undef out_of_bounds
  | Some x => x ← k x; Val (set_l (Some (<[Z.to_nat index := x]> list)) v)
  end.

(** [operator[](const std::string&)]: a key that is not there is inserted, with null. *)
Fixpoint update_key (key : bytes) (k : wvalue → outcome wvalue) (o : object) : outcome object :=
  match o with
  | [] => x ← k wvalue_null; Val [(key, x)]
  | (key', x) :: o =>
      if bool_decide (key' = key) then x ← k x; Val ((key', x) :: o)
      else o ← update_key key k o; Val ((key', x) :: o)
  end.
Definition at_key (v : wvalue) (key : bytes) (k : wvalue → outcome wvalue) : outcome wvalue :=
  let v := if bool_decide (wt_ v = tObject) then v else reset v in
  o ← update_key key k (default [] (o v));
  Val (set_o (Some o) v).

Definition wcount (v : wvalue) (key : bytes) : Z :=
  if negb (bool_decide (wt_ v = tObject)) then 0
  else match o v with
       | None => 0
       | Some o => if bool_decide (key ∈ o.*1) then 1 else 0
       end.

Definition wkeys (v : wvalue) : outcome (list bytes) :=
  if negb (bool_decide (wt_ v = tObject)) then Val []
  else match o v with None => Undef null_pointer | Some o => Val o.*1 end.

(** [execute]: an empty function raises an exception. *)
Definition execute (v : wvalue) (txt : bytes) : outcome bytes :=
  if negb (bool_decide (wt_ v = tFunction)) then Val []
  else match f v with None => Throw bad_function_call | Some f => Val (f txt) end.

Definition wsize (v : wvalue) : outcome Z :=
  if negb (bool_decide (wt_ v = tList)) then Val 1
  else match l v with None => Undef null_pointer | Some l => Val (Z.of_nat (length l)) end.

Fixpoint estimate_length (v : wvalue) : Z :=
  let fix sum_list (l : list wvalue) : Z :=
    match l with [] => 0 | x :: l => 1 + estimate_length x + sum_list l end in
  let fix sum_object (o : object) : Z :=
    match o with
    | [] => 0
    | (key, x) :: o =>
        2 + (2 + Z.of_nat (length key) + Z.of_nat (length key / 2)) + estimate_length x + sum_object o
    end in
  match wt_ v with
  | tNull => 4
  | tFalse => 5
  | tTrue => 4
  | tNumber => 30
  | tString => 2 + Z.of_nat (length (str v)) + Z.of_nat (length (str v) / 2)
  | tList => (match l v with None => 0 | Some l => sum_list l end + 2) mod 2 ^ 64
  | tObject => (match o v with None => 0 | Some o => sum_object o end + 2) mod 2 ^ 64
  | tFunction => 0
  end.

(** ** dump *)

Definition dump_string (str : bytes) : bytes := [quote] ++ escape str ++ [quote].

Inductive float_state : Type := start | decp | zero.
(** The loop that looks for zeros at the end: their position, from [p] on. *)
Fixpoint trim_zeros (st : float_state) (text : bytes) (p : nat) (o : option nat) : option nat :=
  match text with
  | [] => o
  | ch :: rest =>
      match st with
      | start =>
          if Ascii.eqb ch "." then
            match rest with
            | "0"%char :: rest => trim_zeros decp rest (p + 2) o
            | _ => trim_zeros decp rest (p + 1) o
            end
          else trim_zeros start rest (p + 1) o
      | decp =>
          if Ascii.eqb ch "0" then trim_zeros zero rest (p + 1) (Some p)
          else trim_zeros decp rest (p + 1) o
      | zero =>
          if negb (Ascii.eqb ch "0") then trim_zeros decp rest (p + 1) None
          else trim_zeros zero rest (p + 1) o
      end
  end.
(** The text of a double.  Its buffer has 128 characters, NUL included. *)
Definition outbuf_size : nat := 128.
Definition dump_double (num : Z) : outcome bytes :=
  if negb (d_finite num) then Val (text "null")
  else
    let outbuf := printf_f num in
    if (outbuf_size <=? length outbuf)%nat then Undef out_of_bounds
    else
      match trim_zeros start outbuf 0 None with
      | Some p => Val (take p outbuf)
      | None => Val outbuf
      end.

Definition dump_number (nt : num_type) (num : Z) : outcome bytes :=
  match nt with
  | Floating_point => dump_double num
  | Signed_integer => Val (text (to_string (si num)))
  | Unsigned_integer | NoNumber => Val (text (to_string (ui num)))
  end.

(** A comma before every element but the first. *)
Definition comma (first : bool) : bytes := if first then [] else [","%char].

Section Elements.
Context (dump_internal : wvalue → outcome bytes).
Fixpoint dump_list (first : bool) (l : list wvalue) : outcome bytes :=
  match l with
  | [] => Val []
  | x :: l => t ← dump_internal x; r ← dump_list false l; Val (comma first ++ t ++ r)
  end.
Fixpoint dump_object (first : bool) (o : object) : outcome bytes :=
  match o with
  | [] => Val []
  | (key, x) :: o =>
      t ← dump_internal x;
      r ← dump_object false o;
      Val (comma first ++ dump_string key ++ [":"%char] ++ t ++ r)
  end.
End Elements.
(** What [dump_internal(v, out)] appends to [out]. *)
Fixpoint dump_internal (v : wvalue) : outcome bytes :=
  match wt_ v with
  | tNull => Val (text "null")
  | tFalse => Val (text "false")
  | tTrue => Val (text "true")
  | tNumber => dump_number (wnt v) (num v)
  | tString => Val (dump_string (str v))
  | tList =>
      t ← match l v with None => Val [] | Some l => dump_list dump_internal true l end;
      Val (["["%char] ++ t ++ ["]"%char])
  | tObject =>
      t ← match o v with None => Val [] | Some o => dump_object dump_internal true o end;
      Val (["{"%char] ++ t ++ ["}"%char])
  | tFunction => Val (text "custom function")
  end.
Definition dump (v : wvalue) : outcome bytes := dump_internal v.

(** ** From a value that was read *)

Section Conversion.
Context (lexical_cast_int64 lexical_cast_uint64 lexical_cast_double : bytes → option Z).

Definition number_of_rvalue (mem : bytes) (r : rvalue) : outcome wvalue :=
  nt ← nt r;
  match nt with
  | Floating_point => d ← d lexical_cast_double mem r; Val (wvalue_of_double d)
  | Signed_integer =>
      i ← i lexical_cast_int64 mem r; Val (WValue tNumber nt (i mod 2 ^ 64) [] None None None)
  | _ => u ← u lexical_cast_uint64 mem r; Val (WValue tNumber nt (u mod 2 ^ 64) [] None None None)
  end.

Section Containers.
Context (wvalue_of_rvalue : bytes → rvalue → outcome (bytes * rvalue * wvalue)).
Fixpoint convert_list (mem : bytes) (l : list rvalue) : outcome (bytes * list rvalue * list wvalue) :=
  match l with
  | [] => Val (mem, [], [])
  | x :: l =>
      '(mem, x, w) ← wvalue_of_rvalue mem x;
      '(mem, l, ws) ← convert_list mem l;
      Val (mem, x :: l, w :: ws)
  end.
Fixpoint convert_object (mem : bytes) (l : list rvalue) (o : object)
    : outcome (bytes * list rvalue * object) :=
  match l with
  | [] => Val (mem, [], o)
  | x :: l =>
      let key := key_text mem x in
      '(mem, x, w) ← wvalue_of_rvalue mem x;
      '(mem, l, o) ← convert_object mem l (emplace (key, w) o);
      Val (mem, x :: l, o)
  end.
End Containers.
(** [wvalue(const rvalue&)]: the buffer, the read value afterwards, and the new value. *)
Fixpoint wvalue_of_rvalue (mem : bytes) (r : rvalue) : outcome (bytes * rvalue * wvalue) :=
  if error r then Throw (runtime_error "invalid json object")
  else
    match t_ r with
    | tNull | tFalse | tTrue | tFunction => Val (mem, r, WValue (t_ r) NoNumber 0 [] None None None)
    | tNumber => w ← number_of_rvalue mem r; Val (mem, r, w)
    | tString => '(mem, r, s) ← s mem r; Val (mem, r, wvalue_of_string (string_of_r mem s))
    | tList =>
        '(mem, l, ws) ← convert_list wvalue_of_rvalue mem (l_ r);
        Val (mem, set_list l (lremain_ r) r, wvalue_of_copies ws)
    | tObject =>
        '(mem, l, o) ← convert_object wvalue_of_rvalue mem (l_ r) [];
        Val (mem, set_list l (lremain_ r) r, wvalue_of_object o)
    end.
End Conversion.

(** ** Examples *)

Example dump_doubles :
  (λ bits, d ← dump (wvalue_of_double bits); Val (string_of_list_ascii d)) <$>
    [4609434218613702656; 4607182418800017408; 4591870180066957722; 9223372036854775808;
     9218868437227405312] =
  [Val "1.5"; Val "1.0"; Val "0.1"; Val "-0.0"; Val "null"]%string.
Proof. vm_compute. reflexivity. Qed.

(** 1e300 needs 308 characters. *)
Example dump_overflows : dump (wvalue_of_double 9097367084042364432) = Undef out_of_bounds.
Proof. vm_compute. reflexivity. Qed.

(** Moving a value forgets how its number is read. *)
Example moved_number :
  (v ← dump (move_construct (wvalue_of_signed (-1))).1; Val (string_of_list_ascii v)) =
  Val "18446744073709551615"%string.
Proof. vm_compute. reflexivity. Qed.
