(* ===== verification/JsonProps.v ===== *)
(** * JSON: what is read can be used

    Any text can be loaded, and any value that was loaded can be converted to a value to be
    written, in place: the only failures are the errors the code reports. *)

From Stdlib Require Import ZArith Lia Ascii String.
From stdpp Require Import base tactics option strings list.
From S2P Require Import Prelude.
From S2P Require Import CppStd.
From S2P Require Import QueryString.
From S2P Require Import Json.
From S2P Require Import JsonParser.
From S2P Require Import JsonFacts.
From S2P Require Import JsonWrite.

Local Open Scope Z_scope.
Local Open Scope outcome_scope.

Section Conversion.
Context (lexical_cast_int64 lexical_cast_uint64 lexical_cast_double : bytes → option Z).

Abbreviation convert := (wvalue_of_rvalue lexical_cast_int64 lexical_cast_uint64 lexical_cast_double).

(** A result that changes the buffer between two positions only, or a number that does not fit. *)
Definition inside {A} (n lo hi : nat) (mem : bytes) (o : outcome (bytes * A)) : Prop :=
  match o with
  | Val (mem', _) => Buf n mem' ∧ same_outside lo hi mem mem'
  | Throw e => e = bad_lexical_cast
  | _ => False
  end.
Definition keep_buffer {A B} (r : bytes * A * B) : bytes * (A * B) := (r.1.1, (r.1.2, r.2)).
Definition convert_inside (n lo hi : nat) (mem : bytes) (v : rvalue) : Prop :=
  inside n lo hi mem (outcome_map keep_buffer (convert mem v)).

Lemma number_inside n lo hi mem v : Buf n mem → error v = false → t_ v = tNumber →
  match number_of_rvalue lexical_cast_int64 lexical_cast_uint64 lexical_cast_double mem v with
  | Val _ => True
  | Throw e => e = bad_lexical_cast
  | _ => False
  end ∧ same_outside lo hi mem mem.
Proof.
  intros B E T. split; [|done]. unfold number_of_rvalue, nt. rewrite E. cbn [outcome_bind].
  unfold d, i, u, integer, t. rewrite E, T.
  destruct (nt_ v); cbn [outcome_bind]; simpl;
    [destruct (lexical_cast_int64 _)|destruct (lexical_cast_uint64 _)
    |destruct (lexical_cast_double _)|destruct (lexical_cast_uint64 _)]; done.
Qed.

(** The elements of a container, one behind the other. *)
Lemma elements_inside n hi l : (hi ≤ n)%nat →
  Forall (λ x, ∀ mem lo hi, Buf n mem → (hi ≤ n)%nat → value_ok n mem lo hi x →
    convert_inside n lo hi mem x) l →
  ∀ mem lo, Buf n mem → chain (value_ok n mem) hi lo l →
    inside n lo hi mem (outcome_map keep_buffer (convert_list convert mem l)) ∧
    ∀ o, inside n lo hi mem (outcome_map keep_buffer (convert_object convert mem l o)).
Proof.
  intros Hn F. induction F as [|x l Hx _ IH]; intros mem lo B C; [split; [|intros o]; by split|].
  destruct C as (mid & V & C). pose proof (chain_range _ _ _ _ (value_ok_range n mem) C) as R.
  pose proof (value_ok_range _ _ _ _ _ V) as R'.
  specialize (Hx mem lo mid B ltac:(lia) V). unfold convert_inside in Hx. simpl.
  destruct (convert mem x) as [[[mem' x'] w]| e | | | |]; simpl in Hx; try done.
  destruct Hx as [B' S]. cbn [outcome_bind].
  assert (C' : chain (value_ok n mem') hi mid l).
  { revert C. apply chain_weaken; [done..|apply value_ok_range|]. intros y a a' c _ La La' Lc.
    apply value_ok_weaken; [done..|]. intros k K. apply S. lia. }
  destruct (IH mem' mid B' C') as [IH1 IH2]. split.
  - destruct (convert_list convert mem' l) as [[[mem'' l'] ws]| e | | | |]; simpl in *; try done.
    destruct IH1 as [B2 S2]. split; [done|]. intros k K. rewrite S by lia. apply S2. lia.
  - intros o. specialize (IH2 (emplace (key_text mem x, w) o)).
    destruct (convert_object convert mem' l _) as [[[mem'' l'] ws]| e | | | |]; simpl in *; try done.
    destruct IH2 as [B2 S2]. split; [done|]. intros k K. rewrite S by lia. apply S2. lia.
Qed.

Lemma value_inside n v : ∀ mem lo hi, Buf n mem → (hi ≤ n)%nat → value_ok n mem lo hi v →
  convert_inside n lo hi mem v.
Proof.
  induction v as [a e k l r ty nt o IH] using rvalue_ind_list. intros mem lo hi B Hn V.
  destruct V as (Er & L & K & V). unfold convert_inside. cbn [wvalue_of_rvalue]. rewrite Er.
  cbn [t_ l_ lremain_] in *. destruct ty; try (simpl; by split).
  - destruct (number_inside n lo hi mem _ B Er eq_refl) as [N S].
    destruct (number_of_rvalue _ _ _ mem _); simpl in *; try done.
  - destruct (s_ok n mem lo hi _ B Hn Er eq_refl V) as (mem' & e' & -> & B' & S & _). by split.
  - destruct (elements_inside n hi l Hn IH mem lo B V) as [I _].
    destruct (convert_list convert mem l) as [[[]]| | | | |]; simpl in *; done.
  - destruct (elements_inside n hi l Hn IH mem lo B V) as [_ I]. specialize (I []).
    destruct (convert_object convert mem l []) as [[[]]| | | | |]; simpl in *; done.
Qed.
End Conversion.

(** C26: any text is loaded, whatever it is, with an answer and without an access outside of its
    buffer; and the value, when it is one, can be converted to a value to be written, which again
    stays inside of the buffer and fails only where a number does not fit. *)
Theorem json_input_is_safe lexical_cast_int64 lexical_cast_uint64 lexical_cast_double data :
  ∃ v mem, load data = Val (v, mem) ∧
    (error v = true ∨
     match wvalue_of_rvalue lexical_cast_int64 lexical_cast_uint64 lexical_cast_double mem v with
     | Val (mem', _, _) => length mem' = S (length data)
     | Throw e => e = bad_lexical_cast
     | _ => False
     end).
Proof.
  destruct (load_decoded data) as (v & mem & -> & B & R). exists v, mem. split; [done|].
  destruct R as [R|V]; [by left|right].
  pose proof (value_inside lexical_cast_int64 lexical_cast_uint64 lexical_cast_double
    (length data) v mem 0 (length data) B ltac:(lia) V) as I.
  unfold convert_inside in I.
  destruct (wvalue_of_rvalue _ _ _ mem v) as [[[mem' r] w]| | | | |]; simpl in I; try done.
  by destruct I as [[L _] _].
Qed.

(** ** Where the code falls short *)

Definition read_text (mem : bytes) (v : rvalue) : outcome (bytes * bytes) :=
  '(mem, _, r) ← s mem v; Val (mem, string_of_r mem r).

(** A string with an escape, read after a copy of it was read: the copy has moved the end of the
    text and cleared the mark before it, which the string still lacks. *)
Example copy_then_read :
  outcome_bind (load (quoted "[`a\nb`]")) (λ '(v, mem),
  outcome_bind (get_int v 0) (λ x,
  outcome_bind (copy x) (λ y,
  outcome_bind (read_text mem y) (λ '(mem, first),
  outcome_bind (read_text mem x) (λ '(_, second), Val (first, second)))))) =
  Val (["a"; "010"; "b"]%char, ["a"; "010"; "b"; "000"]%char).
Proof. vm_compute. reflexivity. Qed.

(** A text is read up to its first NUL. *)
Example text_behind_nul :
  outcome_bind (load ("1"%char :: nul :: text "junk")) (λ '(v, _), Val (error v)) = Val false.
Proof. vm_compute. reflexivity. Qed.

(** The index and one more is computed in 32 bits. *)
Example largest_index :
  at_unsigned wvalue_null 4294967295 (λ x, Val x) = Undef out_of_bounds.
Proof.
  unfold at_unsigned. change ((4294967295 + 1) mod 2 ^ 32) with 0.
  change (bool_decide (wt_ wvalue_null = tList)) with false. cbn -[Z.to_nat].
  change (Z.of_nat 0 <? 0) with false. cbv iota. by rewrite lookup_nil.
Qed.

(** A list that is moved into a value loses the types of its numbers. *)
Example moved_list :
  outcome_bind (dump (assign_moved_list wvalue_null [wvalue_of_signed (-1); wvalue_of_double 4609434218613702656]))
    (λ t, Val (string_of_list_ascii t)) = Val "[18446744073709551615,4609434218613702656]"%string.
Proof. vm_compute. reflexivity. Qed.
