(* ===== verification/JsonRoundtrip.v ===== *)
(** * JSON: what is dumped is loaded again

    A value to be written, dumped, loaded and converted back, is the value it was: its strings and
    keys with every character escaped and unescaped, its integers, its lists and objects. *)

From Stdlib Require Import ZArith Lia Ascii String Decimal DecimalString DecimalFacts DecimalN DecimalNat.
From stdpp Require Import base tactics option strings list.
From S2P Require Import Prelude.
From S2P Require Import CppStd.
From S2P Require Import QueryString.
From S2P Require Import Json.
From S2P Require Import JsonParser.
From S2P Require Import JsonFacts.
From S2P Require Import JsonWrite.

Local Open Scope Z_scope.
Local Open Scope outcome_scope.

(** ** Escaped characters are pieces *)

Definition is_escape (p : piece) : bool := match p with Plain _ => false | _ => true end.
(** A piece the parser takes without ending the string. *)
Definition goes_on (p : piece) : bool :=
  piece_ok p && match p with Plain c => negb (Ascii.eqb c quote) && negb (Ascii.eqb c nul) | _ => true end.

Definition escape_piece (c : ascii) : piece :=
  match escape_char c with
  | [c] => Plain c
  | [_; c] => Simple c
  | [_; _; h1; h2; h3; h4] => Unicode h1 h2 h3 h4
  | _ => Plain c
  end.
Definition escape_piece_ok (c : ascii) : bool :=
  goes_on (escape_piece c) && bool_decide (piece_text (escape_piece c) = escape_char c) &&
  bool_decide (piece_out (escape_piece c) = [c]).

Lemma all_characters (P : ascii → bool) :
  forallb (λ n, P (ascii_of_nat n)) (seq 0 256) = true → ∀ c, P c = true.
Proof.
  intros F c. rewrite forallb_forall in F. rewrite <- (ascii_nat_embedding c). apply F.
  apply in_seq. pose proof (nat_ascii_bounded c). lia.
Qed.

Lemma escape_piece_spec c : goes_on (escape_piece c) = true ∧
  piece_text (escape_piece c) = escape_char c ∧ piece_out (escape_piece c) = [c].
Proof.
  assert (escape_piece_ok c = true) as O by (revert c; apply all_characters; vm_compute; reflexivity).
  unfold escape_piece_ok in O. rewrite !andb_true_iff, !bool_decide_eq_true in O. tauto.
Qed.

Lemma escape_pieces str : pieces_text (escape_piece <$> str) = escape str ∧
  pieces_out (escape_piece <$> str) = str ∧ forallb goes_on (escape_piece <$> str) = true.
Proof.
  induction str as [|c str (IH1 & IH2 & IH3)]; [done|].
  destruct (escape_piece_spec c) as (G & T & O).
  cbn [fmap list_fmap pieces_text pieces_out forallb escape]. by rewrite T, O, G, IH1, IH2.
Qed.

(** Without an escape nothing has changed. *)
Lemma no_escape ps : existsb is_escape ps = false → pieces_out ps = pieces_text ps.
Proof.
  induction ps as [|p ps IH]; [done|]. cbn [existsb pieces_out pieces_text]. intros E.
  apply orb_false_iff in E as [E1 E2]. rewrite IH by done. by destruct p.
Qed.

(** ** The parser on a string *)

Definition flag_of (ps : list piece) (flag : ascii) : ascii :=
  if existsb is_escape ps then "001"%char else flag.

Lemma goes_on_check h1 h2 h3 h4 : goes_on (Unicode h1 h2 h3 h4) = true →
  check h1 = true ∧ check h2 = true ∧ check h3 = true ∧ check h4 = true.
Proof. unfold goes_on. simpl. rewrite !andb_true_iff. tauto. Qed.

Lemma string_loop_piece p A rest fuel start flag : goes_on p = true →
  string_loop (S fuel) (A ++ piece_text p ++ rest) (length A) start flag =
  string_loop fuel ((A ++ piece_text p) ++ rest) (length (A ++ piece_text p)) start
    (flag_of [p] flag).
Proof.
  intros G. rewrite <- app_assoc. destruct p as [c|c|h1 h2 h3 h4]; cbn [piece_text string_loop].
  - change ([c] ++ rest) with (c :: rest). rewrite at_mem_here by done. cbn [outcome_bind].
    unfold goes_on in G. cbn in G. rewrite !andb_true_iff in G. destruct G as (G1 & G2 & G3).
    rewrite G1, G2, G3. cbn [andb]. f_equal. rewrite length_app. simpl. lia.
  - change ([backslash; c] ++ rest) with (backslash :: c :: rest).
    rewrite at_mem_here by done. cbn [outcome_bind Ascii.eqb Bool.eqb negb andb quote backslash nul Ascii.zero].
    change (A ++ backslash :: c :: rest) with (A ++ [backslash] ++ c :: rest).
    rewrite at_behind by (simpl; lia). cbn [outcome_bind].
    unfold goes_on in G. cbn in G. rewrite andb_true_r in G.
    destruct (Ascii.eqb_spec c "u") as [->|]; [discriminate G|]. rewrite G.
    f_equal. rewrite length_app. simpl. lia.
  - apply goes_on_check in G as (C1 & C2 & C3 & C4).
    set (mem := A ++ _ ++ rest).
    assert (R : ∀ k c, [backslash; "u"%char; h1; h2; h3; h4] !! k = Some c →
      at_ mem (length A + k) = Val c).
    { intros k c K. unfold at_, mem. rewrite lookup_app_r by lia.
      replace (length A + k - length A)%nat with k by lia.
      rewrite lookup_app_l by (by eapply lookup_lt_Some). by rewrite K. }
    pose proof (R 0%nat backslash eq_refl) as R0. rewrite Nat.add_0_r in R0. rewrite R0.
    cbn [outcome_bind Ascii.eqb Bool.eqb negb andb quote backslash nul Ascii.zero].
    replace (S (length A)) with (length A + 1)%nat by lia. rewrite (R 1%nat "u"%char eq_refl).
    cbn [outcome_bind Ascii.eqb Bool.eqb check_digits].
    rewrite <- !Nat.add_succ_r, (R 2%nat h1 eq_refl). cbn [outcome_bind]. rewrite C1.
    rewrite (R 3%nat h2 eq_refl). cbn [outcome_bind]. rewrite C2.
    rewrite (R 4%nat h3 eq_refl). cbn [outcome_bind]. rewrite C3.
    rewrite (R 5%nat h4 eq_refl). cbn [outcome_bind]. rewrite C4.
    cbn [outcome_bind]. f_equal. rewrite length_app. simpl. lia.
Qed.

Lemma string_loop_pieces ps A rest fuel start flag : forallb goes_on ps = true → (length ps < fuel)%nat →
  string_loop fuel (A ++ pieces_text ps ++ quote :: rest) (length A) start flag =
  outcome_bind (put (A ++ pieces_text ps ++ nul :: rest) (start - 1) (flag_of ps flag)) (λ mem,
    Val (rvalue_of_text mem tString start (length A + length (pieces_text ps)), mem,
         S (length A + length (pieces_text ps)))).
Proof.
  revert A fuel flag. induction ps as [|p ps IH]; intros A fuel flag G F;
    (destruct fuel as [|fuel]; [simpl in F; lia|]).
  - cbn [string_loop pieces_text app]. rewrite at_mem_here by done.
    cbn [outcome_bind Ascii.eqb Bool.eqb negb andb quote].
    rewrite put_here by done. cbn [outcome_bind].
    by rewrite Nat.add_0_r.
  - cbn [forallb] in G. apply andb_true_iff in G as [Gp G]. cbn [pieces_text].
    rewrite <- !(app_assoc (piece_text p)), (string_loop_piece p) by done.
    rewrite IH by (done || (simpl in F; lia)). rewrite <- !app_assoc, !length_app.
    assert (flag_of ps (flag_of [p] flag) = flag_of (p :: ps) flag) as ->.
    { unfold flag_of. simpl. by destruct (is_escape p), (existsb is_escape ps). }
    by rewrite !Nat.add_assoc.
Qed.

(** The cells of a string that was parsed, and its value at position [p]. *)
Definition string_cells (str : bytes) : bytes :=
  flag_of (escape_piece <$> str) nul :: escape str ++ [nul].
Definition string_rvalue (p : nat) (str : bytes) : rvalue :=
  RValue (S p) (S p + length (escape str)) (0, 0)%nat [] 0 tString NoNumber 0.

Lemma decode_string_dumped pre str rest :
  decode_string (pre ++ dump_string str ++ rest) (length pre) =
  Val (string_rvalue (length pre) str, pre ++ string_cells str ++ rest,
       (length pre + length (dump_string str))%nat).
Proof.
  destruct (escape_pieces str) as (T & _ & G). unfold decode_string, consume, dump_string, string_cells.
  simpl app. rewrite <- app_assoc. simpl app.
  rewrite at_mem_here by done. cbn [outcome_bind]. rewrite Ascii.eqb_refl. cbn [outcome_bind negb].
  assert (E : ∀ x, pre ++ quote :: escape str ++ x = (pre ++ [quote]) ++ pieces_text (escape_piece <$> str) ++ x)
    by (intros x; by rewrite T, <- app_assoc).
  assert (L : S (length pre) = length (pre ++ [quote])) by (rewrite length_app; simpl; lia).
  rewrite E, L, string_loop_pieces; [|done|].
  2:{ rewrite !length_app. simpl. pose proof (pieces_count (escape_piece <$> str)). lia. }
  rewrite <- L, <- E. replace (S (length pre) - 1)%nat with (length pre) by lia.
  rewrite put_here by done. cbn [outcome_bind]. rewrite T. f_equal. f_equal; [f_equal|].
  - by rewrite <- app_assoc.
  - simpl. rewrite length_app. simpl. lia.
Qed.

(** ** The parser on an integer *)

Lemma digits_text d : forallb is_digit (text (NilEmpty.string_of_uint d)) = true.
Proof. induction d; simpl; [done|..]; rewrite IHd; reflexivity. Qed.

Lemma nzhead_no_zero d d' : Decimal.nzhead d ≠ Decimal.D0 d'.
Proof. induction d; simpl; (done || discriminate). Qed.

(** A printed natural number is a 0, or begins with another digit. *)
Lemma decimal_text n : ∃ c ds, text (decimal n) = c :: ds ∧ forallb is_digit (c :: ds) = true ∧
  (c = "0"%char → ds = []).
Proof.
  unfold decimal. assert (U : Decimal.unorm (N.to_uint n) = N.to_uint n)
    by (rewrite <- (DecimalN.Unsigned.of_to n) at 2; by rewrite DecimalN.Unsigned.to_of).
  rewrite <- U. unfold Decimal.unorm. destruct (Decimal.nzhead (N.to_uint n)) eqn:H;
    [by exists "0"%char, []|by apply nzhead_no_zero in H|..];
    unfold NilZero.string_of_uint; cbn [NilEmpty.string_of_uint text list_ascii_of_string];
    eexists _, _; (split; [reflexivity|]); (split; [|discriminate]);
    cbn [forallb]; by rewrite digits_text.
Qed.

(** What may follow a value: no character of a number, and no space. *)
Definition stops (c : ascii) : bool :=
  Ascii.eqb c "," || Ascii.eqb c "]" || Ascii.eqb c "}" || Ascii.eqb c nul.
Lemma stops_cases c : stops c = true → c = ","%char ∨ c = "]"%char ∨ c = "}"%char ∨ c = nul.
Proof. unfold stops. rewrite !orb_true_iff, !Ascii.eqb_eq. tauto. Qed.
Lemma stops_not_ws c : stops c = true → is_ws c = false.
Proof. intros S. by destruct (stops_cases c S) as [->|[->|[->| ->]]]. Qed.

Lemma digits_loop_row ds A d c rest fuel : forallb is_digit ds = true → is_digit c = false →
  (length ds ≤ fuel)%nat →
  digits_loop fuel (A ++ d :: ds ++ c :: rest) (length A) = Val (length A + length ds)%nat.
Proof.
  revert A d fuel. induction ds as [|e ds IH]; intros A d fuel F C U.
  - destruct fuel; cbn [digits_loop app length];
      change (A ++ d :: c :: rest) with (A ++ [d] ++ c :: rest);
      rewrite at_behind by (simpl; lia); cbn [outcome_bind]; by rewrite C, Nat.add_0_r.
  - cbn [forallb] in F. apply andb_true_iff in F as [Fe F].
    destruct fuel as [|fuel]; [simpl in U; lia|]. cbn [digits_loop app].
    change (A ++ d :: e :: ds ++ c :: rest) with (A ++ [d] ++ e :: ds ++ c :: rest).
    rewrite at_behind by (simpl; lia). cbn [outcome_bind]. rewrite Fe.
    specialize (IH (A ++ [d]) e fuel F C). rewrite <- app_assoc, length_app in IH. simpl length in IH.
    replace (S (length A)) with (length A + 1)%nat by lia. rewrite IH by (simpl in U; lia).
    f_equal. simpl. lia.
Qed.

Lemma number_step_stop A c rest state : stops c = true →
  number_step (A ++ c :: rest) (length A) state = Val None.
Proof.
  intros S. unfold number_step. rewrite at_mem_here by done. cbn [outcome_bind].
  by destruct (stops_cases c S) as [->|[->|[->| ->]]].
Qed.

(** The digits of a natural number, from one of the first two states. *)
Lemma number_digits n A c rest fuel start_ state : stops c = true →
  state = Minus ∨ state = AfterMinus → (2 ≤ fuel)%nat →
  number_loop fuel (A ++ text (decimal n) ++ c :: rest) (length A) start_ state =
  Val (rvalue_of_text (A ++ text (decimal n) ++ c :: rest) tNumber start_
         (length A + length (text (decimal n))),
       A ++ text (decimal n) ++ c :: rest, (length A + length (text (decimal n)))%nat).
Proof.
  intros S St U. destruct (decimal_text n) as (d & ds & -> & F & Z).
  cbn [forallb] in F. apply andb_true_iff in F as [Fd F].
  assert (Last : ∀ fuel st, (1 ≤ fuel)%nat → accepting st = true →
    number_loop fuel (A ++ (d :: ds) ++ c :: rest) (Datatypes.S (length A + length ds)) start_ st =
    Val (rvalue_of_text (A ++ (d :: ds) ++ c :: rest) tNumber start_ (length A + length (d :: ds)),
         A ++ (d :: ds) ++ c :: rest, (length A + length (d :: ds))%nat)).
  { intros k st K Ac. destruct k as [|k]; [lia|]. cbn [number_loop].
    rewrite bool_decide_eq_false_2 by (intros ->; discriminate Ac).
    rewrite app_assoc. replace (Datatypes.S (length A + length ds)) with (length (A ++ d :: ds))
      by (rewrite length_app; simpl; lia).
    rewrite number_step_stop by done. cbn [outcome_bind]. rewrite Ac. by rewrite length_app. }
  change ((d :: ds) ++ c :: rest) with (d :: ds ++ c :: rest) in *.
  destruct fuel as [|fuel]; [lia|]. cbn [number_loop].
  rewrite bool_decide_eq_false_2 by (destruct St as [->| ->]; discriminate).
  unfold number_step. rewrite at_mem_here by done. cbn [outcome_bind].
  destruct (Ascii.eqb_spec d "0") as [->|Nd].
  - rewrite Z in * by done. cbn [outcome_bind]. specialize (Last fuel ZeroFirst ltac:(lia) eq_refl).
    simpl length in Last. rewrite Nat.add_0_r in Last.
    destruct St as [->| ->]; cbn [next_state on_zero nth state_number]; exact Last.
  - rewrite Fd. rewrite digits_loop_row; [|done| |].
    + cbn [outcome_bind]. destruct St as [->| ->]; cbn [next_state on_digit nth state_number];
        apply Last; done || lia.
    + by destruct (stops_cases c S) as [->|[->|[->| ->]]].
    + rewrite !length_app. simpl. rewrite length_app. lia.
Qed.

Definition int_text (z : Z) : bytes := text (to_string z).

Lemma int_text_eq z : int_text z =
  if z <? 0 then "-"%char :: text (decimal (Z.to_N (- z))) else text (decimal (Z.to_N z)).
Proof. unfold int_text, to_string. by destruct (z <? 0). Qed.

Lemma slice_here pre t rest : slice (pre ++ t ++ rest) (length pre) (length pre + length t) = t.
Proof.
  unfold slice. rewrite drop_app_length. replace (length pre + length t - length pre)%nat
    with (length t) by lia. apply take_app_length.
Qed.

Lemma digits_lack c ds : forallb is_digit ds = true → is_digit c = false → c ∉ ds.
Proof.
  rewrite forallb_forall. intros F C I. apply list_elem_of_In in I. specialize (F _ I). congruence.
Qed.

(** The type of a number that was read: signed exactly when it is negative. *)
Lemma int_num_type z :
  determine_num_type tNumber (int_text z) = if z <? 0 then Signed_integer else Unsigned_integer.
Proof.
  rewrite int_text_eq.
  assert (D : ∀ n c, is_digit c = false → c ∉ text (decimal n)).
  { intros n c C. destruct (decimal_text n) as (d & ds & -> & F & _). by apply digits_lack. }
  unfold determine_num_type, has_char. cbn [negb bool_decide].
  destruct (z <? 0);
    repeat match goal with
    | |- context [bool_decide (?c ∈ "-"%char :: text ?x)] =>
        first [ rewrite (bool_decide_eq_true_2 (c ∈ "-"%char :: text x)) by by left
              | rewrite (bool_decide_eq_false_2 (c ∈ "-"%char :: text x))
                  by (apply not_elem_of_cons; split; [discriminate|by apply D]) ]
    | |- context [bool_decide (?c ∈ text ?x)] =>
        rewrite (bool_decide_eq_false_2 (c ∈ text x)) by by apply D
    end; reflexivity.
Qed.

(** A number that was parsed at position [p]. *)
Definition int_rvalue (p : nat) (z : Z) : rvalue :=
  RValue p (p + length (int_text z)) (0, 0)%nat [] 0 tNumber
    (if z <? 0 then Signed_integer else Unsigned_integer) 0.

Lemma decode_number_dumped pre z c rest : stops c = true →
  decode_number (pre ++ int_text z ++ c :: rest) (length pre) =
  Val (int_rvalue (length pre) z, pre ++ int_text z ++ c :: rest,
       (length pre + length (int_text z))%nat).
Proof.
  intros S. unfold decode_number.
  assert (rvalue_of_text (pre ++ int_text z ++ c :: rest) tNumber (length pre)
    (length pre + length (int_text z)) = int_rvalue (length pre) z) as <-.
  { unfold rvalue_of_text, int_rvalue. by rewrite slice_here, int_num_type. }
  enough (∀ fuel, (3 ≤ fuel)%nat ∨ (2 ≤ fuel)%nat ∧ 0 ≤ z →
    number_loop fuel (pre ++ int_text z ++ c :: rest) (length pre) (length pre) Minus =
    Val (rvalue_of_text (pre ++ int_text z ++ c :: rest) tNumber (length pre)
           (length pre + length (int_text z)),
         pre ++ int_text z ++ c :: rest, (length pre + length (int_text z))%nat)) as L.
  { rewrite L; [done|]. rewrite !length_app. simpl length. rewrite int_text_eq.
    destruct (Z.ltb_spec z 0).
    - left. destruct (decimal_text (Z.to_N (- z))) as (d & ds & -> & _). simpl. lia.
    - right. destruct (decimal_text (Z.to_N z)) as (d & ds & -> & _). simpl. lia. }
  intros fuel U. rewrite int_text_eq. destruct (Z.ltb_spec z 0).
  - destruct U as [U|U]; [|lia]. destruct fuel as [|fuel]; [lia|].
    cbn [number_loop app]. rewrite bool_decide_eq_false_2 by discriminate.
    unfold number_step. rewrite at_mem_here by done.
    cbn [outcome_bind Ascii.eqb Bool.eqb next_state on_minus nth state_number].
    change (is_digit "-") with false. cbn [outcome_bind].
    pose proof (number_digits (Z.to_N (- z)) (pre ++ ["-"%char]) c rest fuel (length pre) AfterMinus S) as N.
    rewrite <- !app_assoc, length_app in N. cbn [length app] in N.
    replace (length pre + 1)%nat with (Datatypes.S (length pre)) in N by lia.
    rewrite N by (auto; lia). cbn [length]. by rewrite <- Nat.add_succ_comm.
  - apply number_digits; [done|by left|lia].
Qed.

(** ** Reading a string *)

Lemma escape_short str : (length str ≤ length (escape str))%nat.
Proof.
  destruct (escape_pieces str) as (T & O & _). rewrite <- T, <- O at 1. apply pieces_out_short.
Qed.

(** A string that was parsed is read where it lies, its character before and its end made NUL. *)
Lemma string_read pre str rest : ∃ tl v,
  s (pre ++ string_cells str ++ rest) (string_rvalue (length pre) str) =
    Val (pre ++ (nul :: str ++ tl) ++ rest, v,
         (S (length pre), (S (length pre) + length str)%nat)) ∧
  length (nul :: str ++ tl) = length (string_cells str).
Proof.
  unfold s, t. cbn [error string_rvalue option_ t_]. cbn [outcome_bind negb].
  change (bool_decide (tString = tString)) with true. cbn [negb].
  destruct (escape_pieces str) as (T & O & G).
  assert (Ok : forallb piece_ok (escape_piece <$> str) = true).
  { revert G. generalize (escape_piece <$> str). intros ps. induction ps as [|p ps IH]; [done|].
    cbn [forallb]. rewrite !andb_true_iff. intros [G1 G2]. split; [|by apply IH].
    unfold goes_on in G1. by apply andb_true_iff in G1 as [G1 _]. }
  unfold string_cells, flag_of. destruct (existsb is_escape (escape_piece <$> str)) eqn:E.
  - assert (Eq : pre ++ ("001"%char :: escape str ++ [nul]) ++ rest =
      pre ++ "001"%char :: pieces_text (escape_piece <$> str) ++ nul :: rest)
      by (rewrite T, <- app_comm_cons, <- app_assoc; done).
    rewrite Eq, (unescape_escaped pre "001" (escape_piece <$> str)); [|discriminate|done..|by rewrite T].
    cbn [outcome_bind]. rewrite O, T.
    exists (nul :: drop (S (length str)) (escape str ++ [nul])), (set_end (S (length pre) + length str)
      (string_rvalue (length pre) str)). split.
    + f_equal. f_equal. f_equal. rewrite <- app_comm_cons, <- app_assoc. done.
    + pose proof (escape_short str). simpl. rewrite !length_app. simpl.
      rewrite length_drop, length_app. simpl. lia.
  - assert (escape str = str) as Es by (rewrite <- T, <- no_escape by done; done).
    exists [nul], (string_rvalue (length pre) str). split; [|by rewrite Es].
    unfold unescape. cbn [start_ string_rvalue]. rewrite <- app_comm_cons, at_mem_here by done.
    cbn [outcome_bind Ascii.eqb Bool.eqb nul Ascii.zero end_ start_ string_rvalue]. by rewrite Es.
Qed.

Lemma string_of_read pre str tl rest :
  string_of_r (pre ++ (nul :: str ++ tl) ++ rest) (S (length pre), (S (length pre) + length str)%nat) = str.
Proof.
  unfold string_of_r. cbn [fst snd].
  pose proof (slice_here (pre ++ [nul]) str (tl ++ rest)) as S. rewrite length_app in S. simpl in S.
  replace (length pre + 1)%nat with (Datatypes.S (length pre)) in S by lia.
  replace (pre ++ (nul :: str ++ tl) ++ rest) with ((pre ++ [nul]) ++ str ++ tl ++ rest); [done|].
  rewrite <- !app_assoc. simpl. by rewrite <- app_assoc.
Qed.

(** ** The value that comes back *)

(** The integer a number stands for. *)
Definition int_value (w : wvalue) : Z :=
  if bool_decide (wnt w = Signed_integer) then si (num w) else ui (num w).
Definition int_wvalue (z : Z) : wvalue :=
  WValue tNumber (if z <? 0 then Signed_integer else Unsigned_integer) (z mod 2 ^ 64) [] None None None.

(** The same value in the form in which it is read: an integer is signed when it is negative,
    there are no null pointers, and the fields of other types are empty. *)
Fixpoint normal (w : wvalue) : wvalue :=
  match wt_ w with
  | tNumber => int_wvalue (int_value w)
  | tString => wvalue_of_string (str w)
  | tList => wvalue_of_copies match l w with None => [] | Some l => map normal l end
  | tObject =>
      wvalue_of_object match o w with None => [] | Some o => map (λ e, (e.1, normal e.2)) o end
  | ty => WValue ty NoNumber 0 [] None None None
  end.

(** Values without doubles and functions, whose objects have distinct keys. *)
Fixpoint plain (w : wvalue) : bool :=
  match wt_ w with
  | tFunction => false
  | tNumber => negb (bool_decide (wnt w = Floating_point))
  | tList => match l w with None => true | Some l => forallb plain l end
  | tObject =>
      match o w with
      | None => true
      | Some o => forallb (λ e, plain e.2) o && bool_decide (NoDup o.*1)
      end
  | _ => true
  end.
Fixpoint nesting (w : wvalue) : Z :=
  match wt_ w with
  | tList => 1 + match l w with None => 0 | Some l => foldr (λ x m, Z.max (nesting x) m) 0 l end
  | tObject => 1 + match o w with None => 0 | Some o => foldr (λ e m, Z.max (nesting e.2) m) 0 o end
  | _ => 0
  end.

Lemma si_range n : - 2 ^ 63 ≤ si n < 2 ^ 63.
Proof. unfold si. pose proof (Z.mod_pos_bound (n + 2 ^ 63) (2 ^ 64)). lia. Qed.
Lemma ui_range n : 0 ≤ ui n < 2 ^ 64.
Proof. unfold ui. apply Z.mod_pos_bound. lia. Qed.
Lemma int_value_range w : - 2 ^ 63 ≤ int_value w < 2 ^ 64.
Proof.
  unfold int_value. pose proof (si_range (num w)). pose proof (ui_range (num w)).
  destruct (bool_decide _); lia.
Qed.

Lemma dump_int w : negb (bool_decide (wnt w = Floating_point)) = true →
  dump_number (wnt w) (num w) = Val (int_text (int_value w)).
Proof. unfold int_value, int_text. by destruct (wnt w). Qed.

Section Roundtrip.
Context (lexical_cast_int64 lexical_cast_uint64 lexical_cast_double : bytes → option Z).
Context (I64 : ∀ z, - 2 ^ 63 ≤ z < 2 ^ 63 → lexical_cast_int64 (int_text z) = Some z).
Context (U64 : ∀ z, 0 ≤ z < 2 ^ 64 → lexical_cast_uint64 (int_text z) = Some z).

Abbreviation convert := (wvalue_of_rvalue lexical_cast_int64 lexical_cast_uint64 lexical_cast_double).

(** What lies in [cells], from [base] on, converts to [w], wherever the buffer goes on. *)
Definition Converts (base : nat) (cells : bytes) (v : rvalue) (w : wvalue) : Prop :=
  error v = false ∧ ∀ pre rest, length pre = base → ∃ cells' v',
    convert (pre ++ cells ++ rest) v = Val (pre ++ cells' ++ rest, v', w) ∧ length cells' = length cells.
Definition ConvertsList (base : nat) (cells : bytes) (vs : list rvalue) (ws : list wvalue) : Prop :=
  ∀ pre rest, length pre = base → ∃ cells' vs',
    convert_list convert (pre ++ cells ++ rest) vs = Val (pre ++ cells' ++ rest, vs', ws) ∧
    length cells' = length cells.
Definition ConvertsObject (base : nat) (cells : bytes) (vs : list rvalue) (es : object) : Prop :=
  ∀ pre rest o, length pre = base → NoDup (o ++ es).*1 → ∃ cells' vs',
    convert_object convert (pre ++ cells ++ rest) vs o = Val (pre ++ cells' ++ rest, vs', o ++ es) ∧
    length cells' = length cells.

Lemma convert_string mem r : error r = false → t_ r = tString →
  convert mem r = outcome_bind (s mem r) (λ x, Val (x.1.1, x.1.2, wvalue_of_string (string_of_r x.1.1 x.2))).
Proof.
  destruct r as [a e k l r ty nt o]. cbn [t_]. intros E ->. cbn [wvalue_of_rvalue t_]. rewrite E.
  by destruct (s mem _) as [[[]]| | | | |].
Qed.
Lemma convert_number mem r : error r = false → t_ r = tNumber →
  convert mem r = outcome_bind (number_of_rvalue lexical_cast_int64 lexical_cast_uint64
    lexical_cast_double mem r) (λ w, Val (mem, r, w)).
Proof. destruct r as [a e k l r ty nt o]. cbn [t_]. intros E ->. cbn [wvalue_of_rvalue t_]. by rewrite E. Qed.

Lemma converts_string base str :
  Converts base (string_cells str) (string_rvalue base str) (wvalue_of_string str).
Proof.
  split; [done|]. intros pre rest <-. destruct (string_read pre str rest) as (tl & v & E & L).
  exists (nul :: str ++ tl), v. split; [|done]. rewrite convert_string, E by done.
  cbn [outcome_bind fst snd]. by rewrite string_of_read.
Qed.

Lemma converts_int base z : - 2 ^ 63 ≤ z < 2 ^ 64 →
  Converts base (int_text z) (int_rvalue base z) (int_wvalue z).
Proof.
  intros R. split; [done|]. intros pre rest <-. exists (int_text z), (int_rvalue (length pre) z).
  split; [|done]. rewrite convert_number by done. unfold number_of_rvalue, nt.
  change (error (int_rvalue (length pre) z)) with false. cbn [outcome_bind].
  assert (I : ∀ cast, cast (int_text z) = Some z →
    integer cast (pre ++ int_text z ++ rest) (int_rvalue (length pre) z) = Val z).
  { intros cast Ca. unfold integer, t. change (error (int_rvalue (length pre) z)) with false.
    cbn [outcome_bind t_ int_rvalue start_ end_].
    change (bool_decide (tNumber = tNumber)) with true. cbn [orb]. by rewrite slice_here, Ca. }
  unfold i, u, int_wvalue. cbn [nt_ int_rvalue].
  destruct (Z.ltb_spec z 0); [rewrite I by (apply I64; lia)|rewrite I by (apply U64; lia)]; done.
Qed.

Lemma converts_word base ty cells : match ty with tNull | tTrue | tFalse => True | _ => False end →
  Converts base cells (rvalue_of_type ty) (WValue ty NoNumber 0 [] None None None).
Proof.
  intros T. split; [done|]. intros pre rest _. exists cells, (rvalue_of_type ty). by destruct ty.
Qed.

(** The key of a value does not matter to its conversion. *)
Lemma convert_set_key mem k v : convert mem (set_key k v) =
  outcome_map (λ r : bytes * rvalue * wvalue, (r.1.1, set_key k r.1.2, r.2)) (convert mem v).
Proof.
  destruct v as [a e k' l r ty nt o].
  change (set_key k (RValue a e k' l r ty nt o)) with (RValue a e k l r ty nt o).
  cbn [wvalue_of_rvalue t_ l_ lremain_].
  change (error (RValue a e k l r ty nt o)) with (error (RValue a e k' l r ty nt o)).
  destruct (error (RValue a e k' l r ty nt o)) eqn:E; [done|].
  destruct ty; try done.
  - assert (number_of_rvalue lexical_cast_int64 lexical_cast_uint64 lexical_cast_double mem
      (RValue a e k l r tNumber nt o) = number_of_rvalue lexical_cast_int64 lexical_cast_uint64
      lexical_cast_double mem (RValue a e k' l r tNumber nt o)) as -> by done.
    by destruct (number_of_rvalue _ _ _ _ _).
  - unfold s, t. change (error (RValue a e k l r tString nt o)) with (error (RValue a e k' l r tString nt o)).
    rewrite E. cbn [outcome_bind t_ bool_decide negb]. unfold unescape. cbn [start_ end_].
    destruct a as [|b]; [done|]. destruct (at_ mem b); try done. cbn [outcome_bind].
    destruct (Ascii.eqb a nul); [done|].
    destruct (unescape_loop _ _ _ _ _) as [[m tl]| | | | |]; try done. cbn [outcome_bind].
    destruct (put m tl nul) as [m'| | | | |]; try done. cbn [outcome_bind].
    by destruct (put m' b nul).
  - by destruct (convert_list convert mem l) as [[[]]| | | | |].
  - by destruct (convert_object convert mem l []) as [[[]]| | | | |].
Qed.

Lemma converts_set_key base cells v w k : Converts base cells v w → Converts base cells (set_key k v) w.
Proof.
  intros [E C]. split; [by destruct v|]. intros pre rest L. destruct (C pre rest L) as (cells' & v' & X & Lc).
  exists cells', (set_key k v'). split; [|done]. by rewrite convert_set_key, X.
Qed.

(** *** Containers *)

Lemma convert_list_value mem r : error r = false → t_ r = tList →
  convert mem r = outcome_bind (convert_list convert mem (l_ r))
    (λ x, Val (x.1.1, set_list x.1.2 (lremain_ r) r, wvalue_of_copies x.2)).
Proof.
  destruct r as [a e k l r ty nt o]. cbn [t_]. intros E ->. cbn [wvalue_of_rvalue t_]. rewrite E.
  by destruct (convert_list convert mem _) as [[[]]| | | | |].
Qed.
Lemma convert_object_value mem r : error r = false → t_ r = tObject →
  convert mem r = outcome_bind (convert_object convert mem (l_ r) [])
    (λ x, Val (x.1.1, set_list x.1.2 (lremain_ r) r, wvalue_of_object x.2)).
Proof.
  destruct r as [a e k l r ty nt o]. cbn [t_]. intros E ->. cbn [wvalue_of_rvalue t_]. rewrite E.
  by destruct (convert_object convert mem _ []) as [[[]]| | | | |].
Qed.

Lemma converts_list_nil base : ConvertsList base [] [] [].
Proof. intros pre rest _. by exists [], []. Qed.
Lemma converts_list_cons base c1 sep c2 v w vs ws : Converts base c1 v w →
  ConvertsList (base + length c1 + length sep) c2 vs ws →
  ConvertsList base (c1 ++ sep ++ c2) (v :: vs) (w :: ws).
Proof.
  intros [_ C] Cs pre rest L. cbn [convert_list].
  destruct (C pre (sep ++ c2 ++ rest) L) as (c1' & v' & E & L1).
  replace (pre ++ (c1 ++ sep ++ c2) ++ rest) with (pre ++ c1 ++ sep ++ c2 ++ rest) by by rewrite <- !app_assoc.
  rewrite E. cbn [outcome_bind].
  destruct (Cs (pre ++ c1' ++ sep) rest) as (c2' & vs' & E2 & L2); [rewrite !length_app; lia|].
  rewrite <- !app_assoc in E2. rewrite E2. cbn [outcome_bind].
  exists (c1' ++ sep ++ c2'), (v' :: vs'). rewrite !length_app, L1, L2. by rewrite <- !app_assoc.
Qed.

Lemma emplace_fresh k w o : k ∉ o.*1 → emplace (k, w) o = o ++ [(k, w)].
Proof. intros N. unfold emplace. by rewrite bool_decide_eq_false_2. Qed.

Lemma converts_object_nil base : ConvertsObject base [] [] [].
Proof. intros pre rest o _ _. exists [], []. by rewrite app_nil_r. Qed.
Lemma converts_object_cons base key tl c1 sep c2 v w vs es :
  Converts (base + length (nul :: key ++ tl) + 1) c1 v w →
  ConvertsObject (base + length (nul :: key ++ tl) + 1 + length c1 + length sep) c2 vs es →
  ConvertsObject base ((nul :: key ++ tl) ++ ":"%char :: c1 ++ sep ++ c2)
    (set_key (S base, (S base + length key)%nat) v :: vs) ((key, w) :: es).
Proof.
  intros C Cs pre rest o L N. cbn [convert_object].
  replace (pre ++ ((nul :: key ++ tl) ++ ":"%char :: c1 ++ sep ++ c2) ++ rest)
    with (pre ++ (nul :: key ++ tl) ++ ":"%char :: c1 ++ sep ++ c2 ++ rest)
    by (rewrite <- (app_assoc (nul :: key ++ tl)), <- (app_comm_cons (c1 ++ sep ++ c2)); by rewrite <- !app_assoc).
  assert (key_text (pre ++ (nul :: key ++ tl) ++ ":"%char :: c1 ++ sep ++ c2 ++ rest)
    (set_key (S base, (S base + length key)%nat) v) = key) as ->.
  { unfold key_text. cbn [key_ set_key]. rewrite <- L. apply string_of_read. }
  destruct (converts_set_key _ c1 v w (S base, (S base + length key)%nat) C) as [_ C'].
  set (kc := nul :: key ++ tl) in *.
  destruct (C' (pre ++ kc ++ [":"%char]) (sep ++ c2 ++ rest)) as (c1' & v' & E & L1);
    [rewrite !length_app; simpl length; lia|].
  rewrite <- !app_assoc in E. cbn [app] in E. cbn [app]. rewrite E. cbn [outcome_bind].
  rewrite fmap_app in N. rewrite emplace_fresh.
  2:{ apply NoDup_app in N as (_ & N & _). intros I. destruct (N _ I). by left. }
  destruct (Cs (pre ++ kc ++ [":"%char] ++ c1' ++ sep) rest (o ++ [(key, w)])) as (c2' & vs' & E2 & L2).
  { rewrite !length_app. simpl length. lia. }
  { rewrite <- app_assoc, fmap_app. exact N. }
  rewrite <- !app_assoc in E2. cbn [app] in E2. rewrite E2. cbn [outcome_bind].
  exists (kc ++ ":"%char :: c1' ++ sep ++ c2'), (v' :: vs'). split.
  - rewrite <- (app_assoc kc), <- (app_comm_cons (c1' ++ sep ++ c2')). by rewrite <- !app_assoc.
  - rewrite !length_app. simpl. rewrite !length_app. lia.
Qed.

(** The values of a container after a loop. *)
Definition emplaced (ret : rvalue) (vs : list rvalue) : rvalue := fold_left emplace_back vs ret.
Lemma emplaced_fields vs ret : l_ (emplaced ret vs) = l_ ret ++ vs ∧ t_ (emplaced ret vs) = t_ ret ∧
  error (emplaced ret vs) = error ret.
Proof.
  revert ret. induction vs as [|v vs IH]; intros ret; [by rewrite app_nil_r|].
  destruct (IH (emplace_back ret v)) as (A & B & C). unfold emplaced in *. cbn [fold_left].
  rewrite A, B, C. destruct ret. cbn. by rewrite <- app_assoc.
Qed.

(** ** The parser on a value *)

Lemma ws_skip_here pre c rest : is_ws c = false → ws_skip (pre ++ c :: rest) (length pre) = Val (length pre).
Proof.
  intros W. unfold ws_skip. destruct (length (pre ++ c :: rest)); cbn [ws_skip_loop];
    rewrite at_mem_here by done; cbn [outcome_bind]; by rewrite W.
Qed.
Lemma consume_here pre c rest : consume (pre ++ c :: rest) (length pre) c = Val (true, S (length pre)).
Proof. unfold consume. rewrite at_mem_here by done. cbn [outcome_bind]. by rewrite Ascii.eqb_refl. Qed.

Lemma length_snoc_S {A} (l : list A) x : length (l ++ [x]) = S (length l).
Proof. rewrite length_app. simpl. lia. Qed.

Lemma container_start_here open ty pre d rest depth : is_ws d = false → depth ≤ 10000 →
  container_start open ty (pre ++ open :: d :: rest) (length pre) depth =
  Val (rvalue_of_type ty, S (length pre)).
Proof.
  intros W D. unfold container_start. rewrite consume_here. cbn [outcome_bind negb orb].
  unfold max_depth. destruct (Z.ltb_spec 10000 depth); [lia|].
  change (pre ++ open :: d :: rest) with (pre ++ [open] ++ d :: rest).
  rewrite app_assoc, <- (length_snoc_S pre open), ws_skip_here by done. done.
Qed.
Lemma container_next_close close pre rest :
  container_next close (pre ++ close :: rest) (length pre) = Val (Close, S (length pre)).
Proof.
  unfold container_next. rewrite at_mem_here by done. cbn [outcome_bind]. by rewrite Ascii.eqb_refl.
Qed.
Lemma container_next_comma close pre d rest : close ≠ ","%char → is_ws d = false →
  container_next close (pre ++ ","%char :: d :: rest) (length pre) = Val (Next, S (length pre)).
Proof.
  intros N W. unfold container_next. rewrite at_mem_here by done. cbn [outcome_bind].
  rewrite (proj2 (Ascii.eqb_neq _ _)) by congruence.
  rewrite consume_here. cbn [outcome_bind negb].
  change (pre ++ ","%char :: d :: rest) with (pre ++ [","%char] ++ d :: rest).
  rewrite app_assoc, <- (length_snoc_S pre ","%char), ws_skip_here by done. done.
Qed.

(** How the text of a value, or of a member, may begin. *)
Definition begins (c : ascii) : bool :=
  negb (is_ws c) && negb (Ascii.eqb c "]") && negb (Ascii.eqb c "}").
Definition Begins (t : bytes) : Prop := ∃ c t', t = c :: t' ∧ begins c = true.
Lemma begins_spec c : begins c = true →
  is_ws c = false ∧ Ascii.eqb c "]" = false ∧ Ascii.eqb c "}" = false.
Proof. unfold begins. rewrite !andb_true_iff, !negb_true_iff. tauto. Qed.

(** A value whose text is [t] is decoded from it at any place. *)
Definition Decodes (w : wvalue) (t : bytes) : Prop :=
  Begins t ∧ ∀ fuel pre c rest depth, stops c = true → 0 ≤ depth → depth + 2 * nesting w ≤ 10001 →
    (3 * length t + 2 ≤ fuel)%nat →
    ∃ v cells, decode_value fuel (pre ++ t ++ c :: rest) (length pre) depth =
        Val (v, pre ++ cells ++ c :: rest, (length pre + length t)%nat) ∧
      length cells = length t ∧ Converts (length pre) cells v (normal w).

Lemma dump_list_rest x l r : dump_list dump_internal false (x :: l) = Val r →
  ∃ t, r = ","%char :: t ∧ dump_list dump_internal true (x :: l) = Val t.
Proof.
  cbn [dump_list]. destruct (dump_internal x); try discriminate. cbn [outcome_bind].
  destruct (dump_list dump_internal false l); try discriminate. cbn [outcome_bind].
  intros [= <-]. by eexists.
Qed.

Lemma list_loop_dumped items : Forall (λ x, ∀ t, dump_internal x = Val t → Decodes x t) items →
  ∀ t, dump_list dump_internal true items = Val t → items ≠ [] →
  Begins t ∧ ∀ fuel pre rest depth ret, 0 ≤ depth →
    depth + 1 + 2 * foldr (λ x m, Z.max (nesting x) m) 0 items ≤ 10001 →
    (3 * length t + 3 ≤ fuel)%nat →
    ∃ vs cells, list_loop fuel (pre ++ t ++ "]"%char :: rest) (length pre) depth ret =
        Val (emplaced ret vs, pre ++ cells ++ "]"%char :: rest, S (length pre + length t)) ∧
      length cells = length t ∧ ConvertsList (length pre) cells vs (map normal items).
Proof.
  intros F. induction F as [|x items Hx _ IH]; intros t T Ne; [done|]. clear Ne.
  cbn [dump_list] in T. destruct (dump_internal x) as [tx| | | | |] eqn:Dx; try discriminate T.
  destruct (Hx tx eq_refl) as [(d & tx' & Ex & Bx) Dec]. cbn [outcome_bind] in T.
  destruct (dump_list dump_internal false items) as [r| | | | |] eqn:Dr; try discriminate T.
  cbn [outcome_bind comma app] in T. injection T as <-.
  split; [exists d, (tx' ++ r); by rewrite Ex|].
  intros fuel pre rest depth ret Hd D U. rewrite length_app in U.
  destruct fuel as [|fuel]; [lia|]. cbn [list_loop foldr] in *.
  destruct items as [|y items].
  - injection Dr as <-. rewrite app_nil_r in *.
    destruct (Dec fuel pre "]"%char rest (depth + 1)) as (v & cells & -> & L & C);
      [done|lia|lia|simpl in U; lia|].
    cbn [outcome_bind]. destruct C as [Er C]. rewrite Er.
    rewrite app_assoc, <- L, <- length_app, ws_skip_here by done. cbn [outcome_bind].
    rewrite container_next_close. cbn [outcome_bind].
    exists [v], cells. rewrite <- app_assoc, length_app. split_and!; [done|done|].
    cbn [map]. pose proof (converts_list_cons (length pre) cells [] [] v (normal x) [] []
      (conj Er C) (converts_list_nil _)) as CL. by rewrite !app_nil_r in CL.
  - destruct (dump_list_rest _ _ _ Dr) as (t & -> & Dt).
    destruct (IH t Dt ltac:(done)) as [(d2 & t' & Et & Bt) Loop].
    rewrite <- app_assoc. simpl app at 2.
    destruct (Dec fuel pre ","%char (t ++ "]"%char :: rest) (depth + 1)) as (v & cells & -> & L & C);
      [done|lia|lia|simpl in U; lia|].
    cbn [outcome_bind]. pose proof (proj1 C) as Er. rewrite Er.
    rewrite app_assoc, <- L, <- length_app, ws_skip_here by done. cbn [outcome_bind].
    apply begins_spec in Bt as (W & _). subst t. cbn [app].
    rewrite container_next_comma by done. cbn [outcome_bind].
    specialize (Loop fuel ((pre ++ cells) ++ [","%char]) rest depth (emplace_back ret v) Hd).
    rewrite length_snoc_S, <- app_assoc in Loop. cbn [app] in Loop.
    destruct Loop as (vs & cells2 & -> & L2 & C2); [cbn [foldr] in *; lia|simpl in *; lia|].
    exists (v :: vs), (cells ++ [","%char] ++ cells2). split_and!.
    + f_equal. f_equal; [f_equal|].
      * rewrite <- !app_assoc. done.
      * rewrite !length_app. simpl. lia.
    + rewrite !length_app, L2. simpl. lia.
    + apply converts_list_cons; [done|]. rewrite length_app in C2.
      replace (length pre + length cells + length [","%char])%nat with (S (length pre + length cells))
        by (simpl; lia). done.
Qed.

(** *** Members *)

Lemma string_cells_length str : length (string_cells str) = length (dump_string str).
Proof. unfold string_cells, dump_string. simpl. by rewrite !length_app. Qed.

Lemma decode_key_dumped pre key d rest : is_ws d = false → ∃ tl,
  decode_key (pre ++ dump_string key ++ ":"%char :: d :: rest) (length pre) =
    Val (Some (S (length pre), (S (length pre) + length key)%nat),
         pre ++ (nul :: key ++ tl) ++ ":"%char :: d :: rest,
         S (length pre + length (dump_string key))) ∧
  length (nul :: key ++ tl) = length (dump_string key).
Proof.
  intros W. destruct (string_read pre key (":"%char :: d :: rest)) as (tl & v & E & L).
  exists tl. rewrite string_cells_length in L. split; [|done]. unfold decode_key.
  rewrite decode_string_dumped. cbn [outcome_bind].
  change (error (string_rvalue (length pre) key)) with false. cbv iota.
  assert (Q : ∀ cells : bytes, length cells = length (dump_string key) →
    ws_skip (pre ++ cells ++ ":"%char :: d :: rest) (length pre + length (dump_string key)) =
      Val (length pre + length (dump_string key))%nat ∧
    consume (pre ++ cells ++ ":"%char :: d :: rest) (length pre + length (dump_string key)) ":" =
      Val (true, S (length pre + length (dump_string key))) ∧
    ws_skip (pre ++ cells ++ ":"%char :: d :: rest) (S (length pre + length (dump_string key))) =
      Val (S (length pre + length (dump_string key)))).
  { intros cells <-. rewrite <- length_app. split_and!.
    - by rewrite app_assoc, ws_skip_here.
    - by rewrite app_assoc, consume_here.
    - change (":"%char :: d :: rest) with ([":"%char] ++ d :: rest).
      rewrite !app_assoc, <- (length_snoc_S (pre ++ cells) ":"%char). by apply ws_skip_here. }
  destruct (Q _ (string_cells_length key)) as (Q1 & Q2 & _). rewrite Q1. cbn [outcome_bind].
  rewrite Q2. cbn [outcome_bind negb].
  rewrite E. cbn [outcome_bind]. destruct (Q _ L) as (_ & _ & ->). done.
Qed.

Lemma dump_object_rest e es r : dump_object dump_internal false (e :: es) = Val r →
  ∃ t, r = ","%char :: t ∧ dump_object dump_internal true (e :: es) = Val t.
Proof.
  destruct e as [k x]. cbn [dump_object]. destruct (dump_internal x); try discriminate. cbn [outcome_bind].
  destruct (dump_object dump_internal false es); try discriminate. cbn [outcome_bind].
  intros [= <-]. by eexists.
Qed.

(** Concatenations in their normal form, and their lengths. *)
Ltac flat := repeat (progress (rewrite <- ?app_assoc; cbn [app])); reflexivity.
Ltac lens := repeat (progress (rewrite ?length_app in *; cbn [length] in * )); lia.

Lemma Val_inj {A} (a b : A) : Val a = Val b → a = b.
Proof. congruence. Qed.

Lemma object_loop_dumped es : Forall (λ e, ∀ t, dump_internal e.2 = Val t → Decodes e.2 t) es →
  ∀ t, dump_object dump_internal true es = Val t → es ≠ [] →
  Begins t ∧ ∀ fuel pre rest depth ret, 0 ≤ depth →
    depth + 1 + 2 * foldr (λ e m, Z.max (nesting e.2) m) 0 es ≤ 10001 →
    (3 * length t + 3 ≤ fuel)%nat →
    ∃ vs cells, object_loop fuel (pre ++ t ++ "}"%char :: rest) (length pre) depth ret =
        Val (emplaced ret vs, pre ++ cells ++ "}"%char :: rest, S (length pre + length t)) ∧
      length cells = length t ∧
      ConvertsObject (length pre) cells vs (map (λ e, (e.1, normal e.2)) es).
Proof.
  intros F. induction F as [|[key x] es Hx _ IH]; intros t T Ne; [done|]. clear Ne. cbn [snd] in Hx.
  cbn [dump_object] in T. destruct (dump_internal x) as [tx| | | | |] eqn:Dx; try discriminate T.
  destruct (Hx tx eq_refl) as [(d & tx' & Ex & Bx) Dec]. cbn [outcome_bind] in T.
  destruct (dump_object dump_internal false es) as [r| | | | |] eqn:Dr; try discriminate T.
  cbn [outcome_bind comma] in T. rewrite app_nil_l in T. apply Val_inj in T. subst t.
  change ([":"%char] ++ tx ++ r) with (":"%char :: tx ++ r).
  split; [exists quote; eexists; split; [reflexivity|done]|].
  intros fuel pre rest depth ret Hd D U. rewrite !length_app in U. cbn [length] in U. rewrite length_app in U.
  destruct fuel as [|fuel]; [lia|]. cbn [object_loop foldr snd] in *.
  apply begins_spec in Bx as (Wx & _).
  assert (K : ∀ r', ∃ tl, decode_key (pre ++ (dump_string key ++ ":"%char :: tx ++ r) ++ r') (length pre) =
      Val (Some (S (length pre), (S (length pre) + length key)%nat),
           (pre ++ (nul :: key ++ tl) ++ [":"%char]) ++ tx ++ r ++ r',
           length (pre ++ (nul :: key ++ tl) ++ [":"%char])) ∧
      length (nul :: key ++ tl) = length (dump_string key)).
  { intros r'. destruct (decode_key_dumped pre key d (tx' ++ r ++ r') Wx) as (tl & E & L).
    exists tl. split; [|done]. subst tx. cbn [app]. rewrite <- app_assoc. cbn [app]. rewrite <- app_assoc, E.
    f_equal. f_equal; [f_equal|].
    - flat.
    - lens. }
  destruct (K ("}"%char :: rest)) as (tl & E & Lk). rewrite E. clear K E. cbn [outcome_bind].
  set (pre2 := pre ++ (nul :: key ++ tl) ++ [":"%char]).
  assert (L2 : length pre2 = (length pre + length (nul :: key ++ tl) + 1)%nat)
    by (unfold pre2; rewrite !length_app; simpl; lia).
  destruct es as [|e es].
  - injection Dr as <-. rewrite app_nil_r in *. cbn [app].
    destruct (Dec fuel pre2 "}"%char rest (depth + 1)) as (v & cells & -> & L & C);
      [done|lia|lia|simpl in U; lia|].
    cbn [outcome_bind]. pose proof (proj1 C) as Er. rewrite Er.
    rewrite app_assoc, <- L, <- length_app, ws_skip_here by done. cbn [outcome_bind].
    rewrite container_next_close. cbn [outcome_bind]. rewrite L2 in C.
    exists [set_key (S (length pre), (S (length pre) + length key)%nat) v],
      ((nul :: key ++ tl) ++ ":"%char :: cells). split_and!.
    + f_equal. f_equal; [f_equal|].
      * unfold pre2. flat.
      * rewrite !length_app, L2, L, Lk. lens.
    + rewrite !length_app, Lk. lens.
    + pose proof (converts_object_cons (length pre) key tl cells [] [] v (normal x) [] [] C
        (converts_object_nil _)) as CL. by rewrite !app_nil_r in CL.
  - destruct (dump_object_rest _ _ _ Dr) as (t & -> & Dt).
    destruct (IH t Dt ltac:(done)) as [(d2 & t' & Et & Bt) Loop]. cbn [app].
    destruct (Dec fuel pre2 ","%char (t ++ "}"%char :: rest) (depth + 1)) as (v & cells & -> & L & C);
      [done|lia|lia|simpl in U; lia|].
    cbn [outcome_bind]. pose proof (proj1 C) as Er. rewrite Er.
    rewrite app_assoc, <- L, <- length_app, ws_skip_here by done. cbn [outcome_bind].
    apply begins_spec in Bt as (W & _). subst t. cbn [app].
    rewrite container_next_comma by done. cbn [outcome_bind]. rewrite L2 in C.
    set (k := (S (length pre), (S (length pre) + length key)%nat)).
    specialize (Loop fuel ((pre2 ++ cells) ++ [","%char]) rest depth (emplace_back ret (set_key k v)) Hd).
    rewrite length_snoc_S, <- app_assoc in Loop. cbn [app] in Loop.
    destruct Loop as (vs & cells2 & -> & L3 & C2); [cbn [foldr] in *; lia|simpl in *; lia|].
    exists (set_key k v :: vs), ((nul :: key ++ tl) ++ ":"%char :: cells ++ [","%char] ++ cells2). split_and!.
    + f_equal. f_equal; [f_equal|].
      * unfold pre2. flat.
      * rewrite !length_app, L2, L, Lk. lens.
    + rewrite !length_app, Lk. lens.
    + apply converts_object_cons; [done|]. rewrite length_app, L2 in C2. cbn [fst].
      replace (length pre + length (nul :: key ++ tl) + 1 + length cells + length [","%char])%nat
        with (S (length pre + length (nul :: key ++ tl) + 1 + length cells)) by (simpl; lia).
      exact C2.
Qed.

(** *** Words *)

Lemma matches_here word A rest : matches word (A ++ word ++ rest) (length A) = Val true.
Proof.
  revert A. induction word as [|w word IH]; intros A; [done|]. cbn [matches app].
  rewrite at_mem_here by done. cbn [outcome_bind]. rewrite Ascii.eqb_refl.
  specialize (IH (A ++ [w])). rewrite length_snoc_S, <- app_assoc in IH. exact IH.
Qed.

Lemma text_length word : length (text word) = String.length word.
Proof. unfold text. induction word as [|c word IH]; [done|]. simpl. by rewrite IH. Qed.

Lemma decode_word_here c word ty pre rest :
  decode_word (String c word) ty (pre ++ text (String c word) ++ rest) (length pre) =
  Val (rvalue_of_type ty, pre ++ text (String c word) ++ rest,
       (length pre + length (text (String c word)))%nat).
Proof.
  unfold decode_word. cbn [text list_ascii_of_string tail app].
  change (pre ++ c :: list_ascii_of_string word ++ rest) with (pre ++ [c] ++ text word ++ rest).
  pose proof (matches_here (text word) (pre ++ [c]) rest) as M.
  rewrite length_snoc_S, <- app_assoc in M. unfold text in *. rewrite M. cbn [outcome_bind].
  rewrite <- text_length. done.
Qed.

Lemma word_dumped word ty w : In (word, ty) [("null", tNull); ("true", tTrue); ("false", tFalse)]%string →
  normal w = WValue ty NoNumber 0 [] None None None → Decodes w (text word).
Proof.
  intros I N. assert (T : match ty with tNull | tTrue | tFalse => True | _ => False end).
  { by destruct I as [[= <- <-]|[[= <- <-]|[[= <- <-]|[]]]]. }
  split.
  { destruct I as [[= <- <-]|[[= <- <-]|[[= <- <-]|[]]]]; by eexists _, _. }
  intros fuel pre c rest depth _ _ _ U. destruct fuel as [|fuel]; [lia|].
  exists (rvalue_of_type ty), (text word). split_and!; [|done|rewrite N; by apply converts_word].
  destruct I as [[= <- <-]|[[= <- <-]|[[= <- <-]|[]]]];
    (cbn [decode_value]; unfold text at 1; cbn [list_ascii_of_string app]; rewrite at_mem_here by done;
     cbn [outcome_bind Ascii.eqb Bool.eqb quote]; apply decode_word_here).
Qed.

(** *** Any value *)

Lemma wvalue_ind_nested (P : wvalue → Prop)
    (H : ∀ t nt n st l o f, Forall P (default [] l) → Forall (λ e, P e.2) (default [] o) →
      P (WValue t nt n st l o f)) : ∀ w, P w.
Proof.
  fix IH 1. intros [t nt n st l o f]. apply H.
  - destruct l as [l|]; [|constructor]. simpl.
    induction l as [|x l IHl]; constructor; [apply IH|apply IHl].
  - destruct o as [o|]; [|constructor]. simpl.
    induction o as [|e o IHo]; constructor; [apply IH|apply IHo].
Qed.

Lemma int_begins z : ∃ d t, int_text z = d :: t ∧ (d = "-"%char ∨ is_digit d = true).
Proof.
  rewrite int_text_eq. destruct (z <? 0); [eexists _, _; split; [reflexivity|by left]|].
  destruct (decimal_text (Z.to_N z)) as (d & ds & -> & F & _). exists d, ds. split; [done|right].
  cbn [forallb] in F. by apply andb_true_iff in F as [-> _].
Qed.
(** A character of a number is none of the characters the parser looks for. *)
Lemma digit_other d c : d = "-"%char ∨ is_digit d = true → is_digit c = false → c ≠ "-"%char →
  Ascii.eqb d c = false.
Proof. intros D C N. apply Ascii.eqb_neq. intros ->. destruct D; congruence. Qed.

Lemma int_dumped w : normal w = int_wvalue (int_value w) → Decodes w (int_text (int_value w)).
Proof.
  intros N. destruct (int_begins (int_value w)) as (d & t & E & D). split.
  { exists d, t. split; [done|]. unfold begins, is_ws. by rewrite !(digit_other d _ D). }
  intros fuel pre c rest depth S _ _ U. destruct fuel as [|fuel]; [lia|].
  exists (int_rvalue (length pre) (int_value w)), (int_text (int_value w)).
  split_and!; [|done|rewrite N; apply converts_int, int_value_range].
  cbn [decode_value]. rewrite <- decode_number_dumped by done. rewrite E. cbn [app].
  rewrite at_mem_here by done. cbn [outcome_bind]. by rewrite !(digit_other d _ D).
Qed.

Lemma string_dumped w : normal w = wvalue_of_string (str w) → Decodes w (dump_string (str w)).
Proof.
  intros N. split; [by eexists _, _|].
  intros fuel pre c rest depth _ _ _ U. destruct fuel as [|fuel]; [lia|].
  exists (string_rvalue (length pre) (str w)), (string_cells (str w)).
  split_and!; [|apply string_cells_length|rewrite N; apply converts_string].
  cbn [decode_value]. rewrite <- decode_string_dumped. unfold dump_string. cbn [app].
  rewrite at_mem_here by done. cbn [outcome_bind]. reflexivity.
Qed.

(** A container: its brackets, and between them what converts to its elements. *)
Lemma converts_list_value base cells vs ws : ConvertsList (S base) cells vs ws →
  Converts base ("["%char :: cells ++ ["]"%char]) (emplaced (rvalue_of_type tList) vs) (wvalue_of_copies ws).
Proof.
  intros C. destruct (emplaced_fields vs (rvalue_of_type tList)) as (L & T & E).
  split; [by rewrite E|]. intros pre rest Lb. rewrite convert_list_value by (by rewrite ?E, ?T).
  rewrite L. cbn [l_ rvalue_of_type app].
  destruct (C (pre ++ ["["%char]) (["]"%char] ++ rest)) as (cells' & vs' & X & Lc); [by rewrite length_snoc_S, Lb|].
  replace (pre ++ "["%char :: (cells ++ ["]"%char]) ++ rest)
    with ((pre ++ ["["%char]) ++ cells ++ ["]"%char] ++ rest) by flat.
  rewrite X. cbn [outcome_bind fst snd]. eexists ("["%char :: cells' ++ ["]"%char]), _.
  split; [|lens]. f_equal. f_equal. f_equal. flat.
Qed.
Lemma converts_object_value base cells vs es : NoDup es.*1 → ConvertsObject (S base) cells vs es →
  Converts base ("{"%char :: cells ++ ["}"%char]) (emplaced (rvalue_of_type tObject) vs) (wvalue_of_object es).
Proof.
  intros N C. destruct (emplaced_fields vs (rvalue_of_type tObject)) as (L & T & E).
  split; [by rewrite E|]. intros pre rest Lb. rewrite convert_object_value by (by rewrite ?E, ?T).
  rewrite L. cbn [l_ rvalue_of_type app].
  destruct (C (pre ++ ["{"%char]) (["}"%char] ++ rest) []) as (cells' & vs' & X & Lc);
    [by rewrite length_snoc_S, Lb|done|].
  replace (pre ++ "{"%char :: (cells ++ ["}"%char]) ++ rest)
    with ((pre ++ ["{"%char]) ++ cells ++ ["}"%char] ++ rest) by flat.
  rewrite X. cbn [outcome_bind fst snd app]. eexists ("{"%char :: cells' ++ ["}"%char]), _.
  split; [|lens]. f_equal. f_equal. f_equal. flat.
Qed.

Lemma decode_list_dumped items t : dump_list dump_internal true items = Val t →
  Forall (λ x, ∀ t, dump_internal x = Val t → Decodes x t) items →
  ∀ w, normal w = wvalue_of_copies (map normal items) →
  nesting w = 1 + foldr (λ x m, Z.max (nesting x) m) 0 items →
  Decodes w (["["%char] ++ t ++ ["]"%char]).
Proof.
  intros T F w N Ne. split; [by eexists _, _|].
  intros fuel pre c rest depth _ Hd D U. destruct fuel as [|[|fuel]]; [lia..|].
  cbn [app] in *. rewrite <- app_assoc. cbn [app].
  cbn [decode_value]. rewrite at_mem_here by done. cbn [outcome_bind Ascii.eqb Bool.eqb].
  cbn [decode_list]. rewrite Ne in D.
  assert (M : 0 ≤ foldr (λ x m, Z.max (nesting x) m) 0 items) by (clear; induction items; simpl; lia).
  pose proof (length_snoc_S pre "["%char) as Lp.
  destruct items as [|x items].
  - apply Val_inj in T as <-. cbn [app]. rewrite container_start_here by (done || lia).
    cbn [outcome_bind]. change (error (rvalue_of_type tList)) with false. cbv iota.
    change (pre ++ "["%char :: "]"%char :: c :: rest) with (pre ++ ["["%char] ++ "]"%char :: c :: rest).
    rewrite at_behind by (simpl; lia). cbn [outcome_bind Ascii.eqb Bool.eqb].
    exists (rvalue_of_type tList), ["["%char; "]"%char]. split_and!; [|done|].
    + f_equal. f_equal. simpl. lia.
    + rewrite N. apply (converts_list_value _ [] []), converts_list_nil.
  - destruct (list_loop_dumped _ F t T) as [(d & t' & -> & B) Loop]; [done|].
    apply begins_spec in B as (W & Nb & _). cbn [app]. rewrite container_start_here by (done || lia).
    cbn [outcome_bind]. change (error (rvalue_of_type tList)) with false. cbv iota.
    change (pre ++ "["%char :: d :: t' ++ "]"%char :: c :: rest)
      with (pre ++ ["["%char] ++ (d :: t') ++ "]"%char :: c :: rest).
    rewrite app_assoc, <- Lp. cbn [app]. rewrite at_mem_here by done. cbn [outcome_bind]. rewrite Nb.
    destruct (Loop fuel (pre ++ ["["%char]) (c :: rest) (depth + 1) (rvalue_of_type tList))
      as (vs & cells & E & L & C); [lia|lia|lens|].
    cbn [app] in E. rewrite E.
    exists (emplaced (rvalue_of_type tList) vs), ("["%char :: cells ++ ["]"%char]). split_and!.
    + f_equal. f_equal; [f_equal; flat|lens].
    + lens.
    + rewrite N. apply converts_list_value. by rewrite <- Lp.
Qed.

Lemma decode_object_dumped es t : dump_object dump_internal true es = Val t →
  Forall (λ e, ∀ t, dump_internal e.2 = Val t → Decodes e.2 t) es → NoDup es.*1 →
  ∀ w, normal w = wvalue_of_object (map (λ e, (e.1, normal e.2)) es) →
  nesting w = 1 + foldr (λ e m, Z.max (nesting e.2) m) 0 es →
  Decodes w (["{"%char] ++ t ++ ["}"%char]).
Proof.
  intros T F K w N Ne. split; [by eexists _, _|].
  intros fuel pre c rest depth _ Hd D U. destruct fuel as [|[|fuel]]; [lia..|].
  cbn [app] in *. rewrite <- app_assoc. cbn [app].
  cbn [decode_value]. rewrite at_mem_here by done. cbn [outcome_bind Ascii.eqb Bool.eqb].
  cbn [decode_object]. rewrite Ne in D.
  assert (M : 0 ≤ foldr (λ e m, Z.max (nesting e.2) m) 0 es) by (clear; induction es; simpl; lia).
  pose proof (length_snoc_S pre "{"%char) as Lp.
  assert (K' : NoDup (map (λ e : bytes * wvalue, (e.1, normal e.2)) es).*1).
  { replace (_.*1) with es.*1; [done|]. clear. induction es as [|e es IH]; [done|]. simpl. by f_equal. }
  destruct es as [|e es].
  - apply Val_inj in T as <-. cbn [app]. rewrite container_start_here by (done || lia).
    cbn [outcome_bind]. change (error (rvalue_of_type tObject)) with false. cbv iota.
    change (pre ++ "{"%char :: "}"%char :: c :: rest) with (pre ++ ["{"%char] ++ "}"%char :: c :: rest).
    rewrite at_behind by (simpl; lia). cbn [outcome_bind Ascii.eqb Bool.eqb].
    exists (rvalue_of_type tObject), ["{"%char; "}"%char]. split_and!; [|done|].
    + f_equal. f_equal. simpl. lia.
    + rewrite N. apply (converts_object_value _ [] []); [done|apply converts_object_nil].
  - destruct (object_loop_dumped _ F t T) as [(d & t' & -> & B) Loop]; [done|].
    apply begins_spec in B as (W & _ & Nb). cbn [app]. rewrite container_start_here by (done || lia).
    cbn [outcome_bind]. change (error (rvalue_of_type tObject)) with false. cbv iota.
    change (pre ++ "{"%char :: d :: t' ++ "}"%char :: c :: rest)
      with (pre ++ ["{"%char] ++ (d :: t') ++ "}"%char :: c :: rest).
    rewrite app_assoc, <- Lp. cbn [app]. rewrite at_mem_here by done. cbn [outcome_bind]. rewrite Nb.
    destruct (Loop fuel (pre ++ ["{"%char]) (c :: rest) (depth + 1) (rvalue_of_type tObject))
      as (vs & cells & E & L & C); [lia|lia|lens|].
    cbn [app] in E. rewrite E.
    exists (emplaced (rvalue_of_type tObject) vs), ("{"%char :: cells ++ ["}"%char]). split_and!.
    + f_equal. f_equal; [f_equal; flat|lens].
    + lens.
    + rewrite N. apply converts_object_value; [done|]. by rewrite <- Lp.
Qed.

Lemma elements_decode {A} (value : A → wvalue) (l : list A) :
  Forall (λ x, plain (value x) = true → ∀ t, dump_internal (value x) = Val t → Decodes (value x) t) l →
  forallb (λ x, plain (value x)) l = true →
  Forall (λ x, ∀ t, dump_internal (value x) = Val t → Decodes (value x) t) l.
Proof.
  intros F P. rewrite forallb_forall in P. rewrite Forall_forall in F |- *.
  intros x I. apply F; [done|]. by apply P, list_elem_of_In.
Qed.

Lemma value_dumped w : plain w = true → ∀ t, dump_internal w = Val t → Decodes w t.
Proof.
  induction w as [ty nt n st ls os fn IHl IHo] using wvalue_ind_nested.
  intros P t T. destruct ty; cbn [dump_internal wt_ wnt num l o] in T.
  - apply Val_inj in T as <-. apply (word_dumped "null" tNull); [simpl; auto|done].
  - apply Val_inj in T as <-. apply (word_dumped "false" tFalse); [simpl; auto|done].
  - apply Val_inj in T as <-. apply (word_dumped "true" tTrue); [simpl; auto|done].
  - pose proof (dump_int (WValue tNumber nt n st ls os fn) P) as E. cbn [wnt num] in E. rewrite E in T.
    apply Val_inj in T as <-. by apply int_dumped.
  - apply Val_inj in T as <-. by apply (string_dumped (WValue tString nt n st ls os fn)).
  - cbn [plain wt_ l] in P.
    destruct ls as [ls|]; [destruct (dump_list dump_internal true ls) as [ts| | | | |] eqn:Ts; try discriminate T|];
      apply Val_inj in T as <-.
    + apply (decode_list_dumped ls); [done|by apply (elements_decode (λ x, x))|done..].
    + by apply (decode_list_dumped [] []).
  - cbn [plain wt_ o] in P.
    destruct os as [os|]; [destruct (dump_object dump_internal true os) as [ts| | | | |] eqn:Ts; try discriminate T|];
      apply Val_inj in T as <-.
    + apply andb_true_iff in P as [P K]. apply bool_decide_eq_true_1 in K.
      apply (decode_object_dumped os); [done|by apply (elements_decode snd)|done..].
    + apply (decode_object_dumped [] []); [done|constructor|constructor|done..].
  - discriminate P.
Qed.

(** Values without doubles are always printed. *)
Lemma dump_plain w : plain w = true → ∃ t, dump_internal w = Val t.
Proof.
  induction w as [ty nt n st ls os fn IHl IHo] using wvalue_ind_nested. intros P.
  destruct ty; cbn [dump_internal wt_ plain wnt num l o] in *; try discriminate P; try (by eexists).
  - unfold dump_number. destruct nt; try discriminate P; by eexists.
  - destruct ls as [ls|]; [|by eexists]. simpl in IHl.
    assert (∀ first, ∃ t, dump_list dump_internal first ls = Val t) as A.
    { induction IHl as [|x ls Hx _ IH]; intros first; [by eexists|].
      cbn [forallb] in P. apply andb_true_iff in P as [Px P]. cbn [dump_list].
      destruct (Hx Px) as [t ->]. destruct (IH P false) as [r ->]. by eexists. }
    destruct (A true) as [t ->]. by eexists.
  - destruct os as [os|]; [|by eexists]. simpl in IHo. apply andb_true_iff in P as [P _].
    assert (∀ first, ∃ t, dump_object dump_internal first os = Val t) as A.
    { induction IHo as [|[k x] os Hx _ IH]; intros first; [by eexists|].
      cbn [forallb snd] in P. apply andb_true_iff in P as [Px P]. cbn [dump_object].
      destruct (Hx Px) as [t Tx]. cbn [snd] in Tx. rewrite Tx. destruct (IH P false) as [r ->]. by eexists. }
    destruct (A true) as [t ->]. by eexists.
Qed.

Lemma load_dumped w t : plain w = true → nesting w ≤ 5000 → dump w = Val t →
  ∃ v mem, load t = Val (v, mem) ∧ error v = false ∧
    ∃ mem' v', convert mem v = Val (mem', v', normal w).
Proof.
  intros P D T. destruct (value_dumped w P t T) as [(d & t' & E & B) Dec].
  apply begins_spec in B as (W & _). unfold load, parse.
  assert (ws_skip (t ++ [nul]) 0 = Val 0%nat) as ->
    by (rewrite E; exact (ws_skip_here [] d (t' ++ [nul]) W)).
  cbn [outcome_bind].
  destruct (Dec (load_fuel t) [] nul [] 0) as (v & cells & X & L & C); [done|lia|lia|unfold load_fuel; lia|].
  cbn [app length Nat.add] in X. rewrite X. cbn [outcome_bind]. rewrite <- L, ws_skip_here by done.
  cbn [outcome_bind]. pose proof (proj1 C) as Er. rewrite Er, at_mem_here by done.
  cbn [outcome_bind]. rewrite Ascii.eqb_refl, Er. eexists _, _. split; [done|].
  destruct (converts_set_key _ _ _ _ (0%nat, Z.to_nat (Z.of_nat (length t) mod 2 ^ 32)) C) as [Er' C'].
  rewrite L. split; [exact Er'|].
  destruct (C' [] [nul] eq_refl) as (cells' & v' & Y & _). cbn [app] in Y. rewrite Y. by eexists _, _.
Qed.
End Roundtrip.

(** C27: a value without doubles and functions, whose objects have distinct keys and which is not
    nested deeper than 5000, is dumped to a text; and the text, loaded and converted back, gives
    the value again: every string and key, every integer of 64 bits, every list and object. *)
Theorem json_round_trip lexical_cast_int64 lexical_cast_uint64 lexical_cast_double w
    (I64 : ∀ z, - 2 ^ 63 ≤ z < 2 ^ 63 → lexical_cast_int64 (int_text z) = Some z)
    (U64 : ∀ z, 0 ≤ z < 2 ^ 64 → lexical_cast_uint64 (int_text z) = Some z)
    (P : plain w = true) (D : nesting w ≤ 5000) :
  ∃ t v mem mem' v', dump w = Val t ∧ load t = Val (v, mem) ∧ error v = false ∧
    wvalue_of_rvalue lexical_cast_int64 lexical_cast_uint64 lexical_cast_double mem v =
      Val (mem', v', normal w).
Proof.
  destruct (dump_plain w P) as [t T].
  destruct (load_dumped lexical_cast_int64 lexical_cast_uint64 lexical_cast_double I64 U64 w t P D T)
    as (v & mem & L & E & mem' & v' & C).
  by exists t, v, mem, mem', v'.
Qed.

(** A conversion of decimal texts. *)
Definition test_cast (t : bytes) : option Z := strtol (string_of_list_ascii t).
Lemma test_cast_int z : test_cast (int_text z) = Some z.
Proof.
  unfold test_cast, int_text, text. rewrite string_of_list_ascii_of_string. apply strtol_to_string.
Qed.
Definition test_value : wvalue :=
  wvalue_of_object
    [(text "a " ++ [quote] ++ text "quoted key", wvalue_of_copies [wvalue_of_signed (-1); wvalue_of_unsigned 18446744073709551615]);
     ([backslash], wvalue_of_object []);
     ([], wvalue_of_string ["000"; "009"; "010"; "031"; "127"; "255"]%char);
     (text "rest", wvalue_of_copies [wvalue_null; wvalue_of_bool true; WValue tList NoNumber 7 [] None None None])].

Lemma json_round_trip_witness :
  plain test_value = true ∧ nesting test_value = 3 ∧
  ∃ t v mem mem' v', dump test_value = Val t ∧ load t = Val (v, mem) ∧ error v = false ∧
    wvalue_of_rvalue test_cast test_cast test_cast mem v = Val (mem', v', normal test_value).
Proof.
  split; [by vm_compute|]. split; [by vm_compute|].
  apply (json_round_trip test_cast test_cast test_cast test_value);
    [intros z _; apply test_cast_int..|by vm_compute|by vm_compute].
Defined.
