(* ===== verification/HttpRoundtrip.v ===== *)
(** * The HTTP parser: what is printed is parsed

    A request as a client prints it, and what [http_parser_execute] makes of its bytes: the
    events it reports to the application, in order, and the parser at the end of the message.
    The proof steps through the text a byte at a time. *)

From Stdlib Require Import ZArith Lia Ascii String.
From stdpp Require Import base tactics option strings list.
From S2P Require Import Prelude.
From S2P Require Import CppStd.
From S2P Require Import QueryString.
From S2P Require Import Crow.
From S2P Require Import HttpParser.
From S2P Require Import HttpExecute.
From S2P Require Import HttpTotal.

Local Open Scope Z_scope.

(** ** The text of a request *)

Definition text (s : string) : bytes := list_ascii_of_string s.
Definition eol : bytes := [cr; lf].
Definition method_text (m : HTTPMethod) : bytes := text (method_name (Some m)).

Definition print_target (path : bytes) (query : option bytes) : bytes :=
  path ++ match query with None => [] | Some q => "?"%char :: q end.
Definition print_header (h : bytes * bytes) : bytes := h.1 ++ text ": " ++ h.2 ++ eol.
Definition print_request (m : HTTPMethod) (path : bytes) (query : option bytes)
    (hs : list (bytes * bytes)) : bytes :=
  method_text m ++ text " " ++ print_target path query ++ text " HTTP/1.1" ++ eol ++
  concat (print_header <$> hs) ++ eol.

(** What the parts may be made of. *)
Definition url_byte (c : ascii) : bool :=
  IS_URL_CHAR c &&
  negb (Ascii.eqb c " " || Ascii.eqb c cr || Ascii.eqb c lf || Ascii.eqb c tab || Ascii.eqb c ff).
Definition path_ok (path : bytes) : bool :=
  match path with
  | c :: rest => Ascii.eqb c "/" && forallb url_byte rest
  | [] => false
  end.
Definition query_ok (query : option bytes) : bool :=
  match query with
  | None => true
  | Some q => forallb (λ c, url_byte c || Ascii.eqb c "?") q
  end.
(** A header the parser does not act on: its name is none of [Connection], [Proxy-Connection],
    [Content-Length] and [Upgrade], in any case of the letters, and does not begin as
    [Transfer-Encoding]; its value is not empty and does not begin with a space. *)
Definition value_byte (c : ascii) : bool :=
  IS_HEADER_CHAR c && negb (Ascii.eqb c cr || Ascii.eqb c lf).
Definition lower_name (name : bytes) : bytes := TOKEN <$> name.
Definition special_name (low : bytes) : bool :=
  bool_decide (low ∈ [text "connection"; text "proxy-connection"; text "content-length";
                      text "upgrade"]) ||
  bool_decide (text "transfer-encoding" `prefix_of` low).
Definition name_ok (name : bytes) : bool :=
  forallb is_token name && negb (special_name (lower_name name)).
Definition header_ok (h : bytes * bytes) : bool :=
  match h with
  | (n :: ns, v :: vs) =>
      name_ok (n :: ns) &&
      (value_byte v && negb (Ascii.eqb v " " || Ascii.eqb v tab) && forallb value_byte vs)
  | _ => false
  end.

(** ** Steps of the loop *)

Section Steps.
Context {U : Type}.
Variable settings : http_parser_settings U.
Variable data : bytes.
Variable addr max_header_size : Z.
Hypothesis Hsize : Z.of_nat (length data) ≤ max_header_size < 2 ^ 32.

Abbreviation len := (len data).
Abbreviation exec_loop := (exec_loop settings data addr max_header_size).
Abbreviation exec_byte := (exec_byte settings data addr max_header_size).
Abbreviation exec_state := (exec_state settings data addr max_header_size).

(** The rest of the loop, with the fuel it is given. *)
Definition go (e : exec U) : exec U * option leave := exec_loop (len - v_p (vs e)) e.

Definition next (e : exec U) : exec U := MkExec (ps e) (set_p (v_p (vs e) + 1) (vs e)) (us e).

Lemma loop_more_fuel n k e :
  (v_p (vs e) ≤ len)%nat → (len - v_p (vs e) ≤ n)%nat → exec_loop (n + k) e = exec_loop n e.
Proof.
  revert e. induction n as [|n IH]; intros e Hp Hn.
  - assert (v_p (vs e) = len) as E by lia.
    destruct k; [done|]. cbn. by rewrite E, Nat.eqb_refl.
  - cbn [Nat.add HttpExecute.exec_loop]. destruct (Nat.eqb_spec (v_p (vs e)) len) as [|E]; [done|].
    pose proof (exec_byte_leaves settings data addr max_header_size e ltac:(lia)) as [_ H2].
    destruct (exec_byte e) as [e' [[]|]]; cbn in H2; try done. apply IH; cbn; lia.
Qed.

Lemma go_break e e' :
  (v_p (vs e) < len)%nat → exec_byte e = (e', Some Break) → go e = go (next e').
Proof.
  intros Hp He. unfold go.
  pose proof (exec_byte_leaves settings data addr max_header_size e ltac:(lia)) as [_ H2].
  rewrite He in H2. cbn in H2.
  replace (len - v_p (vs e))%nat with (S (len - v_p (vs e) - 1)) by lia.
  cbn [HttpExecute.exec_loop]. rewrite (proj2 (Nat.eqb_neq _ _)) by lia. rewrite He.
  change (MkExec (ps e') (set_p (v_p (vs e') + 1) (vs e')) (us e')) with (next e').
  replace (len - v_p (vs e) - 1)%nat
    with ((len - v_p (vs (next e'))) + (v_p (vs e') - v_p (vs e)))%nat by (cbn; lia).
  apply loop_more_fuel; cbn; lia.
Qed.

(** Where the loop stands: the offset, the state, the mark that is set, where the URL started,
    what the application has gathered, and what is known of the parser. *)
Record at_point (p : nat) (st : state) (mk : option (data_event * nat)) (um : option nat)
    (u : U) (F : http_parser → Prop) (e : exec U) : Prop := AtPoint {
  pt_p : v_p (vs e) = p;
  pt_nread : 0 ≤ v_nread (vs e) ≤ Z.of_nat p;
  pt_lenient : v_lenient (vs e) = false;
  pt_url : v_url_start_mark (vs e) = um;
  pt_mark : ∀ ev, v_mark (vs e) ev =
              match mk with Some (ev', m) => if decide (ev = ev') then Some m else None | None => None end;
  pt_us : us e = u;
  pt_state : p_state (ps e) = st;
  pt_facts : F (ps e)
}.

(** From one point the loop comes to another. *)
Definition comes_to (P Q : exec U → Prop) : Prop := ∀ e, P e → ∃ e', Q e' ∧ go e = go e'.

Lemma comes_trans P Q R : comes_to P Q → comes_to Q R → comes_to P R.
Proof. intros H1 H2 e He. destruct (H1 e He) as (e1 & He1 & ->). by apply H2. Qed.
Lemma comes_refl P : comes_to P P.
Proof. intros e He. by exists e. Qed.

(** What the step of a byte starts from: the byte read and counted. *)
Record at_byte (p : nat) (st : state) (mk : option (data_event * nat)) (um : option nat)
    (F : http_parser → Prop) (r : http_parser) (v : vars) : Prop := AtByte {
  by_p : v_p v = p;
  by_nread : 0 ≤ v_nread v ≤ Z.of_nat p + 1;
  by_ch : v_ch v = at_ data p;
  by_lenient : v_lenient v = false;
  by_url : v_url_start_mark v = um;
  by_mark : ∀ ev, v_mark v ev =
              match mk with Some (ev', m) => if decide (ev = ev') then Some m else None | None => None end;
  by_state : p_state r = st;
  by_facts : F r
}.

Lemma byte_switch p st mk um u F (Q : exec U → Prop) :
  (p < len)%nat → PARSING_HEADER st = true →
  (∀ r v, at_byte p st mk um F r v →
     wp (exec_switch settings data addr max_header_size max_reexecute)
       (λ e' l, l = Some Break ∧ Q (next e')) (MkExec r v u)) →
  comes_to (at_point p st mk um u F) Q.
Proof.
  intros Hp Hst Hwp [r v u'] [Hvp Hn Hl Hu Hm Hus Hs HF]. cbn in *. subst u'.
  set (n := ((v_nread v + 1 mod 2 ^ 32) mod 2 ^ 32)).
  assert (n = v_nread v + 1) as En by
    (unfold n; change (1 mod 2 ^ 32) with 1; rewrite Z.mod_small; unfold HttpExecute.len in *; lia).
  set (e1 := MkExec r (set_v_nread n (set_ch (at_ data p) v)) u).
  assert (at_byte p st mk um F (ps e1) (vs e1)) as Hb by (constructor; cbn; try done; lia).
  specialize (Hwp _ _ Hb). change (MkExec (ps e1) (vs e1) u) with e1 in Hwp. unfold wp in Hwp.
  assert (exec_byte (MkExec r v u) = exec_switch settings data addr max_header_size max_reexecute e1) as Eb.
  { unfold HttpExecute.exec_byte, seq, with_vars, with_parser, local, COUNT_HEADER_SIZE.
    cbn -[max_reexecute exec_switch]. rewrite Hs, Hst. unfold seq, local, with_vars.
    cbn -[max_reexecute exec_switch].
    change (Z.of_nat 1) with 1. change (Z.pos 1) with 1. fold n. rewrite Hvp.
    rewrite (proj2 (Z.ltb_ge _ _)) by (unfold HttpExecute.len in *; lia). done. }
  destruct Hwp as [Hbr HQ]. eexists. split; [exact HQ|]. apply go_break; [cbn; lia|].
  rewrite Eb. apply injective_projections; [done|exact Hbr].
Qed.

(** One byte: the statements of its state are run. *)
Lemma byte_step p st mk um u F (Q : exec U → Prop) :
  (p < len)%nat → PARSING_HEADER st = true →
  (∀ r v, at_byte p st mk um F r v →
     wp (exec_state st (at_ data p)) (λ e' l, l = Some Break ∧ Q (next e')) (MkExec r v u)) →
  comes_to (at_point p st mk um u F) Q.
Proof.
  intros Hp Hst Hwp. apply byte_switch; [done|done|]. intros r v Hb. specialize (Hwp r v Hb).
  destruct Hb. unfold wp, max_reexecute in *. cbn [exec_switch ps vs]. rewrite by_state0, by_ch0.
  destruct (exec_state _ _ _) as [e' l]. cbn in *. destruct Hwp as [-> HQ]. done.
Qed.

(** A byte that is executed again. *)
Lemma byte_step_re p st mk um u F (Q : exec U → Prop) :
  (p < len)%nat → PARSING_HEADER st = true →
  (∀ r v, at_byte p st mk um F r v →
     wp (exec_state st (at_ data p))
       (λ e1 l, l = Some Reexecute ∧ v_ch (vs e1) = at_ data p ∧
          wp (exec_state (p_state (ps e1)) (at_ data p)) (λ e' l', l' = Some Break ∧ Q (next e')) e1)
       (MkExec r v u)) →
  comes_to (at_point p st mk um u F) Q.
Proof.
  intros Hp Hst Hwp. apply byte_switch; [done|done|]. intros r v Hb. specialize (Hwp r v Hb).
  destruct Hb. unfold wp, max_reexecute in *. cbn [exec_switch ps vs]. rewrite by_state0, by_ch0.
  destruct (exec_state _ _ _) as [e1 l]. cbn in Hwp. destruct Hwp as (-> & Hch & HQ).
  rewrite Hch. destruct (exec_state _ _ e1) as [e' l']. cbn in *. destruct HQ as [-> HQ]. done.
Qed.

(** ** The application

    Its callbacks gather bytes and do not fail; [J] is what they need to hold of its data. *)

Variable gather : data_event → bytes → U → U.
Variable headers_done : http_parser → U → U.
Variable J : U → Prop.
Hypothesis Hbegin : ∀ r u, on_notify settings ev_message_begin r u = (0, r, u).
Hypothesis Hdata : ∀ ev r b u, on_data settings ev r b u = (0, gather ev b u).
Hypothesis Hgather : ∀ ev b u, J u → J (gather ev b u).
Hypothesis Hheaders : ∀ r u, J u → on_headers_complete settings r u = (0, headers_done r u).

Lemma wp_gather ev over er m (Q : exec U → option leave → Prop) r v u :
  p_errno r = CHPE_OK → v_mark v ev = Some m →
  Q (MkExec r (set_mark ev None v)
       (gather ev (take (v_p v + over - m) (drop m data)) u)) None →
  wp (CALLBACK_DATA_ settings data ev over er) Q (MkExec r v u).
Proof.
  intros Ho Hm HQ. unfold wp, CALLBACK_DATA_, return_on_errno, seq, with_parser, skip, leave_by, local.
  cbn. rewrite bool_decide_eq_true_2 by done. cbn. rewrite Hm, Hdata. cbn. by rewrite Ho.
Qed.

Lemma wp_begin er (Q : exec U → option leave → Prop) r v u :
  p_errno r = CHPE_OK → Q (MkExec r v u) None →
  wp (CALLBACK_NOTIFY_ settings ev_message_begin er) Q (MkExec r v u).
Proof.
  intros Ho HQ. unfold wp, CALLBACK_NOTIFY_, return_on_errno, seq, with_parser, skip, leave_by.
  cbn. rewrite bool_decide_eq_true_2 by done. cbn. rewrite Hbegin. cbn. by rewrite Ho.
Qed.

(** What is known of the parser while it reads a plain request. *)
Record plain (m : HTTPMethod) (q major minor : Z) (r : http_parser) : Prop := Plain {
  pl_errno : p_errno r = CHPE_OK;
  pl_flags : flags r = 0;
  pl_length : content_length r = ULLONG_MAX;
  pl_transfer : uses_transfer_encoding r = false;
  pl_method : p_method r = m;
  pl_query : qs_point r = q;
  pl_major : http_major r = major;
  pl_minor : http_minor r = minor;
  pl_lenient : lenient_http_headers r = false
}.

(** *** The method *)

(** How [s_req_method] walks a method's name. *)
Fixpoint walk (m : HTTPMethod) (i : Z) (cs : bytes) : option (HTTPMethod * Z) :=
  match cs with
  | [] => Some (m, i)
  | c :: cs =>
      let matcher := default "" (method_strings !! method_value m) in
      if eqc c nul || (eqc c " " && eqc (c_at matcher i) nul) then None
      else if eqc c (c_at matcher i) then walk m (i + 1) cs
      else if ((char_code "A" <=? char_code c) && (char_code c <=? char_code "Z")) || eqc c "-"
      then match other_method m i c with Some m' => walk m' (i + 1) cs | None => None end
      else None
  end.

Lemma walks m :
  ∃ c cs m', method_text m = c :: cs ∧ IS_ALPHA c = true ∧ first_method c = Some m' ∧
    walk m' 1 cs = Some (m, Z.of_nat (length (method_text m))).
Proof. destruct m; by repeat eexists. Qed.

Lemma at_here pre c rest :
  data = pre ++ c :: rest → at_ data (length pre) = c ∧ (length pre < len)%nat.
Proof.
  intros Hd. unfold at_, HttpExecute.len. rewrite Hd, length_app. split; [|cbn; lia].
  by rewrite app_nth2, Nat.sub_diag by lia.
Qed.

(** Symbolic execution of the statements of a byte that is known. *)
Ltac run_plain :=
  repeat first
    [ progress (cbn [ps vs us])
    | lazymatch goal with
      | |- wp (CALLBACK_NOTIFY _ _) _ _ => unfold CALLBACK_NOTIFY
      | |- wp (CALLBACK_NOTIFY_ _ ev_message_begin _) _ _ => apply wp_begin
      | |- wp (CALLBACK_DATA _ _ _) _ _ => unfold CALLBACK_DATA
      | |- wp (CALLBACK_DATA_ _ _ _ _ _) _ _ => eapply wp_gather
      end
    | wp1 ].

Definition method_at (m : HTTPMethod) (i : Z) (r : http_parser) : Prop :=
  plain m 0 (http_major r) (http_minor r) r ∧ index r = i.

(** The first letter. *)
Lemma step_first pre c rest m u :
  data = pre ++ c :: rest → IS_ALPHA c = true → first_method c = Some m →
  comes_to (at_point (length pre) s_start_req None None u
              (λ r, p_errno r = CHPE_OK ∧ qs_point r = 0 ∧ lenient_http_headers r = false))
    (at_point (length pre + 1) s_req_method None None u (method_at m 1)).
Proof.
  intros Hd Ha Hm. destruct (at_here _ _ _ Hd) as [Hc Hp].
  apply byte_step; [done|done|]. intros r v [Hvp Hn Hch Hl Hu Hmk Hs (Ho & Hq & Hlen)].
  rewrite Hc. cbn [exec_state]. unfold exec_start_req.
  assert (eqc c cr || eqc c lf = false) as ->.
  { apply orb_false_iff. split; apply Ascii.eqb_neq; intros E; by rewrite E in Ha. }
  rewrite Ha, Hm. cbn [negb]. run_plain; try done. split; [done|].
  constructor; cbn; try done; lia.
Qed.

(** The start of a byte's step, and its end. *)
Ltac start_step Hd Hc Hp :=
  destruct (at_here _ _ _ Hd) as [Hc Hp]; apply byte_step; [exact Hp|done|];
  let r := fresh "r" in let v := fresh "v" in
  intros r v [Hvp Hn Hch Hl Hu Hmk Hs HF]; rewrite Hc; cbn [HttpExecute.exec_state].
Ltac end_step := split; [done|]; constructor; cbn; try done; try lia.

(** The other letters. *)
Lemma step_letter pre c rest m i m' u :
  data = pre ++ c :: rest → walk m i [c] = Some (m', i + 1) → 0 ≤ i < 31 →
  comes_to (at_point (length pre) s_req_method None None u (method_at m i))
    (at_point (length pre + 1) s_req_method None None u (method_at m' (i + 1))).
Proof.
  intros Hd Hw Hi. start_step Hd Hc Hp. destruct HF as [[] Hix]. unfold exec_req_method.
  assert ((i + 1) mod 32 = i + 1) as Hmod by (apply Z.mod_small; lia).
  cbn in Hw. destruct (eqc c nul); [done|]. cbn [orb] in Hw.
  apply wp_seq, wp_with_parser. cbv beta zeta. rewrite pl_method0, Hix.
  destruct (eqc c " " && _); [done|].
  destruct (eqc c (c_at _ i)); [|destruct (_ || eqc c "-"); [|done];
    destruct (other_method m i c) as [m1|]; [|done]]; injection Hw as <-; run_plain.
  all: end_step; split; [by constructor|cbn; by rewrite Hix, Hmod].
Qed.

Lemma walk_cons m i c cs :
  walk m i (c :: cs) =
  match walk m i [c] with Some (m1, _) => walk m1 (i + 1) cs | None => None end.
Proof.
  cbn. destruct (_ || _); [done|]. destruct (eqc c _); [done|].
  destruct (_ || _); [|done]. by destruct (other_method _ _ _).
Qed.
Lemma walk_one m i c m1 j : walk m i [c] = Some (m1, j) → j = i + 1.
Proof.
  cbn. destruct (_ || _); [done|]. destruct (eqc c _); [by intros [= ? <-]|].
  destruct (_ || _); [|done]. destruct (other_method _ _ _); [by intros [= ? <-]|done].
Qed.

Lemma step_letters cs pre rest m i m' j u :
  data = pre ++ cs ++ rest → walk m i cs = Some (m', j) →
  0 ≤ i → i + Z.of_nat (length cs) < 32 →
  comes_to (at_point (length pre) s_req_method None None u (method_at m i))
    (at_point (length (pre ++ cs)) s_req_method None None u (method_at m' j)).
Proof.
  revert pre m i. induction cs as [|c cs IH]; intros pre m i Hd Hw Hi Hl.
  - cbn in *. injection Hw as -> ->. rewrite app_nil_r. apply comes_refl.
  - rewrite walk_cons in Hw. destruct (walk m i [c]) as [[m1 i1]|] eqn:E; [|done].
    pose proof (walk_one _ _ _ _ _ E) as ->. cbn [length] in Hl.
    eapply comes_trans; [apply (step_letter pre c (cs ++ rest) m i m1 u Hd E); lia|].
    specialize (IH (pre ++ [c]) m1 (i + 1)). rewrite <- !app_assoc in IH. cbn [app] in IH.
    rewrite length_app in IH. cbn [length] in IH. apply IH; try done; lia.
Qed.

(** The whole method, and the space after it. *)
Lemma step_method pre rest m u :
  data = pre ++ method_text m ++ text " " ++ rest →
  comes_to (at_point (length pre) s_start_req None None u
              (λ r, p_errno r = CHPE_OK ∧ qs_point r = 0 ∧ lenient_http_headers r = false))
    (at_point (length (pre ++ method_text m ++ text " ")) s_req_spaces_before_url None None u
       (λ r, plain m 0 (http_major r) (http_minor r) r)).
Proof.
  intros Hd. destruct (walks m) as (c & cs & m' & Hm & Ha & Hf & Hw).
  assert (length (method_text m) < 16)%nat as Hlen by (destruct m; cbn; lia).
  rewrite Hm in Hd. cbn [app] in Hd.
  eapply comes_trans; [apply (step_first pre c (cs ++ text " " ++ rest) m' u Hd Ha Hf)|].
  assert (data = (pre ++ [c]) ++ cs ++ text " " ++ rest) as Hd1 by (by rewrite <- app_assoc).
  rewrite Hm in Hlen. cbn [length] in Hlen.
  pose proof (step_letters cs (pre ++ [c]) _ m' 1 m _ u Hd1 Hw ltac:(lia) ltac:(lia)) as Hcs.
  rewrite length_app in Hcs. cbn [length] in Hcs. eapply comes_trans; [exact Hcs|].
  assert (data = ((pre ++ [c]) ++ cs) ++ " "%char :: rest) as Hd2 by (by rewrite <- app_assoc).
  replace (length (pre ++ method_text m ++ text " ")) with (length ((pre ++ [c]) ++ cs) + 1)%nat
    by (rewrite Hm; cbn; rewrite !length_app; cbn; rewrite length_app; cbn; lia).
  start_step Hd2 Hc Hp. destruct HF as [[] Hix]. unfold exec_req_method.
  change (eqc " " nul) with false. cbn iota.
  apply wp_seq, wp_with_parser. cbv beta zeta. rewrite pl_method0, Hix.
  assert (eqc " " " " && eqc (c_at (default "" (method_strings !! method_value m))
            (Z.of_nat (length (method_text m)))) nul = true) as -> by (by destruct m).
  run_plain. end_step.
Qed.

(** *** The target *)

(** In the URL that starts at [o]. *)
Definition in_target (o p : nat) (st : state) (u : U) (F : http_parser → Prop) : exec U → Prop :=
  at_point p st (Some (ev_url, o)) (Some o) u F.

Definition target_read (m : HTTPMethod) (q : Z) (r : http_parser) : Prop :=
  plain m q (http_major r) (http_minor r) r.

Lemma step_slash pre rest m u :
  data = pre ++ "/"%char :: rest → m ≠ Connect →
  comes_to (at_point (length pre) s_req_spaces_before_url None None u (target_read m 0))
    (in_target (length pre) (length pre + 1) s_req_path u (target_read m 0)).
Proof.
  intros Hd Hm. start_step Hd Hc Hp. destruct HF. unfold exec_req_spaces_before_url, MARK, MARK_url_start, step_url.
  change (eqc "/" " ") with false. cbn iota. run_plain; cbn; rewrite ?Hmk, ?Hu; cbn; try congruence;
    rewrite ?Hs in *; cbn in *; try done.
  rewrite Hu. end_step; [by rewrite Hvp|].
  intros ev. cbn. by rewrite Hvp, Hmk.
Qed.

Lemma url_byte_inv c :
  url_byte c = true →
  IS_URL_CHAR c = true ∧ eqc c " " = false ∧ eqc c cr = false ∧ eqc c lf = false ∧
  eqc c tab = false ∧ eqc c ff = false.
Proof.
  unfold url_byte. rewrite andb_true_iff, negb_true_iff, !orb_false_iff. unfold eqc. tauto.
Qed.

(** A byte that is read as part of the target. *)
Lemma step_target o pre c rest m q st st' q' u :
  data = pre ++ c :: rest → st' ≠ s_dead →
  eqc c " " = false → eqc c cr = false → eqc c lf = false →
  (∀ r, qs_point r = q → (o ≤ length pre)%nat →
     let '(s, r') := parse_url_char st c (Z.of_nat (length pre) - Z.of_nat o) r in
     s = st' ∧ r' = set_qs_point q' r) →
  (o ≤ length pre)%nat →
  st = s_req_path ∨ st = s_req_query_string_start ∨ st = s_req_query_string →
  comes_to (in_target o (length pre) st u (target_read m q))
    (in_target o (length pre + 1) st' u (target_read m q')).
Proof.
  intros Hd Hd' H1 H2 H3 Hu Ho Hst3.
  assert (∀ r v, v_p v = length pre → 0 ≤ v_nread v ≤ Z.of_nat (length pre) + 1 → v_lenient v = false →
    v_url_start_mark v = Some o →
    (∀ ev, v_mark v ev = if decide (ev = ev_url) then Some o else None) →
    p_state r = st → target_read m q r →
    wp (exec_req_url settings data addr c)
      (λ e' l, l = Some Break ∧ in_target o (length pre + 1) st' u (target_read m q') (next e'))
      (MkExec r v u)) as Hwp.
  { intros r v Hvp Hn Hl Hum Hmk Hs [].
    unfold exec_req_url, step_url. rewrite H1, H2, H3. cbn [orb].
    specialize (Hu r pl_query0 Ho). run_plain; cbn [v_url_start_mark] in *; try rewrite Hum in *;
      rewrite ?Hvp, ?Hs in *; destruct (parse_url_char _ _ _ _) as [s r']; destruct Hu as [-> ->]; [done|].
    end_step. }
  destruct (at_here _ _ _ Hd) as [Hc Hp]. apply byte_step; [exact Hp|by destruct Hst3 as [->|[->| ->]]|].
  intros r v [Hvp Hn Hch Hl Hum Hmk Hs HF]. rewrite Hc.
  destruct Hst3 as [->|[->| ->]]; by apply Hwp.
Qed.

Lemma length_snoc (pre : bytes) c : length (pre ++ [c]) = (length pre + 1)%nat.
Proof. rewrite length_app. done. Qed.

Lemma step_path o cs pre rest m u :
  data = pre ++ cs ++ rest → forallb url_byte cs = true → (o ≤ length pre)%nat →
  comes_to (in_target o (length pre) s_req_path u (target_read m 0))
    (in_target o (length (pre ++ cs)) s_req_path u (target_read m 0)).
Proof.
  revert pre. induction cs as [|c cs IH]; intros pre Hd Hcs Ho.
  - rewrite app_nil_r. apply comes_refl.
  - cbn in Hcs. apply andb_true_iff in Hcs as [Hc Hcs].
    destruct (url_byte_inv _ Hc) as (Hu & H1 & H2 & H3 & H4 & H5).
    eapply comes_trans; [apply (step_target o pre c (cs ++ rest) m 0 s_req_path s_req_path 0); auto; try done|].
    + intros r Hq _. unfold parse_url_char. unfold eqc in *. rewrite H1, H2, H3, H4, H5, Hu. cbn.
      split; [done|]. destruct r. cbn in *. by subst.
    + specialize (IH (pre ++ [c])). rewrite <- app_assoc, length_snoc in IH.
      rewrite <- app_assoc in IH. apply IH; try done. lia.
Qed.

(** The states inside a query. *)
Definition in_query (o p : nat) (u : U) (F : http_parser → Prop) (e : exec U) : Prop :=
  in_target o p s_req_query_string_start u F e ∨ in_target o p s_req_query_string u F e.

Lemma step_query_start o pre rest m u :
  data = pre ++ "?"%char :: rest → (o ≤ length pre)%nat →
  comes_to (in_target o (length pre) s_req_path u (target_read m 0))
    (in_query o (length pre + 1) u (target_read m (Z.of_nat (length pre) - Z.of_nat o))).
Proof.
  intros Hd Ho e He.
  destruct (step_target o pre "?" rest m 0 s_req_path s_req_query_string_start
              (Z.of_nat (length pre) - Z.of_nat o) u Hd) with e as (e' & He' & ->); auto; try done.
  exists e'. split; [by left|done].
Qed.

Lemma step_query o cs pre rest m q u :
  data = pre ++ cs ++ rest → forallb (λ c, url_byte c || Ascii.eqb c "?") cs = true →
  (o ≤ length pre)%nat →
  comes_to (in_query o (length pre) u (target_read m q))
    (in_query o (length (pre ++ cs)) u (target_read m q)).
Proof.
  revert pre. induction cs as [|c cs IH]; intros pre Hd Hcs Ho.
  - rewrite app_nil_r. apply comes_refl.
  - cbn in Hcs. apply andb_true_iff in Hcs as [Hc Hcs].
    assert (eqc c " " = false ∧ eqc c cr = false ∧ eqc c lf = false ∧ eqc c tab = false ∧
            eqc c ff = false ∧ (IS_URL_CHAR c = true ∨ eqc c "?" = true)) as (H1 & H2 & H3 & H4 & H5 & Hu).
    { apply orb_true_iff in Hc as [Hc|Hc].
      - destruct (url_byte_inv _ Hc) as (Hu & H1 & H2 & H3 & H4 & H5). auto 7.
      - apply Ascii.eqb_eq in Hc. rewrite Hc. by repeat split; right. }
    assert (∀ st, st = s_req_query_string_start ∨ st = s_req_query_string →
      comes_to (in_target o (length pre) st u (target_read m q))
        (in_target o (length pre + 1) s_req_query_string u (target_read m q))) as Hst.
    { intros st Hst. apply (step_target o pre c (cs ++ rest) m q st s_req_query_string q); auto; try done.
      intros r Hq _. unfold parse_url_char. unfold eqc in *. rewrite H1, H2, H3, H4, H5. cbn [orb].
      assert (r = set_qs_point q r) as Er by (destruct r; cbn in *; by subst).
      destruct Hst as [->| ->]; destruct Hu as [->| ->]; try done; by destruct (IS_URL_CHAR c). }
    specialize (IH (pre ++ [c])). rewrite <- !app_assoc, length_snoc in IH.
    eapply comes_trans; [|apply IH; try done; lia].
    intros e [He|He]; (edestruct Hst as (e' & He' & ->); [|exact He|exists e'; split; [by right|done]]); auto.
Qed.

(** The whole target. *)
Definition query_point (path : bytes) (query : option bytes) : Z :=
  match query with Some _ => Z.of_nat (length path) | None => 0 end.

Definition end_of_target (o p : nat) (u : U) (F : http_parser → Prop) (e : exec U) : Prop :=
  in_target o p s_req_path u F e ∨ in_query o p u F e.

Lemma step_whole_target pre path query rest m u :
  data = pre ++ print_target path query ++ rest → m ≠ Connect →
  path_ok path = true → query_ok query = true →
  comes_to (at_point (length pre) s_req_spaces_before_url None None u (target_read m 0))
    (end_of_target (length pre) (length (pre ++ print_target path query)) u
       (target_read m (query_point path query))).
Proof.
  intros Hd Hm Hp Hq. unfold print_target in *. destruct path as [|c path]; [done|].
  cbn in Hp. apply andb_true_iff in Hp as [Hc Hp]. apply Ascii.eqb_eq in Hc as ->.
  rewrite <- app_assoc in Hd. cbn [app] in Hd.
  eapply comes_trans; [by eapply step_slash|].
  set (tail := match query with Some q => "?"%char :: q | None => [] end) in *.
  assert (data = (pre ++ ["/"%char]) ++ path ++ tail ++ rest) as Hd1 by (by rewrite <- app_assoc).
  pose proof (step_path (length pre) path (pre ++ ["/"%char]) _ m u Hd1 Hp) as Hpath.
  rewrite length_snoc, <- app_assoc in Hpath.
  eapply comes_trans; [apply Hpath; lia|]. clear Hpath Hd1. cbn [app].
  destruct query as [q|]; cbn [app] in *; unfold tail in *.
  - assert (data = (pre ++ "/"%char :: path) ++ "?"%char :: q ++ rest) as Hd1 by (by rewrite <- app_assoc).
    eapply comes_trans; [apply (step_query_start (length pre) _ _ m u Hd1); rewrite length_app; lia|].
    assert (data = ((pre ++ "/"%char :: path) ++ ["?"%char]) ++ q ++ rest) as Hd2
      by (by rewrite <- !app_assoc).
    pose proof (step_query (length pre) q _ _ m (query_point ("/"%char :: path) (Some q)) u Hd2 Hq)
      as Hqq.
    rewrite length_snoc, <- !app_assoc in Hqq. cbn [app] in Hqq.
    unfold query_point in *. rewrite !length_app in *.
    replace (Z.of_nat (length pre + length ("/"%char :: path)) - Z.of_nat (length pre))
      with (Z.of_nat (length ("/"%char :: path))) by lia.
    intros e He. destruct (Hqq ltac:(lia) e He) as (e' & He' & ->). exists e'. split; [by right|done].
  - rewrite app_nil_r. intros e He. exists e. split; [by left|done].
Qed.

(** The space after the target: the application is given the URL. *)
Lemma take_drop_middle (pre b rest : bytes) :
  take (length (pre ++ b) - length pre) (drop (length pre) (pre ++ b ++ rest)) = b.
Proof.
  rewrite length_app, drop_app_length. replace (length pre + length b - length pre)%nat with (length b) by lia.
  apply take_app_length.
Qed.

Lemma step_target_end pre b rest m q u :
  data = pre ++ b ++ " "%char :: rest →
  comes_to (end_of_target (length pre) (length (pre ++ b)) u (target_read m q))
    (at_point (length (pre ++ b) + 1) s_req_http_start None (Some (length pre))
       (gather ev_url b u) (target_read m q)).
Proof.
  intros Hd. assert (data = (pre ++ b) ++ " "%char :: rest) as Hd1 by (by rewrite <- app_assoc).
  assert (∀ st, st = s_req_path ∨ st = s_req_query_string_start ∨ st = s_req_query_string →
    comes_to (in_target (length pre) (length (pre ++ b)) st u (target_read m q))
      (at_point (length (pre ++ b) + 1) s_req_http_start None (Some (length pre))
         (gather ev_url b u) (target_read m q))) as Hst.
  { intros st Hst. destruct (at_here _ _ _ Hd1) as [Hc Hp].
    apply byte_step; [exact Hp|by destruct Hst as [->|[->| ->]]|].
    intros r v [Hvp Hn Hch Hl Hu Hmk Hs HF]. rewrite Hc.
    assert (exec_state st " " = exec_req_url settings data addr " ") as ->
      by (by destruct Hst as [->|[->| ->]]).
    destruct HF. unfold exec_req_url. change (eqc " " " ") with true. cbn iota. run_plain.
    - done.
    - by rewrite Hmk.
    - run_plain. end_step.
      + intros ev. cbn. rewrite Hmk. by destruct (decide _).
      + rewrite Hvp, Nat.add_0_r. f_equal. rewrite Hd. apply take_drop_middle. }
  intros e [He|[He|He]]; refine (Hst _ _ e He); auto.
Qed.

(** A byte that changes nothing but the parser. *)
Lemma step_const (F F' : http_parser → Prop) pre c rest st st' um u :
  data = pre ++ c :: rest → PARSING_HEADER st = true →
  (∀ r v, p_state r = st → F r → wp (exec_state st c)
     (λ e' l, l = Some Break ∧ vs e' = v ∧ us e' = u ∧ p_state (ps e') = st' ∧ F' (ps e'))
     (MkExec r v u)) →
  comes_to (at_point (length pre) st None um u F) (at_point (length (pre ++ [c])) st' None um u F').
Proof.
  intros Hd Hst Hwp. destruct (at_here _ _ _ Hd) as [Hc Hp]. apply byte_step; [exact Hp|done|].
  intros r v [Hvp Hn Hch Hl Hu Hmk Hs HF]. rewrite Hc.
  eapply wp_mono; [apply (Hwp r v Hs HF)|]. intros [r' v' u'] l (-> & Hv' & Hu' & Hs' & HF'). cbn in *.
  subst v' u'. rewrite length_snoc. end_step.
Qed.

Ltac const_step st' F' :=
  eapply comes_trans;
    [ eapply (step_const _ F' _ _ _ _ st');
      [eassumption | done
      | let r := fresh in let v := fresh in let HF := fresh in intros r v ? HF; destruct HF; cbn [HttpExecute.exec_state];
        unfold exec_req_http_start, exec_req_http_H, exec_req_http_HT, exec_req_http_HTT,
          exec_req_http_HTTP, exec_req_http_major, exec_req_http_dot, exec_req_http_minor,
          exec_req_http_end, exec_req_line_almost_done, STRICT_CHECK;
        run_plain; try done; repeat split; cbn; done ]
    | match goal with H : data = ?pre ++ ?c :: ?rest |- _ =>
        change (c :: rest) with ([c] ++ rest) in H; rewrite app_assoc in H end ].

Lemma step_version pre rest m q um u :
  data = pre ++ text "HTTP/1.1" ++ eol ++ rest →
  comes_to (at_point (length pre) s_req_http_start None um u (target_read m q))
    (at_point (length (pre ++ text "HTTP/1.1" ++ eol)) s_header_field_start None um u (plain m q 1 1)).
Proof.
  intros Hd. cbn [text list_ascii_of_string eol app] in Hd.
  const_step s_req_http_H (target_read m q).
  const_step s_req_http_HT (target_read m q).
  const_step s_req_http_HTT (target_read m q).
  const_step s_req_http_HTTP (target_read m q).
  const_step s_req_http_major (target_read m q).
  const_step s_req_http_dot (λ r, plain m q 1 (http_minor r) r).
  const_step s_req_http_minor (λ r, plain m q 1 (http_minor r) r).
  const_step s_req_http_end (plain m q 1 1).
  const_step s_req_line_almost_done (plain m q 1 1).
  const_step s_header_field_start (plain m q 1 1).
  rewrite <- !app_assoc. apply comes_refl.
Qed.

(** *** Headers *)

Definition general (F : http_parser → Prop) (r : http_parser) : Prop :=
  F r ∧ header_state r = h_general.

Lemma is_token_eqc c : is_token c = true → eqc (TOKEN c) nul = false.
Proof. unfold is_token, eqc. by rewrite negb_true_iff. Qed.
Lemma is_token_not_eol c : is_token c = true → eqc c cr = false ∧ eqc c lf = false ∧ eqc c " " = false ∧ eqc c tab = false.
Proof. intros Hc. repeat split; apply Ascii.eqb_neq; intros E; by rewrite E in Hc. Qed.

(** The tokens after a byte are skipped together. *)
Lemma skip_tokens_all pre c toks rest :
  data = pre ++ c :: toks ++ ":"%char :: rest → forallb is_token toks = true →
  skip_tokens data (length toks + S (length rest)) (length pre) = (length pre + length toks)%nat.
Proof.
  revert pre c. induction toks as [|t toks IH]; intros pre c Hd Ht.
  - assert (data = (pre ++ [c]) ++ ":"%char :: rest) as Hd1 by (by rewrite <- app_assoc).
    destruct (at_here _ _ _ Hd1) as [Hc _]. rewrite length_snoc in Hc.
    cbn [length Nat.add skip_tokens]. rewrite Hc. change (is_token ":") with false. cbn. lia.
  - cbn in Ht. apply andb_true_iff in Ht as [Ht1 Ht2].
    assert (data = (pre ++ [c]) ++ t :: toks ++ ":"%char :: rest) as Hd1 by (by rewrite <- app_assoc).
    destruct (at_here _ _ _ Hd1) as [Hc _]. rewrite length_snoc in Hc.
    cbn [length Nat.add skip_tokens]. rewrite Hc, Ht1.
    rewrite <- (length_snoc pre c). rewrite (IH (pre ++ [c]) t Hd1 Ht2), length_snoc. lia.
Qed.

(** The loop over a name that is not looked at stops at the colon. *)
Lemma field_loop_colon fuel pre rest r v (u : U) :
  data = pre ++ ":"%char :: rest → v_p v = length pre →
  header_field_loop data max_header_size (S fuel) (MkExec r v u) = (MkExec r (set_ch ":" v) u, None).
Proof.
  intros Hd Hv. destruct (at_here _ _ _ Hd) as [Hc Hp]. cbn [header_field_loop].
  unfold with_vars. cbn [vs]. rewrite (proj2 (Nat.eqb_neq _ _)) by lia. rewrite Hv, Hc. done.
Qed.

Lemma field_loop_name fuel pre toks rest r v (u : U) :
  data = pre ++ toks ++ ":"%char :: rest → forallb is_token toks = true →
  v_p v = length pre → header_state r = h_general → (2 ≤ fuel)%nat →
  header_field_loop data max_header_size fuel (MkExec r v u) =
  (MkExec r (set_ch ":" (set_p (length pre + length toks) v)) u, None).
Proof.
  intros Hd Ht Hv Hh Hf. destruct fuel as [|fuel]; [lia|]. destruct toks as [|t toks].
  { cbn [app length] in *. rewrite (field_loop_colon _ _ _ _ _ _ Hd Hv), Nat.add_0_r, <- Hv. done. }
  cbn [app] in Hd. destruct (at_here _ _ _ Hd) as [Hc Hp].
  cbn [forallb] in Ht. apply andb_true_iff in Ht as [Ht1 Ht2].
  cbn [header_field_loop]. unfold with_vars at 1. cbn [vs].
  rewrite (proj2 (Nat.eqb_neq _ _)) by lia. rewrite Hv, Hc. unfold seq, local at 1. cbn [vs ps us].
  rewrite (is_token_eqc _ Ht1). unfold header_field_char, with_parser, local. cbn [ps vs us v_p set_ch].
  rewrite Hh. cbn [ps vs us v_p set_p set_ch]. rewrite ?Hv.
  assert (pe_of data max_header_size (length pre) - (length pre + 1) = length toks + S (length rest))%nat as ->.
  { unfold pe_of, HttpExecute.len in *. rewrite Z.min_l by lia. rewrite Hd, !length_app. cbn. rewrite length_app. cbn. lia. }
  rewrite (skip_tokens_all _ _ _ _ Hd Ht2).
  assert (data = (pre ++ t :: toks) ++ ":"%char :: rest) as Hd1 by (by rewrite <- app_assoc).
  destruct fuel as [|fuel]; [lia|].
  rewrite (field_loop_colon _ _ _ _ _ _ Hd1); cbn [v_p set_p]; [|rewrite length_app; cbn; lia].
  do 2 f_equal. unfold set_ch, set_p. cbn. f_equal. lia.
Qed.

Lemma wp_value (s : stmt (U:=U)) (Q : exec U → option leave → Prop) e e' l :
  s e = (e', l) → Q e' l → wp s Q e.
Proof. unfold wp. by intros ->. Qed.

Lemma wp_count n (Q : exec U → option leave → Prop) r v u :
  0 ≤ v_nread v → v_nread v + Z.of_nat n ≤ Z.of_nat len →
  Q (MkExec r (set_v_nread (v_nread v + Z.of_nat n) v) u) None →
  wp (COUNT_HEADER_SIZE max_header_size n) Q (MkExec r v u).
Proof.
  intros H1 H2 HQ. unfold wp, COUNT_HEADER_SIZE, seq, local, with_vars. cbn.
  unfold HttpExecute.len in *. rewrite (Z.mod_small (Z.of_nat n)) by lia. rewrite Z.mod_small by lia.
  rewrite (proj2 (Z.ltb_ge _ _)) by lia. exact HQ.
Qed.

(** *** Names

    What the parser has recognised after the characters [low] of a name, in lower case. *)
Definition matching (lit : string) (i : Z) (low : bytes) : Prop :=
  low = take (length low) (text lit) ∧ (length low < length (text lit))%nat ∧
  i = Z.of_nat (length low) - 1.
Definition recognised (st : header_states) (i : Z) (low : bytes) : Prop :=
  match st with
  | h_general => True
  | h_C => low = text "c" ∧ i = 0
  | h_CO => low = text "co" ∧ i = 1
  | h_CON => low = text "con" ∧ i = 2
  | h_matching_connection => matching "connection" i low
  | h_matching_proxy_connection => matching "proxy-connection" i low
  | h_matching_content_length => matching "content-length" i low
  | h_matching_transfer_encoding => matching "transfer-encoding" i low
  | h_matching_upgrade => matching "upgrade" i low
  | h_connection => low = text "connection" ∨ low = text "proxy-connection"
  | h_content_length => low = text "content-length"
  | h_upgrade => low = text "upgrade"
  | _ => False
  end.
Definition named (F : http_parser → Prop) (low : bytes) (r : http_parser) : Prop :=
  F r ∧ recognised (header_state r) (index r) low.

(** The states in which the value of a header does not matter. *)
Definition quiet (st : header_states) : Prop :=
  match st with
  | h_general | h_C | h_CO | h_CON | h_matching_connection | h_matching_proxy_connection
  | h_matching_content_length | h_matching_transfer_encoding | h_matching_upgrade => True
  | _ => False
  end.

Lemma recognised_quiet st i low : recognised st i low → special_name low = false → quiet st.
Proof.
  intros Hr [Hs _]%orb_false_iff. apply bool_decide_eq_false_1 in Hs. rewrite !elem_of_cons in Hs.
  destruct st; try done; cbn in Hr; tauto.
Qed.

Lemma c_at_text lit i : c_at lit (Z.of_nat i) = default nul (text lit !! i).
Proof.
  unfold c_at. rewrite Nat2Z.id. f_equal. revert i.
  induction lit as [|c lit IH]; intros [|i]; cbn; auto.
Qed.

(** One more character compared with a literal. *)
Lemma match_literal_step lit low c i (stay full : header_states) :
  matching lit i low → c ≠ nul →
  let st := match_literal lit (i + 1) c h_general stay full in
  st = h_general ∨ (st = full ∧ low ++ [c] = text lit) ∨
  (st = stay ∧ matching lit (i + 1) (low ++ [c])).
Proof.
  intros (Hl & Hlt & ->) Hc. unfold match_literal. replace (_ - 1 + 1) with (Z.of_nat (length low)) by lia.
  assert (Z.of_nat (String.length lit) = Z.of_nat (length (text lit))) as ->
    by (f_equal; clear; induction lit; cbn; by f_equal).
  rewrite c_at_text. destruct (text lit !! length low) as [x|] eqn:Ex;
    [|apply lookup_ge_None in Ex; lia]. cbn [default from_option id].
  destruct (_ || _) eqn:E; [by left|]. right. apply orb_false_iff in E as [_ E].
  apply negb_false_iff, Ascii.eqb_eq in E. subst x.
  assert (low ++ [c] = take (S (length low)) (text lit)) as Hs
    by (rewrite (take_S_r _ _ c Ex); by rewrite <- Hl).
  destruct (Z.eqb_spec (Z.of_nat (length low)) (Z.of_nat (length (text lit)) - 1)).
  - left. split; [done|]. rewrite Hs. apply take_ge. lia.
  - right. split; [done|]. unfold matching. rewrite length_app. cbn [length].
    rewrite Nat.add_1_r. repeat split; [done|lia..].
Qed.

Lemma not_nul c : is_token c = true → TOKEN c ≠ nul.
Proof. unfold is_token. rewrite negb_true_iff. intros E. by apply Ascii.eqb_neq. Qed.

Lemma token_not_space c : is_token c = true → eqc c " " = false.
Proof. intros Hc. by destruct (is_token_not_eol c Hc) as (_ & _ & H & _). Qed.

Lemma plain_scratch m q ma mi st i r :
  plain m q ma mi r → plain m q ma mi (set_header_state st (set_index i r)).
Proof. intros []. by constructor. Qed.
Lemma plain_header_state m q ma mi st r : plain m q ma mi r → plain m q ma mi (set_header_state st r).
Proof. intros []. by constructor. Qed.

(** One character of a name. *)
Lemma name_char m q low c r v (u : U) :
  named (plain m q 1 1) low r → header_state r ≠ h_general → low ≠ [] →
  is_token c = true → ¬ text "transfer-encoding" `prefix_of` low ++ [TOKEN c] →
  ∃ r', header_field_char data max_header_size c (TOKEN c) (MkExec r v u) = (MkExec r' v u, None) ∧
    named (plain m q 1 1) (low ++ [TOKEN c]) r'.
Proof.
  intros [HF Hr] Hg Hl Ht Hte. pose proof (not_nul c Ht) as Hn.
  pose proof (token_not_space c Ht) as Hsp.
  unfold header_field_char, with_parser. cbn [ps].
  assert (∀ lit stay full, header_state r = stay → matching lit (index r) low →
    (length (text lit) ≤ 31)%nat →
    (low ++ [TOKEN c] = text lit → recognised full (index r + 1) (low ++ [TOKEN c])) →
    (∀ i, matching lit i (low ++ [TOKEN c]) → recognised stay i (low ++ [TOKEN c])) →
    named (plain m q 1 1) (low ++ [TOKEN c]) (match_header lit (TOKEN c) full r)) as Hlit.
  { intros lit stay full Es Hm Hlen Hfull Hstay. split; [by apply plain_scratch|].
    unfold match_header. cbn [header_state set_header_state index set_index]. rewrite Es.
    rewrite (Z.mod_small (index r + 1) 32) by (destruct Hm as (_ & ? & ->); lia).
    destruct (match_literal_step lit low (TOKEN c) (index r) stay full Hm Hn)
      as [E|[(E & El)|(E & El)]]; cbv zeta in E; rewrite E; [done|by apply Hfull|by apply Hstay]. }
  destruct (header_state r) eqn:Es; try done; cbn [recognised] in Hr.
  - unfold assign. cbn [ps vs us]. eexists. split; [reflexivity|].
    split; [by apply plain_scratch|]. cbn. destruct Hr as [-> ->]. unfold eqc.
    by destruct (Ascii.eqb_spec (TOKEN c) "o") as [->|].
  - unfold assign. cbn [ps vs us]. eexists. split; [reflexivity|].
    split; [by apply plain_scratch|]. cbn. destruct Hr as [-> ->]. unfold eqc.
    by destruct (Ascii.eqb_spec (TOKEN c) "n") as [->|].
  - unfold assign. cbn [ps vs us]. eexists. split; [reflexivity|].
    split; [by apply plain_scratch|]. cbn. destruct Hr as [-> ->]. unfold eqc.
    destruct (Ascii.eqb_spec (TOKEN c) "n") as [->|]; [by repeat split; cbn; try lia|].
    destruct (Ascii.eqb_spec (TOKEN c) "t") as [->|]; [by repeat split; cbn; try lia|done].
  - eexists. split; [reflexivity|]. apply (Hlit _ h_matching_connection); try done; [cbn; lia|]. intros ->. by left.
  - eexists. split; [reflexivity|]. apply (Hlit _ h_matching_proxy_connection); try done; [cbn; lia|].
    intros ->. by right.
  - eexists. split; [reflexivity|]. apply (Hlit _ h_matching_content_length); try done. cbn. lia.
  - unfold seq, assign. cbn [ps vs us].
    pose proof (Hlit "transfer-encoding" h_matching_transfer_encoding h_transfer_encoding eq_refl Hr
                  ltac:(cbn; lia)) as Hm.
    destruct Hm as [HF' Hr']; [|done|].
    { intros E. destruct Hte. rewrite E. done. }
    destruct (decide _) as [E|]; [by rewrite E in Hr'|]. eexists. split; [reflexivity|done].
  - eexists. split; [reflexivity|]. apply (Hlit _ h_matching_upgrade); try done. cbn. lia.
  - rewrite Hsp. cbn [negb]. unfold assign. cbn [ps vs us]. eexists. split; [reflexivity|].
    split; [by apply plain_header_state|done].
  - rewrite Hsp. cbn [negb]. unfold assign. cbn [ps vs us]. eexists. split; [reflexivity|].
    split; [by apply plain_header_state|done].
  - rewrite Hsp. cbn [negb]. unfold assign. cbn [ps vs us]. eexists. split; [reflexivity|].
    split; [by apply plain_header_state|done].
Qed.

Lemma app_snoc {A} (l : list A) x r : l ++ x :: r = (l ++ [x]) ++ r.
Proof. by rewrite <- app_assoc. Qed.

(** The loop over a name, from one of its characters on. *)
Lemma field_loop_named m q pre toks rest r v (u : U) low fuel :
  data = pre ++ toks ++ ":"%char :: rest → forallb is_token toks = true → v_p v = length pre →
  named (plain m q 1 1) low r → low ≠ [] →
  ¬ text "transfer-encoding" `prefix_of` low ++ (TOKEN <$> toks) →
  (length toks + 1 < fuel)%nat →
  ∃ r', header_field_loop data max_header_size fuel (MkExec r v u) =
    (MkExec r' (set_ch ":" (set_p (length pre + length toks) v)) u, None) ∧
    named (plain m q 1 1) (low ++ (TOKEN <$> toks)) r'.
Proof.
  revert pre r v low fuel.
  induction toks as [|t toks IH]; intros pre r v low fuel Hd Ht Hv Hr Hl Hte Hf.
  { destruct fuel as [|fuel]; [lia|]. cbn [app fmap list_fmap length] in *. exists r.
    rewrite (field_loop_colon _ _ _ _ _ _ Hd Hv), !app_nil_r, Nat.add_0_r, <- Hv. done. }
  destruct (decide (header_state r = h_general)) as [Eg|Eg].
  { exists r. rewrite (field_loop_name _ _ _ _ _ _ _ Hd Ht Hv Eg) by lia. split; [done|].
    destruct Hr as [HF _]. split; [done|]. by rewrite Eg. }
  pose proof Ht as Ht0. cbn [forallb] in Ht. apply andb_true_iff in Ht as [Ht1 Ht2].
  rewrite fmap_cons, app_snoc in Hte.
  destruct (name_char m q low t r (set_ch t v) u Hr Eg Hl Ht1) as (r1 & E1 & Hr1).
  { intros Hp. apply Hte. by apply prefix_app_r. }
  assert (data = (pre ++ [t]) ++ toks ++ ":"%char :: rest) as Hd1 by (by rewrite <- app_assoc).
  cbn [app] in Hd. destruct (at_here _ _ _ Hd) as [Hc Hp].
  destruct fuel as [|fuel]; [lia|].
  destruct (IH (pre ++ [t]) r1 (set_p (v_p v + 1) (set_ch t v)) (low ++ [TOKEN t]) fuel) as (r2 & E2 & Hr2);
    try done.
  { cbn. rewrite length_snoc. lia. }
  { by intros [_ ?]%app_eq_nil. }
  { cbn [length] in Hf. lia. }
  exists r2. rewrite fmap_cons, app_snoc. split; [|done].
  cbn [header_field_loop]. unfold with_vars at 1. cbn [vs].
  rewrite (proj2 (Nat.eqb_neq _ _)) by lia. rewrite Hv, Hc. unfold seq, local at 1. cbn [vs ps us].
  rewrite (is_token_eqc _ Ht1), E1. unfold local. cbn [vs ps us v_p set_ch]. rewrite E2.
  f_equal. f_equal. unfold set_ch, set_p. cbn. f_equal. rewrite length_snoc. lia.
Qed.

(** A name, up to its colon. *)
Lemma step_name_start pre n rest um u m q :
  data = pre ++ n :: rest → is_token n = true →
  ∀ r v, at_byte (length pre) s_header_field_start None um (plain m q 1 1) r v →
  wp (exec_header_field_start n)
    (λ e' l, l = Some Break ∧
       at_point (length (pre ++ [n])) s_header_field (Some (ev_header_field, length pre)) um u
         (named (plain m q 1 1) [TOKEN n]) (next e')) (MkExec r v u).
Proof.
  intros Hd Ht r v [Hvp Hnr Hch Hl Hu Hmk Hs HFr].
  destruct (is_token_not_eol n Ht) as (H1 & H2 & _).
  unfold exec_header_field_start, MARK. rewrite H1, H2, (is_token_eqc _ Ht).
  run_plain. cbn. rewrite Hmk. rewrite length_snoc. end_step.
  - intros ev. cbn. by rewrite Hvp, Hmk.
  - split; [by destruct HFr|]. cbn. unfold eqc.
    repeat match goal with
    | |- context [Ascii.eqb ?a ?b] => destruct (Ascii.eqb_spec a b) as [->|]
    end; by repeat split; cbn; try lia.
Qed.

(** After a name the parser does not act on. *)
Definition unmarked (F : http_parser → Prop) (r : http_parser) : Prop := F r ∧ quiet (header_state r).

Lemma step_name o pre ns rest um u m q :
  data = (pre ++ o :: ns) ++ ":"%char :: rest → forallb is_token ns = true →
  special_name (lower_name (o :: ns)) = false →
  comes_to (at_point (length (pre ++ [o])) s_header_field (Some (ev_header_field, length pre)) um u
              (named (plain m q 1 1) [TOKEN o]))
    (at_point (length (pre ++ o :: ns) + 1) s_header_value_discard_ws None um
       (gather ev_header_field (o :: ns) u) (unmarked (plain m q 1 1))).
Proof.
  intros Hd Ht Hsp.
  assert (data = (pre ++ [o]) ++ ns ++ ":"%char :: rest) as Hd1 by (rewrite Hd, <- !app_assoc; done).
  destruct (at_here _ _ _ Hd) as [_ Hp].
  assert (length (pre ++ o :: ns) = length (pre ++ [o]) + length ns)%nat as El
    by (rewrite !length_app; cbn; lia).
  apply byte_step; [lia|done|]. intros r v [Hvp Hn Hch Hl Hu Hmk Hs HF].
  cbn [HttpExecute.exec_state]. unfold exec_header_field.
  apply wp_with_vars. cbv beta zeta. apply wp_seq.
  pose proof Hsp as Hte. unfold special_name in Hte. apply orb_false_iff in Hte as [_ Hte].
  apply bool_decide_eq_false_1 in Hte.
  destruct (field_loop_named m q _ _ _ r v u [TOKEN o] len Hd1 Ht Hvp HF) as (r' & Er & Hr'); try done.
  { unfold HttpExecute.len. rewrite Hd1, !length_app. cbn. lia. }
  eapply wp_value; [exact Er|].
  destruct Hr' as [HF' Hrec]. apply recognised_quiet in Hrec; [|exact Hsp].
  unfold then_. apply wp_with_vars. cbn [v_p vs set_ch set_p]. rewrite <- El.
  rewrite (proj2 (Nat.eqb_neq _ _)) by lia. apply wp_seq, wp_count; cbn [v_nread set_ch set_p]; [lia|lia|].
  unfold then_ at 1. cbn [v_ch set_ch]. change (eqc ":" ":") with true. cbn iota.
  destruct HF'. run_plain; [done|cbn; by rewrite Hmk|]. run_plain. end_step.
  - intros ev. cbn. rewrite Hmk. by destruct (decide _).
  - f_equal. rewrite Nat.add_0_r, Hd, <- app_assoc. apply take_drop_middle.
Qed.

Lemma value_byte_inv c :
  value_byte c = true → IS_HEADER_CHAR c = true ∧ eqc c cr = false ∧ eqc c lf = false.
Proof. unfold value_byte. rewrite andb_true_iff, negb_true_iff, orb_false_iff. unfold eqc. tauto. Qed.

Lemma step_value_start pre c rest um u m q :
  data = pre ++ c :: rest → value_byte c = true → eqc c " " = false → eqc c tab = false →
  comes_to (at_point (length pre) s_header_value_discard_ws None um u (unmarked (plain m q 1 1)))
    (at_point (length (pre ++ [c])) s_header_value (Some (ev_header_value, length pre)) um u
       (general (plain m q 1 1))).
Proof.
  intros Hd Hv H1 H2. destruct (value_byte_inv c Hv) as (_ & H3 & H4).
  start_step Hd Hc Hp. destruct HF as [HF Hg].
  unfold exec_header_value_discard_ws, exec_header_value_start, MARK. rewrite H1, H2, H3, H4. cbn [orb].
  destruct (header_state r) eqn:Es; try done; run_plain; cbn in *; try congruence;
    rewrite Hmk, length_snoc; end_step; try (split; [by destruct HF|done]);
    intros ev; cbn; by rewrite Hvp, Hmk.
Qed.

(** The rest of a value is skipped together, up to the byte before its end. *)
Lemma skip_value_all pre bs rest r v (u : U) :
  data = pre ++ bs ++ cr :: rest → forallb value_byte bs = true →
  v_p v = length pre → v_lenient v = false →
  skip_value data (length bs + S (length rest)) (MkExec r v u) =
  (MkExec r (set_p (length pre + length bs - 1) (set_ch cr v)) u, None).
Proof.
  revert pre v. induction bs as [|c bs IH]; intros pre v Hd Hbs Hvp Hl.
  - cbn [app length Nat.add] in *. destruct (at_here _ _ _ Hd) as [Hc _].
    cbn [skip_value]. unfold with_vars, seq, local. cbn [vs ps us]. rewrite Hvp, Hc.
    change (eqc cr cr) with true. cbn. by rewrite Nat.add_0_r.
  - cbn [app forallb] in *. apply andb_true_iff in Hbs as [Hv Hbs].
    destruct (value_byte_inv c Hv) as (H1 & H2 & H3). destruct (at_here _ _ _ Hd) as [Hc _].
    cbn [length Nat.add skip_value]. unfold with_vars, seq, local. cbn [vs ps us].
    rewrite Hvp, Hc, H1, H2, H3, Hl. cbn [orb andb negb]. cbn [vs ps us].
    assert (data = (pre ++ [c]) ++ bs ++ cr :: rest) as Hd1 by (by rewrite <- app_assoc).
    rewrite (IH (pre ++ [c]) (set_p (length pre + 1) (set_ch c v)) Hd1 Hbs); cbn; try done.
    + do 2 f_equal. unfold set_p, set_ch. cbn. f_equal. rewrite length_snoc. lia.
    + by rewrite length_snoc.
Qed.

(** The loop over a value, from one of its bytes or its end on. *)
Lemma value_loop_end fuel start pre rest (Q : exec U → option leave → Prop) r v u o :
  data = pre ++ cr :: rest → v_p v = length pre → p_errno r = CHPE_OK →
  v_mark v ev_header_value = Some o → v_h_state v = h_general →
  Q (MkExec (set_header_state h_general (set_state s_header_almost_done r))
       (set_mark ev_header_value None (set_ch cr v))
       (gather ev_header_value (take (length pre - o) (drop o data)) u)) None →
  wp (header_value_loop settings data max_header_size start (S fuel)) Q (MkExec r v u).
Proof.
  intros Hd Hvp Ho Hmk Hh HQ. destruct (at_here _ _ _ Hd) as [Hc Hp].
  cbn [header_value_loop]. apply wp_with_vars. rewrite (proj2 (Nat.eqb_neq _ _)) by lia.
  cbv beta zeta. rewrite Hvp, Hc. change (eqc cr cr) with true. cbn iota. unfold store_h_state.
  run_plain; [done|cbn; exact Hmk|]. cbn. by rewrite Hvp, Hh, Nat.add_0_r.
Qed.

Lemma value_loop_all fuel start pre bs rest (Q : exec U → option leave → Prop) r v u o :
  data = pre ++ bs ++ cr :: rest → forallb value_byte bs = true → (2 ≤ fuel)%nat →
  v_p v = length pre → p_errno r = CHPE_OK → v_lenient v = false →
  v_mark v ev_header_value = Some o → v_h_state v = h_general →
  Q (MkExec (set_header_state h_general (set_state s_header_almost_done r))
       (set_mark ev_header_value None (set_ch cr (set_p (length pre + length bs) v)))
       (gather ev_header_value (take (length pre + length bs - o) (drop o data)) u)) None →
  wp (header_value_loop settings data max_header_size start fuel) Q (MkExec r v u).
Proof.
  intros Hd Hbs Hf Hvp Ho Hl Hmk Hh HQ. destruct fuel as [|fuel]; [lia|]. destruct bs as [|c bs].
  { cbn [app length] in *. eapply value_loop_end; try done. rewrite Nat.add_0_r, <- Hvp in HQ.
    rewrite <- Hvp. exact HQ. }
  cbn [app forallb] in *. apply andb_true_iff in Hbs as [Hv Hbs].
  destruct (value_byte_inv c Hv) as (H1 & H2 & H3). destruct (at_here _ _ _ Hd) as [Hc Hp].
  cbn [header_value_loop]. apply wp_with_vars. rewrite (proj2 (Nat.eqb_neq _ _)) by lia.
  cbv beta zeta. rewrite Hvp, Hc, H1, H2, H3, Hl. cbn [orb andb negb].
  apply wp_seq, wp_local. unfold then_ at 1. apply wp_seq. unfold header_value_char.
  apply wp_with_vars. cbn [v_h_state set_ch v_p]. rewrite Hh, Hvp. apply wp_seq.
  assert (data = (pre ++ [c]) ++ bs ++ cr :: rest) as Hd1 by (by rewrite <- app_assoc).
  assert (pe_of data max_header_size (length pre) - length pre = length (c :: bs) + S (length rest))%nat as ->.
  { unfold pe_of, HttpExecute.len in *. rewrite Z.min_l by lia. rewrite Hd, !length_app. cbn.
    rewrite length_app. cbn. lia. }
  eapply wp_value.
  { apply (skip_value_all pre (c :: bs) rest); [exact Hd|cbn; by rewrite Hv|exact Hvp|exact Hl]. }
  assert (length pre + length (c :: bs) < len)%nat as Hlt.
  { unfold HttpExecute.len. rewrite Hd, length_app. cbn. rewrite length_app. cbn. lia. }
  unfold then_ at 1. unfold step_back. apply wp_local. cbn [v_p set_p].
  rewrite (proj2 (Nat.eqb_neq _ _)) by lia.
  unfold then_ at 1. apply wp_seq, wp_local. unfold then_ at 1. cbn [v_p set_p].
  destruct fuel as [|fuel]; [lia|].
  assert (data = (pre ++ c :: bs) ++ cr :: rest) as Hd2 by (by rewrite <- app_assoc).
  eapply (value_loop_end _ _ _ _ _ _ _ _ o Hd2); cbn; try done.
  - rewrite length_app. cbn. lia.
  - rewrite length_app. replace (length pre + S (length bs) - 1 + 1)%nat
      with (length pre + length (c :: bs))%nat by (cbn; lia). exact HQ.
Qed.

Lemma step_value pre o bs rest um u m q :
  data = (pre ++ o :: bs) ++ cr :: rest → forallb value_byte bs = true →
  comes_to (at_point (length (pre ++ [o])) s_header_value (Some (ev_header_value, length pre)) um u
              (general (plain m q 1 1)))
    (at_point (length (pre ++ o :: bs) + 1) s_header_almost_done None um
       (gather ev_header_value (o :: bs) u) (general (plain m q 1 1))).
Proof.
  intros Hd Hbs.
  assert (data = (pre ++ [o]) ++ bs ++ cr :: rest) as Hd1 by (rewrite Hd, <- !app_assoc; done).
  destruct (at_here _ _ _ Hd) as [_ Hp].
  assert (length (pre ++ o :: bs) = length (pre ++ [o]) + length bs)%nat as El
    by (rewrite !length_app; cbn; lia).
  apply byte_step; [lia|done|]. intros r v [Hvp Hn Hch Hl Hu Hmk Hs [HF Hg]].
  cbn [HttpExecute.exec_state]. unfold exec_header_value, store_h_state, step_back.
  apply wp_with_vars. cbv beta zeta. apply wp_seq, wp_with_parser. unfold set_h. apply wp_local.
  unfold then_ at 1. apply wp_seq.
  eapply (value_loop_all _ _ _ _ _ _ _ _ _ (length pre) Hd1 Hbs); cbn; try done.
  - unfold HttpExecute.len. rewrite Hd1, !length_app. cbn. lia.
  - by destruct HF.
  - apply wp_seq, wp_with_vars, wp_assign. unfold then_ at 1.
    apply wp_seq, wp_local. unfold then_ at 1. cbn [v_p set_mark set_ch set_p]. rewrite <- El.
    rewrite (proj2 (Nat.eqb_neq _ _)) by lia.
    apply wp_seq, wp_with_vars. cbn [v_p set_mark set_ch set_p].
    apply wp_count; cbn; [lia|lia|]. apply wp_leave. destruct HF. end_step.
    + intros ev. cbn. rewrite Hmk. by destruct (decide _).
    + f_equal. rewrite Hd, <- app_assoc. apply take_drop_middle.
Qed.

(** At the start of a line: after the request line, or after a header. *)
Definition at_line (p : nat) (um : option nat) (u : U) (m : HTTPMethod) (q : Z) (e : exec U) : Prop :=
  at_point p s_header_field_start None um u (plain m q 1 1) e ∨
  at_point p s_header_value_lws None um u (general (plain m q 1 1)) e.

Lemma line_step pre c rest um u m q (Q : exec U → Prop) :
  data = pre ++ c :: rest → eqc c " " = false → eqc c tab = false →
  (∀ r v, at_byte (length pre) s_header_field_start None um (plain m q 1 1) r v →
     wp (exec_header_field_start c) (λ e' l, l = Some Break ∧ Q (next e')) (MkExec r v u)) →
  comes_to (at_line (length pre) um u m q) Q.
Proof.
  intros Hd H1 H2 HQ. destruct (at_here _ _ _ Hd) as [Hc Hp].
  intros e [He|He].
  - revert e He. apply byte_step; [exact Hp|done|]. intros r v Hb. rewrite Hc. by apply HQ.
  - revert e He. apply byte_step_re; [exact Hp|done|].
    intros r v [Hvp Hn Hch Hl Hu Hmk Hs [HF Hg]]. rewrite Hc.
    cbn [HttpExecute.exec_state]. unfold exec_header_value_lws. rewrite H1, H2. cbn [orb].
    run_plain; try congruence. split; [done|]. cbn. split; [by rewrite Hch|].
    apply HQ. constructor; try done. by destruct HF.
Qed.

Definition gather_header (u : U) (h : bytes * bytes) : U :=
  gather ev_header_value h.2 (gather ev_header_field h.1 u).

Lemma step_header pre h rest um u m q :
  data = pre ++ print_header h ++ rest → header_ok h = true →
  comes_to (at_line (length pre) um u m q)
    (at_line (length (pre ++ print_header h)) um (gather_header u h) m q).
Proof.
  destruct h as [[|n ns] [|c bs]]; try done. intros Hd Hok. unfold print_header in *. cbn [fst snd] in *.
  unfold header_ok, name_ok in Hok. cbn [fst snd forallb] in Hok.
  rewrite !andb_true_iff, !negb_true_iff, orb_false_iff in Hok.
  destruct Hok as ([[Hn Hns] Hspec] & [Hv [Hsp Htab]] & Hbs).
  destruct (is_token_not_eol n Hn) as (_ & _ & H1 & H2).
  cbn [text list_ascii_of_string] in *. unfold eol in *.
  rewrite <- !app_assoc in Hd. cbn [app] in Hd.
  eapply comes_trans; [eapply line_step; [exact Hd|exact H1|exact H2|]|].
  { intros r v Hb. by eapply step_name_start. }
  assert (data = (pre ++ n :: ns) ++ ":"%char :: " "%char :: (c :: bs) ++ cr :: lf :: rest) as Hd1
    by (by rewrite <- app_assoc).
  eapply comes_trans; [by eapply step_name|].
  set (pre1 := pre ++ n :: ns) in *.
  assert (data = (pre1 ++ [":"%char]) ++ " "%char :: (c :: bs) ++ cr :: lf :: rest) as Hd2
    by (by rewrite <- app_assoc).
  rewrite <- (length_snoc pre1 ":").
  eapply comes_trans.
  { eapply (step_const _ (unmarked (plain m q 1 1)) _ _ _ _ s_header_value_discard_ws); [exact Hd2|done|].
    intros r v Hs HF. cbn [HttpExecute.exec_state]. unfold exec_header_value_discard_ws.
    change (eqc " " " " || eqc " " tab) with true. cbn iota. run_plain. by destruct HF. }
  set (pre2 := (pre1 ++ [":"%char]) ++ [" "%char]) in *.
  assert (data = pre2 ++ c :: bs ++ cr :: lf :: rest) as Hd3
    by (unfold pre2; by rewrite <- app_assoc).
  eapply comes_trans; [by eapply step_value_start|].
  assert (data = (pre2 ++ c :: bs) ++ cr :: lf :: rest) as Hd4 by (by rewrite <- app_assoc).
  eapply comes_trans; [by eapply step_value|].
  assert (data = ((pre2 ++ c :: bs) ++ [cr]) ++ lf :: rest) as Hd5 by (by rewrite <- app_assoc).
  rewrite <- (length_snoc (pre2 ++ c :: bs) cr).
  eapply comes_trans.
  { eapply (step_const _ (general (plain m q 1 1)) _ _ _ _ s_header_value_lws); [exact Hd5|done|].
    intros r v Hs [[] Hg]. cbn [HttpExecute.exec_state]. unfold exec_header_almost_done.
    run_plain; [done|]. by repeat split. }
  assert (((pre2 ++ c :: bs) ++ [cr]) ++ [lf] =
          pre ++ (n :: ns) ++ [":"; " "]%char ++ (c :: bs) ++ [cr; lf]) as ->
    by (unfold pre2, pre1; rewrite <- !app_assoc; done).
  intros e He. exists e. split; [by right|done].
Qed.

Lemma step_headers pre hs rest um u m q :
  data = pre ++ concat (print_header <$> hs) ++ rest → forallb header_ok hs = true →
  comes_to (at_line (length pre) um u m q)
    (at_line (length (pre ++ concat (print_header <$> hs))) um (fold_left gather_header hs u) m q).
Proof.
  revert pre u. induction hs as [|h hs IH]; intros pre u Hd Hok.
  - cbn in *. rewrite app_nil_r. apply comes_refl.
  - cbn in Hok. apply andb_true_iff in Hok as [Hh Hok]. cbn [fmap list_fmap concat] in *.
    rewrite <- app_assoc in Hd. eapply comes_trans; [by eapply step_header|].
    rewrite app_assoc in Hd. specialize (IH (pre ++ print_header h) (gather_header u h) Hd Hok).
    rewrite <- app_assoc in IH. exact IH.
Qed.

(** *** The end of the message *)

Definition message_read (m : HTTPMethod) (q : Z) (r : http_parser) : Prop :=
  plain m q 1 1 r ∧ p_upgrade r = false.

Lemma step_last_cr pre um u m q :
  data = pre ++ eol →
  comes_to (at_line (length pre) um u m q)
    (at_point (length (pre ++ [cr])) s_headers_almost_done None um u (plain m q 1 1)).
Proof.
  intros Hd. eapply line_step; [exact Hd|done|done|].
  intros r v [Hvp Hn Hch Hl Hu Hmk Hs HF]. unfold exec_header_field_start.
  change (eqc cr cr) with true. cbn iota. run_plain. rewrite length_snoc. end_step. by destruct HF.
Qed.

(** The parser in the last two callbacks. *)
Definition at_headers_complete (r : http_parser) : http_parser :=
  set_upgrade false (set_state s_headers_done r).
Definition at_message_complete (r : http_parser) : http_parser := set_nread 0 (at_headers_complete r).

Lemma wp_headers_done (Q : exec U → option leave → Prop) r v u :
  J u → Q (MkExec r v (headers_done r u)) None →
  wp (call_headers_complete settings) Q (MkExec r v u).
Proof. intros HJ HQ. unfold wp, call_headers_complete. cbn. by rewrite Hheaders. Qed.

Lemma wp_message_complete (Q : exec U → option leave → Prop) r v u r2 u2 er :
  p_errno r = CHPE_OK → on_notify settings ev_message_complete r u = (0, r2, u2) →
  p_errno r2 = CHPE_OK → Q (MkExec r2 v u2) None →
  wp (CALLBACK_NOTIFY_ settings ev_message_complete er) Q (MkExec r v u).
Proof.
  intros Ho Hn Ho2 HQ. unfold wp, CALLBACK_NOTIFY_, return_on_errno, seq, with_parser, skip, leave_by.
  cbn. rewrite bool_decide_eq_true_2 by done. cbn. rewrite Hn. cbn. by rewrite Ho2.
Qed.

(** After the last byte, [on_message_complete] leaves the parser as [r2] and its data as [u2]. *)
Lemma last_byte pre um u m q r r2 u2 :
  data = pre ++ [lf] → m ≠ Connect → J u → plain m q 1 1 r →
  on_notify settings ev_message_complete (at_message_complete r)
    (headers_done (at_headers_complete r) u) = (0, r2, u2) →
  p_errno r2 = CHPE_OK →
  comes_to (at_point (length pre) s_headers_almost_done None um u (λ r', r' = r))
    (λ e, ps e = r2 ∧ us e = u2 ∧ v_p (vs e) = len ∧ v_nread (vs e) = 0 ∧
          ∀ ev, v_mark (vs e) ev = None).
Proof.
  intros Hd Hm HJ Hr Hn Ho2. destruct (at_here _ _ _ Hd) as [Hc Hp].
  apply byte_step_re; [exact Hp|done|]. intros r' v [Hvp Hnr Hch Hl Hu Hmk Hs ->]. rewrite Hc.
  cbn [HttpExecute.exec_state]. unfold exec_headers_almost_done, STRICT_CHECK.
  change (negb (eqc lf lf)) with false. cbn iota. destruct Hr.
  apply wp_seq, wp_skip. unfold then_ at 1. apply wp_with_parser. rewrite pl_flags0.
  change (has_flag 0 F_TRAILING) with false. cbn iota. apply wp_seq.
  unfold check_lengths. apply wp_with_vars, wp_with_parser. rewrite pl_transfer0. cbn [andb].
  apply wp_skip. unfold then_ at 1. apply wp_seq, wp_assign. unfold then_ at 1.
  apply wp_seq, wp_assign. unfold then_ at 1. cbn [flags p_method set_state].
  rewrite pl_flags0, pl_method0. change (has_flag 0 F_UPGRADE) with false.
  rewrite bool_decide_eq_false_2 by done. cbn [orb].
  change (set_upgrade false (set_state s_headers_done r)) with (at_headers_complete r).
  apply wp_seq, wp_headers_done; [done|]. unfold then_ at 1.
  apply wp_seq, wp_with_parser. rewrite decide_True by done. apply wp_skip. unfold then_ at 1.
  apply wp_leave. split; [done|]. split; [cbn; congruence|].
  cbn [p_state ps at_headers_complete set_upgrade set_state HttpExecute.exec_state].
  unfold exec_headers_done, STRICT_CHECK, reset_nread. change (negb (eqc lf lf)) with false. cbn iota.
  apply wp_seq, wp_skip. unfold then_ at 1. apply wp_seq, wp_seq, wp_assign. unfold then_ at 1.
  apply wp_local. unfold then_ at 1. apply wp_with_vars, wp_with_parser.
  change (set_nread 0 (at_headers_complete r)) with (at_message_complete r).
  cbn [p_upgrade at_message_complete at_headers_complete set_nread set_upgrade]. apply wp_seq.
  change (flags (at_message_complete r)) with (flags r). rewrite pl_flags0.
  change (has_flag 0 F_SKIPBODY) with false. change (has_flag 0 F_CHUNKED) with false. cbn iota.
  change (uses_transfer_encoding (at_message_complete r)) with (uses_transfer_encoding r).
  change (content_length (at_message_complete r)) with (content_length r).
  rewrite pl_transfer0, pl_length0. cbn iota. change (ULLONG_MAX =? 0) with false.
  change (negb (ULLONG_MAX =? ULLONG_MAX)) with false. cbn iota.
  unfold CALLBACK_NOTIFY. apply wp_with_vars.
  eapply wp_message_complete; [done|exact Hn|done|]. unfold then_ at 1. apply wp_leave.
  split; [done|]. cbn. repeat split; try done. rewrite Hvp. unfold HttpExecute.len.
  rewrite Hd, length_app. done.
Qed.

(** ** The whole request *)

Definition gather_request (path : bytes) (query : option bytes) (hs : list (bytes * bytes)) (u : U) : U :=
  fold_left gather_header hs (gather ev_url (print_target path query) u).

Lemma gather_headers_J hs u : J u → J (fold_left gather_header hs u).
Proof. revert u. induction hs as [|h hs IH]; intros u Hu; [done|]. apply IH. by do 2 apply Hgather. Qed.

(** A parser at the start of a message. *)
Definition at_start (r : http_parser) : Prop :=
  p_errno r = CHPE_OK ∧ p_state r = s_start_req ∧ p_nread r = 0 ∧ qs_point r = 0 ∧
  lenient_http_headers r = false.

Lemma comes_to_end m path query hs u :
  data = print_request m path query hs → m ≠ Connect → path_ok path = true →
  query_ok query = true → forallb header_ok hs = true →
  ∃ pre, data = pre ++ [lf] ∧
  comes_to (at_point 0 s_start_req None None u (λ r, p_errno r = CHPE_OK ∧ qs_point r = 0 ∧ lenient_http_headers r = false))
    (at_point (length pre) s_headers_almost_done None (Some (length (method_text m ++ text " ")))
       (gather_request path query hs u) (plain m (query_point path query) 1 1)).
Proof.
  intros Hd Hm Hp Hq Hh. unfold print_request in Hd.
  pose proof (step_method [] _ m u Hd) as H1. cbn [app length] in H1.
  rewrite app_assoc in Hd. set (pre1 := method_text m ++ text " ") in *.
  pose proof (step_whole_target pre1 path query _ m u Hd Hm Hp Hq) as H2.
  pose proof (step_target_end pre1 (print_target path query) _ m (query_point path query) u Hd) as H3.
  change (text " HTTP/1.1" ++ ?x) with ([" "%char] ++ text "HTTP/1.1" ++ x) in Hd.
  rewrite app_assoc, app_assoc in Hd. set (pre2 := (pre1 ++ print_target path query) ++ [" "%char]) in *.
  rewrite <- (length_snoc (pre1 ++ print_target path query) " ") in H3. fold pre2 in H3.
  pose proof (step_version pre2 _ m (query_point path query) (Some (length pre1))
                (gather ev_url (print_target path query) u) Hd) as H4.
  rewrite (app_assoc (text "HTTP/1.1")), app_assoc in Hd.
  set (pre3 := pre2 ++ text "HTTP/1.1" ++ eol) in *.
  pose proof (step_headers pre3 hs eol (Some (length pre1)) (gather ev_url (print_target path query) u)
                m (query_point path query) Hd Hh) as H5.
  rewrite app_assoc in Hd. set (pre4 := pre3 ++ concat (print_header <$> hs)) in *.
  pose proof (step_last_cr pre4 (Some (length pre1)) (gather_request path query hs u) m
                (query_point path query) Hd) as H6.
  exists (pre4 ++ [cr]). split; [rewrite Hd, <- app_assoc; done|].
  eapply comes_trans; [exact H1|]. eapply comes_trans; [exact H2|]. eapply comes_trans; [exact H3|].
  eapply comes_trans; [exact H4|].
  assert (comes_to (at_point (length pre3) s_header_field_start None (Some (length pre1))
            (gather ev_url (print_target path query) u) (plain m (query_point path query) 1 1))
           (at_line (length pre3) (Some (length pre1)) (gather ev_url (print_target path query) u) m
              (query_point path query))) as H45.
  { intros e He. exists e. split; [by left|done]. }
  eapply comes_trans; [exact H45|]. eapply comes_trans; [exact H5|exact H6].
Qed.

Lemma no_mark_no_callback ev r v u :
  p_errno r = CHPE_OK → v_mark v ev = None →
  CALLBACK_DATA_NOADVANCE settings data ev (MkExec r v u) = (MkExec r v u, None).
Proof.
  intros Ho Hm. unfold CALLBACK_DATA_NOADVANCE, CALLBACK_DATA_, seq, with_vars, with_parser, assert.
  cbn. rewrite bool_decide_eq_true_2 by done. cbn. by rewrite Hm.
Qed.

Lemma execute_end_no_marks r v u :
  p_errno r = CHPE_OK → (∀ ev, v_mark v ev = None) →
  execute_end settings data (MkExec r v u) = (MkExec (set_nread (v_nread v) r) v u, Some (Return len)).
Proof.
  intros Ho Hm. unfold execute_end, seq, with_vars. unfold one_mark. cbn [List.filter vs].
  rewrite !Hm. cbn [length Nat.leb bool_decide]. rewrite !bool_decide_eq_false_2 by (by intros []).
  cbn [length Nat.leb]. unfold assert, skip.
  by rewrite !no_mark_no_callback by done.
Qed.

Lemma parse_request r u m path query hs :
  data = print_request m path query hs → m ≠ Connect → path_ok path = true →
  query_ok query = true → forallb header_ok hs = true → at_start r → J u →
  ∃ r', plain m (query_point path query) 1 1 r' ∧
    ∀ r2 u2,
      on_notify settings ev_message_complete (at_message_complete r')
        (headers_done (at_headers_complete r') (gather_request path query hs u)) = (0, r2, u2) →
      p_errno r2 = CHPE_OK →
      http_parser_execute settings data addr max_header_size r u = (set_nread 0 r2, u2, Parsed len).
Proof.
  intros Hd Hm Hp Hq Hh (Ho & Hs & Hn & Hqs & Hl) HJ.
  destruct (comes_to_end m path query hs u Hd Hm Hp Hq Hh) as (pre & Hd2 & Hend).
  set (e0 := MkExec r (initial_vars r) u).
  assert (at_point 0 s_start_req None None u (λ r, p_errno r = CHPE_OK ∧ qs_point r = 0 ∧ lenient_http_headers r = false) e0) as He0.
  { constructor; cbn; try done; [rewrite Hn; lia|]. intros ev. rewrite Hs. by destruct ev. }
  destruct (Hend e0 He0) as (e1 & He1 & Hgo1). exists (ps e1). split; [apply He1|].
  intros r2 u2 Hnotify Ho2.
  assert (J (gather_request path query hs u)) as HJ2 by (apply gather_headers_J; by apply Hgather).
  destruct (last_byte pre (Some (length (method_text m ++ text " "))) _ m _ (ps e1) r2 u2 Hd2 Hm HJ2
              (pt_facts _ _ _ _ _ _ _ He1) Hnotify Ho2) with e1 as (e2 & (E1 & E2 & E3 & E4 & E5) & Hgo2).
  { destruct He1. by constructor. }
  unfold http_parser_execute. rewrite decide_False by (by intros []).
  assert (len ≠ 0%nat) as Hlen by (unfold HttpExecute.len; rewrite Hd2, length_app; cbn; lia).
  rewrite (proj2 (Nat.eqb_neq _ _) Hlen). fold e0. unfold execute_bytes.
  assert (exec_loop len e0 = (e2, None)) as ->.
  { assert (go e0 = exec_loop len e0) as <- by (unfold go; cbn; by rewrite Nat.sub_0_r).
    rewrite Hgo1, Hgo2. unfold go. rewrite E3, Nat.sub_diag. cbn. by rewrite E3, Nat.eqb_refl. }
  destruct e2 as [r3 v3 u3]. cbn in E1, E2, E3, E4, E5. subst r3 u3.
  rewrite execute_end_no_marks by done. cbn. by rewrite E4.
Qed.
End Steps.
