(* ===== verification/Sha1.v ===== *)
(** * SHA-1

    lib/crowapi/crow_all.h, [sha1::SHA1], which the handshake of a WebSocket uses: the digest, the
    block that is being filled and the counters, byte by byte as the code updates them, and the
    definition of the hash function it computes, on whole messages, as FIPS 180-4 gives it.  A
    [uint32_t] is an integer below 2^32, a [uint8_t] one below 256; reading an array outside of
    its bounds, or where it has not been written, has no value. *)

From Stdlib Require Import ZArith Lia Ascii String.
From stdpp Require Import base tactics option strings list.
From S2P Require Import Prelude.
From S2P Require Import CppStd.
From S2P Require Import QueryString.

Local Open Scope Z_scope.

(** ** Words *)

(** The range of a [uint32_t] and of a [uint8_t]. *)
Definition in_word (z : Z) : Prop := 0 ≤ z < 2 ^ 32.
Definition in_byte (z : Z) : Prop := 0 ≤ z < 256.

Definition word (z : Z) : Z := z mod 2 ^ 32.
Definition add32 (a b : Z) : Z := word (a + b).
(** [~b] *)
Definition not32 (a : Z) : Z := Z.lxor a (2 ^ 32 - 1).

Definition LeftRotate (value count : Z) : Z :=
  Z.lxor (word (Z.shiftl value count)) (Z.shiftr value (32 - count)).

(** ** The state *)

Record SHA1 : Type := MkSHA1 {
  m_digest : list Z;
  m_block : list Z;
  m_blockByteIndex : Z;
  m_byteCount : Z
}.

Definition initial_digest : list Z :=
  [1732584193; 4023233417; 2562383102; 271733878; 3285377520].

Definition reset (s : SHA1) : SHA1 := MkSHA1 initial_digest (m_block s) 0 0.

(** The constructor: [m_block] is not initialised, it holds any bytes. *)
Definition new_SHA1 (garbage : list Z) : SHA1 := reset (MkSHA1 [] garbage 0 0).

(** ** processBlock() *)

(** [w[0..15]], the big-endian words of the block. *)
Definition block_word (block : list Z) (i : nat) : option Z :=
  b0 ← block !! (i * 4 + 0)%nat;
  b1 ← block !! (i * 4 + 1)%nat;
  b2 ← block !! (i * 4 + 2)%nat;
  b3 ← block !! (i * 4 + 3)%nat;
  Some (Z.lor (Z.lor (Z.lor (word (Z.shiftl b0 24)) (Z.shiftl b1 16)) (Z.shiftl b2 8)) b3).

Fixpoint load_words (block : list Z) (i n : nat) : option (list Z) :=
  match n with
  | O => Some []
  | S n => x ← block_word block i; rest ← load_words block (S i) n; Some (x :: rest)
  end.

(** [w[16..79]]: the array grows by the word that is written. *)
Fixpoint extend_words (n : nat) (w : list Z) : option (list Z) :=
  match n with
  | O => Some w
  | S n =>
      let i := length w in
      x3 ← w !! (i - 3)%nat;
      x8 ← w !! (i - 8)%nat;
      x14 ← w !! (i - 14)%nat;
      x16 ← w !! (i - 16)%nat;
      extend_words n (w ++ [LeftRotate (Z.lxor (Z.lxor (Z.lxor x3 x8) x14) x16) 1])
  end.

Definition message_schedule (block : list Z) : option (list Z) :=
  w ← load_words block 0 16;
  extend_words 64 w.

Record registers : Type := MkRegisters { r_a : Z; r_b : Z; r_c : Z; r_d : Z; r_e : Z }.

Definition round_f (i : nat) (b c d : Z) : Z :=
  if (i <? 20)%nat then Z.lor (Z.land b c) (Z.land (not32 b) d)
  else if (i <? 40)%nat then Z.lxor (Z.lxor b c) d
  else if (i <? 60)%nat then Z.lor (Z.lor (Z.land b c) (Z.land b d)) (Z.land c d)
  else Z.lxor (Z.lxor b c) d.

Definition round_k (i : nat) : Z :=
  if (i <? 20)%nat then 1518500249
  else if (i <? 40)%nat then 1859775393
  else if (i <? 60)%nat then 2400959708
  else 3395469782.

Definition round (i : nat) (wi : Z) (r : registers) : registers :=
  let temp :=
    word (LeftRotate (r_a r) 5 + round_f i (r_b r) (r_c r) (r_d r) + r_e r + round_k i + wi) in
  MkRegisters temp (r_a r) (LeftRotate (r_b r) 30) (r_c r) (r_d r).

Fixpoint rounds (i n : nat) (w : list Z) (r : registers) : option registers :=
  match n with
  | O => Some r
  | S n => wi ← w !! i; rounds (S i) n w (round i wi r)
  end.

Definition processBlock (s : SHA1) : option SHA1 :=
  w ← message_schedule (m_block s);
  match m_digest s with
  | [h0; h1; h2; h3; h4] =>
      r ← rounds 0 80 w (MkRegisters h0 h1 h2 h3 h4);
      Some (MkSHA1 [add32 h0 (r_a r); add32 h1 (r_b r); add32 h2 (r_c r); add32 h3 (r_d r);
                    add32 h4 (r_e r)]
              (m_block s) (m_blockByteIndex s) (m_byteCount s))
  | _ => None
  end.

(** ** Bytes *)

Definition processByte (octet : Z) (s : SHA1) : option SHA1 :=
  if (0 <=? m_blockByteIndex s) && (m_blockByteIndex s <? Z.of_nat (length (m_block s))) then
    let s := MkSHA1 (m_digest s) (<[Z.to_nat (m_blockByteIndex s) := octet]> (m_block s))
               (m_blockByteIndex s + 1) ((m_byteCount s + 1) mod 2 ^ 64) in
    if m_blockByteIndex s =? 64
    then processBlock (MkSHA1 (m_digest s) (m_block s) 0 (m_byteCount s))
    else Some s
  else None.

(** [processBlock(start, end)] and [processBytes(data, len)] *)
Fixpoint processBytes (data : list Z) (s : SHA1) : option SHA1 :=
  match data with
  | [] => Some s
  | octet :: data => s ← processByte octet s; processBytes data s
  end.

(** [while (cond(m_blockByteIndex)) processByte(0)] *)
Fixpoint zero_while (fuel : nat) (cond : Z → bool) (s : SHA1) : option SHA1 :=
  if cond (m_blockByteIndex s) then
    match fuel with
    | O => None
    | S fuel => s ← processByte 0 s; zero_while fuel cond s
    end
  else Some s.

(** [static_cast<unsigned char>((x >> n) & 0xFF)] *)
Definition byte_at (x n : Z) : Z := Z.land (Z.shiftr x n) 255.

Definition getDigest (s : SHA1) : option (list Z * SHA1) :=
  let bitCount := (m_byteCount s * 8) mod 2 ^ 64 in
  s ← processByte 128 s;
  s ← (if 56 <? m_blockByteIndex s then
         s ← zero_while 64 (λ i, negb (i =? 0)) s;
         zero_while 64 (λ i, i <? 56) s
       else zero_while 64 (λ i, i <? 56) s);
  s ← processBytes [0; 0; 0; 0] s;
  s ← processBytes [byte_at bitCount 24; byte_at bitCount 16; byte_at bitCount 8;
                    byte_at bitCount 0] s;
  Some (m_digest s, s).

Definition getDigestBytes (s : SHA1) : option (list Z * SHA1) :=
  '(d32, s) ← getDigest s;
  Some (d32 ≫= λ d, [byte_at d 24; byte_at d 16; byte_at d 8; byte_at d 0], s).

(** [SHA1 s; s.processBytes(data); s.getDigestBytes(digest);] *)
Definition sha1_of (garbage : list Z) (data : list Z) : option (list Z) :=
  s ← processBytes data (new_SHA1 garbage);
  fst <$> getDigestBytes s.

(** ** FIPS 180-4

    The hash function on a whole message: padding, blocks of sixteen words, the schedule as a
    sliding window, and the functions of the standard. *)

Module Fips.

Definition ROTL (n x : Z) : Z := (x * 2 ^ n) mod 2 ^ 32 + x / 2 ^ (32 - n).
Definition Ch (x y z : Z) : Z := Z.lxor (Z.land x y) (Z.land (2 ^ 32 - 1 - x) z).
Definition Parity (x y z : Z) : Z := Z.lxor (Z.lxor x y) z.
Definition Maj (x y z : Z) : Z :=
  Z.lxor (Z.lxor (Z.land x y) (Z.land x z)) (Z.land y z).

Definition f (t : nat) : Z → Z → Z → Z :=
  if (t <=? 19)%nat then Ch
  else if (t <=? 39)%nat then Parity
  else if (t <=? 59)%nat then Maj
  else Parity.
Definition K (t : nat) : Z :=
  if (t <=? 19)%nat then 0x5a827999
  else if (t <=? 39)%nat then 0x6ed9eba1
  else if (t <=? 59)%nat then 0x8f1bbcdc
  else 0xca62c1d6.

(** The bytes of an integer of [n] bytes, the most significant first, and back. *)
Fixpoint big_endian (n : nat) (x : Z) : list Z :=
  match n with
  | O => []
  | S n => big_endian n (x / 256) ++ [x mod 256]
  end.
Definition of_big_endian (b : list Z) : Z := fold_left (λ acc x, 256 * acc + x) b 0.

Fixpoint groups (fuel n : nat) (l : list Z) : list (list Z) :=
  match fuel, l with
  | O, _ | _, [] => []
  | S fuel, _ => take n l :: groups fuel n (drop n l)
  end.

(** The message, a one bit, as few zeros as it takes, and its length in bits. *)
Definition padding (len : Z) : list Z :=
  128 :: repeat 0 (Z.to_nat ((55 - len) mod 64)) ++ big_endian 8 (8 * len).
Definition padded (message : list Z) : list Z :=
  message ++ padding (Z.of_nat (length message)).
Definition parse (m : list Z) : list (list Z) := groups (length m) 64 m.

Definition words (block : list Z) : list Z := of_big_endian <$> groups 16 4 block.

(** One step of the computation of a block: the window holds W_t, ..., W_(t+15). *)
Definition next_word (window : list Z) : Z :=
  match window with
  | [w0; _; w2; _; _; _; _; _; w8; _; _; _; _; w13; _; _] =>
      ROTL 1 (Z.lxor w13 (Z.lxor w8 (Z.lxor w2 w0)))
  | _ => 0
  end.
Definition step (t : nat) (W : Z) (h : registers) : registers :=
  let 'MkRegisters a b c d e := h in
  MkRegisters ((ROTL 5 a + f t b c d + e + K t + W) mod 2 ^ 32) a (ROTL 30 b) c d.
Fixpoint steps (n t : nat) (window : list Z) (h : registers) : registers :=
  match n with
  | O => h
  | S n =>
      steps n (S t) (tail window ++ [next_word window]) (step t (hd 0 window) h)
  end.

Definition compress (h : registers) (block : list Z) : registers :=
  let r := steps 80 0 (words block) h in
  MkRegisters ((r_a r + r_a h) mod 2 ^ 32) ((r_b r + r_b h) mod 2 ^ 32)
    ((r_c r + r_c h) mod 2 ^ 32) ((r_d r + r_d h) mod 2 ^ 32) ((r_e r + r_e h) mod 2 ^ 32).

Definition H0 : registers :=
  MkRegisters 0x67452301 0xefcdab89 0x98badcfe 0x10325476 0xc3d2e1f0.

Definition registers_bytes (h : registers) : list Z :=
  big_endian 4 (r_a h) ++ big_endian 4 (r_b h) ++ big_endian 4 (r_c h) ++ big_endian 4 (r_d h)
    ++ big_endian 4 (r_e h).

Definition sha1 (message : list Z) : list Z :=
  registers_bytes (fold_left compress (parse (padded message)) H0).

End Fips.

Definition octets (s : string) : list Z := char_code <$> list_ascii_of_string s.

Example abc_of_the_standard :
  Fips.sha1 (octets "abc") =
  [0xa9; 0x99; 0x3e; 0x36; 0x47; 0x06; 0x81; 0x6a; 0xba; 0x3e; 0x25; 0x71; 0x78; 0x50; 0xc2;
   0x6c; 0x9c; 0xd0; 0xd8; 0x9d].
Proof. vm_compute. reflexivity. Qed.

Example abc_computed : sha1_of (repeat 7 64) (octets "abc") = Some (Fips.sha1 (octets "abc")).
Proof. vm_compute. reflexivity. Qed.
