(* ===== verification/Sha1Facts.v ===== *)
(** * SHA-1 computes the hash function of the standard

    The word operations of the code are those of FIPS 180-4 (rotations, Ch, Maj, big-endian
    words); the array of the schedule holds the words of the sliding window; the block that is
    being filled, the counters and the padding loops follow the padded message. *)

From Stdlib Require Import ZArith Lia Ascii String.
From stdpp Require Import base tactics option strings list.
From S2P Require Import Prelude.
From S2P Require Import CppStd.
From S2P Require Import QueryString.
From S2P Require Import Sha1.

Local Open Scope Z_scope.

Ltac range_lia := unfold in_word, in_byte in *; lia.

(** ** Words *)

Lemma bits_above n x i : 0 ≤ x < 2 ^ n → 0 ≤ n → n ≤ i → Z.testbit x i = false.
Proof.
  intros R N I. rewrite <- (Z.mod_small x (2 ^ n)) by done. by apply Z.mod_pow2_bits_high.
Qed.

Lemma lxor_word a b : in_word a → in_word b → in_word (Z.lxor a b).
Proof.
  intros A B.
  assert (Z.lxor a b = Z.lxor a b mod 2 ^ 32) as ->;
    [|unfold in_word; apply Z.mod_pos_bound; lia].
  apply Z.bits_inj'. intros i I. destruct (Z.lt_ge_cases i 32) as [L|L].
  - by rewrite Z.mod_pow2_bits_low.
  - rewrite Z.mod_pow2_bits_high, Z.lxor_spec by lia.
    by rewrite (bits_above 32 a), (bits_above 32 b) by range_lia.
Qed.

(** An or of numbers without common bits is a sum. *)
Lemma lor_add n k b : 0 ≤ n → 0 ≤ b < 2 ^ n → Z.lor (k * 2 ^ n) b = k * 2 ^ n + b.
Proof.
  intros N B. rewrite Z.add_nocarry_lxor.
  - apply Z.bits_inj'. intros i I. rewrite Z.lor_spec, Z.lxor_spec.
    destruct (Z.lt_ge_cases i n) as [L|L].
    + by rewrite Z.mul_pow2_bits_low.
    + rewrite (bits_above n b) by lia. by destruct (Z.testbit _ i).
  - apply Z.bits_inj'. intros i I. rewrite Z.land_spec, Z.bits_0.
    destruct (Z.lt_ge_cases i n) as [L|L].
    + by rewrite Z.mul_pow2_bits_low.
    + rewrite (bits_above n b) by lia. by rewrite andb_false_r.
Qed.

Lemma LeftRotate_ROTL x n : in_word x → 0 ≤ n ≤ 32 → LeftRotate x n = Fips.ROTL n x.
Proof.
  intros X N. unfold LeftRotate, Fips.ROTL, word.
  rewrite Z.shiftl_mul_pow2, Z.shiftr_div_pow2 by lia.
  symmetry. apply Z.add_nocarry_lxor.
  apply Z.bits_inj'. intros i I. rewrite Z.land_spec, Z.bits_0.
  destruct (Z.lt_ge_cases i n) as [L|L].
  - by rewrite Z.mod_pow2_bits_low, Z.mul_pow2_bits_low by lia.
  - rewrite Z.div_pow2_bits by lia. rewrite (bits_above 32 x) by range_lia.
    by rewrite andb_false_r.
Qed.

Lemma word_range z : in_word (word z).
Proof. apply Z.mod_pos_bound. lia. Qed.

Lemma LeftRotate_word x n : in_word x → 0 ≤ n ≤ 32 → in_word (LeftRotate x n).
Proof.
  intros X N. apply lxor_word; [apply word_range|].
  rewrite Z.shiftr_div_pow2 by lia.
  assert (0 < 2 ^ (32 - n)) by (apply Z.pow_pos_nonneg; lia).
  split; [apply Z.div_pos; range_lia|]. apply Z.div_lt_upper_bound; [done|].
  apply Z.lt_le_trans with (1 * 2 ^ 32); [range_lia|]. apply Z.mul_le_mono_nonneg_r; lia.
Qed.

Lemma not32_sub b : in_word b → not32 b = 2 ^ 32 - 1 - b.
Proof.
  intros B. unfold not32. change (2 ^ 32 - 1) with (Z.ones 32).
  rewrite Z.sub_nocarry_ldiff.
  - apply Z.bits_inj'. intros i I. rewrite Z.lxor_spec, Z.ldiff_spec.
    destruct (Z.lt_ge_cases i 32) as [L|L].
    + rewrite Z.ones_spec_low by lia. by destruct (Z.testbit b i).
    + rewrite Z.ones_spec_high by lia. by rewrite (bits_above 32 b) by range_lia.
  - rewrite Z.ldiff_ones_r by lia. rewrite Z.shiftr_div_pow2 by lia.
    by rewrite Z.div_small by range_lia.
Qed.

Lemma ch_or b c d :
  in_word b → Z.lor (Z.land b c) (Z.land (not32 b) d) = Fips.Ch b c d.
Proof.
  intros B. unfold Fips.Ch. rewrite <- not32_sub by done. unfold not32.
  change (2 ^ 32 - 1) with (Z.ones 32).
  apply Z.bits_inj'. intros i I. rewrite Z.lor_spec, Z.lxor_spec, !Z.land_spec, Z.lxor_spec.
  destruct (Z.lt_ge_cases i 32) as [L|L].
  - rewrite Z.ones_spec_low by lia. by destruct (Z.testbit b i), (Z.testbit c i), (Z.testbit d i).
  - rewrite Z.ones_spec_high by lia. by rewrite (bits_above 32 b) by range_lia.
Qed.

Lemma maj_or b c d :
  Z.lor (Z.lor (Z.land b c) (Z.land b d)) (Z.land c d) = Fips.Maj b c d.
Proof.
  apply Z.bits_inj'. intros i I. unfold Fips.Maj.
  rewrite !Z.lor_spec, !Z.lxor_spec, !Z.land_spec.
  by destruct (Z.testbit b i), (Z.testbit c i), (Z.testbit d i).
Qed.

(** ** Rounds *)

Record words_ok (r : registers) : Prop := MkWordsOk {
  ok_a : in_word (r_a r); ok_b : in_word (r_b r); ok_c : in_word (r_c r);
  ok_d : in_word (r_d r); ok_e : in_word (r_e r)
}.

Lemma ltb_S_leb i n : (i <? S n)%nat = (i <=? n)%nat.
Proof. reflexivity. Qed.

Lemma round_f_fips i b c d : in_word b → round_f i b c d = Fips.f i b c d.
Proof.
  intros B. unfold round_f, Fips.f. rewrite !ltb_S_leb.
  repeat case_match; [by apply ch_or|done|apply maj_or|done].
Qed.

Lemma round_fips i wi r : words_ok r → round i wi r = Fips.step i wi r.
Proof.
  intros [A B _ _ _]. destruct r as [a b c d e]; cbn in *. unfold round; cbn [r_a r_b r_c r_d r_e].
  rewrite round_f_fips, !LeftRotate_ROTL by range_lia. reflexivity.
Qed.

Lemma round_ok i wi r : words_ok r → words_ok (round i wi r).
Proof.
  intros [A B C D E]. split; cbn [round r_a r_b r_c r_d r_e]; try done; [apply word_range|].
  apply LeftRotate_word; [done|lia].
Qed.

(** ** The schedule *)

(** The first [n] words of the schedule, and the window that follows them. *)
Fixpoint scheduled (n : nat) (window : list Z) : list Z :=
  match n with
  | O => []
  | S n => hd 0 window :: scheduled n (tail window ++ [Fips.next_word window])
  end.
Fixpoint window_after (n : nat) (window : list Z) : list Z :=
  match n with
  | O => window
  | S n => window_after n (tail window ++ [Fips.next_word window])
  end.

Lemma scheduled_app n m win :
  scheduled (n + m) win = scheduled n win ++ scheduled m (window_after n win).
Proof. revert win. induction n as [|n IH]; intros win; [done|]. cbn. by rewrite IH. Qed.

(** A window is a list of sixteen words. *)
Ltac sixteen win H :=
  do 16 (destruct win as [|? win]; [discriminate H|]);
  destruct win; [|discriminate H].

Lemma length_next win : length win = 16%nat → length (tail win ++ [Fips.next_word win]) = 16%nat.
Proof. intros H. sixteen win H. reflexivity. Qed.

Lemma length_window_after n win : length win = 16%nat → length (window_after n win) = 16%nat.
Proof.
  revert win. induction n as [|n IH]; intros win H; [done|]. cbn [window_after].
  by apply IH, length_next.
Qed.

Lemma scheduled_window win : length win = 16%nat → scheduled 16 win = win.
Proof. intros H. sixteen win H. reflexivity. Qed.

Lemma next_word_range win :
  length win = 16%nat → Forall in_word win → Forall in_word (tail win ++ [Fips.next_word win]).
Proof.
  intros H F. assert (in_word (Fips.next_word win)) as N.
  { sixteen win H. rewrite !Forall_cons in F. destruct_and! F. cbn [Fips.next_word].
    rewrite <- LeftRotate_ROTL by (repeat apply lxor_word; done || range_lia).
    apply LeftRotate_word; [by repeat apply lxor_word|lia]. }
  apply Forall_app; split; [|by constructor]. destruct win; [done|by inversion F].
Qed.

Lemma extend_window n pre win :
  length win = 16%nat → Forall in_word win →
  extend_words n (pre ++ win) = Some (pre ++ scheduled n win ++ window_after n win).
Proof.
  revert pre win. induction n as [|n IH]; intros pre win H F; [done|].
  pose proof (length_next win H) as Hn. pose proof (next_word_range win H F) as Fn.
  cbn [extend_words scheduled window_after]. rewrite length_app, H.
  rewrite !lookup_app_r by lia.
  replace (length pre + 16 - 3 - length pre)%nat with 13%nat by lia.
  replace (length pre + 16 - 8 - length pre)%nat with 8%nat by lia.
  replace (length pre + 16 - 14 - length pre)%nat with 2%nat by lia.
  replace (length pre + 16 - 16 - length pre)%nat with 0%nat by lia.
  sixteen win H. cbn [lookup list_lookup mbind option_bind hd tail] in *.
  rewrite !Forall_cons in F. destruct_and! F.
  rewrite LeftRotate_ROTL by (repeat apply lxor_word; done || range_lia).
  cbn [Fips.next_word tail app] in *. rewrite !Z.lxor_assoc.
  match goal with |- extend_words n ((pre ++ ?x :: ?l) ++ [?y]) = _ =>
    replace ((pre ++ x :: l) ++ [y]) with ((pre ++ [x]) ++ (l ++ [y]))
      by (by rewrite <- !app_assoc) end.
  rewrite IH by done. by rewrite <- !app_assoc.
Qed.

Lemma rounds_steps n i w win rest r :
  length win = 16%nat → words_ok r → drop i w = scheduled n win ++ rest →
  rounds i n w r = Some (Fips.steps n i win r).
Proof.
  revert i win r. induction n as [|n IH]; intros i win r H R D; [done|].
  cbn [rounds Fips.steps scheduled app] in *.
  assert (w !! i = Some (hd 0 win)) as ->.
  { rewrite <- (Nat.add_0_r i), <- lookup_drop, D. done. }
  cbn [mbind option_bind]. rewrite <- round_fips by done.
  apply IH; [by apply length_next|by apply round_ok|].
  replace (S i) with (i + 1)%nat by lia. rewrite <- drop_drop, D. done.
Qed.

(** ** Words of a block *)

Lemma big_endian_word b0 b1 b2 b3 :
  in_byte b0 → in_byte b1 → in_byte b2 → in_byte b3 →
  Z.lor (Z.lor (Z.lor (word (Z.shiftl b0 24)) (Z.shiftl b1 16)) (Z.shiftl b2 8)) b3 =
  Fips.of_big_endian [b0; b1; b2; b3].
Proof.
  unfold in_byte, word. intros B0 B1 B2 B3. rewrite !Z.shiftl_mul_pow2 by lia.
  rewrite Z.mod_small by lia. cbn [Fips.of_big_endian fold_left].
  rewrite (lor_add 24) by lia.
  replace (b0 * 2 ^ 24 + b1 * 2 ^ 16) with ((b0 * 2 ^ 8 + b1) * 2 ^ 16) by lia.
  rewrite (lor_add 16) by lia.
  replace ((b0 * 2 ^ 8 + b1) * 2 ^ 16 + b2 * 2 ^ 8)
    with (((b0 * 2 ^ 8 + b1) * 2 ^ 8 + b2) * 2 ^ 8) by lia.
  rewrite (lor_add 8) by lia. unfold Fips.of_big_endian. cbn [fold_left]. lia.
Qed.

Lemma of_big_endian_word b0 b1 b2 b3 :
  in_byte b0 → in_byte b1 → in_byte b2 → in_byte b3 → in_word (Fips.of_big_endian [b0; b1; b2; b3]).
Proof. unfold in_byte, in_word, Fips.of_big_endian. cbn [fold_left]. lia. Qed.

Lemma load_words_groups n pre l :
  length l = (n * 4)%nat → Forall in_byte l → (∃ m, length pre = m * 4)%nat →
  load_words (pre ++ l) (length pre / 4) n = Some (Fips.of_big_endian <$> Fips.groups n 4 l) ∧
  Forall in_word (Fips.of_big_endian <$> Fips.groups n 4 l).
Proof.
  revert pre l. induction n as [|n IH]; intros pre l L F M.
  { split; [done|]. by destruct l. }
  do 4 (destruct l as [|? l]; [discriminate L|]). rewrite !Forall_cons in F. destruct_and! F.
  destruct M as [m M]. rewrite M, Nat.div_mul by lia. cbn [load_words Fips.groups fmap list_fmap].
  unfold block_word. rewrite !lookup_app_r by lia.
  replace (m * 4 + 0 - length pre)%nat with 0%nat by lia.
  replace (m * 4 + 1 - length pre)%nat with 1%nat by lia.
  replace (m * 4 + 2 - length pre)%nat with 2%nat by lia.
  replace (m * 4 + 3 - length pre)%nat with 3%nat by lia.
  cbn [lookup list_lookup mbind option_bind take drop].
  rewrite big_endian_word by done.
  destruct (IH (pre ++ [z; z0; z1; z2]) l) as [E W];
    [cbn in L; lia|done|exists (S m); rewrite length_app; cbn; lia|].
  rewrite length_app in E. cbn [length] in E.
  replace ((length pre + 4) / 4)%nat with (S m) in E
    by (rewrite M; replace (m * 4 + 4)%nat with (S m * 4)%nat by lia; by rewrite Nat.div_mul).
  rewrite <- app_assoc in E. cbn [app] in E. rewrite E. cbn [mbind option_bind].
  split; [done|]. constructor; [by apply of_big_endian_word|done].
Qed.

Lemma length_words l : length l = 64%nat → length (Fips.words l) = 16%nat.
Proof.
  intros L. unfold Fips.words. rewrite length_fmap.
  do 64 (destruct l as [|? l]; [discriminate L|]). reflexivity.
Qed.

(** ** A block *)

Definition digest_list (h : registers) : list Z := [r_a h; r_b h; r_c h; r_d h; r_e h].

Lemma compress_ok h block : words_ok (Fips.compress h block).
Proof.
  unfold Fips.compress. generalize (Fips.steps 80 0 (Fips.words block) h). intros r.
  split; cbn [r_a r_b r_c r_d r_e]; apply word_range.
Qed.

Lemma message_schedule_words block :
  length block = 64%nat → Forall in_byte block →
  message_schedule block = Some (scheduled 80 (Fips.words block)).
Proof.
  intros L F. unfold message_schedule.
  destruct (load_words_groups 16 [] block L F) as [E W]; [by exists 0%nat|].
  change (load_words block 0 16 = Some (Fips.words block)) in E.
  change (Forall in_word (Fips.words block)) in W.
  pose proof (length_words _ L) as Lw. revert W Lw. rewrite E. cbn [mbind option_bind].
  generalize (Fips.words block). intros win W Lw.
  pose proof (extend_window 64 [] win Lw W) as X. rewrite !app_nil_l in X. rewrite X. f_equal.
  rewrite <- (scheduled_window (window_after 64 win)) by by apply length_window_after.
  symmetry. exact (scheduled_app 64 16 win).
Qed.

Lemma rounds_schedule win r :
  length win = 16%nat → words_ok r → rounds 0 80 (scheduled 80 win) r = Some (Fips.steps 80 0 win r).
Proof. intros H R. apply (rounds_steps 80 0 _ win []); [done|done|by rewrite drop_0, app_nil_r]. Qed.

Lemma processBlock_compress s h :
  m_digest s = digest_list h → words_ok h → length (m_block s) = 64%nat →
  Forall in_byte (m_block s) →
  processBlock s =
  Some (MkSHA1 (digest_list (Fips.compress h (m_block s))) (m_block s) (m_blockByteIndex s)
          (m_byteCount s)).
Proof.
  intros D H L F. unfold processBlock, Fips.compress.
  rewrite message_schedule_words by done. cbn [mbind option_bind].
  pose proof (rounds_schedule (Fips.words (m_block s)) h (length_words _ L) H) as R.
  rewrite D. revert R. generalize (scheduled 80 (Fips.words (m_block s))). intros w.
  generalize (Fips.steps 80 0 (Fips.words (m_block s)) h). intros r.
  destruct h as [a b c d e]. unfold digest_list. cbn [r_a r_b r_c r_d r_e]. intros ->.
  cbn [mbind option_bind]. unfold add32, word.
  by rewrite (Z.add_comm a), (Z.add_comm b), (Z.add_comm c), (Z.add_comm d), (Z.add_comm e).
Qed.

#[local] Opaque Fips.compress.

(** ** The bytes so far

    [absorbed m s]: the digest is that of the complete blocks of [m], and the block that is being
    filled begins with the bytes that follow them. *)
Definition absorbed (m : list Z) (s : SHA1) : Prop := ∃ bs rest h,
  m = concat bs ++ rest ∧ Forall (λ b, length b = 64%nat) bs ∧ (length rest < 64)%nat ∧
  h = fold_left Fips.compress bs Fips.H0 ∧ m_digest s = digest_list h ∧ words_ok h ∧
  m_blockByteIndex s = Z.of_nat (length rest) ∧ length (m_block s) = 64%nat ∧
  take (length rest) (m_block s) = rest ∧
  m_byteCount s = Z.of_nat (length m) mod 2 ^ 64.

Lemma absorbed_new garbage : length garbage = 64%nat → absorbed [] (new_SHA1 garbage).
Proof.
  intros L. exists [], [], Fips.H0. repeat split; try done; cbn; lia.
Qed.

Lemma take_insert_next (l : list Z) n x :
  (n < length l)%nat → take (S n) (<[n := x]> l) = take n l ++ [x].
Proof.
  intros N. erewrite take_S_r by (by apply list_lookup_insert_eq).
  by rewrite take_insert_ge.
Qed.

Lemma absorb_byte x m s :
  absorbed m s → Forall in_byte m → in_byte x →
  ∃ s', processByte x s = Some s' ∧ absorbed (m ++ [x]) s'.
Proof.
  intros (bs & rest & h & -> & Hbs & Hr & Hh & D & O & I & L & T & C) Fm X.
  unfold processByte. rewrite I, L. rewrite (proj2 (Z.leb_le _ _)) by lia.
  rewrite (proj2 (Z.ltb_lt _ _)) by lia. cbn [andb m_blockByteIndex]. rewrite Nat2Z.id.
  assert (take (S (length rest)) (<[length rest := x]> (m_block s)) = rest ++ [x]) as T'.
  { rewrite take_insert_next by lia. by rewrite T. }
  assert ((m_byteCount s + 1) mod 2 ^ 64 =
          Z.of_nat (length ((concat bs ++ rest) ++ [x])) mod 2 ^ 64) as C'.
  { rewrite C, Zplus_mod_idemp_l. f_equal. rewrite !length_app. cbn. lia. }
  destruct (Z.of_nat (length rest) + 1 =? 64) eqn:E.
  - apply Z.eqb_eq in E.
    rewrite take_ge in T' by (rewrite length_insert; lia).
    rewrite (processBlock_compress _ h); cbn [m_digest m_block m_blockByteIndex m_byteCount];
      [|done|done|by rewrite length_insert|].
    2: { rewrite T'. apply Forall_app in Fm as [_ Fr]. apply Forall_app. split; [done|by constructor]. }
    eexists; split; [done|].
    exists (bs ++ [rest ++ [x]]), [], (Fips.compress h (rest ++ [x])). cbn [m_digest m_block m_blockByteIndex m_byteCount length].
    rewrite concat_app, fold_left_app, T'. cbn [concat fold_left]. rewrite !app_nil_r.
    rewrite app_assoc. split_and!.
    + done.
    + apply Forall_app. split; [done|]. constructor; [rewrite length_app; cbn; lia|done].
    + lia.
    + by rewrite Hh.
    + done.
    + apply compress_ok.
    + done.
    + rewrite length_app. cbn. lia.
    + done.
    + exact C'.
  - apply Z.eqb_neq in E. eexists; split; [done|].
    exists bs, (rest ++ [x]), h. cbn [m_digest m_block m_blockByteIndex m_byteCount].
    rewrite app_assoc, length_app, length_insert. cbn [length].
    replace (length rest + 1)%nat with (S (length rest)) by lia.
    split_and!; try done; lia.
Qed.

Lemma absorb_bytes data m s :
  absorbed m s → Forall in_byte m → Forall in_byte data →
  ∃ s', processBytes data s = Some s' ∧ absorbed (m ++ data) s'.
Proof.
  revert m s. induction data as [|x data IH]; intros m s A Fm Fd.
  - exists s. by rewrite app_nil_r.
  - inversion_clear Fd as [|?? X Fd']. cbn [processBytes].
    destruct (absorb_byte x m s A Fm X) as (s1 & E & A1). rewrite E. cbn [mbind option_bind].
    destruct (IH (m ++ [x]) s1 A1) as (s2 & E2 & A2);
      [apply Forall_app; split; [done|by constructor]|done|].
    exists s2. split; [done|]. by rewrite <- app_assoc in A2.
Qed.

Lemma absorbed_index m s :
  absorbed m s → m_blockByteIndex s = Z.of_nat (length m) mod 64.
Proof.
  intros (bs & rest & h & -> & Hbs & Hr & _ & _ & _ & -> & _).
  assert (Z.of_nat (length (concat bs)) mod 64 = 0) as E.
  { induction Hbs as [|b bs Hb _ IH]; [done|]. cbn. rewrite length_app, Hb, Nat2Z.inj_add.
    by rewrite <- Zplus_mod_idemp_r, IH. }
  rewrite length_app, Nat2Z.inj_add, <- Zplus_mod_idemp_l, E. cbn. rewrite Z.mod_small; lia.
Qed.

(** ** Padding *)

Lemma zero_while_absorbs k fuel cond m s :
  absorbed m s → Forall in_byte m → (k ≤ fuel)%nat →
  (∀ j, (j < k)%nat → cond (Z.of_nat (length m + j) mod 64) = true) →
  cond (Z.of_nat (length m + k) mod 64) = false →
  ∃ s', zero_while fuel cond s = Some s' ∧ absorbed (m ++ repeat 0 k) s'.
Proof.
  revert fuel m s. induction k as [|k IH]; intros fuel m s A F K C1 C2.
  - rewrite Nat.add_0_r in C2. exists s. rewrite app_nil_r. split; [|done].
    destruct fuel; cbn [zero_while]; by rewrite (absorbed_index m s A), C2.
  - destruct fuel as [|fuel]; [lia|]. cbn [zero_while].
    rewrite (absorbed_index m s A). pose proof (C1 0%nat ltac:(lia)) as C0.
    rewrite Nat.add_0_r in C0. rewrite C0.
    destruct (absorb_byte 0 m s A F) as (s1 & E & A1); [unfold in_byte; lia|].
    rewrite E. cbn [mbind option_bind].
    destruct (IH fuel (m ++ [0]) s1 A1) as (s2 & E2 & A2).
    + apply Forall_app. split; [done|]. constructor; [unfold in_byte; lia|done].
    + lia.
    + intros j J. rewrite length_app. cbn [length].
      replace (length m + 1 + j)%nat with (length m + S j)%nat by lia. apply C1. lia.
    + rewrite length_app. cbn [length].
      by replace (length m + 1 + k)%nat with (length m + S k)%nat by lia.
    + exists s2. split; [done|]. by rewrite <- app_assoc in A2.
Qed.

Lemma Forall_zeros k : Forall in_byte (repeat 0 k).
Proof. induction k; cbn; constructor; [unfold in_byte; lia|done]. Qed.

Lemma mod_64 a q r : a = 64 * q + r → 0 ≤ r < 64 → a mod 64 = r.
Proof. intros E R. symmetry. by apply (Z.mod_unique_pos a 64 q r). Qed.

(** The zeros after the one bit, whichever branch is taken. *)
Lemma pad_zeros m s :
  absorbed m s → Forall in_byte m →
  ∃ s', (if 56 <? m_blockByteIndex s then
           s ← zero_while 64 (λ i, negb (i =? 0)) s;
           zero_while 64 (λ i, i <? 56) s
         else zero_while 64 (λ i, i <? 56) s) = Some s' ∧
        absorbed (m ++ repeat 0 (Z.to_nat ((56 - Z.of_nat (length m)) mod 64))) s'.
Proof.
  intros A F. rewrite (absorbed_index m s A).
  set (n := Z.of_nat (length m)). set (i := n mod 64).
  assert (0 ≤ i < 64) as Hi by (apply Z.mod_pos_bound; lia).
  assert (n = 64 * (n / 64) + i) as Hn by (apply Z.div_mod; lia).
  destruct (56 <? i) eqn:E; [apply Z.ltb_lt in E|apply Z.ltb_ge in E].
  - destruct (zero_while_absorbs (Z.to_nat (64 - i)) 64 (λ i, negb (i =? 0)) m s A F)
      as (s1 & E1 & A1); [lia|intros j J|..].
    + apply negb_true_iff, Z.eqb_neq. rewrite Nat2Z.inj_add. fold n.
      rewrite (mod_64 _ (n / 64) (i + Z.of_nat j)); lia.
    + apply negb_false_iff, Z.eqb_eq. rewrite Nat2Z.inj_add. fold n.
      rewrite (mod_64 _ (n / 64 + 1) 0); lia.
    + rewrite E1. cbn [mbind option_bind].
      destruct (zero_while_absorbs 56 64 (λ i, i <? 56) _ s1 A1) as (s2 & E2 & A2);
        [apply Forall_app; split; [done|apply Forall_zeros]|lia|intros j J|..].
      * apply Z.ltb_lt. rewrite length_app, repeat_length, !Nat2Z.inj_add. fold n.
        rewrite (mod_64 _ (n / 64 + 1) (Z.of_nat j)); lia.
      * apply Z.ltb_ge. rewrite length_app, repeat_length, !Nat2Z.inj_add. fold n.
        rewrite (mod_64 _ (n / 64 + 1) 56); lia.
      * exists s2. split; [done|]. rewrite <- app_assoc, <- repeat_app in A2.
        replace (Z.to_nat ((56 - n) mod 64)) with (Z.to_nat (64 - i) + 56)%nat; [done|].
        rewrite (mod_64 (56 - n) (- (n / 64) - 1) (120 - i)); lia.
  - destruct (zero_while_absorbs (Z.to_nat (56 - i)) 64 (λ i, i <? 56) m s A F)
      as (s1 & E1 & A1); [lia|intros j J|..].
    + apply Z.ltb_lt. rewrite Nat2Z.inj_add. fold n.
      rewrite (mod_64 _ (n / 64) (i + Z.of_nat j)); lia.
    + apply Z.ltb_ge. rewrite Nat2Z.inj_add. fold n.
      rewrite (mod_64 _ (n / 64) 56); lia.
    + exists s1. split; [done|].
      by rewrite (mod_64 (56 - n) (- (n / 64)) (56 - i)) by lia.
Qed.

Lemma byte_at_div x n : 0 ≤ n → byte_at x n = (x / 2 ^ n) mod 256.
Proof.
  intros N. unfold byte_at. change 255 with (Z.ones 8).
  by rewrite Z.land_ones, Z.shiftr_div_pow2 by lia.
Qed.

Lemma big_endian_4 x :
  Fips.big_endian 4 x = [byte_at x 24; byte_at x 16; byte_at x 8; byte_at x 0].
Proof.
  rewrite !byte_at_div by lia. cbn [Fips.big_endian app]. rewrite !Z.div_div by lia.
  by rewrite (Z.div_1_r x : x / 2 ^ 0 = x).
Qed.

Lemma big_endian_8 x :
  0 ≤ x < 2 ^ 32 → Fips.big_endian 8 x = [0; 0; 0; 0] ++ Fips.big_endian 4 x.
Proof.
  intros X.
  assert (Fips.big_endian 8 x = Fips.big_endian 4 (x / 2 ^ 32) ++ Fips.big_endian 4 x) as ->.
  { cbn [Fips.big_endian app]. by rewrite !Z.div_div by lia. }
  by rewrite Z.div_small by done.
Qed.

Lemma byte_at_range x n : in_byte (byte_at x n).
Proof.
  unfold byte_at, in_byte. change 255 with (Z.ones 8). rewrite Z.land_ones by lia.
  apply Z.mod_pos_bound. lia.
Qed.

(** ** The digest *)

Lemma groups_concat fuel bs :
  (length bs ≤ fuel)%nat → Forall (λ b : list Z, length b = 64%nat) bs →
  Fips.groups fuel 64 (concat bs) = bs.
Proof.
  revert fuel. induction bs as [|b bs IH]; intros fuel F H; [by destruct fuel|].
  inversion_clear H as [|?? Hb Hbs]. cbn in F. destruct fuel as [|fuel]; [lia|].
  destruct b as [|x b]; [discriminate Hb|]. cbn [Fips.groups concat app].
  change (x :: b ++ concat bs) with ((x :: b) ++ concat bs).
  rewrite take_app_length', drop_app_length' by done. f_equal. apply IH; [lia|done].
Qed.

Lemma absorbed_digest m s :
  absorbed m s → Z.of_nat (length m) mod 64 = 0 →
  ∃ h, m_digest s = digest_list h ∧ h = fold_left Fips.compress (Fips.parse m) Fips.H0.
Proof.
  intros A Z0. pose proof (absorbed_index m s A) as I. rewrite Z0 in I.
  destruct A as (bs & rest & h & -> & Hbs & Hr & Hh & D & _ & Ir & _).
  assert (rest = []) as -> by (destruct rest; [done|cbn in Ir; lia]).
  exists h. split; [done|]. rewrite app_nil_r in *. unfold Fips.parse.
  rewrite groups_concat; [done| |done].
  clear -Hbs. induction Hbs as [|b bs Hb _ IH]; [done|]. cbn. rewrite length_app, Hb. lia.
Qed.

Lemma padding_length n :
  0 ≤ n → (n + Z.of_nat (length (Fips.padding n))) mod 64 = 0.
Proof.
  intros N. unfold Fips.padding. cbn [length]. rewrite length_app, repeat_length.
  change (length (Fips.big_endian 8 (8 * n))) with 8%nat.
  pose proof (Z.mod_pos_bound (55 - n) 64 ltac:(lia)).
  pose proof (Z.div_mod (55 - n) 64 ltac:(lia)).
  rewrite Nat2Z.inj_succ, Nat2Z.inj_add, Z2Nat.id by lia.
  symmetry. apply (Z.mod_unique_pos _ 64 (1 - (55 - n) / 64)); lia.
Qed.

Lemma digest_bytes h :
  (digest_list h ≫= λ d, [byte_at d 24; byte_at d 16; byte_at d 8; byte_at d 0]) =
  Fips.registers_bytes h.
Proof. unfold Fips.registers_bytes. by rewrite !big_endian_4. Qed.

Lemma getDigest_padded m s :
  absorbed m s → Forall in_byte m → Z.of_nat (length m) < 2 ^ 29 →
  ∃ s', getDigest s = Some (m_digest s', s') ∧ absorbed (Fips.padded m) s'.
Proof.
  intros A F L.
  assert (m_byteCount s = Z.of_nat (length m)) as C.
  { destruct A as (bs & rest & h & _ & _ & _ & _ & _ & _ & _ & _ & _ & ->).
    apply Z.mod_small. lia. }
  unfold getDigest. rewrite C, Z.mod_small by lia.
  destruct (absorb_byte 128 m s A F) as (s1 & -> & A1); [unfold in_byte; lia|].
  cbn [mbind option_bind].
  assert (Forall in_byte (m ++ [128])) as F1.
  { apply Forall_app. split; [done|]. constructor; [unfold in_byte; lia|done]. }
  destruct (pad_zeros _ s1 A1 F1) as (s2 & -> & A2). cbn [mbind option_bind].
  assert (Forall in_byte ((m ++ [128]) ++
    repeat 0 (Z.to_nat ((56 - Z.of_nat (length (m ++ [128]))) mod 64)))) as F2.
  { apply Forall_app. split; [done|apply Forall_zeros]. }
  destruct (absorb_bytes [0; 0; 0; 0] _ s2 A2 F2) as (s3 & -> & A3); [apply (Forall_zeros 4)|].
  cbn [mbind option_bind].
  assert (Forall in_byte [byte_at (Z.of_nat (length m) * 8) 24; byte_at (Z.of_nat (length m) * 8) 16;
    byte_at (Z.of_nat (length m) * 8) 8; byte_at (Z.of_nat (length m) * 8) 0]) as F4
    by (repeat constructor; apply byte_at_range).
  edestruct (λ F3, absorb_bytes _ _ s3 A3 F3 F4) as (s4 & -> & A4).
  { apply Forall_app. split; [done|apply (Forall_zeros 4)]. }
  cbn [mbind option_bind]. exists s4. split; [done|].
  rewrite <- big_endian_4, <- !app_assoc, length_app in A4. cbn [length] in A4.
  unfold Fips.padded, Fips.padding.
  rewrite (Z.mul_comm 8), big_endian_8 by lia.
  replace ((55 - Z.of_nat (length m)) mod 64) with ((56 - Z.of_nat (length m + 1)) mod 64)
    by (f_equal; lia).
  exact A4.
Qed.

(** The digest, step by step. *)
Lemma sha1_computes garbage data :
  length garbage = 64%nat → Forall in_byte data → Z.of_nat (length data) < 2 ^ 29 →
  sha1_of garbage data = Some (Fips.sha1 data).
Proof.
  intros G F L. unfold sha1_of.
  destruct (absorb_bytes data [] _ (absorbed_new garbage G)) as (s & -> & A); [constructor|done|].
  cbn [mbind option_bind app] in *. unfold getDigestBytes.
  destruct (getDigest_padded data s A F L) as (s' & -> & A'). cbn [mbind option_bind fmap option_map].
  destruct (absorbed_digest _ s' A') as (h & -> & ->).
  - unfold Fips.padded. rewrite length_app, Nat2Z.inj_add. apply padding_length. lia.
  - unfold Fips.sha1. by rewrite <- digest_bytes.
Qed.

(** C30: the bytes [getDigestBytes] writes for a message are its SHA-1 as FIPS 180-4 defines it,
    for every message below 2^29 bytes and whatever the uninitialised block holds: no array is
    accessed outside of its bounds, and the loops of the padding end. *)
Theorem sha1_is_fips garbage data :
  length garbage = 64%nat → Forall in_byte data → Z.of_nat (length data) < 2 ^ 29 →
  sha1_of garbage data = Some (Fips.sha1 data).
Proof. apply sha1_computes. Qed.

(** The message of the standard's example. *)
Lemma sha1_is_fips_witness :
  sha1_of (repeat 0 64) (octets "abc") = Some (Fips.sha1 (octets "abc")).
Proof.
  apply (sha1_is_fips (repeat 0 64) (octets "abc")).
  - reflexivity.
  - repeat constructor; discriminate.
  - reflexivity.
Defined.
