(* ===== verification/WebSocket.v ===== *)
(** * WebSocket connections

    lib/crowapi/crow_all.h, [crow::websocket::Connection] and [WebSocketRule]: the handshake, the
    state machine that reads frames, the handling of a frame, sending, and when the object is
    freed.

    The operations of asio are events: a read completes with an error or with bytes, a write
    completes with or without an error, another thread has posted a command.  A user's handler is
    a function of the user's state that gives the commands it calls on the connection; a handler
    runs on the thread of the connection, where [dispatch] runs a command at once.  Every access
    to a field checks that the object has not been freed.  The host is little-endian, as the code
    finds out when it computes [htonl(1)].  The build without CROW_ENFORCE_WS_SPEC and without
    CROW_ENABLE_DEBUG is modelled. *)

From Stdlib Require Import ZArith Lia Ascii String.
From stdpp Require Import base tactics option strings list.
From S2P Require Import Prelude.
From S2P Require Import CppStd.
From S2P Require Import QueryString.
From S2P Require Import Crow.
From S2P Require Import Base64.
From S2P Require Import Sha1.

Local Open Scope Z_scope.

(** ** Bytes *)

Fixpoint le_load (b : list Z) : Z :=
  match b with [] => 0 | x :: b => Z.lor x (Z.shiftl (le_load b) 8) end.
Fixpoint le_store (n : nat) (x : Z) : list Z :=
  match n with O => [] | S n => Z.land x 255 :: le_store n (Z.shiftr x 8) end.

(** [ntohs], [htons] and [ntohl], [htonl] on a little-endian host. *)
Definition ntohs (x : Z) : Z := Z.lor (Z.shiftl (Z.land x 255) 8) (Z.land (Z.shiftr x 8) 255).
Definition ntohl (x : Z) : Z :=
  Z.lor (Z.lor (Z.lor (Z.shiftl (Z.land x 255) 24) (Z.shiftl (Z.land (Z.shiftr x 8) 255) 16))
           (Z.shiftl (Z.land (Z.shiftr x 16) 255) 8)) (Z.land (Z.shiftr x 24) 255).

(** Both directions of the conversion of a 64-bit length. *)
Definition swap_uint64 (x : Z) : Z :=
  Z.lor (Z.shiftl (ntohl (Z.land x 4294967295)) 32) (ntohl (Z.shiftr x 32)).

(** ** The data *)

Inductive WebSocketReadState : Type := MiniHeader | Len16 | Len64 | Mask | Payload.

#[global] Instance WebSocketReadState_eq_dec : EqDecision WebSocketReadState.
Proof. solve_decision. Defined.

(** What a handler, or another thread, calls on the connection. *)
Inductive command : Type :=
| send_ping (m : list Z)
| send_pong (m : list Z)
| send_binary (m : list Z)
| send_text (m : list Z)
| close (m : list Z).

(** The fields, and what surrounds the object: whether the socket is open, the operations under
    way, the bytes handed to [async_write], and whether the object has been freed.  [is_binary_]
    and [mask_] are not initialised. *)
Record connection : Type := MkConnection {
  sending_buffers_ : list (list Z);
  write_buffers_ : list (list Z);
  is_binary_ : option bool;
  message_ : list Z;
  fragment_ : list Z;
  state_ : WebSocketReadState;
  remaining_length_ : Z;
  close_connection_ : bool;
  is_reading : bool;
  has_mask_ : bool;
  mask_ : list Z;
  mini_header_ : Z;
  has_sent_close_ : bool;
  has_recv_close_ : bool;
  pong_received_ : bool;
  is_close_handler_called_ : bool;
  socket_open : bool;
  reads : nat;
  writes : nat;
  wire : list Z;
  destroyed : bool
}.

Definition new_connection : connection :=
  MkConnection [] [] None [] [] MiniHeader 0 false false false [] 0 false false false false true
    0 0 [] false.

Definition set_sending_buffers (x : list (list Z)) (c : connection) : connection :=
  MkConnection x (write_buffers_ c) (is_binary_ c) (message_ c) (fragment_ c) (state_ c)
    (remaining_length_ c) (close_connection_ c) (is_reading c) (has_mask_ c) (mask_ c)
    (mini_header_ c) (has_sent_close_ c) (has_recv_close_ c) (pong_received_ c)
    (is_close_handler_called_ c) (socket_open c) (reads c) (writes c) (wire c) (destroyed c).
Definition set_write_buffers (x : list (list Z)) (c : connection) : connection :=
  MkConnection (sending_buffers_ c) x (is_binary_ c) (message_ c) (fragment_ c) (state_ c)
    (remaining_length_ c) (close_connection_ c) (is_reading c) (has_mask_ c) (mask_ c)
    (mini_header_ c) (has_sent_close_ c) (has_recv_close_ c) (pong_received_ c)
    (is_close_handler_called_ c) (socket_open c) (reads c) (writes c) (wire c) (destroyed c).
Definition set_is_binary (x : option bool) (c : connection) : connection :=
  MkConnection (sending_buffers_ c) (write_buffers_ c) x (message_ c) (fragment_ c) (state_ c)
    (remaining_length_ c) (close_connection_ c) (is_reading c) (has_mask_ c) (mask_ c)
    (mini_header_ c) (has_sent_close_ c) (has_recv_close_ c) (pong_received_ c)
    (is_close_handler_called_ c) (socket_open c) (reads c) (writes c) (wire c) (destroyed c).
Definition set_message (x : list Z) (c : connection) : connection :=
  MkConnection (sending_buffers_ c) (write_buffers_ c) (is_binary_ c) x (fragment_ c) (state_ c)
    (remaining_length_ c) (close_connection_ c) (is_reading c) (has_mask_ c) (mask_ c)
    (mini_header_ c) (has_sent_close_ c) (has_recv_close_ c) (pong_received_ c)
    (is_close_handler_called_ c) (socket_open c) (reads c) (writes c) (wire c) (destroyed c).
Definition set_fragment (x : list Z) (c : connection) : connection :=
  MkConnection (sending_buffers_ c) (write_buffers_ c) (is_binary_ c) (message_ c) x (state_ c)
    (remaining_length_ c) (close_connection_ c) (is_reading c) (has_mask_ c) (mask_ c)
    (mini_header_ c) (has_sent_close_ c) (has_recv_close_ c) (pong_received_ c)
    (is_close_handler_called_ c) (socket_open c) (reads c) (writes c) (wire c) (destroyed c).
Definition set_state (x : WebSocketReadState) (c : connection) : connection :=
  MkConnection (sending_buffers_ c) (write_buffers_ c) (is_binary_ c) (message_ c) (fragment_ c)
    x (remaining_length_ c) (close_connection_ c) (is_reading c) (has_mask_ c) (mask_ c)
    (mini_header_ c) (has_sent_close_ c) (has_recv_close_ c) (pong_received_ c)
    (is_close_handler_called_ c) (socket_open c) (reads c) (writes c) (wire c) (destroyed c).
Definition set_remaining_length (x : Z) (c : connection) : connection :=
  MkConnection (sending_buffers_ c) (write_buffers_ c) (is_binary_ c) (message_ c) (fragment_ c)
    (state_ c) x (close_connection_ c) (is_reading c) (has_mask_ c) (mask_ c) (mini_header_ c)
    (has_sent_close_ c) (has_recv_close_ c) (pong_received_ c) (is_close_handler_called_ c)
    (socket_open c) (reads c) (writes c) (wire c) (destroyed c).
Definition set_close_connection (x : bool) (c : connection) : connection :=
  MkConnection (sending_buffers_ c) (write_buffers_ c) (is_binary_ c) (message_ c) (fragment_ c)
    (state_ c) (remaining_length_ c) x (is_reading c) (has_mask_ c) (mask_ c) (mini_header_ c)
    (has_sent_close_ c) (has_recv_close_ c) (pong_received_ c) (is_close_handler_called_ c)
    (socket_open c) (reads c) (writes c) (wire c) (destroyed c).
Definition set_is_reading (x : bool) (c : connection) : connection :=
  MkConnection (sending_buffers_ c) (write_buffers_ c) (is_binary_ c) (message_ c) (fragment_ c)
    (state_ c) (remaining_length_ c) (close_connection_ c) x (has_mask_ c) (mask_ c)
    (mini_header_ c) (has_sent_close_ c) (has_recv_close_ c) (pong_received_ c)
    (is_close_handler_called_ c) (socket_open c) (reads c) (writes c) (wire c) (destroyed c).
Definition set_has_mask (x : bool) (c : connection) : connection :=
  MkConnection (sending_buffers_ c) (write_buffers_ c) (is_binary_ c) (message_ c) (fragment_ c)
    (state_ c) (remaining_length_ c) (close_connection_ c) (is_reading c) x (mask_ c)
    (mini_header_ c) (has_sent_close_ c) (has_recv_close_ c) (pong_received_ c)
    (is_close_handler_called_ c) (socket_open c) (reads c) (writes c) (wire c) (destroyed c).
Definition set_mask (x : list Z) (c : connection) : connection :=
  MkConnection (sending_buffers_ c) (write_buffers_ c) (is_binary_ c) (message_ c) (fragment_ c)
    (state_ c) (remaining_length_ c) (close_connection_ c) (is_reading c) (has_mask_ c) x
    (mini_header_ c) (has_sent_close_ c) (has_recv_close_ c) (pong_received_ c)
    (is_close_handler_called_ c) (socket_open c) (reads c) (writes c) (wire c) (destroyed c).
Definition set_mini_header (x : Z) (c : connection) : connection :=
  MkConnection (sending_buffers_ c) (write_buffers_ c) (is_binary_ c) (message_ c) (fragment_ c)
    (state_ c) (remaining_length_ c) (close_connection_ c) (is_reading c) (has_mask_ c)
    (mask_ c) x (has_sent_close_ c) (has_recv_close_ c) (pong_received_ c)
    (is_close_handler_called_ c) (socket_open c) (reads c) (writes c) (wire c) (destroyed c).
Definition set_has_sent_close (x : bool) (c : connection) : connection :=
  MkConnection (sending_buffers_ c) (write_buffers_ c) (is_binary_ c) (message_ c) (fragment_ c)
    (state_ c) (remaining_length_ c) (close_connection_ c) (is_reading c) (has_mask_ c)
    (mask_ c) (mini_header_ c) x (has_recv_close_ c) (pong_received_ c)
    (is_close_handler_called_ c) (socket_open c) (reads c) (writes c) (wire c) (destroyed c).
Definition set_has_recv_close (x : bool) (c : connection) : connection :=
  MkConnection (sending_buffers_ c) (write_buffers_ c) (is_binary_ c) (message_ c) (fragment_ c)
    (state_ c) (remaining_length_ c) (close_connection_ c) (is_reading c) (has_mask_ c)
    (mask_ c) (mini_header_ c) (has_sent_close_ c) x (pong_received_ c)
    (is_close_handler_called_ c) (socket_open c) (reads c) (writes c) (wire c) (destroyed c).
Definition set_pong_received (x : bool) (c : connection) : connection :=
  MkConnection (sending_buffers_ c) (write_buffers_ c) (is_binary_ c) (message_ c) (fragment_ c)
    (state_ c) (remaining_length_ c) (close_connection_ c) (is_reading c) (has_mask_ c)
    (mask_ c) (mini_header_ c) (has_sent_close_ c) (has_recv_close_ c) x
    (is_close_handler_called_ c) (socket_open c) (reads c) (writes c) (wire c) (destroyed c).
Definition set_is_close_handler_called (x : bool) (c : connection) : connection :=
  MkConnection (sending_buffers_ c) (write_buffers_ c) (is_binary_ c) (message_ c) (fragment_ c)
    (state_ c) (remaining_length_ c) (close_connection_ c) (is_reading c) (has_mask_ c)
    (mask_ c) (mini_header_ c) (has_sent_close_ c) (has_recv_close_ c) (pong_received_ c) x
    (socket_open c) (reads c) (writes c) (wire c) (destroyed c).
Definition set_socket_open (x : bool) (c : connection) : connection :=
  MkConnection (sending_buffers_ c) (write_buffers_ c) (is_binary_ c) (message_ c) (fragment_ c)
    (state_ c) (remaining_length_ c) (close_connection_ c) (is_reading c) (has_mask_ c)
    (mask_ c) (mini_header_ c) (has_sent_close_ c) (has_recv_close_ c) (pong_received_ c)
    (is_close_handler_called_ c) x (reads c) (writes c) (wire c) (destroyed c).
Definition set_reads (x : nat) (c : connection) : connection :=
  MkConnection (sending_buffers_ c) (write_buffers_ c) (is_binary_ c) (message_ c) (fragment_ c)
    (state_ c) (remaining_length_ c) (close_connection_ c) (is_reading c) (has_mask_ c)
    (mask_ c) (mini_header_ c) (has_sent_close_ c) (has_recv_close_ c) (pong_received_ c)
    (is_close_handler_called_ c) (socket_open c) x (writes c) (wire c) (destroyed c).
Definition set_writes (x : nat) (c : connection) : connection :=
  MkConnection (sending_buffers_ c) (write_buffers_ c) (is_binary_ c) (message_ c) (fragment_ c)
    (state_ c) (remaining_length_ c) (close_connection_ c) (is_reading c) (has_mask_ c)
    (mask_ c) (mini_header_ c) (has_sent_close_ c) (has_recv_close_ c) (pong_received_ c)
    (is_close_handler_called_ c) (socket_open c) (reads c) x (wire c) (destroyed c).
Definition set_wire (x : list Z) (c : connection) : connection :=
  MkConnection (sending_buffers_ c) (write_buffers_ c) (is_binary_ c) (message_ c) (fragment_ c)
    (state_ c) (remaining_length_ c) (close_connection_ c) (is_reading c) (has_mask_ c)
    (mask_ c) (mini_header_ c) (has_sent_close_ c) (has_recv_close_ c) (pong_received_ c)
    (is_close_handler_called_ c) (socket_open c) (reads c) (writes c) x (destroyed c).
Definition set_destroyed (x : bool) (c : connection) : connection :=
  MkConnection (sending_buffers_ c) (write_buffers_ c) (is_binary_ c) (message_ c) (fragment_ c)
    (state_ c) (remaining_length_ c) (close_connection_ c) (is_reading c) (has_mask_ c)
    (mask_ c) (mini_header_ c) (has_sent_close_ c) (has_recv_close_ c) (pong_received_ c)
    (is_close_handler_called_ c) (socket_open c) (reads c) (writes c) (wire c) x.

(** ** The handshake's answer *)

(** The value of [Sec-WebSocket-Accept]; [garbage] is what the block of [SHA1] holds. *)
Definition accept_value (garbage : list Z) (key : string) : option (list Z) :=
  let magic := key +:+ "258EAFA5-E914-47DA-95CA-C5AB0DC85B11" in
  digest ← sha1_of garbage (octets magic);
  text ← base64encode_loop standard_key digest;
  Some (List.map char_code text).

Section WebSocket.
(** The user's state and handlers; a handler that was not set is null. *)
Context {U : Type}.
Context (open_handler_ : option (U → list command * U))
        (message_handler_ : option (list Z → bool → U → list command * U))
        (close_handler_ : option (list Z → U → list command * U))
        (error_handler_ : option (U → list command * U))
        (accept_handler_ : option (request → U → bool * U)).

(** ** Accesses *)

Definition ws (A : Type) : Type := connection * U → outcome (A * (connection * U)).
Definition ret {A} (a : A) : ws A := λ s, Val (a, s).
Definition bind {A B} (p : ws A) (k : A → ws B) : ws B :=
  λ s, outcome_bind (p s) (λ '(a, s), k a s).
Definition undef_ws {A} (u : undefined) : ws A := λ _, Undef u.

Declare Scope ws_scope.
Local Open Scope ws_scope.
Notation "x ← p ; q" := (bind p (λ x, q))
  (at level 20, p at level 100, q at level 200, right associativity) : ws_scope.
Notation "p ;; q" := (bind p (λ _, q))
  (at level 100, q at level 200, right associativity) : ws_scope.

Definition get {A} (f : connection → A) : ws A :=
  λ '(c, u), if destroyed c then Undef use_after_free else Val (f c, (c, u)).
Definition put (f : connection → connection) : ws unit :=
  λ '(c, u), if destroyed c then Undef use_after_free else Val (tt, (f c, u)).
Definition when (b : bool) (p : ws unit) : ws unit := if b then p else ret tt.

(** ** Frames and writing *)

(** [build_header]: [buf] is two bytes and the bytes of the length. *)
Definition build_header (opcode size : Z) : list Z :=
  let b0 := Z.land (128 + opcode) 255 in
  if size <? 126 then [b0; Z.land (0 + size) 255]
  else if size <? 65536 then
    [b0; Z.land (0 + 126) 255] ++ le_store 2 (ntohs (Z.land size 65535))
  else [b0; Z.land (0 + 127) 255] ++ le_store 8 (swap_uint64 size).

Definition do_write : ws unit :=
  sending ← get sending_buffers_;
  if decide (sending = []) then
    buffers ← get write_buffers_;
    put (λ c, set_write_buffers [] (set_sending_buffers buffers c)) ;;
    put (λ c, set_writes (S (writes c)) (set_wire (wire c ++ concat buffers) c))
  else ret tt.

(** [send_ping], [send_pong], [send_binary], [send_text]: what they dispatch. *)
Definition send_frame (opcode : Z) (msg : list Z) : ws unit :=
  let header := build_header opcode (Z.of_nat (length msg)) in
  put (λ c, set_write_buffers (write_buffers_ c ++ [header]) c) ;;
  put (λ c, set_write_buffers (write_buffers_ c ++ [msg]) c) ;;
  do_write.

(** ** Handlers *)

(** The commands of a handler, with [close_] for [close]. *)
Fixpoint run_commands (close_ : list Z → ws unit) (l : list command) : ws unit :=
  match l with
  | [] => ret tt
  | x :: l =>
      match x with
      | send_ping m => send_frame 9 m
      | send_pong m => send_frame 10 m
      | send_binary m => send_frame 2 m
      | send_text m => send_frame 1 m
      | close m => close_ m
      end ;;
      run_commands close_ l
  end.

(** A call of a handler, if it is set. *)
Definition call_handler (close_ : list Z → ws unit) (h : option (U → list command * U)) : ws unit :=
  match h with
  | None => ret tt
  | Some h => λ '(c, u), let '(l, u) := h u in run_commands close_ l (c, u)
  end.

(** [close]: its handler may call [close] again. *)
Fixpoint close_at (depth : nat) (msg : list Z) : ws unit :=
  match depth with
  | O => λ _, OutOfFuel
  | S depth =>
      put (set_has_sent_close true) ;;
      recv ← get has_recv_close_;
      called ← get is_close_handler_called_;
      when (recv && negb called)
        (put (set_is_close_handler_called true) ;;
         call_handler (close_at depth) ((λ h, h msg) <$> close_handler_)) ;;
      send_frame 8 msg
  end.
Definition close_ : list Z → ws unit := close_at 2.

Definition call (h : option (U → list command * U)) : ws unit := call_handler close_ h.

(** ** Ends *)

Definition close_adaptor : ws unit := put (set_socket_open false).

(** [check_destroy]: [delete this] *)
Definition check_destroy : ws unit :=
  called ← get is_close_handler_called_;
  when (negb called) (call ((λ h, h (octets "uncleanly")) <$> close_handler_)) ;;
  sending ← get sending_buffers_;
  reading ← get is_reading;
  when (bool_decide (sending = []) && negb reading) (put (set_destroyed true)).

(** ** Reading *)

(** A read is started. *)
Definition start_read : ws unit := put (λ c, set_reads (S (reads c)) c).

Definition do_read : ws unit :=
  put (set_is_reading true) ;;
  st ← get state_;
  match st with
  | MiniHeader => put (set_mini_header 0) ;; start_read
  | Len16 => put (set_remaining_length 0) ;; start_read
  | Len64 => start_read
  | Mask =>
      masked ← get has_mask_;
      if masked : bool then start_read
      else
        put (set_state Payload) ;;
        (** [do_read()], in the state Payload *)
        put (set_is_reading true) ;; start_read
  | Payload => start_read
  end.

(** The bytes the operation may deliver: [async_read] fills the buffer, [async_read_some] gives
    at least one byte unless there is no room. *)
Definition to_read (c : connection) : Z :=
  if remaining_length_ c <? 4096 then remaining_length_ c else 4096.
Definition deliverable (c : connection) (n : Z) : bool :=
  match state_ c with
  | MiniHeader => (1 <=? n) && (n <=? 2)
  | Len16 => n =? 2
  | Len64 => n =? 8
  | Mask => n =? 4
  | Payload => (n <=? to_read c) && ((1 <=? n) || (to_read c =? 0))
  end.

Definition is_FIN (c : connection) : bool := negb (Z.land (mini_header_ c) 32768 =? 0).
Definition opcode (c : connection) : Z := Z.shiftr (Z.land (mini_header_ c) 3840) 8.

(** [for (i = 0; ...) fragment_[i] ^= ((char* )&mask_)[i % 4]] *)
Fixpoint unmask (mask : list Z) (i : nat) (fragment : list Z) : list Z :=
  match fragment with
  | [] => []
  | x :: fragment => Z.lxor x (nth (i mod 4) mask 0) :: unmask mask (S i) fragment
  end.

(** The three kinds of data frames, after [is_binary_] has been set. *)
Definition append_fragment : ws unit :=
  put (λ c, set_message (message_ c ++ fragment_ c) c) ;;
  fin ← get is_FIN;
  when fin
    (match message_handler_ with
     | None => ret tt
     | Some h =>
         msg ← get message_;
         binary ← get is_binary_;
         match binary with
         | None => undef_ws uninitialised
         | Some binary => call (Some (h msg binary))
         end
     end ;;
     put (set_message [])).

Definition handle_close : ws unit :=
  put (set_has_recv_close true) ;;
  sent ← get has_sent_close_;
  if negb sent then fragment ← get fragment_; close_ fragment
  else
    close_adaptor ;;
    put (set_close_connection true) ;;
    called ← get is_close_handler_called_;
    when (negb called)
      (fragment ← get fragment_;
       call ((λ h, h fragment) <$> close_handler_) ;;
       put (set_is_close_handler_called true)) ;;
    check_destroy.

Definition handle_fragment : ws unit :=
  masked ← get has_mask_;
  when masked (put (λ c, set_fragment (unmask (mask_ c) 0 (fragment_ c)) c)) ;;
  op ← get opcode;
  (if op =? 0 then append_fragment
   else if op =? 1 then put (set_is_binary (Some false)) ;; append_fragment
   else if op =? 2 then put (set_is_binary (Some true)) ;; append_fragment
   else if op =? 8 then handle_close
   else if op =? 9 then fragment ← get fragment_; send_frame 10 fragment
   else if op =? 10 then put (set_pong_received true)
   else ret tt) ;;
  put (set_fragment []).

(** The completion handlers of the reads, by state.  [r] is [None] when there was an error. *)
Definition read_failed (freeing : bool) : ws unit :=
  put (set_close_connection true) ;;
  (if freeing then close_adaptor ;; call error_handler_ ;; check_destroy
   else call error_handler_ ;; close_adaptor).

Definition mini_header_read (r : option (list Z)) : ws unit :=
  put (set_is_reading false) ;;
  put (λ c, set_mini_header (ntohs (le_load (default [] r))) c) ;;
  match r with
  | None => read_failed true
  | Some _ =>
      h ← get mini_header_;
      put (set_has_mask (Z.land h 128 =? 128)) ;;
      (if Z.land h 127 =? 127 then put (set_state Len64)
       else if Z.land h 127 =? 126 then put (set_state Len16)
       else put (λ c, set_state Mask (set_remaining_length (Z.land h 127) c))) ;;
      do_read
  end.

Definition len16_read (r : option (list Z)) : ws unit :=
  put (set_is_reading false) ;;
  put (set_remaining_length (ntohs (le_load (default [] r)))) ;;
  match r with None => read_failed true | Some _ => put (set_state Mask) ;; do_read end.

Definition len64_read (r : option (list Z)) : ws unit :=
  put (set_is_reading false) ;;
  put (λ c, set_remaining_length
              (swap_uint64 (match r with Some b => le_load b | None => remaining_length_ c end)) c) ;;
  match r with None => read_failed true | Some _ => put (set_state Mask) ;; do_read end.

Definition mask_read (r : option (list Z)) : ws unit :=
  put (set_is_reading false) ;;
  match r with
  | None => read_failed false
  | Some b => put (set_mask b) ;; put (set_state Payload) ;; do_read
  end.

Definition payload_read (r : option (list Z)) : ws unit :=
  put (set_is_reading false) ;;
  match r with
  | None => read_failed false
  | Some b =>
      put (λ c, set_fragment (fragment_ c ++ b) c) ;;
      put (λ c, set_remaining_length (remaining_length_ c - Z.of_nat (length b)) c) ;;
      rest ← get remaining_length_;
      if rest =? 0 then handle_fragment ;; put (set_state MiniHeader) ;; do_read
      else do_read
  end.

Definition read_done (r : option (list Z)) : ws unit :=
  st ← get state_;
  match st with
  | MiniHeader => mini_header_read r
  | Len16 => len16_read r
  | Len64 => len64_read r
  | Mask => mask_read r
  | Payload => payload_read r
  end.

(** The completion handler of a write. *)
Definition write_done (ok : bool) : ws unit :=
  put (set_sending_buffers []) ;;
  closing ← get close_connection_;
  if ok && negb closing then
    buffers ← get write_buffers_;
    when (negb (bool_decide (buffers = []))) do_write ;;
    sent ← get has_sent_close_;
    when sent (put (set_close_connection true))
  else put (set_close_connection true) ;; check_destroy.

(** ** Handshake *)

Definition switching_protocols : list Z :=
  octets "HTTP/1.1 101 Switching Protocols" ++ [13; 10] ++ octets "Upgrade: websocket" ++ [13; 10]
    ++ octets "Connection: Upgrade" ++ [13; 10] ++ octets "Sec-WebSocket-Accept: ".

(** [write_buffers_.emplace_back(b)], for each of the buffers. *)
Fixpoint emplace_buffers (l : list (list Z)) : ws unit :=
  match l with
  | [] => ret tt
  | b :: l => put (λ c, set_write_buffers (write_buffers_ c ++ [b]) c) ;; emplace_buffers l
  end.

(** [start], from the buffers it writes. *)
Definition start_with (l : list (list Z)) : ws unit :=
  emplace_buffers l ;;
  do_write ;;
  call open_handler_ ;;
  do_read.
Definition start (hello : list Z) : ws unit :=
  start_with [switching_protocols; hello; [13; 10]; [13; 10]].

(** The constructor. *)
Definition construct (garbage : list Z) (req : request) : ws unit :=
  if negb (iequals (get_header_value (req_headers req) "upgrade") "websocket") then
    close_adaptor ;; put (set_destroyed true)
  else
    accepted ← (match accept_handler_ with
                | None => ret true
                | Some h => λ '(c, u), let '(b, u) := h req u in Val (b, (c, u))
                end);
    if negb accepted then close_adaptor ;; put (set_destroyed true)
    else
      match accept_value garbage (get_header_value (req_headers req) "Sec-WebSocket-Key") with
      | None => undef_ws out_of_bounds
      | Some hello => start hello
      end.

(** [WebSocketRule::handle_upgrade]: the connection is not kept by anyone else. *)
Definition handle_upgrade (garbage : list Z) (req : request) (u : U) :
    outcome (connection * U) :=
  outcome_map snd (construct garbage req (new_connection, u)).

(** ** Events *)

Inductive event : Type :=
| ReadDone (r : option (list Z))
| WriteDone (ok : bool)
| Posted (x : command).

Definition allowed (c : connection) (e : event) : bool :=
  match e with
  | ReadDone None => Nat.ltb 0 (reads c)
  | ReadDone (Some b) =>
      Nat.ltb 0 (reads c) && deliverable c (Z.of_nat (length b))
        && forallb (λ x, (0 <=? x) && (x <? 256)) b
  | WriteDone _ => Nat.ltb 0 (writes c)
  | Posted _ => negb (destroyed c)
  end.

Definition step (e : event) (s : connection * U) : outcome (connection * U) :=
  let '(c, u) := s in
  outcome_map snd
    (match e with
     | ReadDone r => read_done r (set_reads (Nat.pred (reads c)) c, u)
     | WriteDone ok => write_done ok (set_writes (Nat.pred (writes c)) c, u)
     | Posted x => run_commands close_ [x] (c, u)
     end).

(** A sequence of events, each of which is allowed. *)
Fixpoint run_events (l : list event) (s : connection * U) : option (outcome (connection * U)) :=
  match l with
  | [] => Some (Val s)
  | e :: l =>
      if allowed s.1 e then
        match step e s with
        | Val s => run_events l s
        | o => Some o
        end
      else None
  end.

End WebSocket.

(** ** The handshake of RFC 6455 *)

Example rfc_handshake :
  accept_value (repeat 0 64) "dGhlIHNhbXBsZSBub25jZQ==" =
  Some (octets "s3pPLMBiTxaQ9kYGzzhZRbK+xOo=").
Proof. vm_compute. reflexivity. Qed.
