(* ===== verification/WebSocketFacts.v ===== *)
(** * WebSocket connections: what holds after every event

    A calculus of the code's accesses ([wp]), what sending does to a connection, and the safety of
    a connection: an event that asio can deliver leads to a next state, unless the client answers
    the server's close frame with no write under way (the object is used after it has been freed)
    or continues a message it has not begun (a field is read that has not been written). *)

From Stdlib Require Import ZArith Lia Ascii String.
From stdpp Require Import base tactics option strings list.
From S2P Require Import Prelude.
From S2P Require Import CppStd.
From S2P Require Import QueryString.
From S2P Require Import Crow.
From S2P Require Import Base64.
From S2P Require Import Sha1.
From S2P Require Import Sha1Facts.
From S2P Require Import WebSocket.

Local Open Scope Z_scope.

(** ** The state between events *)

(** What is under way, for an object that has not been freed. *)
Record live (c : connection) : Prop := MkLive {
  live_here : destroyed c = false;
  live_reads : reads c = (if is_reading c then 1 else 0)%nat;
  live_writes : writes c = (match sending_buffers_ c with [] => 0 | _ => 1 end)%nat
}.

(** Nothing is under way on a freed object. *)
Definition settled (c : connection) : Prop :=
  live c ∨ (destroyed c = true ∧ reads c = 0%nat ∧ writes c = 0%nat).

(** The fields that no command touches. *)
Definition reader_part (c : connection) :=
  (is_binary_ c, message_ c, fragment_ c, state_ c, remaining_length_ c, close_connection_ c,
   (is_reading c, has_mask_ c, mask_ c, mini_header_ c, has_recv_close_ c, pong_received_ c,
    (socket_open c, reads c, destroyed c))).

(** All that has been handed over to be written, in order. *)
Definition queue (c : connection) : list Z := wire c ++ concat (write_buffers_ c).

Definition server_frame (opcode : Z) (msg : list Z) : list Z :=
  build_header opcode (Z.of_nat (length msg)) ++ msg.

(** Only the client's answer to the server's close frame, at its last byte and with no write
    under way, can be fatal; or the last fragment of a message that has no first one. *)
Definition completes_frame (c : connection) (e : event) : Prop :=
  ∃ b, e = ReadDone (Some b) ∧ state_ c = Payload ∧ remaining_length_ c = Z.of_nat (length b).
Definition close_reply (c : connection) (e : event) : Prop :=
  completes_frame c e ∧ opcode c = 8 ∧ has_sent_close_ c = true ∧ writes c = 0%nat.
Definition stray_continuation (c : connection) (e : event) : Prop :=
  completes_frame c e ∧ opcode c = 0 ∧ is_FIN c = true ∧ is_binary_ c = None.

(** ** Weakest preconditions *)

Section Calculus.
Context {U : Type}.
Abbreviation ws := (WebSocket.ws (U:=U)).

Definition wp {A} (p : ws A) (Q : A → connection * U → Prop) (s : connection * U) : Prop :=
  match p s with Val (a, s') => Q a s' | _ => False end.

Lemma wp_bind {A B} (p : ws A) (k : A → ws B) Q s :
  wp p (λ a, wp (k a) Q) s → wp (bind p k) Q s.
Proof. unfold wp, bind. destruct (p s) as [[a s']| | | | |]; try done. Qed.

Lemma wp_weaken {A} (p : ws A) (P Q : A → connection * U → Prop) s :
  wp p P s → (∀ a s', P a s' → Q a s') → wp p Q s.
Proof. unfold wp. destruct (p s) as [[a s']| | | | |]; naive_solver. Qed.

Lemma wp_ret {A} (a : A) (Q : A → connection * U → Prop) s : Q a s → wp (ret a) Q s.
Proof. done. Qed.

Lemma wp_get {A} (f : connection → A) Q c u :
  destroyed c = false → Q (f c) (c, u) → wp (get f) Q (c, u).
Proof. unfold wp, get. by intros ->. Qed.

Lemma wp_put (f : connection → connection) (Q : unit → connection * U → Prop) c u :
  destroyed c = false → Q tt (f c, u) → wp (put f) Q (c, u).
Proof. unfold wp, put. by intros ->. Qed.

Lemma wp_eq {A} (p q : ws A) Q s s' : p s = q s' → wp q Q s' → wp p Q s.
Proof. unfold wp. by intros ->. Qed.

End Calculus.

(** Run the accesses at the front. *)
Ltac here := first [done | cbn; congruence | assumption].
Ltac access := first
  [ apply wp_bind; apply wp_get; [here|] | apply wp_bind; apply wp_put; [here|]
  | apply wp_get; [here|] | apply wp_put; [here|] | apply wp_ret ].

Section WebSocketFacts.
Context {U : Type}.
Context (open_handler_ : option (U → list command * U))
        (message_handler_ : option (list Z → bool → U → list command * U))
        (close_handler_ : option (list Z → U → list command * U))
        (error_handler_ : option (U → list command * U))
        (accept_handler_ : option (request → U → bool * U)).

Abbreviation ws := (WebSocket.ws (U:=U)).
Abbreviation call := (WebSocket.call close_handler_).
Abbreviation close_ := (WebSocket.close_ close_handler_).
Abbreviation step := (WebSocket.step message_handler_ close_handler_ error_handler_).
Abbreviation handle_upgrade :=
  (WebSocket.handle_upgrade open_handler_ close_handler_ accept_handler_).

(** ** Sending *)

(** The buffers are handed to [async_write], unless a write is under way. *)
Lemma wp_do_write c u :
  live c → write_buffers_ c ≠ [] ∨ sending_buffers_ c ≠ [] →
  wp (do_write (U:=U)) (λ _ s', s'.2 = u ∧ live s'.1 ∧ reader_part s'.1 = reader_part c ∧
                 queue s'.1 = queue c ∧ has_sent_close_ s'.1 = has_sent_close_ c ∧
                 is_close_handler_called_ s'.1 = is_close_handler_called_ c ∧
                 sending_buffers_ s'.1 ≠ [] ∧
                 (sending_buffers_ c = [] → write_buffers_ s'.1 = [])) (c, u).
Proof.
  intros [D R W] N. unfold do_write. access. destruct (decide _) as [E|E]; cbn beta iota.
  - access. access. apply wp_put; [here|]. rewrite E in W. destruct N as [N|N]; [|done].
    cbn. split_and!; try done.
    + split; cbn; try done. rewrite W. by destruct (write_buffers_ c).
    + unfold queue; cbn. by rewrite app_nil_r.
  - access. by split_and!.
Qed.

Record sends (o : list Z) (s s' : connection * U) : Prop := MkSends {
  sends_live : live s'.1;
  sends_reader : reader_part s'.1 = reader_part s.1;
  sends_queue : queue s'.1 = queue s.1 ++ o;
  sends_user : s'.2 = s.2;
  sends_sent : has_sent_close_ s'.1 = has_sent_close_ s.1;
  sends_called : is_close_handler_called_ s'.1 = is_close_handler_called_ s.1;
  sends_pending : sending_buffers_ s'.1 ≠ []
}.

Lemma wp_send_frame op m c u :
  live c → wp (send_frame op m) (λ _, sends (server_frame op m) (c, u)) (c, u).
Proof.
  intros [D R W]. unfold send_frame. do 2 access. unfold server_frame.
  eapply wp_weaken; [apply wp_do_write; [by split|left; cbn; by destruct (write_buffers_ c)]|].
  intros ? s' (E1 & L & E2 & E3 & E4 & E5 & N & _). split; try done.
  rewrite E3. unfold queue; cbn. rewrite !concat_app; cbn. by rewrite !app_nil_r, <- !app_assoc.
Qed.

(** What any commands leave. *)
Record grows (s s' : connection * U) : Prop := MkGrows {
  grows_live : live s'.1;
  grows_reader : reader_part s'.1 = reader_part s.1;
  grows_called : is_close_handler_called_ s.1 = true → is_close_handler_called_ s'.1 = true;
  grows_pending : sending_buffers_ s.1 ≠ [] → sending_buffers_ s'.1 ≠ []
}.

#[local] Instance grows_trans : Transitive grows.
Proof.
  intros s1 s2 s3 [L1 R1 C1 P1] [L2 R2 C2 P2]. split; try done; [congruence|auto|auto].
Qed.
Lemma grows_refl s : live s.1 → grows s s.
Proof. by split. Qed.
Lemma sends_grows o s s' : sends o s s' → grows s s'.
Proof. intros [L R _ _ _ C P]. split; try done. by rewrite C. Qed.

Lemma wp_commands (cl : list Z → ws unit) (K : connection → Prop) l s :
  (∀ m s, live s.1 → K s.1 → wp (cl m) (λ _, grows s) s) →
  (∀ s s', grows s s' → K s.1 → K s'.1) →
  live s.1 → K s.1 → wp (run_commands cl l) (λ _, grows s) s.
Proof.
  intros Hcl HK. revert s. induction l as [|x l IH]; intros s L H.
  { by apply wp_ret, grows_refl. }
  cbn [run_commands]. apply wp_bind.
  eapply (wp_weaken _ (λ _, grows s)).
  - destruct s as [c u], x; 
      try (eapply wp_weaken; [by apply wp_send_frame|]; by intros ? s' G%sends_grows).
    by apply Hcl.
  - intros ? s1 G. eapply wp_weaken; [apply IH; [apply G|by eapply HK]|].
    intros ? s2 G2. by etransitivity.
Qed.

Lemma wp_call_handler (cl : list Z → ws unit) (K : connection → Prop) h s :
  (∀ m s, live s.1 → K s.1 → wp (cl m) (λ _, grows s) s) →
  (∀ s s', grows s s' → K s.1 → K s'.1) →
  live s.1 → K s.1 → wp (call_handler cl h) (λ _, grows s) s.
Proof.
  intros Hcl HK L H. destruct h as [h|]; [|by apply wp_ret, grows_refl].
  destruct s as [c u]. unfold wp, call_handler. destruct (h u) as [l u'].
  pose proof (wp_commands cl K l (c, u') Hcl HK L H) as X. unfold wp in X.
  destruct (run_commands cl l (c, u')) as [[? s']| | | | |]; try done.
  by destruct X.
Qed.

(** [close], once the close handler has been called, and in general. *)
Lemma wp_close_called depth m s :
  live s.1 → is_close_handler_called_ s.1 = true →
  wp (close_at close_handler_ (S depth) m) (λ _, grows s) s.
Proof.
  destruct s as [c u]. cbn [fst]. intros [D R W] C. cbn [close_at]. do 3 access.
  cbn. rewrite C, andb_false_r. cbn [when]. apply wp_bind, wp_ret.
  eapply wp_weaken; [apply wp_send_frame; by split|]. intros ? s' G. apply sends_grows in G.
  by destruct G.
Qed.

Lemma wp_close m s : live s.1 → wp (close_ m) (λ _, grows s) s.
Proof.
  destruct s as [c u]. cbn [fst]. intros [D R W]. unfold WebSocket.close_. cbn [close_at]. do 3 access.
  cbn [has_recv_close_ is_close_handler_called_ set_has_sent_close].
  apply wp_bind. eapply (wp_weaken _ (λ _, grows (c, u))).
  - destruct (has_recv_close_ c && negb (is_close_handler_called_ c)); cbn [when];
      [|by apply wp_ret; split].
    access.
    pose proof (wp_call_handler (close_at close_handler_ 1) (λ c, is_close_handler_called_ c = true)
      ((λ h, h m) <$> close_handler_)
      (set_is_close_handler_called true (set_has_sent_close true c), u)
      (wp_close_called 0)) as X.
    eapply wp_weaken; [apply X; [by intros ?? []|by split|done]|].
    intros ? s' [L' R' C' P']. split; [done|exact R'|intros; by apply C'|exact P'].
  - intros ? [c1 u1] G. eapply wp_weaken; [apply wp_send_frame, G|].
    intros ? s2 G2. etransitivity; [exact G|]. by apply sends_grows in G2.
Qed.

Lemma wp_call h s : live s.1 → wp (call h) (λ _, grows s) s.
Proof.
  intros L. apply (wp_call_handler _ (λ _, True)); try done. intros. by apply wp_close.
Qed.

(** ** Ends *)

Lemma reader_is_reading c c' : reader_part c' = reader_part c → is_reading c' = is_reading c.
Proof. unfold reader_part. by intros [=]. Qed.
Lemma reader_reads c c' : reader_part c' = reader_part c → reads c' = reads c.
Proof. unfold reader_part. by intros [=]. Qed.

(** [check_destroy] frees the object, unless a write is under way or a read is. *)
Lemma wp_check_destroy s :
  live s.1 →
  wp (check_destroy close_handler_)
    (λ _ s', grows s s' ∨
       (sending_buffers_ s.1 = [] ∧ is_reading s.1 = false ∧ destroyed s'.1 = true ∧
        reads s'.1 = 0%nat ∧ writes s'.1 = 0%nat)) s.
Proof.
  intros L. destruct s as [c u]. cbn [fst] in *. unfold check_destroy.
  pose proof (live_here _ L) as D. access.
  apply wp_bind. eapply (wp_weaken _ (λ _, grows (c, u))).
  { destruct (negb _); cbn [when]; [by apply wp_call|by apply wp_ret, grows_refl]. }
  intros ? [c1 u1] G. pose proof G as [[D1 R1 W1] E _ P]. cbn [fst] in *. do 2 access.
  destruct (bool_decide (sending_buffers_ c1 = []) && negb (is_reading c1)) eqn:B; cbn [when].
  - apply andb_true_iff in B as [B1%bool_decide_eq_true_1 B2%negb_true_iff]. access. right. cbn.
    rewrite R1, W1, B1, B2. rewrite <- (reader_is_reading _ _ E), B2.
    split_and!; try done. destruct (sending_buffers_ c); [done|]. by destruct P.
  - access. by left.
Qed.

Lemma grows_settled s s' : grows s s' → settled s'.1.
Proof. intros [L]. by left. Qed.

Lemma wp_read_failed freeing s :
  live s.1 → wp (read_failed close_handler_ error_handler_ freeing) (λ _ s', settled s'.1) s.
Proof.
  destruct s as [c u]. cbn [fst]. intros [D R W]. unfold read_failed. access. destruct freeing.
  - unfold close_adaptor. access. apply wp_bind.
    eapply wp_weaken; [by apply wp_call; split|]. intros ? s1 [L1 _ _ _].
    eapply wp_weaken; [by apply wp_check_destroy|].
    intros ? s2 [G|(_ & _ & D2 & R2 & W2)]; [by eapply grows_settled|by right].
  - apply wp_bind. eapply wp_weaken; [by apply wp_call; split|].
    intros ? [c1 u1] [[D1 R1 W1] _ _ _]. unfold close_adaptor. access. left. by split.
Qed.

(** ** Reading *)

(** A connection that waits for bytes. *)
Definition waiting (c : connection) : Prop := live c ∧ is_reading c = true.

Lemma wp_do_read s :
  live s.1 → is_reading s.1 = false → wp (do_read (U:=U)) (λ _ s', waiting s'.1) s.
Proof.
  destruct s as [c u]. cbn [fst]. intros [D R W] I. rewrite I in R. unfold do_read. do 2 access.
  cbn [state_ set_is_reading]. unfold start_read. unfold waiting.
  destruct (state_ c); [..|].
  - do 2 access. split; [split|]; cbn; congruence.
  - do 2 access. split; [split|]; cbn; congruence.
  - access. split; [split|]; cbn; congruence.
  - access. cbn beta iota. destruct (has_mask_ _); [access|do 3 access];
      (split; [split|]; cbn; congruence).
  - access. split; [split|]; cbn; congruence.
Qed.

(** Between two reads: nothing is being read. *)
Definition between (c : connection) : Prop := live c ∧ is_reading c = false.

Lemma grows_between s s' : grows s s' → between s.1 → between s'.1.
Proof. intros [L R _ _] [_ I]. split; [done|]. by rewrite (reader_is_reading _ _ R). Qed.

Lemma wp_append_fragment s :
  between s.1 → (is_FIN s.1 = true → is_binary_ s.1 ≠ None) →
  wp (append_fragment message_handler_ close_handler_) (λ _ s', between s'.1) s.
Proof.
  destruct s as [c u]. cbn [fst]. intros [[D R W] I] B. unfold append_fragment. do 2 access.
  change (is_FIN (set_message _ c)) with (is_FIN c).
  destruct (is_FIN c); cbn [when]; [|access; by split].
  apply wp_bind. eapply (wp_weaken _ (λ _ s', between s'.1)).
  - destruct message_handler_ as [h|]; [|access; by split].
    do 2 access. cbn [is_binary_ set_message]. destruct (is_binary_ c) as [b|]; [|by destruct B].
    eapply wp_weaken; [by apply wp_call; split|]. intros ? s' G.
    eapply grows_between; [exact G|by split].
  - intros ? [c1 u1] [[D1 R1 W1] I1]. access. by split.
Qed.

(** A close frame: the object is freed only in an answer with no write under way. *)
Lemma wp_handle_close s :
  between s.1 →
  wp (handle_close close_handler_)
    (λ _ s', between s'.1 ∨
       (has_sent_close_ s.1 = true ∧ writes s.1 = 0%nat ∧ destroyed s'.1 = true)) s.
Proof.
  destruct s as [c u]. cbn [fst]. intros [[D R W] I]. unfold handle_close. do 2 access.
  cbn [has_sent_close_ set_has_recv_close]. destruct (has_sent_close_ c) eqn:Sc; cbn [negb].
  - unfold close_adaptor. do 3 access. apply wp_bind.
    eapply (wp_weaken _ (λ _ s', between s'.1 ∧ (sending_buffers_ c ≠ [] → sending_buffers_ s'.1 ≠ []))).
    + cbn [is_close_handler_called_ set_close_connection set_socket_open set_has_recv_close].
      destruct (negb (is_close_handler_called_ c)); cbn [when]; [|access; by split; [split|]].
      access. apply wp_bind. eapply wp_weaken; [by apply wp_call; split|].
      intros ? [c1 u1] G. pose proof (grows_between _ _ G) as B.
      destruct B as [[D1 R1 W1] I1]; [by split|]. access.
      split; [by split|]. intros P. by apply (grows_pending _ _ G).
    + intros ? [c1 u1] [[L1 I1] P1]. eapply wp_weaken; [by apply wp_check_destroy|].
      intros ? s2 [G|(S2 & _ & D2 & _ & _)]; [left; by eapply grows_between|].
      right. split_and!; [done| |done]. rewrite W. cbn [fst] in *.
      destruct (sending_buffers_ c); [done|]. by destruct P1.
  - access. eapply wp_weaken; [by apply wp_close; split|]. intros ? s' G. left.
    eapply grows_between; [exact G|by split].
Qed.

(** ** A frame *)

(** The branches of the [switch]. *)
Definition dispatch (op : Z) : ws unit :=
  if op =? 0 then append_fragment message_handler_ close_handler_
  else if op =? 1 then
    bind (put (set_is_binary (Some false))) (λ _, append_fragment message_handler_ close_handler_)
  else if op =? 2 then
    bind (put (set_is_binary (Some true))) (λ _, append_fragment message_handler_ close_handler_)
  else if op =? 8 then handle_close close_handler_
  else if op =? 9 then bind (get fragment_) (λ fragment, send_frame 10 fragment)
  else if op =? 10 then put (set_pong_received true)
  else ret tt.

Definition unmasked (c : connection) : connection :=
  if has_mask_ c then set_fragment (unmask (mask_ c) 0 (fragment_ c)) c else c.

Lemma handle_fragment_dispatch c u :
  destroyed c = false →
  handle_fragment message_handler_ close_handler_ (c, u) =
  bind (dispatch (opcode c)) (λ _, put (set_fragment [])) (unmasked c, u).
Proof.
  intros D. unfold handle_fragment, unmasked. unfold bind at 1. unfold get at 1. rewrite D.
  cbn [outcome_bind]. unfold bind at 1. destruct (has_mask_ c); cbn [when].
  - unfold put at 1. rewrite D. cbn [outcome_bind]. unfold bind at 1, get at 1. cbn [destroyed set_fragment].
    rewrite D. reflexivity.
  - unfold ret at 1. cbn [outcome_bind]. unfold bind at 1, get at 1. rewrite D. reflexivity.
Qed.

Lemma unmasked_between c : between c → between (unmasked c).
Proof. intros [[D R W] I]. unfold unmasked. by destruct (has_mask_ c). Qed.

Lemma wp_dispatch op s :
  op ≠ 8 → between s.1 → (op = 0 → is_FIN s.1 = true → is_binary_ s.1 ≠ None) →
  wp (dispatch op) (λ _ s', between s'.1) s.
Proof.
  destruct s as [c u]. cbn [fst]. intros N B X. pose proof (live_here _ (proj1 B)) as D.
  unfold dispatch. destruct (op =? 0) eqn:E0.
  { apply Z.eqb_eq in E0. apply wp_append_fragment; auto. }
  destruct (op =? 1); [access; apply wp_append_fragment; [by destruct B as [[] ?]|done]|].
  destruct (op =? 2); [access; apply wp_append_fragment; [by destruct B as [[] ?]|done]|].
  destruct (op =? 8) eqn:E8; [by apply Z.eqb_eq in E8|].
  destruct (op =? 9).
  { access. eapply wp_weaken; [apply wp_send_frame, B|]. intros ? s' G%sends_grows.
    by eapply grows_between. }
  destruct (op =? 10); access; [|done]. by destruct B as [[] ?].
Qed.

(** The end of a frame: fatal in the two cases only. *)
Lemma handle_fragment_cases c u :
  between c →
  wp (handle_fragment message_handler_ close_handler_) (λ _ s', between s'.1) (c, u) ∨
  (opcode c = 8 ∧ has_sent_close_ c = true ∧ writes c = 0%nat ∧
   handle_fragment message_handler_ close_handler_ (c, u) = Undef use_after_free) ∨
  (opcode c = 0 ∧ is_FIN c = true ∧ is_binary_ c = None ∧
   handle_fragment message_handler_ close_handler_ (c, u) = Undef uninitialised).
Proof.
  intros B. pose proof (live_here _ (proj1 B)) as D. pose proof (unmasked_between _ B) as B1.
  assert (is_FIN (unmasked c) = is_FIN c ∧ is_binary_ (unmasked c) = is_binary_ c ∧
          has_sent_close_ (unmasked c) = has_sent_close_ c ∧ writes (unmasked c) = writes c)
    as (F1 & F2 & F3 & F4) by (unfold unmasked; by destruct (has_mask_ c)).
  unfold wp. rewrite handle_fragment_dispatch by done. unfold bind.
  destruct (decide (opcode c = 8)) as [O|O].
  - rewrite O. change (dispatch 8) with (handle_close close_handler_).
    pose proof (wp_handle_close (unmasked c, u) B1) as H. unfold wp in H.
    destruct (handle_close close_handler_ (unmasked c, u)) as [[a [c2 u2]]| | | | |]; try done.
    cbn [outcome_bind fst] in *. unfold put. destruct H as [B2|(S2 & W2 & D2)].
    + left. pose proof (live_here _ (proj1 B2)) as ->. by destruct B2 as [[] ?].
    + right; left. rewrite D2. by rewrite <- F3, <- F4.
  - destruct (decide (opcode c = 0 ∧ is_FIN c = true ∧ is_binary_ c = None)) as [(O0 & F & N)|S].
    + rewrite O0. change (dispatch 0) with (append_fragment message_handler_ close_handler_).
      pose proof (live_here _ (proj1 B1)) as D1.
      unfold append_fragment, bind, put, get. rewrite D1. cbn [outcome_bind destroyed set_message].
      rewrite D1. cbn [outcome_bind].
      change (is_FIN (set_message _ (unmasked c))) with (is_FIN (unmasked c)). rewrite F1, F. cbn [when].
      destruct message_handler_ as [h|]; cbn [outcome_bind].
      * right; right. repeat progress (cbn [outcome_bind destroyed set_message is_binary_]; rewrite ?D1).
        by rewrite F2, N.
      * left. unfold ret. repeat progress (cbn [outcome_bind destroyed set_message]; rewrite ?D1).
        by destruct B1 as [[] ?].
    + left. pose proof (wp_dispatch (opcode c) (unmasked c, u) O B1) as H. unfold wp in H.
      destruct (dispatch (opcode c) (unmasked c, u)) as [[a [c2 u2]]| | | | |];
        try (exfalso; apply H; cbn; rewrite F1, F2; tauto).
      cbn [outcome_bind]. assert (between c2) as B2 by (apply H; cbn; rewrite F1, F2; tauto).
      unfold put. rewrite (live_here _ (proj1 B2)). by destruct B2 as [[] ?].
Qed.

(** ** Events *)

(** The state a completion handler of a read begins in. *)
Definition delivered (c : connection) : connection := set_is_reading false (set_reads 0 c).

Lemma delivered_between c : live c → between (delivered c).
Proof. intros [D R W]. by repeat split. Qed.

Lemma wp_do_read_settled s : between s.1 → wp (do_read (U:=U)) (λ _ s', settled s'.1) s.
Proof.
  intros [L I]. eapply wp_weaken; [by apply wp_do_read|]. intros ? s' [L' _]. by left.
Qed.

Lemma wp_mini_header_read r c u :
  live c → wp (mini_header_read close_handler_ error_handler_ r) (λ _ s', settled s'.1)
             (set_reads 0 c, u).
Proof.
  intros [D R W]. unfold mini_header_read. do 2 access. destruct r as [b|].
  - do 2 access. destruct (_ =? 127); [|destruct (_ =? 126)];
      access; apply wp_do_read_settled; by repeat split.
  - apply wp_read_failed. by split.
Qed.

Lemma wp_len16_read r c u :
  live c → wp (len16_read close_handler_ error_handler_ r) (λ _ s', settled s'.1) (set_reads 0 c, u).
Proof.
  intros [D R W]. unfold len16_read. do 2 access. destruct r as [b|].
  - access. apply wp_do_read_settled. by repeat split.
  - apply wp_read_failed. by split.
Qed.

Lemma wp_len64_read r c u :
  live c → wp (len64_read close_handler_ error_handler_ r) (λ _ s', settled s'.1) (set_reads 0 c, u).
Proof.
  intros [D R W]. unfold len64_read. do 2 access. destruct r as [b|].
  - access. apply wp_do_read_settled. by repeat split.
  - apply wp_read_failed. by split.
Qed.

Lemma wp_mask_read r c u :
  live c → wp (mask_read close_handler_ error_handler_ r) (λ _ s', settled s'.1) (set_reads 0 c, u).
Proof.
  intros [D R W]. unfold mask_read. access. destruct r as [b|].
  - do 2 access. apply wp_do_read_settled. by repeat split.
  - apply wp_read_failed. by split.
Qed.

(** The last bytes of a payload, and any others. *)
Abbreviation payload_read := (WebSocket.payload_read message_handler_ close_handler_ error_handler_).

Lemma payload_read_rest r c u :
  live c → (∀ b, r = Some b → remaining_length_ c ≠ Z.of_nat (length b)) →
  wp (payload_read r) (λ _ s', settled s'.1) (set_reads 0 c, u).
Proof.
  intros [D R W] N. unfold WebSocket.payload_read. access. destruct r as [b|].
  - do 3 access. cbn [remaining_length_ set_remaining_length set_fragment set_is_reading set_reads].
    rewrite (proj2 (Z.eqb_neq _ _)) by (specialize (N b eq_refl); lia).
    apply wp_do_read_settled. by repeat split.
  - apply wp_read_failed. by split.
Qed.

Lemma payload_read_cases b c u :
  live c → remaining_length_ c = Z.of_nat (length b) →
  wp (payload_read (Some b)) (λ _ s', settled s'.1) (set_reads 0 c, u) ∨
  (opcode c = 8 ∧ has_sent_close_ c = true ∧ writes c = 0%nat ∧
   payload_read (Some b) (set_reads 0 c, u) = Undef use_after_free) ∨
  (opcode c = 0 ∧ is_FIN c = true ∧ is_binary_ c = None ∧
   payload_read (Some b) (set_reads 0 c, u) = Undef uninitialised).
Proof.
  intros L E. pose proof L as [D R W].
  set (c1 := set_remaining_length 0 (set_fragment (fragment_ c ++ b) (delivered c))).
  assert (payload_read (Some b) (set_reads 0 c, u) =
          bind (handle_fragment message_handler_ close_handler_)
            (λ _, bind (put (set_state MiniHeader)) (λ _, do_read)) (c1, u)) as Eq.
  { unfold WebSocket.payload_read, c1. unfold bind at 1, put at 1. cbn [destroyed set_reads]. rewrite D.
    cbn [outcome_bind]. unfold bind at 1, put at 1. cbn [destroyed set_reads set_is_reading]. rewrite D.
    cbn [outcome_bind]. unfold bind at 1, put at 1.
    cbn [destroyed set_reads set_is_reading set_fragment]. rewrite D. cbn [outcome_bind].
    unfold bind at 1, get at 1. cbn [destroyed set_reads set_is_reading set_fragment set_remaining_length].
    rewrite D. cbn [outcome_bind remaining_length_ set_reads set_is_reading set_fragment set_remaining_length].
    rewrite E, Z.sub_diag. reflexivity. }
  assert (between c1) as B by by repeat split.
  destruct (handle_fragment_cases c1 u B) as [H|[(O & S & W1 & H)|(O & F & N & H)]].
  - left. eapply wp_eq; [exact Eq|]. apply wp_bind. eapply wp_weaken; [exact H|]. intros ? [c2 u2] [[D2 R2 W2] I2]. access.
    apply wp_do_read_settled. by repeat split.
  - right; left. rewrite Eq. unfold bind at 1. rewrite H. by split_and!.
  - right; right. rewrite Eq. unfold bind at 1. rewrite H. by split_and!.
Qed.

Lemma wp_write_done ok c u :
  live c → wp (write_done close_handler_ ok) (λ _ s', settled s'.1) (set_writes 0 c, u).
Proof.
  intros [D R W]. unfold write_done. do 2 access. destruct (ok && _).
  - access. apply wp_bind. eapply (wp_weaken _ (λ _ s', live s'.1)).
    + cbn [write_buffers_ set_sending_buffers set_writes].
      destruct (bool_decide (write_buffers_ c = [])) eqn:B; cbn [negb when]; [access; by split|].
      apply bool_decide_eq_false_1 in B.
      eapply wp_weaken; [apply wp_do_write; [by split|by left]|]. by intros ? s' (_ & L' & _).
    + intros ? [c1 u1] L1. pose proof (live_here _ L1). access.
      destruct (has_sent_close_ _); cbn [when]; access; left; by destruct L1.
  - access. eapply wp_weaken; [by apply wp_check_destroy; split|].
    intros ? s2 [G|(_ & _ & D2 & R2 & W2)]; [by eapply grows_settled|by right].
Qed.

Lemma wp_step {A} (p : ws A) s :
  wp p (λ _ s', settled s'.1) s → ∃ s', outcome_map snd (p s) = Val s' ∧ settled s'.1.
Proof.
  unfold wp. destruct (p s) as [[a s']| | | | |]; try done. intros H. by exists s'.
Qed.

(** An event that is allowed leads to a settled state, but for the two cases. *)
Lemma step_cases s e :
  settled s.1 → allowed s.1 e = true →
  (∃ s', step e s = Val s' ∧ settled s'.1) ∨
  (close_reply s.1 e ∧ step e s = Undef use_after_free) ∨
  (stray_continuation s.1 e ∧ step e s = Undef uninitialised).
Proof.
  destruct s as [c u]. cbn [fst]. intros St A.
  assert (∀ n, Nat.ltb 0 n = true → ∃ k, n = S k) as Pos.
  { intros [|n]; [done|by exists n]. }
  destruct e as [r|ok|x]; cbn [WebSocket.step].
  - assert (∃ n, reads c = S n) as [n Hn].
    { apply Pos. destruct r; cbn in A; [|done]. by rewrite !andb_true_iff in A; destruct A as [[] _]. }
    destruct St as [L|(_ & R & _)]; [|congruence]. pose proof L as [D R W].
    assert (n = 0%nat) as -> by (destruct (is_reading c); congruence).
    rewrite Hn. cbn [Nat.pred].
    assert (read_done message_handler_ close_handler_ error_handler_ r (set_reads 0 c, u) =
      match state_ c with
      | MiniHeader => mini_header_read close_handler_ error_handler_ r
      | Len16 => len16_read close_handler_ error_handler_ r
      | Len64 => len64_read close_handler_ error_handler_ r
      | Mask => mask_read close_handler_ error_handler_ r
      | Payload => payload_read r
      end (set_reads 0 c, u)) as ->.
    { unfold read_done. unfold bind, get. cbn [destroyed set_reads]. by rewrite D. }
    destruct (state_ c) eqn:Est;
      [left; by apply wp_step, wp_mini_header_read|left; by apply wp_step, wp_len16_read|
       left; by apply wp_step, wp_len64_read|left; by apply wp_step, wp_mask_read|].
    destruct r as [b|]; [|left; by apply wp_step, payload_read_rest].
    destruct (decide (remaining_length_ c = Z.of_nat (length b))) as [E|E].
    + assert (completes_frame c (ReadDone (Some b))) as CF by by exists b.
      destruct (payload_read_cases b c u L E) as [H|[(O & Sc & W1 & H)|(O & F & N & H)]].
      * left. by apply wp_step.
      * right; left. rewrite H. by repeat split.
      * right; right. rewrite H. by repeat split.
    + left. apply wp_step, payload_read_rest; [done|]. by intros ? [= <-].
  - left. apply wp_step. destruct (Pos _ A) as [n Hn].
    destruct St as [L|(_ & _ & W)]; [|congruence]. pose proof L as [D R W].
    assert (n = 0%nat) as -> by (destruct (sending_buffers_ c); congruence).
    rewrite Hn. by apply wp_write_done.
  - left. apply wp_step. apply negb_true_iff in A.
    destruct St as [L|(D & _)]; [|congruence].
    eapply wp_weaken.
    { apply (wp_commands close_ (λ _, True)); [intros; by apply wp_close|done|exact L|exact I]. }
    intros ? s' G. exact (grows_settled _ _ G).
Qed.

(** ** Reachable states *)

Inductive reachable (garbage : list Z) : connection * U → Prop :=
| reach_upgrade req u s : handle_upgrade garbage req u = Val s → reachable garbage s
| reach_step s e s' :
    reachable garbage s → allowed s.1 e = true → step e s = Val s' → reachable garbage s'.

Lemma wp_emplace_buffers l c u :
  live c →
  wp (emplace_buffers (U:=U) l)
    (λ _ s', s'.2 = u ∧ live s'.1 ∧ reader_part s'.1 = reader_part c ∧
       queue s'.1 = queue c ++ concat l ∧ has_sent_close_ s'.1 = has_sent_close_ c ∧
       is_close_handler_called_ s'.1 = is_close_handler_called_ c ∧
       sending_buffers_ s'.1 = sending_buffers_ c ∧
       length (write_buffers_ s'.1) = (length (write_buffers_ c) + length l)%nat) (c, u).
Proof.
  revert c. induction l as [|b l IH]; intros c L.
  - apply wp_ret. cbn. rewrite app_nil_r, Nat.add_0_r. by split_and!.
  - pose proof L as [D R W]. cbn [emplace_buffers]. access.
    eapply wp_weaken; [by apply IH; split|].
    intros ? s' (E1 & L' & E2 & E3 & E4 & E5 & E6 & E7). split_and!; try done.
    + rewrite E3. unfold queue; cbn. rewrite concat_app; cbn. by rewrite app_nil_r, <- !app_assoc.
    + rewrite E7. cbn. rewrite length_app; cbn. lia.
Qed.

(** The handshake is written at once: [queue] ends in what the handler of the opening sends. *)
Lemma wp_start_with l u :
  l ≠ [] →
  wp (start_with open_handler_ close_handler_ l)
    (λ _ s', waiting s'.1) (new_connection, u).
Proof.
  intros N. unfold start_with. apply wp_bind.
  eapply wp_weaken; [by apply wp_emplace_buffers|].
  intros ? [c1 u1] (_ & L1 & E1 & _ & _ & _ & S1 & E7). apply wp_bind.
  eapply wp_weaken; [apply wp_do_write; [done|left]|].
  { cbn in *. destruct (write_buffers_ c1); [|done]. by destruct l. }
  intros ? s2 (_ & L2 & E2 & _). apply wp_bind. eapply wp_weaken; [by apply wp_call|].
  intros ? s3 G. apply wp_do_read; [apply G|].
  rewrite (reader_is_reading _ _ (grows_reader _ _ G)), (reader_is_reading _ _ E2).
  by apply reader_is_reading in E1.
Qed.

Lemma start_with_settled l u s :
  l ≠ [] →
  outcome_map snd (start_with open_handler_ close_handler_ l (new_connection, u)) = Val s →
  settled s.1.
Proof.
  intros N. pose proof (wp_start_with l u N) as H. unfold wp in H.
  destruct (start_with _ _ _ _) as [[a s']| | | | |]; try done.
  cbn [outcome_map snd]. intros E. injection E as <-. left. apply H.
Qed.

Lemma wp_start_settled hello u s :
  outcome_map snd (start open_handler_ close_handler_ hello (new_connection, u)) = Val s →
  settled s.1.
Proof. apply start_with_settled. discriminate. Qed.

Lemma wp_construct garbage req u s :
  handle_upgrade garbage req u = Val s → settled s.1.
Proof.
  unfold WebSocket.handle_upgrade, construct. intros H.
  assert (live new_connection) as L0 by done.
  destruct (negb (iequals _ _)).
  { cbn in H. injection H as <-. by right. }
  unfold bind at 1 in H. destruct accept_handler_ as [h|].
  - destruct (h req u) as [ok u1]. cbn [outcome_bind] in H. destruct ok; cbn [negb] in H.
    + destruct (accept_value _ _) as [hello|]; [|done]. revert H. apply wp_start_settled.
    + cbn in H. injection H as <-. by right.
  - cbn [ret outcome_bind negb] in H. destruct (accept_value _ _) as [hello|]; [|done].
    revert H. apply wp_start_settled.
Qed.

Lemma reachable_settled garbage s : reachable garbage s → settled s.1.
Proof.
  induction 1 as [req u s H|s e s' _ IH A H]; [by eapply wp_construct|].
  destruct (step_cases s e IH A) as [(s1 & E & S)|[(_ & E)|(_ & E)]]; congruence.
Qed.

End WebSocketFacts.
