(* ===== verification/WebSocketFrames.v ===== *)
(** * Frames of RFC 6455

    The specification of what a client sends and is sent: frames and their bytes, and what a
    server owes for a sequence of frames (its messages put together from fragments, a pong for a
    ping).  The header the code builds is the one of the specification, and its arithmetic on
    received headers, in the byte order of the host, reads it back. *)

From Stdlib Require Import ZArith Lia Ascii String.
From stdpp Require Import base tactics option strings list.
From S2P Require Import Prelude.
From S2P Require Import CppStd.
From S2P Require Import QueryString.
From S2P Require Import Sha1.
From S2P Require Import Sha1Facts.
From S2P Require Import WebSocket.

Local Open Scope Z_scope.

(** ** Frames and their bytes *)

Record frame : Type := MkFrame {
  fin : bool;
  frame_opcode : Z;
  masking_key : option (list Z);
  payload : list Z
}.

(** The payload on the wire: octet [i] is combined with octet [i mod 4] of the key. *)
Definition masked (key : option (list Z)) (p : list Z) : list Z :=
  match key with
  | None => p
  | Some key => imap (λ i x, Z.lxor x (nth (i mod 4) key 0)) p
  end.

Definition first_byte (f : frame) : Z := (if fin f then 128 else 0) + frame_opcode f.
Definition short_length (n : Z) : Z := if n <? 126 then n else if n <? 65536 then 126 else 127.
Definition second_byte (key : option (list Z)) (n : Z) : Z :=
  (if key then 128 else 0) + short_length n.
Definition extended_length (n : Z) : list Z :=
  if n <? 126 then [] else if n <? 65536 then Fips.big_endian 2 n else Fips.big_endian 8 n.

Definition encode (f : frame) : list Z :=
  let n := Z.of_nat (length (payload f)) in
  [first_byte f; second_byte (masking_key f) n] ++ extended_length n
    ++ default [] (masking_key f) ++ masked (masking_key f) (payload f).

Record well_formed (f : frame) : Prop := MkWellFormed {
  wf_opcode : 0 ≤ frame_opcode f < 16;
  wf_key : ∀ k, masking_key f = Some k → length k = 4%nat ∧ Forall in_byte k;
  wf_payload : Forall in_byte (payload f);
  wf_length : Z.of_nat (length (payload f)) < 2 ^ 63
}.

(** ** What is owed

    A reply is an opcode and a payload, whose length fits [size_t]; a handler of messages may
    send but not close. *)
Definition reply : Type := Z * list Z.
Definition sized (r : reply) : option reply :=
  if Z.of_nat (length r.2) <? 2 ^ 64 then Some r else None.
Definition reply_of (x : command) : option reply :=
  match x with
  | send_ping m => sized (9, m)
  | send_pong m => sized (10, m)
  | send_binary m => sized (2, m)
  | send_text m => sized (1, m)
  | close _ => None
  end.
Definition encode_reply (r : reply) : list Z := encode (MkFrame true r.1 None r.2).
Definition encode_replies (l : list reply) : list Z := concat (encode_reply <$> l).

Section Serve.
Context {U : Type} (on_message : list Z → bool → U → list command * U).

(** The fragments of the current message, its kind once it is known, the user's state. *)
Record inbox : Type := MkInbox { fragments : list Z; kind : option bool; user : U }.

Definition deliver (fin : bool) (p : list Z) (i : inbox) : option (inbox * list reply) :=
  let msg := fragments i ++ p in
  if fin then
    binary ← kind i;
    let '(l, u) := on_message msg binary (user i) in
    replies ← mapM reply_of l;
    Some (MkInbox [] (kind i) u, replies)
  else Some (MkInbox msg (kind i) (user i), []).

(** One frame: a close frame is not a message, a first fragment names its kind. *)
Definition serve (f : frame) (i : inbox) : option (inbox * list reply) :=
  let op := frame_opcode f in
  if op =? 0 then deliver (fin f) (payload f) i
  else if op =? 1 then
    deliver (fin f) (payload f) (MkInbox (fragments i) (Some false) (user i))
  else if op =? 2 then
    deliver (fin f) (payload f) (MkInbox (fragments i) (Some true) (user i))
  else if op =? 8 then None
  else if op =? 9 then r ← sized (10, payload f); Some (i, [r])
  else Some (i, []).

Fixpoint serve_all (l : list frame) (i : inbox) : option (inbox * list reply) :=
  match l with
  | [] => Some (i, [])
  | f :: l =>
      '(i, o1) ← serve f i;
      '(i, o2) ← serve_all l i;
      Some (i, o1 ++ o2)
  end.
End Serve.

(** ** How a frame is read

    The two first bytes at once, then the length and the key if there are any, then the payload
    in pieces that fit the buffer. *)
Definition head_reads (f : frame) : list (list Z) :=
  let n := Z.of_nat (length (payload f)) in
  [[first_byte f; second_byte (masking_key f) n]]
    ++ (if n <? 126 then [] else [extended_length n])
    ++ match masking_key f with Some k => [k] | None => [] end.

Definition pieces (p : list Z) (l : list (list Z)) : Prop :=
  concat l = p ∧
  match p with
  | [] => l = [[]]
  | _ => Forall (λ b, 1 ≤ Z.of_nat (length b) ≤ 4096) l
  end.

Definition reads_of_frame (f : frame) (l : list (list Z)) : Prop :=
  ∃ ps, l = head_reads f ++ ps ∧ pieces (masked (masking_key f) (payload f)) ps.

(** ** Byte orders *)

#[local] Ltac each_byte := repeat first [apply Forall_nil_2 | apply Forall_cons_2; [done|]].

(** [lia] on divisions by constants. *)
#[local] Ltac Zify.zify_post_hook ::= Z.div_mod_to_equations.

Lemma le_load_cons x l : in_byte x → le_load (x :: l) = x + 256 * le_load l.
Proof.
  intros X. cbn [le_load]. rewrite Z.shiftl_mul_pow2, Z.lor_comm by lia.
  rewrite (lor_add 8) by (unfold in_byte in X; lia). lia.
Qed.

Lemma land_255 x : Z.land x 255 = x mod 256.
Proof. change 255 with (Z.ones 8). by rewrite Z.land_ones by lia. Qed.
Lemma shiftr_8 x : Z.shiftr x 8 = x / 256.
Proof. by rewrite Z.shiftr_div_pow2 by lia. Qed.

Lemma ntohs_eq x : ntohs x = 256 * (x mod 256) + (x / 256) mod 256.
Proof.
  unfold ntohs. rewrite !land_255, shiftr_8, Z.shiftl_mul_pow2 by lia.
  rewrite (lor_add 8) by (pose proof (Z.mod_pos_bound (x / 256) 256); lia). lia.
Qed.

Lemma ntohl_eq x :
  ntohl x = 16777216 * (x mod 256) + 65536 * ((x / 256) mod 256)
            + 256 * ((x / 65536) mod 256) + (x / 16777216) mod 256.
Proof.
  unfold ntohl. rewrite !land_255, !Z.shiftr_div_pow2, !Z.shiftl_mul_pow2 by lia.
  change (2 ^ 8) with 256. change (2 ^ 16) with 65536. change (2 ^ 24) with 16777216.
  pose proof (Z.mod_pos_bound x 256 ltac:(lia)).
  pose proof (Z.mod_pos_bound (x / 256) 256 ltac:(lia)).
  pose proof (Z.mod_pos_bound (x / 65536) 256 ltac:(lia)).
  pose proof (Z.mod_pos_bound (x / 16777216) 256 ltac:(lia)).
  replace (2 ^ 24 * (x mod 256)) with ((x mod 256) * 2 ^ 24) by lia.
  rewrite (lor_add 24 (x mod 256)) by lia.
  replace (x mod 256 * 2 ^ 24 + (x / 256) mod 256 * 65536)
    with ((x mod 256 * 2 ^ 8 + (x / 256) mod 256) * 2 ^ 16) by lia.
  rewrite (lor_add 16) by lia.
  replace ((x mod 256 * 2 ^ 8 + (x / 256) mod 256) * 2 ^ 16 + (x / 65536) mod 256 * 256)
    with (((x mod 256 * 2 ^ 8 + (x / 256) mod 256) * 2 ^ 8 + (x / 65536) mod 256) * 2 ^ 8) by lia.
  rewrite (lor_add 8) by lia. lia.
Qed.

(** ** Received headers *)

Lemma two_bytes b0 b1 : in_byte b0 → in_byte b1 → ntohs (le_load [b0; b1]) = 256 * b0 + b1.
Proof.
  intros B0 B1. rewrite !le_load_cons by done. cbn [le_load]. rewrite ntohs_eq.
  unfold in_byte in *. lia.
Qed.

(** The tests of the code on a header, for all headers. *)
Definition header_value (fin : bool) (op : Z) (key : bool) (len : Z) : Z :=
  256 * ((if fin then 128 else 0) + op) + ((if key then 128 else 0) + len).

Definition header_tests (fin : bool) (op : Z) (key : bool) (len : Z) : bool :=
  let h := header_value fin op key len in
  Bool.eqb (Z.land h 128 =? 128) key && (Z.land h 127 =? len)
    && Bool.eqb (negb (Z.land h 32768 =? 0)) fin && (Z.shiftr (Z.land h 3840) 8 =? op).

Definition all_headers : bool :=
  forallb (λ fin, forallb (λ key, forallb (λ op, forallb (λ len,
    header_tests fin (Z.of_nat op) key (Z.of_nat len)) (seq 0 128)) (seq 0 16)) [true; false])
    [true; false].

Lemma all_headers_pass : all_headers = true.
Proof. vm_compute. reflexivity. Qed.

Lemma header_tests_pass fin op key len :
  0 ≤ op < 16 → 0 ≤ len < 128 → header_tests fin op key len = true.
Proof.
  intros O L. pose proof all_headers_pass as H. unfold all_headers in H.
  rewrite forallb_forall in H. specialize (H fin ltac:(destruct fin; cbn; tauto)).
  rewrite forallb_forall in H. specialize (H key ltac:(destruct key; cbn; tauto)).
  rewrite forallb_forall in H. specialize (H (Z.to_nat op) ltac:(apply in_seq; lia)).
  rewrite forallb_forall in H. specialize (H (Z.to_nat len) ltac:(apply in_seq; lia)).
  by rewrite !Z2Nat.id in H by lia.
Qed.

Lemma short_length_range n : 0 ≤ n → 0 ≤ short_length n < 128.
Proof. intros N. unfold short_length. repeat case_match; lia. Qed.

Lemma header_of_frame f :
  well_formed f →
  let n := Z.of_nat (length (payload f)) in
  let h := ntohs (le_load [first_byte f; second_byte (masking_key f) n]) in
  (Z.land h 128 =? 128) = (if masking_key f then true else false) ∧
  Z.land h 127 = short_length n ∧
  negb (Z.land h 32768 =? 0) = fin f ∧
  Z.shiftr (Z.land h 3840) 8 = frame_opcode f.
Proof.
  intros [O K P L] n h.
  pose proof (short_length_range n ltac:(lia)) as S.
  assert (h = header_value (fin f) (frame_opcode f) (if masking_key f then true else false)
                (short_length n)) as ->.
  { unfold h. rewrite two_bytes.
    - unfold header_value, first_byte, second_byte. by destruct (masking_key f).
    - unfold in_byte, first_byte. destruct (fin f); lia.
    - unfold in_byte, second_byte. destruct (masking_key f); lia. }
  pose proof (header_tests_pass (fin f) (frame_opcode f) (if masking_key f then true else false)
                (short_length n) O S) as T.
  unfold header_tests in T. rewrite !andb_true_iff in T. destruct T as [[[T1 T2] T3] T4].
  apply Bool.eqb_prop in T1, T3. apply Z.eqb_eq in T2, T4. by split_and!.
Qed.

(** ** Lengths *)

Lemma big_endian_2 x : Fips.big_endian 2 x = [(x / 256) mod 256; x mod 256].
Proof. reflexivity. Qed.

Lemma length_16_read n :
  0 ≤ n < 65536 → ntohs (le_load (Fips.big_endian 2 n)) = n.
Proof.
  intros N. rewrite big_endian_2. rewrite two_bytes by (unfold in_byte; apply Z.mod_pos_bound; lia).
  lia.
Qed.

Lemma le_load_4 a b c d :
  in_byte a → in_byte b → in_byte c → in_byte d →
  le_load [a; b; c; d] = a + 256 * b + 65536 * c + 16777216 * d.
Proof. intros. rewrite !le_load_cons by done. cbn [le_load]. lia. Qed.

(** [ntohl] exchanges the two orders of four bytes. *)
Lemma ntohl_le_load a b c d :
  in_byte a → in_byte b → in_byte c → in_byte d →
  ntohl (le_load [a; b; c; d]) = 16777216 * a + 65536 * b + 256 * c + d.
Proof.
  intros A B C D. rewrite le_load_4, ntohl_eq by done. unfold in_byte in *. lia.
Qed.

Lemma be4_bytes x :
  0 ≤ x < 2 ^ 32 →
  ∃ a b c d, Fips.big_endian 4 x = [a; b; c; d] ∧ in_byte a ∧ in_byte b ∧ in_byte c ∧ in_byte d ∧
             x = 16777216 * a + 65536 * b + 256 * c + d.
Proof.
  intros X. do 4 eexists. split; [reflexivity|]. unfold in_byte.
  rewrite !Z.div_div by lia. split_and!; try (apply Z.mod_pos_bound; lia); lia.
Qed.

Lemma big_endian_8_split x :
  Fips.big_endian 8 x = Fips.big_endian 4 (x / 2 ^ 32) ++ Fips.big_endian 4 x.
Proof. cbn [Fips.big_endian app]. by rewrite !Z.div_div by lia. Qed.

Lemma big_endian_4_mod x : Fips.big_endian 4 x = Fips.big_endian 4 (x mod 2 ^ 32).
Proof.
  cbn [Fips.big_endian app]. rewrite !Z.div_div by lia.
  assert (∀ a b c d a' b' c' d' : Z, a = a' → b = b' → c = c' → d = d' →
    [a; b; c; d] = [a'; b'; c'; d']) as X by congruence.
  apply X; lia.
Qed.

Lemma swap_uint64_eq x :
  0 ≤ x < 2 ^ 64 → swap_uint64 x = ntohl (x mod 2 ^ 32) * 2 ^ 32 + ntohl (x / 2 ^ 32).
Proof.
  intros X. unfold swap_uint64. change 4294967295 with (Z.ones 32).
  rewrite Z.land_ones, Z.shiftl_mul_pow2, Z.shiftr_div_pow2 by lia.
  apply lor_add; [lia|]. rewrite ntohl_eq.
  pose proof (Z.mod_pos_bound (x / 2 ^ 32) 256 ltac:(lia)).
  pose proof (Z.mod_pos_bound (x / 2 ^ 32 / 256) 256 ltac:(lia)).
  pose proof (Z.mod_pos_bound (x / 2 ^ 32 / 65536) 256 ltac:(lia)).
  pose proof (Z.mod_pos_bound (x / 2 ^ 32 / 16777216) 256 ltac:(lia)).
  lia.
Qed.

Lemma le_load_app a b : Forall in_byte a → le_load (a ++ b) = le_load a + 256 ^ Z.of_nat (length a) * le_load b.
Proof.
  induction 1 as [|x a X _ IH]; [cbn; lia|]. cbn [app]. rewrite !le_load_cons, IH by done.
  cbn [length]. rewrite Nat2Z.inj_succ, Z.pow_succ_r by lia. lia.
Qed.

Lemma le_load_range l : Forall in_byte l → 0 ≤ le_load l < 256 ^ Z.of_nat (length l).
Proof.
  induction 1 as [|x a X _ IH]; [cbn; lia|]. rewrite le_load_cons by done.
  cbn [length]. rewrite Nat2Z.inj_succ, Z.pow_succ_r by lia. unfold in_byte in X. lia.
Qed.

Lemma length_64_read n :
  0 ≤ n < 2 ^ 64 → swap_uint64 (le_load (Fips.big_endian 8 n)) = n.
Proof.
  intros N. rewrite big_endian_8_split.
  destruct (be4_bytes (n / 2 ^ 32)) as (a & b & c & d & -> & A & B & C & D & E1); [lia|].
  rewrite (big_endian_4_mod n).
  destruct (be4_bytes (n mod 2 ^ 32)) as (e & f & g & h & -> & E & F & G & H & E2);
    [apply Z.mod_pos_bound; lia|].
  assert (Forall in_byte [a; b; c; d]) as F1 by each_byte.
  assert (Forall in_byte [e; f; g; h]) as F2 by each_byte.
  pose proof (le_load_range _ F1) as R1. pose proof (le_load_range _ F2) as R2.
  rewrite le_load_app by done. cbn [length] in *.
  change (256 ^ Z.of_nat 4) with (2 ^ 32) in *.
  rewrite swap_uint64_eq by lia.
  replace ((le_load [a; b; c; d] + 2 ^ 32 * le_load [e; f; g; h]) mod 2 ^ 32) with (le_load [a; b; c; d]) by lia.
  replace ((le_load [a; b; c; d] + 2 ^ 32 * le_load [e; f; g; h]) / 2 ^ 32) with (le_load [e; f; g; h]) by lia.
  rewrite !ntohl_le_load by done. lia.
Qed.

(** ** Built headers *)

Lemma le_store_load l : Forall in_byte l → le_store (length l) (le_load l) = l.
Proof.
  induction 1 as [|x l X _ IH]; [done|]. cbn [length le_store].
  rewrite land_255, shiftr_8, le_load_cons by done. unfold in_byte in X.
  f_equal; [lia|]. replace ((x + 256 * le_load l) / 256) with (le_load l) by lia. exact IH.
Qed.

Lemma swap_uint64_load n :
  0 ≤ n < 2 ^ 64 → swap_uint64 n = le_load (Fips.big_endian 8 n).
Proof.
  intros N. rewrite big_endian_8_split.
  destruct (be4_bytes (n / 2 ^ 32)) as (a & b & c & d & -> & A & B & C & D & E1); [lia|].
  rewrite (big_endian_4_mod n).
  destruct (be4_bytes (n mod 2 ^ 32)) as (e & f & g & h & -> & E & F & G & H & E2);
    [apply Z.mod_pos_bound; lia|].
  rewrite swap_uint64_eq by done. rewrite E1, E2.
  rewrite le_load_app by each_byte. cbn [length].
  change (256 ^ Z.of_nat 4) with (2 ^ 32).
  rewrite !le_load_4, !ntohl_eq by done. unfold in_byte in *. lia.
Qed.

Lemma big_endian_bytes k n : Forall in_byte (Fips.big_endian k n) ∧ length (Fips.big_endian k n) = k.
Proof.
  revert n. induction k as [|k IH]; intros n; [by split|]. cbn [Fips.big_endian].
  destruct (IH (n / 256)) as [F L]. split.
  - apply Forall_app. split; [done|]. constructor; [|done]. unfold in_byte.
    apply Z.mod_pos_bound. lia.
  - rewrite length_app, L. cbn. lia.
Qed.

(** The header the code builds is that of the specification. *)
Lemma build_header_head op n :
  0 ≤ op < 16 → 0 ≤ n < 2 ^ 64 →
  build_header op n = [128 + op; second_byte None n] ++ extended_length n.
Proof.
  intros O N. unfold build_header, second_byte, short_length, extended_length.
  rewrite !land_255. rewrite (Z.mod_small (128 + op)) by lia.
  destruct (n <? 126) eqn:E1; [|destruct (n <? 65536) eqn:E2].
  - apply Z.ltb_lt in E1. by rewrite Z.mod_small by lia.
  - apply Z.ltb_ge in E1. apply Z.ltb_lt in E2. f_equal.
    change 65535 with (Z.ones 16). rewrite Z.land_ones, Z.mod_small by lia.
    rewrite <- (le_store_load (Fips.big_endian 2 n)) by apply big_endian_bytes.
    f_equal. rewrite big_endian_2.
    rewrite !le_load_cons by (unfold in_byte; apply Z.mod_pos_bound; lia). cbn [le_load].
    rewrite ntohs_eq. lia.
  - f_equal. rewrite swap_uint64_load by done.
    apply (le_store_load (Fips.big_endian 8 n)). apply big_endian_bytes.
Qed.

Lemma server_frame_encode op m :
  0 ≤ op < 16 → Z.of_nat (length m) < 2 ^ 64 →
  build_header op (Z.of_nat (length m)) ++ m = encode_reply (op, m).
Proof.
  intros O L. rewrite build_header_head by lia. reflexivity.
Qed.

(** ** Payloads *)

Lemma unmask_masked k i p :
  unmask k i (imap (λ j x, Z.lxor x (nth ((i + j) mod 4) k 0)) p) = p.
Proof.
  revert i. induction p as [|x p IH]; intros i; [done|]. cbn [imap unmask].
  rewrite Nat.add_0_r, Z.lxor_assoc, Z.lxor_nilpotent, Z.lxor_0_r. f_equal.
  rewrite <- (IH (S i)) at 2. f_equal. unfold compose. apply imap_ext. intros j y _.
  by replace (i + S j)%nat with (S i + j)%nat by lia.
Qed.

Lemma unmask_key k p : unmask k 0 (masked (Some k) p) = p.
Proof. exact (unmask_masked k 0 p). Qed.
