(* ===== verification/WebSocketServe.v ===== *)
(** * WebSocket connections serve frames

    A connection whose client sends well-formed frames gives the handler of messages, and queues
    in reply, what the specification of WebSocketFrames owes: however the payloads are cut into
    reads, and whenever the writes complete. *)

From Stdlib Require Import ZArith Lia Ascii String.
From stdpp Require Import base tactics option strings list.
From S2P Require Import Prelude.
From S2P Require Import CppStd.
From S2P Require Import QueryString.
From S2P Require Import Crow.
From S2P Require Import Base64.
From S2P Require Import Sha1.
From S2P Require Import Sha1Facts.
From S2P Require Import WebSocket.
From S2P Require Import WebSocketFacts.
From S2P Require Import WebSocketFrames.

Local Open Scope Z_scope.

(** ** The reading half of a connection *)

Record reader : Type := MkReader {
  rd_state : WebSocketReadState;
  rd_length : Z;
  rd_masked : bool;
  rd_key : list Z;
  rd_header : Z;
  rd_fragment : list Z;
  rd_message : list Z;
  rd_binary : option bool
}.

Definition reader_of (c : connection) : reader :=
  MkReader (state_ c) (remaining_length_ c) (has_mask_ c) (mask_ c) (mini_header_ c) (fragment_ c)
    (message_ c) (is_binary_ c).

(** [do_read] *)
Definition ask (r : reader) : reader :=
  match rd_state r with
  | MiniHeader =>
      MkReader MiniHeader (rd_length r) (rd_masked r) (rd_key r) 0 (rd_fragment r) (rd_message r)
        (rd_binary r)
  | Len16 =>
      MkReader Len16 0 (rd_masked r) (rd_key r) (rd_header r) (rd_fragment r) (rd_message r)
        (rd_binary r)
  | Mask =>
      if rd_masked r then r
      else MkReader Payload (rd_length r) false (rd_key r) (rd_header r) (rd_fragment r)
             (rd_message r) (rd_binary r)
  | _ => r
  end.

Definition with_state (s : WebSocketReadState) (n : Z) (r : reader) : reader :=
  MkReader s n (rd_masked r) (rd_key r) (rd_header r) (rd_fragment r) (rd_message r) (rd_binary r).

(** A header, a length, a key, a piece of a payload that is not the last. *)
Definition read_header (b : list Z) (r : reader) : reader :=
  let h := ntohs (le_load b) in
  let r := MkReader (rd_state r) (rd_length r) (Z.land h 128 =? 128) (rd_key r) h (rd_fragment r)
             (rd_message r) (rd_binary r) in
  ask (if Z.land h 127 =? 127 then with_state Len64 (rd_length r) r
       else if Z.land h 127 =? 126 then with_state Len16 (rd_length r) r
       else with_state Mask (Z.land h 127) r).
Definition read_key (b : list Z) (r : reader) : reader :=
  MkReader Payload (rd_length r) (rd_masked r) b (rd_header r) (rd_fragment r) (rd_message r)
    (rd_binary r).
Definition read_piece (b : list Z) (r : reader) : reader :=
  MkReader Payload (rd_length r - Z.of_nat (length b)) (rd_masked r) (rd_key r) (rd_header r)
    (rd_fragment r ++ b) (rd_message r) (rd_binary r).

(** The frame that has been read, its payload in the clear. *)
Definition frame_read (r : reader) : frame :=
  MkFrame (negb (Z.land (rd_header r) 32768 =? 0)) (Z.shiftr (Z.land (rd_header r) 3840) 8) None
    (if rd_masked r then unmask (rd_key r) 0 (rd_fragment r) else rd_fragment r).
Definition inbox_of {U} (r : reader) (u : U) : inbox := MkInbox (rd_message r) (rd_binary r) u.
Definition next_frame {U} (r : reader) (i : inbox (U:=U)) : reader :=
  MkReader MiniHeader (rd_length r) (rd_masked r) (rd_key r) 0 [] (fragments i) (kind i).

(** The connection between events: nothing closes it. *)
Record serving (r : reader) (c : connection) : Prop := MkServing {
  serving_live : live c;
  serving_reading : is_reading c = true;
  serving_sent : has_sent_close_ c = false;
  serving_open : close_connection_ c = false;
  serving_flushed : sending_buffers_ c = [] → write_buffers_ c = [];
  serving_reader : reader_of c = r
}.

Section WebSocketServe.
Context {U : Type} (on_message : list Z → bool → U → list command * U).
Context (open_handler_ : option (U → list command * U))
        (close_handler_ : option (list Z → U → list command * U))
        (error_handler_ : option (U → list command * U))
        (accept_handler_ : option (request → U → bool * U)).

Abbreviation ws := (WebSocket.ws (U:=U)).
Abbreviation close_ := (WebSocket.close_ close_handler_).
Abbreviation step := (WebSocket.step (Some on_message) close_handler_ error_handler_).
Abbreviation run_events := (WebSocket.run_events (Some on_message) close_handler_ error_handler_).
Abbreviation handle_upgrade :=
  (WebSocket.handle_upgrade open_handler_ close_handler_ accept_handler_).
Abbreviation inbox := (WebSocketFrames.inbox (U:=U)).

(** One read, on the reading half. *)
Definition read_next (b : list Z) (ru : reader * U) : option (reader * U * list reply) :=
  let '(r, u) := ru in
  match rd_state r with
  | MiniHeader => Some (read_header b r, u, [])
  | Len16 => Some (ask (with_state Mask (ntohs (le_load b)) r), u, [])
  | Len64 => Some (ask (with_state Mask (swap_uint64 (le_load b)) r), u, [])
  | Mask => Some (read_key b r, u, [])
  | Payload =>
      let r := read_piece b r in
      if rd_length r =? 0 then
        '(i, o) ← serve on_message (frame_read r) (inbox_of r u);
        Some (next_frame r i, user i, o)
      else Some (r, u, [])
  end.

Fixpoint read_all (l : list (list Z)) (ru : reader * U) : option (reader * U * list reply) :=
  match l with
  | [] => Some (ru, [])
  | b :: l =>
      '(ru, o1) ← read_next b ru;
      '(ru, o2) ← read_all l ru;
      Some (ru, o1 ++ o2)
  end.

(** ** Sending *)

(** What sending some replies leaves: the rest of the connection is as it was. *)
Record served (o : list Z) (s s' : connection * U) : Prop := MkServed {
  served_live : live s'.1;
  served_reader : reader_part s'.1 = reader_part s.1;
  served_queue : queue s'.1 = queue s.1 ++ o;
  served_sent : has_sent_close_ s'.1 = has_sent_close_ s.1;
  served_flushed :
    (sending_buffers_ s.1 = [] → write_buffers_ s.1 = []) →
    sending_buffers_ s'.1 = [] → write_buffers_ s'.1 = [];
  served_user : s'.2 = s.2
}.

Lemma served_refl s : live s.1 → served [] s s.
Proof. intros L. split; try done. by rewrite app_nil_r. Qed.
Lemma served_trans o1 o2 s1 s2 s3 : served o1 s1 s2 → served o2 s2 s3 → served (o1 ++ o2) s1 s3.
Proof.
  intros [L1 R1 Q1 S1 F1 E1] [L2 R2 Q2 S2 F2 E2]. split; try congruence; [|auto].
  by rewrite Q2, Q1, app_assoc.
Qed.
Lemma sends_served o s s' : sends o s s' → served o s s'.
Proof. intros [L R Q E S C P]. by split. Qed.

Lemma wp_send_reply op m r s :
  0 ≤ op < 16 → sized (op, m) = Some r → live s.1 →
  wp (send_frame op m) (λ _, served (encode_reply r) s) s.
Proof.
  intros O E L. unfold sized in E. cbn [snd] in E.
  destruct (_ <? _) eqn:B; [|done]. apply Z.ltb_lt in B. injection E as <-.
  destruct s as [c u]. eapply wp_weaken; [by apply wp_send_frame|].
  intros ? s' G. apply sends_served in G. unfold server_frame in G.
  by rewrite server_frame_encode in G.
Qed.

Lemma wp_send_commands (cl : list Z → ws unit) l o s :
  mapM reply_of l = Some o → live s.1 →
  wp (run_commands cl l) (λ _, served (encode_replies o) s) s.
Proof.
  revert o s. induction l as [|x l IH]; intros o s E L.
  { injection E as <-. by apply wp_ret, served_refl. }
  cbn [mapM] in E. destruct (reply_of x) as [r|] eqn:Ex; [|done]. cbn [mbind option_bind] in E.
  destruct (mapM reply_of l) as [o'|] eqn:El; [|done]. cbn [mbind option_bind] in E.
  injection E as <-. cbn [run_commands]. apply wp_bind.
  eapply (wp_weaken _ (λ _, served (encode_reply r) s)).
  - destruct x; cbn [reply_of] in Ex; try (by apply wp_send_reply); done.
  - intros ? s1 G1. eapply wp_weaken; [apply IH; [done|apply G1]|].
    intros ? s2 G2. exact (served_trans _ _ _ _ _ G1 G2).
Qed.

(** ** The end of a frame *)

(** What a frame leaves, besides the state and the fragment. *)
Record framed (i : inbox) (o : list reply) (s s' : connection * U) : Prop := MkFramed {
  fr_between : between s'.1;
  fr_queue : queue s'.1 = queue s.1 ++ encode_replies o;
  fr_sent : has_sent_close_ s'.1 = has_sent_close_ s.1;
  fr_open : close_connection_ s'.1 = close_connection_ s.1;
  fr_flushed :
    (sending_buffers_ s.1 = [] → write_buffers_ s.1 = []) →
    sending_buffers_ s'.1 = [] → write_buffers_ s'.1 = [];
  fr_user : s'.2 = user i;
  fr_message : message_ s'.1 = fragments i;
  fr_kind : is_binary_ s'.1 = kind i;
  fr_rest : (remaining_length_ s'.1, has_mask_ s'.1, mask_ s'.1) =
            (remaining_length_ s.1, has_mask_ s.1, mask_ s.1)
}.

(** The fields [served] keeps, one by one. *)
Lemma reader_part_fields c c' :
  reader_part c' = reader_part c →
  is_binary_ c' = is_binary_ c ∧ message_ c' = message_ c ∧ fragment_ c' = fragment_ c ∧
  state_ c' = state_ c ∧ remaining_length_ c' = remaining_length_ c ∧
  close_connection_ c' = close_connection_ c ∧ is_reading c' = is_reading c ∧
  has_mask_ c' = has_mask_ c ∧ mask_ c' = mask_ c ∧ mini_header_ c' = mini_header_ c.
Proof. unfold reader_part. intros [=]. by split_and!. Qed.

Lemma encode_replies_nil : encode_replies [] = [].
Proof. reflexivity. Qed.

Lemma wp_append c u i o :
  between c →
  deliver on_message (is_FIN c) (fragment_ c) (MkInbox (message_ c) (is_binary_ c) u) = Some (i, o) →
  wp (append_fragment (Some on_message) close_handler_) (λ _, framed i o (c, u)) (c, u).
Proof.
  intros [[D R W] I] E. unfold append_fragment. do 2 access.
  change (is_FIN (set_message _ c)) with (is_FIN c). unfold deliver in E.
  cbn [fragments kind user] in E. destruct (is_FIN c); cbn [when].
  - destruct (is_binary_ c) as [b|] eqn:Eb; [|done]. cbn [mbind option_bind] in E.
    destruct (on_message (message_ c ++ fragment_ c) b u) as [l u1] eqn:El.
    destruct (mapM reply_of l) as [o'|] eqn:Eo; [|done]. injection E as <- <-.
    apply wp_bind. do 2 access. cbn [is_binary_ set_message message_]. rewrite Eb.
    unfold WebSocket.call, call_handler, wp. rewrite El.
    pose proof (wp_send_commands close_ l o' (set_message (message_ c ++ fragment_ c) c, u1) Eo
                  ltac:(by split)) as H. unfold wp in H.
    destruct (run_commands _ l _) as [[a [c1 u2]]| | | | |]; try done.
    destruct H as [[D1 R1 W1] P1 Q1 S1 F1 U1]. cbn [fst snd] in *.
    apply reader_part_fields in P1 as (P1 & P2 & P3 & P4 & P5 & P6 & P7 & P8 & P9 & P10).
    unfold put. rewrite D1. cbn in *. split; cbn; try done; try congruence.
    split; [by split|cbn; congruence].
  - injection E as <- <-. access. cbn. split; cbn; try done.
    unfold queue. cbn. by rewrite app_nil_r.
Qed.

Lemma framed_put (f : connection → connection) i o c u s' :
  (∀ c, between c → between (f c)) → queue (f c) = queue c →
  has_sent_close_ (f c) = has_sent_close_ c → close_connection_ (f c) = close_connection_ c →
  ((sending_buffers_ c = [] → write_buffers_ c = []) →
    sending_buffers_ (f c) = [] → write_buffers_ (f c) = []) →
  (remaining_length_ (f c), has_mask_ (f c), mask_ (f c)) =
    (remaining_length_ c, has_mask_ c, mask_ c) →
  framed i o (f c, u) s' → framed i o (c, u) s'.
Proof.
  intros B Q S O F R [H1 H2 H3 H4 H5 H6 H7 H8 H9]. cbn [fst snd] in *.
  split; cbn [fst snd]; try congruence; auto.
Qed.

Lemma wp_dispatch_serve c u i o :
  between c →
  serve on_message (MkFrame (is_FIN c) (opcode c) None (fragment_ c))
    (MkInbox (message_ c) (is_binary_ c) u) = Some (i, o) →
  wp (dispatch (Some on_message) close_handler_ (opcode c)) (λ _, framed i o (c, u)) (c, u).
Proof.
  intros B E. pose proof (live_here _ (proj1 B)) as D. unfold dispatch, serve in *.
  cbn [frame_opcode fin payload] in E.
  destruct (opcode c =? 0); [by apply wp_append|].
  destruct (opcode c =? 1).
  { access. eapply wp_weaken; [apply (wp_append (set_is_binary (Some false) c) u i o);
      [by destruct B as [[] ?]|exact E]|].
    intros ? s' H. apply (framed_put (set_is_binary (Some false))); try done. by intros ? [[] ?]. }
  destruct (opcode c =? 2).
  { access. eapply wp_weaken; [apply (wp_append (set_is_binary (Some true) c) u i o);
      [by destruct B as [[] ?]|exact E]|].
    intros ? s' H. apply (framed_put (set_is_binary (Some true))); try done. by intros ? [[] ?]. }
  destruct (opcode c =? 8); [done|].
  destruct (opcode c =? 9).
  { destruct (sized _) as [rep|] eqn:Es; [|done]. injection E as <- <-. access.
    eapply wp_weaken; [apply (wp_send_reply 10 (fragment_ c) rep); [lia|done|apply B]|].
    intros ? [c1 u1] [L1 P1 Q1 S1 F1 U1]. cbn [fst snd] in *.
    apply reader_part_fields in P1 as (P1 & P2 & P3 & P4 & P5 & P6 & P7 & P8 & P9 & P10).
    split; cbn [fst snd user fragments kind]; try done; try congruence.
    - split; [done|]. rewrite P7. apply B.
    - rewrite Q1. unfold encode_replies. cbn. by rewrite app_nil_r. }
  injection E as <- <-. assert (queue c ++ encode_replies [] = queue c) as N by apply app_nil_r.
  destruct (opcode c =? 10); access; split; cbn [fst snd user fragments kind]; try done.
  by destruct B as [[] ?].
Qed.

Lemma wp_handle_fragment c u i o :
  between c →
  serve on_message (frame_read (reader_of c)) (inbox_of (reader_of c) u) = Some (i, o) →
  wp (handle_fragment (Some on_message) close_handler_)
    (λ _ s', framed i o (c, u) s' ∧ fragment_ s'.1 = []) (c, u).
Proof.
  intros B E. pose proof (live_here _ (proj1 B)) as D. pose proof (unmasked_between _ B) as B1.
  assert (opcode (unmasked c) = opcode c) as Eo by (unfold unmasked; by destruct (has_mask_ c)).
  eapply wp_eq; [by apply handle_fragment_dispatch|]. apply wp_bind. rewrite <- Eo.
  eapply wp_weaken; [apply (wp_dispatch_serve (unmasked c) u i o B1)|].
  - rewrite <- E. unfold frame_read, inbox_of, reader_of, unmasked. cbn.
    by destruct (has_mask_ c).
  - intros ? [c1 u1] H. pose proof (fr_between _ _ _ _ H) as B2. cbn [fst] in B2.
    pose proof (live_here _ (proj1 B2)) as D2. access.
    assert (framed i o (c, u) (c1, u1)) as [H1 H2 H3 H4 H5 H6 H7 H8 H9].
    { revert H. unfold unmasked. destruct (has_mask_ c); [|done].
      apply (framed_put (set_fragment _)); try done. by intros ? [[] ?]. }
    split; [|done]. split; cbn [fst snd] in *; try done. by destruct B2 as [[] ?].
Qed.

(** ** One read *)

(** [do_read], from a state with nothing under way. *)
Lemma wp_ask c u :
  between c → has_sent_close_ c = false → close_connection_ c = false →
  (sending_buffers_ c = [] → write_buffers_ c = []) →
  wp (do_read (U:=U)) (λ _ s', s'.2 = u ∧ serving (ask (reader_of c)) s'.1 ∧ queue s'.1 = queue c) (c, u).
Proof.
  intros [[D R W] I] Sc O F. rewrite I in R. unfold do_read. do 2 access.
  cbn [state_ set_is_reading]. unfold start_read, ask, reader_of. cbn [rd_state].
  destruct (state_ c) eqn:Es; cbn [rd_masked];
    [do 2 access|do 2 access|access|access; cbn beta iota; cbn [has_mask_ set_is_reading];
     destruct (has_mask_ c) eqn:Em; [access|do 3 access]|access];
    (split_and!; [done| |done]; split; cbn; try done; [split; cbn; congruence|];
     unfold reader_of; cbn; congruence).
Qed.

(** What a read leaves: the replies queued, the reading half, the user's state. *)
Definition after_read (c : connection) (r : reader) (u : U) (o : list reply)
    (s : connection * U) : Prop :=
  s.2 = u ∧ serving r s.1 ∧ queue s.1 = queue c ++ encode_replies o.

Lemma wp_ask_next c0 c u r' u' o :
  between c → has_sent_close_ c = false → close_connection_ c = false →
  (sending_buffers_ c = [] → write_buffers_ c = []) → queue c = queue c0 →
  Some (ask (reader_of c), u, []) = Some (r', u', o) →
  wp (do_read (U:=U)) (λ _, after_read c0 r' u' o) (c, u).
Proof.
  intros B1 S1 O1 F1 Q1 E. injection E as <- <- <-. eapply wp_weaken; [by apply wp_ask|].
  intros ? s' (? & ? & Q). split_and!; try done. by rewrite Q, Q1, encode_replies_nil, app_nil_r.
Qed.

Lemma wp_payload_serves b u r' u' o c :
  live c → is_reading c = true → has_sent_close_ c = false → close_connection_ c = false →
  (sending_buffers_ c = [] → write_buffers_ c = []) → state_ c = Payload →
  (let r := read_piece b (reader_of c) in
   if rd_length r =? 0 then
     '(i, o) ← serve on_message (frame_read r) (inbox_of r u);
     Some (next_frame r i, user i, o)
   else Some (r, u, [])) = Some (r', u', o) →
  wp (payload_read (Some on_message) close_handler_ error_handler_ (Some b))
    (λ _, after_read c r' u' o) (set_reads 0 c, u).
Proof.
  intros [D R W] I Sc O F Es N. unfold payload_read. do 4 access.
  cbn [remaining_length_ set_remaining_length set_fragment set_is_reading set_reads].
  cbn zeta in N. change (rd_length (read_piece b (reader_of c)))
    with (remaining_length_ c - Z.of_nat (length b)) in N.
  destruct (_ =? 0) in N |- *.
  - destruct (serve _ _ _) as [[i o']|] eqn:Ei; [|done]. cbn [mbind option_bind] in N.
    injection N as <- <- <-. apply wp_bind.
    eapply wp_weaken; [apply (wp_handle_fragment _ u i o'); [by repeat split|exact Ei]|].
    intros ? [c1 u1] [[B Q S1 O1 F1 U1 M K Rest] Fr]. cbn [fst snd] in *.
    pose proof (live_here _ (proj1 B)). access.
    eapply wp_weaken.
    { apply wp_ask; [by destruct B as [[] ?]|exact (eq_trans S1 Sc)|exact (eq_trans O1 O)|by apply F1]. }
    intros ? s' (E1 & E2 & E3). split_and!; [congruence| |exact (eq_trans E3 Q)].
    injection Rest as Re1 Re2 Re3.
    replace (next_frame (read_piece b (reader_of c)) i)
      with (ask (reader_of (set_state MiniHeader c1))); [done|].
    unfold ask, reader_of, next_frame, read_piece. cbn. congruence.
  - injection N as <- <- <-. eapply wp_weaken; [by apply wp_ask|].
    intros ? s' (E1 & E2 & E3). split_and!; [done| |rewrite E3; by rewrite app_nil_r].
    replace (read_piece b (reader_of c)) with
      (ask (reader_of (set_remaining_length (remaining_length_ c - Z.of_nat (length b))
         (set_fragment (fragment_ c ++ b) (set_is_reading false (set_reads 0 c)))))); [done|].
    unfold ask, reader_of, read_piece. cbn. by rewrite Es.
Qed.

Lemma wp_read_serves b r u r' u' o c :
  serving r c → read_next b (r, u) = Some (r', u', o) →
  wp (read_done (Some on_message) close_handler_ error_handler_ (Some b))
    (λ _, after_read c r' u' o) (set_reads 0 c, u).
Proof.
  intros [[D R W] I Sc O F E] N. subst r. unfold read_done. access. cbn [state_ set_reads].
  unfold read_next in N. change (rd_state (reader_of c)) with (state_ c) in N.
  destruct (state_ c) eqn:Es.
  - unfold mini_header_read. do 4 access. unfold read_header in N.
    destruct (Z.land _ 127 =? 127) in N |- *.
    + access. by apply wp_ask_next.
    + destruct (Z.land _ 127 =? 126) in N |- *; access; by apply wp_ask_next.
  - unfold len16_read. do 3 access. by apply wp_ask_next.
  - unfold len64_read. do 3 access. by apply wp_ask_next.
  - unfold mask_read. do 3 access. by apply wp_ask_next.
  - by apply wp_payload_serves.
Qed.

(** The state a read finds has one read under way. *)
Lemma read_serves b r u r' u' o c :
  serving r c → read_next b (r, u) = Some (r', u', o) →
  ∃ c', step (ReadDone (Some b)) (c, u) = Val (c', u') ∧ serving r' c' ∧
        queue c' = queue c ++ encode_replies o.
Proof.
  intros S N. pose proof (wp_read_serves b r u r' u' o c S N) as H.
  cbn [WebSocket.step]. rewrite (live_reads _ (serving_live _ _ S)), (serving_reading _ _ S).
  cbn [Nat.pred]. unfold wp in H.
  destruct (read_done _ _ _ _ _) as [[a [c1 u1]]| | | | |]; try done.
  destruct H as (H1 & H2 & H3). cbn [fst snd] in *. subst u1. by exists c1.
Qed.

(** A write that completes changes nothing of this. *)
Lemma write_serves r u c :
  serving r c → allowed c (WriteDone true) = true →
  ∃ c', step (WriteDone true) (c, u) = Val (c', u) ∧ serving r c' ∧ queue c' = queue c.
Proof.
  intros [[D R W] I Sc O F E] A. cbn [WebSocket.step]. unfold allowed in A. apply Nat.ltb_lt in A.
  assert (writes c = 1%nat) as W1 by (destruct (sending_buffers_ c); lia).
  rewrite W1. cbn [Nat.pred].
  assert (wp (write_done close_handler_ true)
    (λ _ s', s'.2 = u ∧ serving r s'.1 ∧ queue s'.1 = queue c) (set_writes 0 c, u)) as H.
  { unfold write_done. do 2 access. cbn [close_connection_ set_sending_buffers set_writes].
    rewrite O. cbn [negb andb]. access. cbn [write_buffers_ set_sending_buffers set_writes].
    apply wp_bind. eapply (wp_weaken _ (λ _ s', s'.2 = u ∧ serving r s'.1 ∧ queue s'.1 = queue c)).
    - destruct (bool_decide (write_buffers_ c = [])) eqn:B; cbn [negb when].
      + access. apply bool_decide_eq_true_1 in B. by split_and!.
      + apply bool_decide_eq_false_1 in B. eapply wp_weaken; [apply wp_do_write; [by split|by left]|].
        intros ? s' (-> & L & P & Q & S1 & _ & N & X). split_and!; try done.
        apply reader_part_fields in P as (P1 & P2 & P3 & P4 & P5 & P6 & P7 & P8 & P9 & P10).
        split; cbn in *; try done; try congruence. unfold reader_of in *. congruence.
    - intros ? [c1 u1] (U1 & S1 & Q1). cbn [fst snd] in *. subst u1. pose proof (live_here _ (serving_live _ _ S1)). access.
      rewrite (serving_sent _ _ S1). by access. }
  unfold wp in H. destruct (write_done _ _ _) as [[a [c1 u1]]| | | | |]; try done.
  destruct H as (H1 & H2 & H3). cbn [fst snd] in *. subst u1. by exists c1.
Qed.

(** ** A frame, read by read *)

(** A reader that waits for the next frame. *)
Definition fresh (r : reader) (i : inbox) : Prop :=
  rd_state r = MiniHeader ∧ rd_fragment r = [] ∧ rd_message r = fragments i ∧ rd_binary r = kind i.

Lemma read_all_app l1 l2 ru ru1 ru2 o1 o2 :
  read_all l1 ru = Some (ru1, o1) → read_all l2 ru1 = Some (ru2, o2) →
  read_all (l1 ++ l2) ru = Some (ru2, o1 ++ o2).
Proof.
  revert ru o1. induction l1 as [|b l1 IH]; intros ru o1 E1 E2.
  - by injection E1 as -> <-.
  - cbn [read_all app] in *. destruct (read_next b ru) as [[ru' o]|]; [|done].
    cbn [mbind option_bind] in *. destruct (read_all l1 ru') as [[ru1' o']|] eqn:E; [|done].
    cbn [mbind option_bind] in E1. injection E1 as -> <-.
    rewrite (IH _ _ E E2). cbn [mbind option_bind]. by rewrite app_assoc.
Qed.

Lemma pieces_are_read ps r u i o :
  rd_state r = Payload → rd_length r = Z.of_nat (length (concat ps)) →
  (ps = [[]] ∨ (ps ≠ [] ∧ Forall (λ b, 1 ≤ Z.of_nat (length b) ≤ 4096) ps)) →
  serve on_message
    (MkFrame (negb (Z.land (rd_header r) 32768 =? 0)) (Z.shiftr (Z.land (rd_header r) 3840) 8) None
       (if rd_masked r then unmask (rd_key r) 0 (rd_fragment r ++ concat ps)
        else rd_fragment r ++ concat ps)) (inbox_of r u) = Some (i, o) →
  ∃ r', read_all ps (r, u) = Some ((r', user i), o) ∧ fresh r' i.
Proof.
  revert r. induction ps as [|b ps IH]; intros r St L C Sv; [by destruct C as [|[]]|].
  cbn [read_all]. unfold read_next. rewrite St.
  change (rd_length (read_piece b r)) with (rd_length r - Z.of_nat (length b)).
  cbn [concat] in L, Sv. rewrite length_app in L. destruct ps as [|b2 ps].
  - cbn [concat] in L, Sv. rewrite app_nil_r in Sv. cbn [length] in L.
    rewrite (proj2 (Z.eqb_eq _ _)) by lia.
    change (frame_read (read_piece b r)) with
      (MkFrame (negb (Z.land (rd_header r) 32768 =? 0)) (Z.shiftr (Z.land (rd_header r) 3840) 8) None
       (if rd_masked r then unmask (rd_key r) 0 (rd_fragment r ++ b) else rd_fragment r ++ b)).
    change (inbox_of (read_piece b r) u) with (inbox_of r u). rewrite Sv.
    cbn [mbind option_bind read_all]. eexists. rewrite app_nil_r. by split.
  - destruct C as [C|[_ C]]; [discriminate C|]. apply Forall_cons in C as [B C].
    assert (1 ≤ Z.of_nat (length (concat (b2 :: ps)))).
    { apply Forall_cons in C as [B2 _]. cbn. rewrite length_app. lia. }
    rewrite (proj2 (Z.eqb_neq _ _)) by lia. cbn [mbind option_bind].
    destruct (IH (read_piece b r)) as (r' & E & F);
      [done|cbn [rd_length read_piece]; lia|right; by split| |].
    { cbn [rd_header rd_masked rd_key rd_fragment read_piece].
      change (inbox_of (read_piece b r) u) with (inbox_of r u). by rewrite <- app_assoc. }
    exists r'. rewrite E. cbn [mbind option_bind]. by split.
Qed.

Lemma serve_key f i :
  serve on_message (MkFrame (fin f) (frame_opcode f) None (payload f)) i = serve on_message f i.
Proof. reflexivity. Qed.

Lemma pieces_cases p ps :
  pieces p ps → ps = [[]] ∨ (ps ≠ [] ∧ Forall (λ b, 1 ≤ Z.of_nat (length b) ≤ 4096) ps).
Proof.
  intros [E C]. destruct p; [by left|right]. split; [|done]. by intros ->.
Qed.

Lemma length_masked k p : length (masked k p) = length p.
Proof. destruct k; [|done]. cbn. by rewrite length_imap. Qed.

(** The head of a frame: the reader is at its payload, or has still to read the length. *)
Definition at_payload (r0 r : reader) (f : frame) : Prop :=
  let n := Z.of_nat (length (payload f)) in
  rd_state r = Payload ∧ rd_length r = n ∧
  rd_masked r = (if masking_key f then true else false) ∧
  (∀ k, masking_key f = Some k → rd_key r = k) ∧
  rd_header r = ntohs (le_load [first_byte f; second_byte (masking_key f) n]) ∧
  rd_fragment r = [] ∧ rd_message r = rd_message r0 ∧ rd_binary r = rd_binary r0.

Lemma head_is_read f r u :
  well_formed f → rd_state r = MiniHeader → rd_fragment r = [] →
  ∃ r', read_all (head_reads f) (r, u) = Some ((r', u), []) ∧ at_payload r r' f.
Proof.
  intros Wf St Fr. destruct (header_of_frame f Wf) as (H1 & H2 & _ & _).
  pose proof (wf_length _ Wf) as Wl.
  unfold head_reads, at_payload. cbn zeta. set (n := Z.of_nat (length (payload f))) in *.
  assert (0 ≤ n) by lia. unfold extended_length, short_length in *.
  cbn [app read_all]. unfold read_next at 1. rewrite St. cbn [mbind option_bind].
  unfold read_header. cbn zeta.
  set (h := ntohs (le_load [first_byte f; second_byte (masking_key f) n])) in *.
  rewrite H1, H2.
  destruct (n <? 126) eqn:E1; [|destruct (n <? 65536) eqn:E2].
  - apply Z.ltb_lt in E1. rewrite (proj2 (Z.eqb_neq n 127)), (proj2 (Z.eqb_neq n 126)) by lia.
    destruct (masking_key f) as [k|]; cbn; (eexists; split; [reflexivity|]); cbn; split_and!; try done;
      by intros ? [= <-].
  - apply Z.ltb_ge in E1. apply Z.ltb_lt in E2. cbn -[ntohs le_load Fips.big_endian].
    rewrite length_16_read by lia.
    destruct (masking_key f) as [k|]; cbn -[ntohs le_load]; (eexists; split; [reflexivity|]);
      cbn -[ntohs le_load]; split_and!; try done; by intros ? [= <-].
  - cbn -[ntohs le_load Fips.big_endian swap_uint64].
    rewrite length_64_read by lia.
    destruct (masking_key f) as [k|]; cbn -[ntohs le_load]; (eexists; split; [reflexivity|]);
      cbn -[ntohs le_load]; split_and!; try done; by intros ? [= <-].
Qed.

Lemma frame_is_read f l r u j i o :
  well_formed f → reads_of_frame f l → fresh r j → user j = u →
  serve on_message f j = Some (i, o) →
  ∃ r', read_all l (r, u) = Some ((r', user i), o) ∧ fresh r' i.
Proof.
  intros Wf (ps & -> & P) (F1 & F2 & F3 & F4) <- Sv.
  destruct (head_is_read f r (user j) Wf F1 F2) as (r1 & E1 & A1 & A2 & A3 & A4 & A5 & A6 & A7 & A8).
  destruct (header_of_frame f Wf) as (_ & _ & H3 & H4).
  destruct (pieces_are_read ps r1 (user j) i o A1) as (r2 & E2 & Fr2).
  - rewrite (proj1 P), length_masked. exact A2.
  - by eapply pieces_cases.
  - rewrite A5, H3, H4, A6, (proj1 P), A3. cbn [app].
    assert (inbox_of r1 (user j) = j) as -> by (unfold inbox_of; destruct j; cbn in *; congruence).
    destruct (masking_key f) as [k|] eqn:K.
    + rewrite (A4 k eq_refl), unmask_key. by rewrite <- Sv.
    + by rewrite <- Sv.
  - exists r2. split; [|done]. exact (read_all_app _ _ _ _ _ [] o E1 E2).
Qed.

Lemma frames_are_read fs ls r j i o :
  Forall well_formed fs → Forall2 reads_of_frame fs ls → fresh r j →
  serve_all on_message fs j = Some (i, o) →
  ∃ r', read_all (concat ls) (r, user j) = Some ((r', user i), o) ∧ fresh r' i.
Proof.
  intros Wf F. revert r j i o. induction F as [|f l fs ls Hf _ IH]; intros r j i o Fr Sv.
  - injection Sv as <- <-. by exists r.
  - apply Forall_cons in Wf as [Wf Wfs]. cbn [serve_all] in Sv.
    destruct (serve on_message f j) as [[i1 o1]|] eqn:E1; [|done]. cbn [mbind option_bind] in Sv.
    destruct (serve_all on_message fs i1) as [[i2 o2]|] eqn:E2; [|done].
    cbn [mbind option_bind] in Sv. injection Sv as <- <-.
    destruct (frame_is_read f l r (user j) j i1 o1 Wf Hf Fr eq_refl E1) as (r1 & R1 & Fr1).
    destruct (IH Wfs r1 i1 i2 o2 Fr1 E2) as (r2 & R2 & Fr2).
    exists r2. split; [|done]. cbn [concat]. by eapply read_all_app.
Qed.

(** ** Events *)

(** The bytes of the reads; reads and writes that succeed. *)
Definition reads_in (evs : list event) : list (list Z) :=
  omap (λ e, match e with ReadDone (Some b) => Some b | _ => None end) evs.
Definition successful (e : event) : bool :=
  match e with ReadDone (Some _) => true | WriteDone ok => ok | _ => false end.

Lemma events_serve evs c r u r' u' o out :
  serving r c → forallb successful evs = true →
  read_all (reads_in evs) (r, u) = Some ((r', u'), o) →
  run_events evs (c, u) = Some out →
  ∃ c', out = Val (c', u') ∧ serving r' c' ∧ queue c' = queue c ++ encode_replies o.
Proof.
  revert c r u o. induction evs as [|e evs IH]; intros c r u o S Q R E.
  - injection R as <- <- <-. injection E as <-. exists c. by rewrite app_nil_r.
  - cbn [forallb] in Q. apply andb_true_iff in Q as [Q1 Q2].
    cbn [WebSocket.run_events fst] in E. destruct (allowed c e) eqn:A; [|done].
    destruct e as [[b|]|ok|x]; try done.
    + cbn [reads_in omap list_omap] in R. fold (reads_in evs) in R. cbn [read_all] in R.
      destruct (read_next b (r, u)) as [[[r1 u1] o1]|] eqn:N; [|done]. cbn [mbind option_bind] in R.
      destruct (read_all (reads_in evs) (r1, u1)) as [[[r2 u2] o2]|] eqn:N2; [|done].
      cbn [mbind option_bind] in R. injection R as <- <- <-.
      destruct (read_serves b r u r1 u1 o1 c S N) as (c1 & E1 & S1 & Q3). rewrite E1 in E.
      destruct (IH c1 r1 u1 o2 S1 Q2 N2 E) as (c2 & -> & S2 & Q4).
      exists c2. split_and!; try done. rewrite Q4, Q3, <- app_assoc. unfold encode_replies.
      by rewrite fmap_app, concat_app.
    + cbn in Q1. subst ok. destruct (write_serves r u c S A) as (c1 & E1 & S1 & Q3).
      rewrite E1 in E. destruct (IH c1 r u o S1 Q2 R E) as (c2 & -> & S2 & Q4).
      exists c2. by rewrite Q4, Q3.
Qed.

(** ** The handshake *)

(** What the handlers of the handshake leave: the user's state and what they send. *)
Definition welcome (req : request) (u : U) : option (U * list reply) :=
  let '(ok, u) := match accept_handler_ with None => (true, u) | Some h => h req u end in
  if ok : bool then
    match open_handler_ with
    | None => Some (u, [])
    | Some h => let '(l, u) := h u in o ← mapM reply_of l; Some (u, o)
    end
  else None.

Definition handshake_answer (accept : bytes) : list Z :=
  switching_protocols ++ (char_code <$> accept) ++ [13; 10] ++ [13; 10].

Lemma start_with_serves l u u1 o :
  l ≠ [] →
  match open_handler_ with
  | None => Some (u, [])
  | Some h => let '(l, u) := h u in o ← mapM reply_of l; Some (u, o)
  end = Some (u1, o) →
  ∃ c r, outcome_map snd (start_with open_handler_ close_handler_ l (new_connection, u)) =
           Val (c, u1) ∧
         serving r c ∧ fresh r (MkInbox [] None u1) ∧ queue c = concat l ++ encode_replies o.
Proof.
  intros N E.
  assert (wp (start_with open_handler_ close_handler_ l)
    (λ _ s', s'.2 = u1 ∧ ∃ r, serving r s'.1 ∧ fresh r (MkInbox [] None u1) ∧
       queue s'.1 = concat l ++ encode_replies o) (new_connection, u)) as H.
  { unfold start_with. apply wp_bind. eapply wp_weaken; [by apply wp_emplace_buffers|].
    intros ? [c1 u2] (E1 & L1 & P1 & Q1 & S1 & _ & B1 & W1). cbn [fst snd] in *. subst u2.
    apply wp_bind. eapply wp_weaken; [apply wp_do_write; [done|left]|].
    { cbn in W1. destruct (write_buffers_ c1); [|done]. by destruct l. }
    intros ? [c2 u2] (E2 & L2 & P2 & Q2 & S2 & _ & B2 & W2). cbn [fst snd] in *. subst u2.
    apply wp_bind. eapply (wp_weaken _ (λ _ s', s'.2 = u1 ∧ live s'.1 ∧ reader_part s'.1 = reader_part c2 ∧
      queue s'.1 = queue c2 ++ encode_replies o ∧ has_sent_close_ s'.1 = false ∧
      (sending_buffers_ s'.1 = [] → write_buffers_ s'.1 = []))).
    - destruct open_handler_ as [h|].
      + unfold WebSocket.call, call_handler, wp. destruct (h u) as [cs u3].
        destruct (mapM reply_of cs) as [o'|] eqn:Eo; [|done]. injection E as <- <-.
        pose proof (wp_send_commands close_ cs o' (c2, u3) Eo L2) as H. unfold wp in H.
        destruct (run_commands _ cs _) as [[? [c3 u4]]| | | | |]; try done.
        destruct H as [H1 H2 H3 H4 H5 H6]. cbn [fst snd] in *. cbn in S1, B1.
        do 5 (split; [first [done|congruence]|]). apply H5. intros _. by apply W2.
      + injection E as <- <-. access. cbn in S1, B1.
        do 5 (split; [first [done|by rewrite app_nil_r|cbn; congruence]|]). intros _. by apply W2.
    - intros ? [c3 u3] (U3 & L3 & P3 & Q3 & S3 & F3). cbn [fst snd] in *. subst u3.
      rewrite P2, P1 in P3.
      apply reader_part_fields in P3 as (R1 & R2 & R3 & R4 & R5 & R6 & R7 & R8 & R9 & R10).
      eapply wp_weaken; [by apply wp_ask|].
      intros ? s' (E4 & S4 & Q4). split; [done|]. exists (ask (reader_of c3)). split_and!; try done.
      + unfold ask, reader_of. cbn [rd_state]. rewrite R4. cbn. by split_and!.
      + rewrite Q4, Q3, Q2, Q1. done. }
  unfold wp in H. destruct (start_with _ _ _ _) as [[a [c u2]]| | | | |]; try done.
  destruct H as (E1 & r & H1 & H2 & H3). cbn [fst snd] in *. subst u2. by exists c, r.
Qed.
End WebSocketServe.
