(* ===== verification/WebSocketProps.v ===== *)
(** * WebSocket connections: theorems

    From the upgrade on: the answer of the handshake and the service of frames, the safety of
    every event, and the event that is fatal. *)

From Stdlib Require Import ZArith Lia Ascii String.
From stdpp Require Import base tactics option strings list.
From S2P Require Import Prelude.
From S2P Require Import CppStd.
From S2P Require Import QueryString.
From S2P Require Import Crow.
From S2P Require Import Base64.
From S2P Require Import Sha1.
From S2P Require Import Sha1Facts.
From S2P Require Import WebSocket.
From S2P Require Import WebSocketFacts.
From S2P Require Import WebSocketFrames.
From S2P Require Import WebSocketServe.

Local Open Scope Z_scope.

(** ** The answer to the key *)

Lemma char_code_byte c : in_byte (char_code c).
Proof. unfold in_byte. destruct c as [[] [] [] [] [] [] [] []]; by vm_compute. Qed.

Lemma char_code_to_char x : in_byte x → char_code (to_char x) = x.
Proof.
  intros X. unfold char_code, to_char, in_byte in *. rewrite Z.mod_small by lia.
  rewrite N_ascii_embedding by lia. lia.
Qed.

Lemma octets_bytes s : Forall in_byte (octets s) ∧ length (octets s) = String.length s.
Proof.
  unfold octets. split; [apply Forall_fmap, Forall_true; intros c; apply char_code_byte|].
  rewrite length_fmap. induction s as [|c s IH]; cbn; congruence.
Qed.

Lemma sha1_bytes m : Forall in_byte (Fips.sha1 m).
Proof.
  unfold Fips.sha1, Fips.registers_bytes. generalize (fold_left Fips.compress (Fips.parse (Fips.padded m)) Fips.H0).
  intros h. rewrite !Forall_app. split_and!; apply big_endian_bytes.
Qed.

Definition websocket_guid : string := "258EAFA5-E914-47DA-95CA-C5AB0DC85B11".

Lemma string_length_app a b : String.length (a +:+ b) = (String.length a + String.length b)%nat.
Proof. induction a as [|c a IH]; [done|]. exact (f_equal S IH). Qed.

Lemma accept_value_spec garbage key :
  length garbage = 64%nat → Z.of_nat (String.length key) < 2 ^ 28 →
  ∃ accept,
    base64encode standard_key (to_char <$> Fips.sha1 (octets (key +:+ websocket_guid))) = Some accept ∧
    accept_value garbage key = Some (char_code <$> accept).
Proof.
  intros G K. unfold accept_value. fold websocket_guid.
  destruct (octets_bytes (key +:+ websocket_guid)) as [B L].
  rewrite (sha1_computes garbage _ G B)
    by (rewrite L, string_length_app, Nat2Z.inj_add; change (Z.of_nat (String.length websocket_guid)) with 36; lia).
  cbn [mbind option_bind]. unfold base64encode.
  pose proof (sha1_bytes (octets (key +:+ websocket_guid))) as Bs. revert Bs.
  generalize (Fips.sha1 (octets (key +:+ websocket_guid))). intros digest Bs.
  destruct (encode_spec standard_key (to_char <$> digest) (proj1 standard_keeps)) as (e & E & _).
  exists e. split; [exact E|]. unfold base64encode in E.
  assert (char_code <$> (to_char <$> digest) = digest) as Ed.
  { rewrite <- list_fmap_compose. rewrite <- (list_fmap_id digest) at 2.
    apply list_fmap_ext. intros i x Hx. apply char_code_to_char. by eapply Forall_lookup_1 in Bs. }
  rewrite Ed in E. by rewrite E.
Qed.

(** C23: a client that upgrades is sent the answer of RFC 6455 to its key, and from then on its
    frames are served: whichever way the payloads are cut into reads and whenever the writes
    complete, the handler is called with the messages put together from their fragments, in
    order, and what has been queued is the answer followed by the frames of the replies, of which
    nothing is held back when no write is under way. *)
Theorem frames_are_served {U} (on_message : list Z → bool → U → list command * U)
    open_handler_ close_handler_ error_handler_ accept_handler_ garbage req u u1 o1 fs ls i o2 :
  length garbage = 64%nat →
  iequals (get_header_value (req_headers req) "upgrade") "websocket" = true →
  Z.of_nat (String.length (get_header_value (req_headers req) "Sec-WebSocket-Key")) < 2 ^ 28 →
  welcome open_handler_ accept_handler_ req u = Some (u1, o1) →
  Forall well_formed fs → Forall2 reads_of_frame fs ls →
  serve_all on_message fs (MkInbox [] None u1) = Some (i, o2) →
  ∃ c1 accept,
    handle_upgrade open_handler_ close_handler_ accept_handler_ garbage req u = Val (c1, u1) ∧
    base64encode standard_key (to_char <$> Fips.sha1
      (octets (get_header_value (req_headers req) "Sec-WebSocket-Key" +:+ websocket_guid)))
      = Some accept ∧
    ∀ evs out,
      forallb successful evs = true → reads_in evs = concat ls →
      run_events (Some on_message) close_handler_ error_handler_ evs (c1, u1) = Some out →
      ∃ c2, out = Val (c2, user i) ∧
        wire c2 ++ concat (write_buffers_ c2) =
          handshake_answer accept ++ encode_replies (o1 ++ o2) ∧
        (writes c2 = 0%nat → write_buffers_ c2 = []).
Proof.
  intros G Up K W Wf Fr Sv.
  destruct (accept_value_spec garbage _ G K) as (accept & Acc & Ea).
  unfold welcome in W. unfold handle_upgrade, construct. rewrite Up. cbn [negb].
  set (l := [switching_protocols; char_code <$> accept; [13; 10]; [13; 10]]).
  assert (∃ u0, outcome_map snd (bind match accept_handler_ with
      | Some h => λ '(c, u), let '(b, u) := h req u in Val (b, (c, u))
      | None => ret true
      end (λ accepted : bool,
        if negb accepted then bind close_adaptor (λ _, put (set_destroyed true))
        else match accept_value garbage (get_header_value (req_headers req) "Sec-WebSocket-Key") with
             | Some hello => start open_handler_ close_handler_ hello
             | None => undef_ws out_of_bounds
             end) (new_connection, u)) =
      outcome_map snd (start_with open_handler_ close_handler_ l (new_connection, u0)) ∧
      match open_handler_ with
      | None => Some (u0, [])
      | Some h => let '(l, u) := h u0 in o ← mapM reply_of l; Some (u, o)
      end = Some (u1, o1)) as (u0 & E0 & W0).
  { rewrite Ea. unfold bind. destruct accept_handler_ as [h|].
    - destruct (h req u) as [[] u0]; [|done]. by exists u0.
    - by exists u. }
  rewrite E0.
  destruct (start_with_serves open_handler_ close_handler_ l u0 u1 o1 ltac:(done) W0)
    as (c1 & r & E1 & S1 & F1 & Q1).
  exists c1, accept. split_and!; [exact E1|exact Acc|]. intros evs out Q R E.
  destruct (frames_are_read on_message fs ls r _ i o2 Wf Fr F1 Sv) as (r2 & R2 & _).
  rewrite <- R in R2.
  destruct (events_serve on_message close_handler_ error_handler_ evs c1 r u1 r2 (user i) o2 out
              S1 Q R2 E) as (c2 & -> & [L2 _ _ _ Fl _] & Q2).
  exists c2. split_and!; [done| |].
  - unfold queue in Q2. rewrite Q2. unfold queue in Q1. rewrite Q1. unfold handshake_answer, l.
    cbn [concat]. rewrite app_nil_r, <- !app_assoc. unfold encode_replies.
    by rewrite fmap_app, concat_app.
  - intros W2. apply Fl. rewrite (live_writes _ L2) in W2. by destruct (sending_buffers_ c2).
Qed.

(** *** A client that says Hello in two fragments, with a ping between them, and is echoed *)

Module Echo.
Definition on_message (m : list Z) (binary : bool) (u : list (list Z * bool)) :
    list command * list (list Z * bool) :=
  ([send_text m], u ++ [(m, binary)]).
Definition upgrade_request : request :=
  MkRequest Get "/chat" "/chat" query_string_empty
    [("Upgrade", "websocket"); ("Sec-WebSocket-Key", "dGhlIHNhbXBsZSBub25jZQ==")] "" 1 1 true false
    true.
Definition key : option (list Z) := Some [55; 250; 33; 61].
Definition client_frames : list frame :=
  [MkFrame false 1 key (octets "Hel"); MkFrame true 9 key (octets "?");
   MkFrame true 0 key (octets "lo")].
Definition first_fragment : list (list Z) :=
  [[1; 131]; [55; 250; 33; 61]; [Z.lxor 72 55]; [Z.lxor 101 250; Z.lxor 108 33]].
Definition client_reads : list (list (list Z)) :=
  [first_fragment; [[137; 129]; [55; 250; 33; 61]; [Z.lxor 63 55]];
   [[128; 130]; [55; 250; 33; 61]; [Z.lxor 108 55; Z.lxor 111 250]]].
Definition heard : inbox := MkInbox [] (Some false) [(octets "Hello", false)].
Definition replies : list reply := [(10, octets "?"); (1, octets "Hello")].

Lemma sizes_ok (l : list (list Z)) :
  forallb (λ b, (1 <=? Z.of_nat (length b)) && (Z.of_nat (length b) <=? 4096)) l = true →
  Forall (λ b, 1 ≤ Z.of_nat (length b) ≤ 4096) l.
Proof.
  induction l as [|b l IH]; [done|]. cbn [forallb]. rewrite !andb_true_iff, !Z.leb_le.
  intros [B L]. by apply Forall_cons; split; [|apply IH].
Qed.

Lemma client_reads_ok : Forall2 reads_of_frame client_frames client_reads.
Proof.
  apply Forall2_cons; split; [|apply Forall2_cons; split; [|apply Forall2_cons; split; [|by apply Forall2_nil]]].
  - exists [[Z.lxor 72 55]; [Z.lxor 101 250; Z.lxor 108 33]].
    split; [reflexivity|]. split; [reflexivity|]. by apply sizes_ok.
  - exists [[Z.lxor 63 55]]. split; [reflexivity|]. split; [reflexivity|]. by apply sizes_ok.
  - exists [[Z.lxor 108 55; Z.lxor 111 250]].
    split; [reflexivity|]. split; [reflexivity|]. by apply sizes_ok.
Qed.

Lemma client_frame_ok fin op s :
  0 ≤ op < 16 → Z.of_nat (String.length s) < 2 ^ 63 →
  well_formed (MkFrame fin op key (octets s)).
Proof.
  intros O L. destruct (octets_bytes s) as [B E].
  split; cbn [frame_opcode masking_key payload]; [done| |done|by rewrite E].
  intros k [= <-]. split; [done|]. repeat (apply Forall_cons; split; [unfold in_byte; lia|]).
  apply Forall_nil_2.
Qed.
Lemma client_frames_ok : Forall well_formed client_frames.
Proof. repeat (apply Forall_cons; split; [by apply client_frame_ok|]). apply Forall_nil_2. Qed.

(** The events: every write completes as soon as it can. *)
Definition with_writes (l : list (list Z)) : list event :=
  [ReadDone (Some (hd [] l))] ++ [WriteDone true] ++ ((λ b, ReadDone (Some b)) <$> tl l)
    ++ [WriteDone true].

Abbreviation upgraded :=
  (handle_upgrade None None None (repeat 0 64) upgrade_request ([] : list (list Z * bool))).

Lemma upgraded_reads :
  match upgraded with Val s => allowed s.1 (ReadDone None) = true | _ => False end.
Proof. vm_compute. reflexivity. Qed.

Example echoed :
  match upgraded with
  | Val s =>
      match run_events (Some on_message) None None (with_writes (concat client_reads)) s with
      | Some (Val (c, u)) =>
          u = [(octets "Hello", false)] ∧ writes c = 1%nat ∧ write_buffers_ c = [] ∧
          wire c = switching_protocols ++ octets "s3pPLMBiTxaQ9kYGzzhZRbK+xOo="
                     ++ [13; 10; 13; 10] ++ [138; 1] ++ octets "?" ++ [129; 5] ++ octets "Hello"
      | _ => False
      end
  | _ => False
  end.
Proof. vm_compute. by repeat split. Qed.
End Echo.

Lemma frames_are_served_witness :
  ∃ c1 accept,
    handle_upgrade None None None (repeat 0 64) Echo.upgrade_request ([] : list (list Z * bool)) = Val (c1, []) ∧
    base64encode standard_key (to_char <$> Fips.sha1
      (octets (get_header_value (req_headers Echo.upgrade_request) "Sec-WebSocket-Key"
               +:+ websocket_guid))) = Some accept ∧
    ∀ evs out,
      forallb successful evs = true → reads_in evs = concat Echo.client_reads →
      run_events (Some Echo.on_message) None None evs (c1, []) = Some out →
      ∃ c2, out = Val (c2, [(octets "Hello", false)]) ∧
        wire c2 ++ concat (write_buffers_ c2) =
          handshake_answer accept ++ encode_replies Echo.replies ∧
        (writes c2 = 0%nat → write_buffers_ c2 = []).
Proof.
  apply (frames_are_served Echo.on_message None None None None (repeat 0 64) Echo.upgrade_request
           [] [] [] Echo.client_frames Echo.client_reads Echo.heard Echo.replies).
  - reflexivity.
  - vm_compute. reflexivity.
  - vm_compute. reflexivity.
  - reflexivity.
  - exact Echo.client_frames_ok.
  - exact Echo.client_reads_ok.
  - vm_compute. reflexivity.
Defined.

(** ** Safety *)

(** C24: in any state a connection reaches, an event that asio can deliver, or a command another
    thread posts, leads to a next state; only the last bytes of a client's answer to a close
    frame, with no write under way, make the code use the object it has freed, and only the last
    fragment of a message without a first one makes it read [is_binary_] before it is set. *)
Theorem websocket_fails_only_on_close_reply {U} open_handler_ message_handler_ close_handler_
    error_handler_ accept_handler_ garbage (s : connection * U) e :
  reachable open_handler_ message_handler_ close_handler_ error_handler_ accept_handler_ garbage s →
  allowed s.1 e = true →
  (∃ s', step message_handler_ close_handler_ error_handler_ e s = Val s') ∨
  (close_reply s.1 e ∧
   step message_handler_ close_handler_ error_handler_ e s = Undef use_after_free) ∨
  (stray_continuation s.1 e ∧
   step message_handler_ close_handler_ error_handler_ e s = Undef uninitialised).
Proof.
  intros R A. apply reachable_settled in R.
  destruct (step_cases message_handler_ close_handler_ error_handler_ s e R A)
    as [(s' & E & _)|H]; [left; by exists s'|by right].
Qed.

(** An error right after the upgrade. *)
Lemma websocket_fails_only_on_close_reply_witness :
  ∃ s, Echo.upgraded = Val s ∧ allowed s.1 (ReadDone None) = true ∧
    ((∃ s', step (Some Echo.on_message) None None (ReadDone None) s = Val s') ∨
     (close_reply s.1 (ReadDone None) ∧
      step (Some Echo.on_message) None None (ReadDone None) s = Undef use_after_free) ∨
     (stray_continuation s.1 (ReadDone None) ∧
      step (Some Echo.on_message) None None (ReadDone None) s = Undef uninitialised)).
Proof.
  pose proof Echo.upgraded_reads as A. revert A.
  destruct Echo.upgraded as [s| | | | |] eqn:E; [|intros []..]. intros A.
  exists s. split; [reflexivity|]. split; [exact A|].
  apply (websocket_fails_only_on_close_reply None (Some Echo.on_message) None None None (repeat 0 64)).
  - exact (reach_upgrade _ _ _ _ _ _ Echo.upgrade_request [] s E).
  - exact A.
Defined.

(** The server sends a close frame, the write completes, the client answers with a close frame:
    the object is freed in the middle of [handle_fragment], which goes on with it. *)
Theorem close_reply_uses_freed_connection :
  match Echo.upgraded with
  | Val s =>
      run_events (Some Echo.on_message) None None
        [WriteDone true; Posted (close []); WriteDone true; ReadDone (Some [136; 128]);
         ReadDone (Some [0; 0; 0; 0]); ReadDone (Some [])] s = Some (Undef use_after_free)
  | _ => False
  end.
Proof. vm_compute. reflexivity. Qed.

(** A final continuation frame without a first fragment. *)
Theorem stray_continuation_reads_uninitialised :
  match Echo.upgraded with
  | Val s =>
      run_events (Some Echo.on_message) None None
        [WriteDone true; ReadDone (Some [128; 0]); ReadDone (Some [])] s = Some (Undef uninitialised)
  | _ => False
  end.
Proof. vm_compute. reflexivity. Qed.

(** A header of which one byte arrives first is taken for a whole one: the text frame of five
    bytes is not understood. *)
Theorem divided_header_is_misread :
  match Echo.upgraded with
  | Val s =>
      match run_events (Some Echo.on_message) None None
              [WriteDone true; ReadDone (Some [129]); ReadDone (Some [])] s with
      | Some (Val (c, u)) => u = [([], false)] ∧ state_ c = MiniHeader
      | _ => False
      end
  | _ => False
  end.
Proof. vm_compute. by split. Qed.

(** An error while a payload is read leaves the object: nothing is under way that could free it. *)
Theorem payload_error_leaks_connection :
  match Echo.upgraded with
  | Val s =>
      match run_events (Some Echo.on_message) None None
              [WriteDone true; ReadDone (Some [129; 5]); ReadDone None] s with
      | Some (Val (c, _)) => destroyed c = false ∧ reads c = 0%nat ∧ writes c = 0%nat
      | _ => False
      end
  | _ => False
  end.
Proof. vm_compute. by repeat split. Qed.
