(* ===== verification/Mustache.v ===== *)
(** * Templates

    lib/crowapi/crow_all.h, [mustache::template_t]: the parser of a template, which cuts its text
    into fragments and actions, and [render_internal], which renders them with a stack of contexts;
    [load] and the base directories.

    Positions are [int] or [size_t], far from their bounds but for differences, which wrap around;
    vectors are lists, the stacks [blockPositions] and [stack] with their [back] first.  Contexts
    are values: rendering writes none but the static [empty_str], to which it gives the same value
    each time. *)

From Stdlib Require Import ZArith Lia Ascii String.
From stdpp Require Import base tactics option strings list.
From S2P Require Import Prelude.
From S2P Require Import CppStd.
From S2P Require Import QueryString.
From S2P Require Import StaticFiles.
From S2P Require Import Json.
From S2P Require Import JsonWrite.
From S2P Require Import Multipart.

Local Open Scope Z_scope.
Local Open Scope outcome_scope.

(** ** The data *)

Inductive ActionType : Type :=
| Ignore | Tag | UnescapeTag | OpenBlock | CloseBlock | ElseBlock | Partial.
#[global] Instance ActionType_eq_dec : EqDecision ActionType.
Proof. solve_decision. Defined.

Record Action : Type := MkAction { a_start : Z; a_end : Z; a_pos : Z; a_t : ActionType }.
Abbreviation fragment := (Z * Z)%type.
Record template_t : Type := MkTemplate {
  fragments_ : list fragment;
  actions_ : list Action;
  body_ : bytes
}.

(** ** Strings *)

Definition space : ascii := " ".
Definition invalid (msg : string) : exn := invalid_template ("crow::mustache error: " +:+ msg).
Definition chars (s : bytes) : string := string_of_list_ascii s.

(** [body_[i]]: the NUL at the end may be read. *)
Definition at_ (body : bytes) (i : Z) : outcome ascii :=
  if i <? 0 then Undef out_of_bounds
  else match (body ++ [nul]) !! Z.to_nat i with Some c => Val c | None => Undef out_of_bounds end.

(** [find(sub, pos)] *)
Definition find_from (s sub : bytes) (pos : Z) : Z :=
  if size s <? pos then npos
  else match find_index sub (drop (Z.to_nat pos) s) with
       | Some i => pos + Z.of_nat i
       | None => npos
       end.

(** The text of [size_t] many characters between two positions. *)
Definition slice (body : bytes) (first last : Z) : outcome bytes :=
  substr body first ((last - first) mod 2 ^ 64).

(** [while (body_[idx] == ' ') idx++], and [while (body_[endIdx - 1] == ' ') endIdx--]. *)
Fixpoint skip_spaces (fuel : nat) (body : bytes) (idx : Z) : outcome Z :=
  match fuel with
  | O => OutOfFuel
  | S fuel =>
      c ← at_ body idx;
      if Ascii.eqb c space then skip_spaces fuel body (idx + 1) else Val idx
  end.
Fixpoint trim_spaces (fuel : nat) (body : bytes) (endIdx : Z) : outcome Z :=
  match fuel with
  | O => OutOfFuel
  | S fuel =>
      c ← at_ body (endIdx - 1);
      if Ascii.eqb c space then trim_spaces fuel body (endIdx - 1) else Val endIdx
  end.
Definition turns (body : bytes) : nat := (length body + 2)%nat.

(** ** parse *)

Record parse_state : Type := MkParse {
  tag_open : bytes;
  tag_close : bytes;
  blockPositions : list Z;
  current : Z;
  p_fragments : list fragment;
  p_actions : list Action
}.

Definition push_action (a : Action) (st : parse_state) : parse_state :=
  MkParse (tag_open st) (tag_close st) (blockPositions st) (current st) (p_fragments st)
    (p_actions st ++ [a]).
Definition push_block (st : parse_state) : parse_state :=
  MkParse (tag_open st) (tag_close st) (Z.of_nat (length (p_actions st)) :: blockPositions st)
    (current st) (p_fragments st) (p_actions st).
Definition push_fragment (f : fragment) (st : parse_state) : parse_state :=
  MkParse (tag_open st) (tag_close st) (blockPositions st) (current st) (p_fragments st ++ [f])
    (p_actions st).
Definition set_current (c : Z) (st : parse_state) : parse_state :=
  MkParse (tag_open st) (tag_close st) (blockPositions st) c (p_fragments st) (p_actions st).
Definition set_tags (op cl : bytes) (st : parse_state) : parse_state :=
  MkParse op cl (blockPositions st) (current st) (p_fragments st) (p_actions st).

(** [actions_[i]] *)
Definition action_at (l : list Action) (i : Z) : outcome Action :=
  if i <? 0 then Undef out_of_bounds
  else match l !! Z.to_nat i with Some a => Val a | None => Undef out_of_bounds end.
Definition set_pos (p : Z) (a : Action) : Action := MkAction (a_start a) (a_end a) p (a_t a).

(** An action of type [t] for the name between two positions, without the spaces around it. *)
Definition named (body : bytes) (t : ActionType) (idx endIdx : Z) : outcome Action :=
  idx ← skip_spaces (turns body) body idx;
  endIdx ← trim_spaces (turns body) body endIdx;
  Val (MkAction idx endIdx 0 t).

(** The end of a block: it must have the name of the last block that was opened. *)
Definition close_block (body : bytes) (idx endIdx : Z) (st : parse_state) : outcome parse_state :=
  a ← named body CloseBlock idx endIdx;
  match blockPositions st with
  | [] => Undef out_of_bounds
  | b :: blocks =>
      matched ← action_at (p_actions st) b;
      mine ← slice body (a_start a) (a_end a);
      theirs ← slice body (a_start matched) (a_end matched);
      if negb (bool_decide (mine = theirs)) then
        Throw (invalid ("not matched {{# {{/ pair: " +:+ chars theirs +:+ ", " +:+ chars mine))
      else
        let matched := set_pos (Z.of_nat (length (p_actions st))) matched in
        Val (MkParse (tag_open st) (tag_close st) blocks (current st) (p_fragments st)
               (<[Z.to_nat b := matched]> (p_actions st) ++ [set_pos b a]))
  end.

(** [{{=]: the new tags, from the first space between [i] and [endIdx]. *)
Fixpoint new_tags (fuel : nat) (body : bytes) (idx i endIdx : Z) : outcome (bytes * bytes) :=
  match fuel with
  | O => OutOfFuel
  | S fuel =>
      if negb (i <? endIdx) then
        Throw (invalid "{{=: cannot find space between new open/close tags")
      else
        c ← at_ body i;
        if Ascii.eqb c space then
          op ← slice body idx i;
          i ← skip_spaces (turns body) body i;
          cl ← slice body i endIdx;
          if bool_decide (op = []) then Throw (invalid "{{=: empty open tag")
          else if bool_decide (cl = []) then Throw (invalid "{{=: empty close tag")
          else if bool_decide (space ∈ cl) then
            Throw (invalid ("{{=: invalid open/close tag: " +:+ chars op +:+ " " +:+ chars cl))
          else Val (op, cl)
        else new_tags fuel body idx (i + 1) endIdx
  end.
Definition change_tags (body : bytes) (idx endIdx : Z) (st : parse_state) : outcome parse_state :=
  let st := push_action (MkAction idx endIdx 0 Ignore) st in
  let endIdx := endIdx - 1 in
  c ← at_ body endIdx;
  if negb (Ascii.eqb c "=") then
    t ← slice body idx endIdx;
    Throw (invalid ("{{=: not matching = tag: " +:+ chars t))
  else
    idx ← skip_spaces (turns body) body idx;
    endIdx ← trim_spaces (turns body) body endIdx;
    '(op, cl) ← new_tags (turns body) body idx idx endIdx;
    Val (set_tags op cl st).

(** One tag, whose open brackets are at [idx]. *)
Definition parse_tag (body : bytes) (idx : Z) (st : parse_state) : outcome parse_state :=
  let st := push_fragment (current st, idx) st in
  let idx := idx + size (tag_open st) in
  let endIdx := find_from body (tag_close st) idx in
  if endIdx =? idx then Throw (invalid "empty tag is not allowed")
  else if endIdx =? npos then Throw (invalid "not matched opening tag")
  else
    let st := set_current (endIdx + size (tag_close st)) st in
    c ← at_ body idx;
    if Ascii.eqb c "#" then
      a ← named body OpenBlock (idx + 1) endIdx;
      Val (push_action a (push_block st))
    else if Ascii.eqb c "/" then close_block body (idx + 1) endIdx st
    else if Ascii.eqb c "^" then
      a ← named body ElseBlock (idx + 1) endIdx;
      Val (push_action a (push_block st))
    else if Ascii.eqb c "!" then
      Val (push_action (MkAction (idx + 1) endIdx 0 Ignore) st)
    else if Ascii.eqb c ">" then
      a ← named body Partial (idx + 1) endIdx;
      Val (push_action a st)
    else if Ascii.eqb c "{" then
      if negb (bool_decide (tag_open st = lit "{{")) || negb (bool_decide (tag_close st = lit "}}"))
      then Throw (invalid "cannot use triple mustache when delimiter changed")
      else
        x ← at_ body (endIdx + 2);
        if negb (Ascii.eqb x "}") then Throw (invalid "{{{: }} not matched")
        else
          a ← named body UnescapeTag (idx + 1) endIdx;
          Val (set_current (current st + 1) (push_action a st))
    else if Ascii.eqb c "&" then
      a ← named body UnescapeTag (idx + 1) endIdx;
      Val (push_action a st)
    else if Ascii.eqb c "=" then change_tags body (idx + 1) endIdx st
    else
      a ← named body Tag idx endIdx;
      Val (push_action a st).

(** The loop: a tag has a character at least. *)
Fixpoint parse_tags (fuel : nat) (body : bytes) (st : parse_state) : outcome parse_state :=
  match fuel with
  | O => OutOfFuel
  | S fuel =>
      let idx := find_from body (tag_open st) (current st) in
      if idx =? npos then
        Val (push_action (MkAction 0 0 0 Ignore) (push_fragment (current st, size body) st))
      else
        st ← parse_tag body idx st;
        parse_tags fuel body st
  end.

(** *** Standalone tags *)

(** The last character of a fragment, from [j] down to [first], that is no space. *)
Fixpoint space_before (fuel : nat) (body : bytes) (first j : Z) : outcome (bool * Z) :=
  match fuel with
  | O => OutOfFuel
  | S fuel =>
      if j <? first then Val (true, j)
      else
        c ← at_ body j;
        if Ascii.eqb c space then space_before fuel body first (j - 1) else Val (false, j)
  end.
(** The first character from [k] on, before [last], that is no space. *)
Fixpoint space_after (fuel : nat) (body : bytes) (last k : Z) : outcome (bool * Z) :=
  match fuel with
  | O => OutOfFuel
  | S fuel =>
      if negb ((k <? size body) && (k <? last)) then Val (true, k)
      else
        c ← at_ body k;
        if Ascii.eqb c space then space_after fuel body last (k + 1) else Val (false, k)
  end.

(** Whether a line ends at [k], and what of it there is: [k] after the end. *)
Definition line_break (body : bytes) (k : Z) : outcome (option Z) :=
  c ← at_ body k;
  if Ascii.eqb c "010" then Val (Some (k + 1))
  else if Ascii.eqb c "013" && (k + 1 <? size body) then
    d ← at_ body (k + 1);
    Val (if Ascii.eqb d "010" then Some (k + 2) else None)
  else Val None.

(** [is_tag]: a tag that is rendered keeps its line. *)
Definition is_tag (t : ActionType) : bool :=
  match t with Tag | UnescapeTag => true | _ => false end.

(** The action [i], of [n]: the fragments around it and its position, changed when it stands alone
    on its line. *)
Definition standalone (body : bytes) (n i : nat) (a : Action) (before after : fragment) :
    outcome (Action * fragment * fragment) :=
  let unchanged := Val (a, before, after) in
  if is_tag (a_t a) then unchanged
  else
    let is_last_action := Nat.eqb i (n - 2) in
    '(all_space_before, j) ← space_before (turns body) body before.1 (before.2 - 1);
    at_line ← (if all_space_before then Val (Nat.eqb i 0)
               else c ← at_ body j; Val (Ascii.eqb c "010"));
    if negb at_line then unchanged
    else
      '(all_space_after, k) ← space_after (turns body) body after.2 after.1;
      if all_space_after && negb is_last_action then unchanged
      else
        after' ← (if all_space_after then Val (Some after.1) else line_break body k);
        match after' with
        | None => unchanged
        | Some first =>
            let a := if bool_decide (a_t a = Partial) then set_pos (before.2 - j - 1) a else a in
            Val (a, (before.1, j + 1), (first, after.2))
        end.

Abbreviation vectors := (list fragment * list Action)%type.
Definition standalone_at (body : bytes) (i : nat) (v : vectors) : outcome vectors :=
  let '(fragments, actions) := v in
  match actions !! i, fragments !! i, fragments !! S i with
  | Some a, Some before, Some after =>
      '(a, before, after) ← standalone body (length actions) i a before after;
      Val (<[S i := after]> (<[i := before]> fragments), <[i := a]> actions)
  | _, _, _ => Undef out_of_bounds
  end.
(** From the action [i - 1] down to the first. *)
Fixpoint standalones (body : bytes) (i : nat) (v : vectors) : outcome vectors :=
  match i with
  | O => Val v
  | S i =>
      v ← standalone_at body i v;
      standalones body i v
  end.

(** The constructor of [template_t], and [compile]. *)
Definition parse (body : bytes) : outcome template_t :=
  st ← parse_tags (turns body) body (MkParse (lit "{{") (lit "}}") [] 0 [] []);
  '(fragments, actions) ←
    standalones body (length (p_actions st) - 1) (p_fragments st, p_actions st);
  Val (MkTemplate fragments actions body).
Definition compile (body : bytes) : outcome template_t := parse body.

(** ** Contexts *)

Abbreviation context := wvalue.

(** [stack.back()] *)
Definition back {A} (stack : list A) : outcome A :=
  match stack with x :: _ => Val x | [] => Undef out_of_bounds end.

Definition entry (name : bytes) (o : object) : option wvalue :=
  snd <$> List.find (λ x, bool_decide (x.1 = name)) o.
(** The member [count] finds, of a value of type [Object]. *)
Definition member (name : bytes) (v : context) : option context :=
  if bool_decide (wt_ v = tObject)
  then match JsonWrite.o v with Some o => entry name o | None => None end
  else None.

(** The parts of a name between dots. *)
Fixpoint split_dots (name : bytes) : list bytes :=
  match name with
  | [] => [[]]
  | c :: name =>
      match split_dots name with
      | part :: parts => if Ascii.eqb c "." then [] :: part :: parts else (c :: part) :: parts
      | [] => []
      end
  end.

(** The members of members of a value. *)
Fixpoint path_at (names : list bytes) (view : context) : option context :=
  match names with
  | [] => Some view
  | n :: names => match member n view with Some v => path_at names v | None => None end
  end.

Definition empty_str : context := wvalue_of_string [].

Fixpoint find_simple (name : bytes) (stack : list context) : bool * context :=
  match stack with
  | [] => (false, empty_str)
  | v :: stack =>
      match member name v with Some x => (true, x) | None => find_simple name stack end
  end.
Fixpoint find_dotted (names : list bytes) (stack : list context) (only_first : bool) :
    bool * context :=
  match stack with
  | [] => (false, empty_str)
  | v :: stack =>
      match path_at names v with
      | Some x => (true, x)
      | None => if only_first then (false, empty_str) else find_dotted names stack only_first
      end
  end.
Definition find_context (name : bytes) (stack : list context)
    (shouldUseOnlyFirstStackValue : bool) : outcome (bool * context) :=
  if bool_decide (name = lit ".") then v ← back stack; Val (true, v)
  else if bool_decide ("."%char ∈ name)
  then Val (find_dotted (split_dots name) stack shouldUseOnlyFirstStackValue)
  else Val (find_simple name stack).

(** ** render *)

Definition escape_char (c : ascii) : bytes :=
  if Ascii.eqb c "&" then lit "&amp;"
  else if Ascii.eqb c "<" then lit "&lt;"
  else if Ascii.eqb c ">" then lit "&gt;"
  else if Ascii.eqb c "034" then lit "&quot;"
  else if Ascii.eqb c "'" then lit "&#39;"
  else if Ascii.eqb c "/" then lit "&#x2F;"
  else if Ascii.eqb c "`" then lit "&#x60;"
  else if Ascii.eqb c "=" then lit "&#x3D;"
  else [c].
Definition escape (s out : bytes) : bytes := out ++ concat (map escape_char s).

Definition tag_name (t : template_t) (a : Action) : outcome bytes :=
  slice (body_ t) (a_start a) (a_end a).

(** The actions before [current], the nearest first. *)
Fixpoint inside_object (before : list Action) (openedBlock : Z) (stack : list context) :
    outcome bool :=
  match before with
  | [] => Val false
  | a :: before =>
      match a_t a with
      | OpenBlock =>
          v ← (if openedBlock =? 0 then back stack else Val wvalue_null);
          if (openedBlock =? 0) && bool_decide (wt_ v = tObject) then Val true
          else inside_object before (openedBlock - 1) stack
      | CloseBlock => inside_object before (openedBlock + 1) stack
      | _ => inside_object before openedBlock stack
      end
  end.
Definition isTagInsideObjectBlock (actions : list Action) (current : Z) (stack : list context) :
    outcome bool :=
  inside_object (rev (take (Z.to_nat current) actions)) 0 stack.

(** [out.insert(out.size(), indent, ' ')] *)
Definition indented (indent : Z) (out : bytes) : bytes := out ++ repeat space (Z.to_nat indent).

Fixpoint render_chars (n : nat) (body : bytes) (i indent : Z) (out : bytes) : outcome bytes :=
  match n with
  | O => Val out
  | S n =>
      c ← at_ body i;
      let out := out ++ [c] in
      let out := if Ascii.eqb c "010" && negb (i + 1 =? size body) then indented indent out else out in
      render_chars n body (i + 1) indent out
  end.
Definition render_fragment (t : template_t) (f : fragment) (indent : Z) (out : bytes) :
    outcome bytes :=
  if negb (indent =? 0) then
    render_chars (Z.to_nat (f.2 - f.1)) (body_ t) f.1 indent out
  else
    s ← slice (body_ t) f.1 f.2;
    Val (out ++ s).

(** The number of a type. *)
Definition type_code (t : type) : Z :=
  match t with
  | tNull => 0 | tFalse => 1 | tTrue => 2 | tNumber => 3
  | tString => 4 | tList => 5 | tObject => 6 | tFunction => 7
  end.
Definition not_implemented (what : string) (v : context) : exn :=
  runtime_error (what +:+ to_string (type_code (wt_ v))).

Definition fragment_at (t : template_t) (i : Z) : outcome fragment :=
  if i <? 0 then Undef out_of_bounds
  else match fragments_ t !! Z.to_nat i with Some f => Val f | None => Undef out_of_bounds end.

(** What a call of [render_internal] changes. *)
Abbreviation render_state := (list context * bytes)%type.

Section Step.
(** The calls of [render_internal], and the function that [load] calls for a file's text. *)
Context (render_internal : template_t → Z → Z → Z → render_state → outcome render_state).
Context (loader : bytes → outcome bytes).

Definition last_fragment (t : template_t) : Z := Z.of_nat (length (fragments_ t)) - 1.
Definition render_string_with (t : template_t) (ctx : context) : outcome bytes :=
  '(_, out) ← render_internal t 0 (last_fragment t) 0 ([ctx], []);
  Val out.

(** [load] *)
Definition load (name : bytes) : outcome template_t :=
  match sanitize_filename name "_" with
  | None => OutOfFuel
  | Some name => text ← loader name; compile text
  end.

(** [while (execute_result.find("{{") != npos)] *)
Fixpoint plug (fuel : nat) (ctx : context) (execute_result : bytes) : outcome bytes :=
  match fuel with
  | O => OutOfFuel
  | S fuel =>
      if find execute_result (lit "{{") =? npos then Val execute_result
      else
        result_plug ← parse execute_result;
        execute_result ← render_string_with result_plug ctx;
        plug fuel ctx execute_result
  end.

(** The text of a tag, escaped or not. *)
Definition put (t : ActionType) (s out : bytes) : bytes :=
  if bool_decide (t = Tag) then escape s out else out ++ s.

Definition render_tag (fuel : nat) (t : template_t) (a : Action) (cur : Z) (st : render_state) :
    outcome render_state :=
  let '(stack, out) := st in
  only_first ← isTagInsideObjectBlock (actions_ t) cur stack;
  name ← tag_name t a;
  '(_, ctx) ← find_context name stack only_first;
  match wt_ ctx with
  | tNumber => s ← JsonWrite.dump ctx; Val (stack, out ++ s)
  | tString => Val (stack, put (a_t a) (str ctx) out)
  | tFunction =>
      r ← execute ctx [];
      bottom ← back (rev stack);
      r ← plug fuel bottom r;
      Val (stack, put (a_t a) r out)
  | _ => Throw (not_implemented "not implemented tag type" ctx)
  end.

(** The [current] after the action, and the state. *)
Definition render_else (t : template_t) (a : Action) (cur : Z) (st : render_state) :
    outcome (Z * render_state) :=
  let '(stack, out) := st in
  name ← tag_name t a;
  '(found, ctx) ← find_context name stack false;
  let shown := Val (cur, (wvalue_null :: stack, out)) in
  let skipped := Val (a_pos a, st) in
  if negb found then shown
  else
    match wt_ ctx with
    | tList => match l ctx with Some (_ :: _) => skipped | _ => shown end
    | tFalse | tNull => shown
    | _ => skipped
    end.

Fixpoint render_items (t : template_t) (first last indent : Z) (items : list context)
    (st : render_state) : outcome render_state :=
  match items with
  | [] => Val st
  | x :: items =>
      let '(stack, out) := st in
      '(stack, out) ← render_internal t first last indent (x :: stack, out);
      _ ← back stack;
      render_items t first last indent items (tail stack, out)
  end.
Definition render_open (t : template_t) (a : Action) (cur indent : Z) (st : render_state) :
    outcome (Z * render_state) :=
  let '(stack, out) := st in
  name ← tag_name t a;
  '(found, ctx) ← find_context name stack false;
  if negb found then Val (a_pos a, st)
  else
    match wt_ ctx with
    | tList =>
        st ← render_items t (cur + 1) (a_pos a) indent (default [] (l ctx)) st;
        Val (a_pos a, st)
    | tNumber | tString | tObject | tTrue => Val (cur, (ctx :: stack, out))
    | tFalse | tNull => Val (a_pos a, st)
    | tFunction => Throw (not_implemented "{{#: not implemented context type: " ctx)
    end.

Definition render_partial (t : template_t) (a : Action) (indent : Z) (st : render_state) :
    outcome render_state :=
  name ← tag_name t a;
  partial ← load name;
  render_internal partial 0 (last_fragment partial)
    (if negb (a_pos a =? 0) then indent + a_pos a else 0) st.

Definition render_action (fuel : nat) (t : template_t) (a : Action) (cur indent : Z)
    (st : render_state) : outcome (Z * render_state) :=
  match a_t a with
  | Ignore => Val (cur, st)
  | Partial => st ← render_partial t a indent st; Val (cur, st)
  | UnescapeTag | Tag => st ← render_tag fuel t a cur st; Val (cur, st)
  | ElseBlock => render_else t a cur st
  | OpenBlock => render_open t a cur indent st
  | CloseBlock => _ ← back st.1; Val (cur, (tail st.1, st.2))
  end.
End Step.

Section Render.
Context (loader : bytes → outcome bytes).

(** The loop of [render_internal], with what follows it.  The calls it makes have a turn less. *)
Fixpoint render_loop (fuel : nat) (t : template_t) (cur actionEnd indent : Z) (st : render_state) :
    outcome render_state :=
  match fuel with
  | O => OutOfFuel
  | S fuel =>
      let render_internal t actionBegin actionEnd indent (st : render_state) :=
        render_loop fuel t actionBegin actionEnd indent (st.1, indented indent st.2) in
      if cur <? actionEnd then
        f ← fragment_at t cur;
        a ← action_at (actions_ t) cur;
        out ← render_fragment t f indent st.2;
        '(cur, st) ← render_action render_internal loader fuel t a cur indent (st.1, out);
        render_loop fuel t (cur + 1) actionEnd indent st
      else
        f ← fragment_at t actionEnd;
        out ← render_fragment t f indent st.2;
        Val (st.1, out)
  end.
Definition render_internal (fuel : nat) (t : template_t) (actionBegin actionEnd indent : Z)
    (st : render_state) : outcome render_state :=
  render_loop fuel t actionBegin actionEnd indent (st.1, indented indent st.2).

(** [render_string(ctx)] and [render_string()]; [render] wraps the same text. *)
Definition render_string (fuel : nat) (t : template_t) (ctx : context) : outcome bytes :=
  render_string_with (render_internal fuel) t ctx.
Definition render_string_empty (fuel : nat) (t : template_t) : outcome bytes :=
  render_string fuel t wvalue_null.
End Render.

(** ** Files of templates *)

(** The two base directories, and the loader; the files there are, by path. *)
Record bases : Type := MkBases { template_base : bytes; global_template_base : bytes }.
Definition initial_bases : bases := MkBases (lit "templates") (lit "templates").

(** [s.back()], which an empty string does not have. *)
Definition last_char (s : bytes) : outcome ascii :=
  match last s with Some c => Val c | None => Undef out_of_bounds end.
Definition with_slash (path : bytes) : outcome bytes :=
  c ← last_char path;
  Val (if Ascii.eqb c "\" || Ascii.eqb c "/" then path else path ++ lit "/").
Definition set_base (path : bytes) (b : bases) : outcome bases :=
  base ← with_slash path;
  Val (MkBases base (global_template_base b)).
Definition set_global_base (path : bytes) (b : bases) : outcome bases :=
  base ← with_slash path;
  Val (MkBases (template_base b) base).

(** A file that is not found is an empty template. *)
Definition default_loader (files : bytes → option bytes) (b : bases) (filename : bytes) :
    outcome bytes :=
  path ← with_slash (template_base b);
  Val (default [] (files (path ++ filename))).

(** [TaggedRule::handle], before it calls the handler: the rule's directory, or the global one. *)
Definition use_templates_base (custom_templates_base : bytes) (b : bases) : outcome bases :=
  if negb (bool_decide (custom_templates_base = [])) then set_base custom_templates_base b
  else if negb (bool_decide (template_base b = global_template_base b))
  then set_base (global_template_base b) b
  else Val b.

(** [load_text], [load_text_unsafe], [load_unsafe] *)
Definition load_text (loader : bytes → outcome bytes) (filename : bytes) : outcome bytes :=
  match sanitize_filename filename "_" with None => OutOfFuel | Some name => loader name end.
Definition load_text_unsafe (loader : bytes → outcome bytes) (filename : bytes) : outcome bytes :=
  loader filename.
Definition load_unsafe (loader : bytes → outcome bytes) (filename : bytes) : outcome template_t :=
  text ← loader filename; compile text.

(** The template that [load] reads after [set_base]. *)
Example load_from_base :
  let files path := if bool_decide (path = lit "pages/a_b") then Some (lit "{{x}}") else None in
  outcome_bind (set_base (lit "pages") initial_bases) (λ b, load (default_loader files b) (lit "a?b"))
  = parse (lit "{{x}}").
Proof. vm_compute. reflexivity. Qed.
