(* ===== verification/Templates.v ===== *)
(** * Templates: specification

    A template as a tree: variables, comments, sections and inverted sections, with the texts
    between them; how it is printed; the lines that hold nothing but a tag; and what it renders to
    in a stack of contexts. *)

From Stdlib Require Import ZArith Lia Ascii String.
From stdpp Require Import base tactics option strings list.
From S2P Require Import Prelude.
From S2P Require Import CppStd.
From S2P Require Import QueryString.
From S2P Require Import Json.
From S2P Require Import JsonWrite.
From S2P Require Import Multipart.
From S2P Require Import Mustache.

Local Open Scope Z_scope.

(** ** Trees *)

(** How a variable is written: [{{x}}], [{{&x}}], [{{{x}}}]. *)
Inductive style : Type := Escaped | Ampersand | Triple.
Inductive leaf : Type := Var (s : style) (name : bytes) | Comment (text : bytes).

(** Each tag has the text before it; a section, the text before its end. *)
Inductive tree : Type :=
| Leaf (before : bytes) (t : leaf)
| Node (before : bytes) (inverted : bool) (name : bytes) (body : list tree) (last : bytes).
Record template : Type := MkTree { trees : list tree; last_text : bytes }.

Section TreeInd.
Variable P : tree → Prop.
Hypothesis H_leaf : ∀ before t, P (Leaf before t).
Hypothesis H_node : ∀ before inverted name body last,
  Forall P body → P (Node before inverted name body last).
Fixpoint tree_ind' (t : tree) : P t :=
  match t with
  | Leaf b t => H_leaf b t
  | Node b i n body last =>
      H_node b i n body last
        ((fix go (l : list tree) : Forall P l :=
            match l with
            | [] => List.Forall_nil P
            | t :: l => Forall_cons_2 P t l (tree_ind' t) (go l)
            end) body)
  end.
End TreeInd.

(** ** Tags, in their order *)

Inductive tag : Type :=
| Plain (t : leaf)
| Opens (inverted : bool) (name : bytes)
| Closes (name : bytes).

Fixpoint flat (t : tree) : list (bytes * tag) :=
  match t with
  | Leaf b t => [(b, Plain t)]
  | Node b i n body last => (b, Opens i n) :: flat_map flat body ++ [(last, Closes n)]
  end.
Definition flats (l : list tree) : list (bytes * tag) := flat_map flat l.

(** What stands between the brackets, and a tag as it is written. *)
Definition print_tag (t : tag) : bytes :=
  match t with
  | Plain (Var Escaped n) => lit "{{" ++ n ++ lit "}}"
  | Plain (Var Ampersand n) => lit "{{&" ++ n ++ lit "}}"
  | Plain (Var Triple n) => lit "{{{" ++ n ++ lit "}}}"
  | Plain (Comment s) => lit "{{!" ++ s ++ lit "}}"
  | Opens false n => lit "{{#" ++ n ++ lit "}}"
  | Opens true n => lit "{{^" ++ n ++ lit "}}"
  | Closes n => lit "{{/" ++ n ++ lit "}}"
  end.
Definition print_flats (l : list (bytes * tag)) : bytes := concat (map (λ x, x.1 ++ print_tag x.2) l).
Definition print (t : template) : bytes := print_flats (flats (trees t)) ++ last_text t.

(** ** Templates that can be written *)

(** A text that what follows it ends: it holds no earlier occurrence of that. *)
Definition ends_at (sub s : bytes) : bool :=
  bool_decide (find_index sub (s ++ sub) = Some (length s)).

(** The text before a tag and a comment end where the brackets are; a name holds no bracket,
    neither begins nor ends with a space, and begins with no sign that has a meaning. *)
Definition lacks_all (cs : list ascii) (s : bytes) : bool := forallb (λ c, bool_decide (c ∉ s)) cs.
Definition name_ok (n : bytes) : bool :=
  lacks_all ["{"; "}"]%char n &&
  match n with [] => false | c :: _ => lacks_all [c] (lit " #/^!>{&=") end &&
  match last n with Some c => negb (Ascii.eqb c space) | None => false end.
Definition text_ok (s : bytes) : bool := ends_at (lit "{{") s.
Definition last_ok (s : bytes) : bool := bool_decide (find_index (lit "{{") s = None).
Definition leaf_ok (t : leaf) : bool :=
  match t with Var _ n => name_ok n | Comment s => ends_at (lit "}}") s end.
Fixpoint tree_ok (t : tree) : bool :=
  match t with
  | Leaf b t => text_ok b && leaf_ok t
  | Node b _ n body last => text_ok b && name_ok n && forallb tree_ok body && text_ok last
  end.

(** A variable with a dotted name does not come after an inverted section in the section it is in:
    there the search for the section is confused, and goes on in the contexts around it. *)
Definition dotted (n : bytes) : bool := bool_decide (n ≠ lit "." ∧ "."%char ∈ n).
Fixpoint inverts (t : tree) : bool :=
  match t with Leaf _ _ => false | Node _ i _ body _ => i || existsb inverts body end.
Fixpoint dots_ok (seen : bool) (t : tree) : bool :=
  match t with
  | Leaf _ (Var _ n) => negb (seen && dotted n)
  | Leaf _ (Comment _) => true
  | Node _ i _ body _ =>
      (fix go (seen : bool) (l : list tree) : bool :=
         match l with
         | [] => true
         | t :: l => dots_ok seen t && go (seen || (negb i && inverts t)) l
         end) false body
  end.
Fixpoint dots_list (inside seen : bool) (l : list tree) : bool :=
  match l with
  | [] => true
  | t :: l => dots_ok seen t && dots_list inside (seen || (inside && inverts t)) l
  end.

Definition template_ok (t : template) : bool :=
  forallb tree_ok (trees t) && dots_list false false (trees t) && last_ok (last_text t) &&
  bool_decide (size (print t) < 2 ^ 63).

(** ** Lines that hold nothing but a tag *)

Fixpoint strip_front (s : bytes) : bytes :=
  match s with c :: r => if Ascii.eqb c space then strip_front r else s | [] => [] end.
Definition strip_end (s : bytes) : bytes := rev (strip_front (rev s)).

(** A variable keeps its line. *)
Definition keeps_line (t : tag) : bool :=
  match t with Plain (Var _ _) => true | _ => false end.
(** Whether a line begins after a text and some spaces. *)
Definition begins_line (first : bool) (before : bytes) : bool :=
  match rev (strip_end before) with [] => first | c :: _ => Ascii.eqb c "010" end.
(** What follows the end of the line, when there is nothing but spaces before it. *)
Definition ends_line (is_last : bool) (after : bytes) : option bytes :=
  match strip_front after with
  | [] => if is_last then Some after else None
  | c :: r =>
      if Ascii.eqb c "010" then Some r
      else if Ascii.eqb c "013" then
        match r with d :: r => if Ascii.eqb d "010" then Some r else None | [] => None end
      else None
  end.
(** The texts around a tag. *)
Definition stand (first is_last : bool) (t : tag) (before after : bytes) : bytes * bytes :=
  if keeps_line t then (before, after)
  else if begins_line first before then
    match ends_line is_last after with
    | Some rest => (strip_end before, rest)
    | None => (before, after)
    end
  else (before, after).

(** The texts of a template, one more than its tags, from the last tag to the first. *)
Fixpoint trimmed (first : bool) (l : list (bytes * tag)) (last : bytes) : bytes * list bytes :=
  match l with
  | [] => (last, [])
  | (b, t) :: l =>
      let '(after, rest) := trimmed false l last in
      let '(b, after) := stand first (match l with [] => true | _ => false end) t b after in
      (b, after :: rest)
  end.

(** A tree with other texts, and the texts that are left. *)
Fixpoint refill (xs : list bytes) (t : tree) : tree * list bytes :=
  match t with
  | Leaf _ t => (Leaf (default [] (head xs)) t, tail xs)
  | Node _ i n body _ =>
      let '(body, ys) :=
        fold_left (λ acc t, let '(t, ys) := refill acc.2 t in (acc.1 ++ [t], ys)) body
          ([], tail xs) in
      (Node (default [] (head xs)) i n body (default [] (head ys)), tail ys)
  end.
Definition refills (xs : list bytes) (l : list tree) : list tree * list bytes :=
  fold_left (λ acc t, let '(t, ys) := refill acc.2 t in (acc.1 ++ [t], ys)) l ([], xs).
Definition trim (t : template) : template :=
  let '(x, xs) := trimmed true (flats (trees t)) (last_text t) in
  let '(l, ys) := refills (x :: xs) (trees t) in
  MkTree l (default [] (head ys)).

(** ** What a template renders to *)

(** The value of a name: the nearest context, or what its parts lead to from the nearest context
    from which they lead to something. *)
Definition lookup_name (n : bytes) (stack : list context) : option context :=
  if bool_decide (n = lit ".") then head stack
  else head (omap (path_at (split_dots n)) stack).
(** The value of a variable: one with a dotted name is looked up in the nearest context only when
    that is an object. *)
Definition lookup_variable (n : bytes) (stack : list context) : option context :=
  match stack with
  | v :: _ =>
      if dotted n && bool_decide (wt_ v = tObject) then path_at (split_dots n) v
      else lookup_name n stack
  | [] => None
  end.

Local Open Scope outcome_scope.

(** The text of a variable.  A function's text that is a template again is left out: the
    specification has no result for it. *)
Definition escaped (s : bytes) : bytes := concat (map escape_char s).
Definition shown (s : style) (x : bytes) : bytes :=
  match s with Escaped => escaped x | _ => x end.
Definition variable_text (s : style) (v : context) : outcome bytes :=
  match wt_ v with
  | tNumber => JsonWrite.dump v
  | tString => Val (shown s (str v))
  | tFunction =>
      r ← execute v [];
      if find r (lit "{{") =? npos then Val (shown s r) else OutOfFuel
  | _ => Throw (not_implemented "not implemented tag type" v)
  end.

(** The contexts a section is rendered in, one after the other; for an inverted one, the null
    context or none. *)
Definition section_contexts (v : option context) : outcome (list context) :=
  match v with
  | None => Val []
  | Some v =>
      match wt_ v with
      | tList => Val (default [] (l v))
      | tNumber | tString | tObject | tTrue => Val [v]
      | tFalse | tNull => Val []
      | tFunction => Throw (not_implemented "{{#: not implemented context type: " v)
      end
  end.
Definition inverted_contexts (v : option context) : list context :=
  match v with
  | None => [wvalue_null]
  | Some v =>
      match wt_ v with
      | tList => match l v with Some (_ :: _) => [] | _ => [wvalue_null] end
      | tFalse | tNull => [wvalue_null]
      | _ => []
      end
  end.

Definition outcome_app (a b : outcome bytes) : outcome bytes := x ← a; y ← b; Val (x ++ y).

Fixpoint denote (t : tree) (stack : list context) {struct t} : outcome bytes :=
  match t with
  | Leaf b (Var s n) =>
      outcome_app (Val b) (variable_text s (default empty_str (lookup_variable n stack)))
  | Leaf b (Comment _) => Val b
  | Node b inverted n body last =>
      outcome_app (Val b)
        (contexts ← (if inverted : bool then Val (inverted_contexts (lookup_name n stack))
                     else section_contexts (lookup_name n stack));
         foldr (λ v acc,
           outcome_app
             (outcome_app
                (foldr (λ t acc, outcome_app (denote t (v :: stack)) acc) (Val []) body)
                (Val last)) acc) (Val []) contexts)
  end.
Definition denotes (l : list tree) (stack : list context) : outcome bytes :=
  foldr (λ t acc, outcome_app (denote t stack) acc) (Val []) l.
Definition denotation (t : template) (ctx : context) : outcome bytes :=
  outcome_app (denotes (trees t) [ctx]) (Val (last_text t)).
