(* ===== verification/TemplateParse.v ===== *)
(** * Templates: the parser

    The parser of a printed template makes a fragment of each text and an action of each tag, with
    the name of the tag, and gives the action that opens a block the index of the one that closes
    it. *)

From Stdlib Require Import ZArith Lia Ascii String.
From stdpp Require Import base tactics option strings list.
From S2P Require Import Prelude.
From S2P Require Import CppStd.
From S2P Require Import QueryString.
From S2P Require Import Json.
From S2P Require Import JsonWrite.
From S2P Require Import Multipart.
From S2P Require Import MultipartFacts.
From S2P Require Import Mustache.
From S2P Require Import Templates.

Local Open Scope Z_scope.

(** ** Positions in a text *)

Lemma drop_size (p r : bytes) : drop (Z.to_nat (size p)) (p ++ r) = r.
Proof. unfold size. by rewrite Nat2Z.id, drop_app_length. Qed.

Lemma char_here body p c r : body = p ++ c :: r → at_ body (size p) = Val c.
Proof.
  intros ->. unfold at_. destruct (Z.ltb_spec (size p) 0) as [H|_]; [pose proof (size_nonneg p); lia|].
  unfold size. rewrite Nat2Z.id, <- app_assoc, lookup_app_r, Nat.sub_diag by lia. done.
Qed.

Lemma at_last body p n r c :
  body = p ++ n ++ r → last n = Some c → at_ body (size p + size n - 1) = Val c.
Proof.
  intros -> Hl. apply last_Some in Hl as [m ->].
  rewrite !size_app, size_cons. change (size []) with 0.
  rewrite <- (char_here (p ++ (m ++ [c]) ++ r) (p ++ m) c r).
  - rewrite size_app. f_equal. lia.
  - by rewrite <- !app_assoc.
Qed.

Lemma starts_with_longer sub s r : starts_with sub s = true → starts_with sub (s ++ r) = true.
Proof.
  intros H. apply bool_decide_eq_true_1 in H. rewrite <- (take_drop (length sub) s), H, <- app_assoc.
  apply starts_with_here.
Qed.
Lemma find_index_fits sub s i : find_index sub s = Some i → (length sub ≤ length s)%nat.
Proof.
  revert i. induction s as [|c s IH]; intros i; rewrite find_index_eq;
    destruct (starts_with sub _) eqn:E; try done.
  1,2: intros _; apply bool_decide_eq_true_1, (f_equal length) in E; rewrite length_take in E; lia.
  destruct (find_index sub s) as [j|]; [|done]. intros _. specialize (IH j eq_refl). cbn. lia.
Qed.
(** What is found is found whatever follows. *)
Lemma find_index_longer sub s r i : find_index sub s = Some i → find_index sub (s ++ r) = Some i.
Proof.
  revert i. induction s as [|c s IH]; intros i H; pose proof (find_index_fits _ _ _ H) as L;
    rewrite find_index_eq in H |- *; destruct (starts_with sub _) eqn:E; try done.
  1,2: by rewrite (starts_with_longer _ _ r E).
  assert (starts_with sub ((c :: s) ++ r) = false) as ->.
  { apply not_true_iff_false. intros F. apply bool_decide_eq_true_1 in F.
    rewrite take_app_le in F by done. by apply bool_decide_eq_false_1 in E. }
  cbn [app]. destruct (find_index sub s) as [j|] eqn:Ej; [|done]. by rewrite (IH j).
Qed.

Lemma ends_at_absent c sub x : c ∉ x → ends_at (c :: sub) x = true.
Proof.
  intros N. apply bool_decide_eq_true_2. rewrite <- (app_nil_r (c :: sub)) at 2.
  by apply find_index_first.
Qed.
Lemma ends_at_cons c d sub x : c ≠ d → ends_at (c :: sub) x = true → ends_at (c :: sub) (d :: x) = true.
Proof.
  intros N H. apply bool_decide_eq_true_1 in H. apply bool_decide_eq_true_2. cbn [app length].
  rewrite find_index_eq, starts_with_other by done. by rewrite H.
Qed.

Lemma find_from_here body p x sub r :
  body = p ++ x ++ sub ++ r → ends_at sub x = true → find_from body sub (size p) = size p + size x.
Proof.
  intros -> N. unfold find_from. destruct (Z.ltb_spec (size (p ++ x ++ sub ++ r)) (size p)) as [H|_].
  { rewrite !size_app in H. pose proof (size_nonneg x). pose proof (size_nonneg sub).
    pose proof (size_nonneg r). lia. }
  apply bool_decide_eq_true_1 in N. rewrite drop_size, (app_assoc x).
  by rewrite (find_index_longer _ _ _ _ N).
Qed.

Lemma find_from_none body p x sub :
  body = p ++ x → find_index sub x = None → find_from body sub (size p) = npos.
Proof. intros -> N. unfold find_from. destruct (_ <? _); [done|]. by rewrite drop_size, N. Qed.

Lemma slice_between body p x r :
  body = p ++ x ++ r → size body < 2 ^ 63 → slice body (size p) (size p + size x) = Val x.
Proof.
  intros -> L. unfold slice. rewrite !size_app in L.
  pose proof (size_nonneg p). pose proof (size_nonneg x). pose proof (size_nonneg r).
  replace (size p + size x - size p) with (size x) by lia.
  rewrite Z.mod_small by lia. unfold substr.
  destruct (Z.ltb_spec (size (p ++ x ++ r)) (size p)) as [H2|_]; [rewrite !size_app in H2; lia|].
  f_equal. unfold from. rewrite (Z.min_l (size p)) by (rewrite !size_app; lia).
  rewrite drop_size. unfold upto. rewrite Z.min_l by (rewrite !size_app; lia).
  unfold size. by rewrite Nat2Z.id, take_app_length.
Qed.

(** ** Names *)

Lemma skip_spaces_here body p c r :
  body = p ++ c :: r → c ≠ space → skip_spaces (turns body) body (size p) = Val (size p).
Proof.
  intros E N. unfold turns. rewrite Nat.add_comm. cbn [skip_spaces Nat.add].
  rewrite (char_here body p c r E). cbn. by rewrite (proj2 (Ascii.eqb_neq c space)).
Qed.

Lemma trim_spaces_here body p n r c :
  body = p ++ n ++ r → last n = Some c → c ≠ space →
  trim_spaces (turns body) body (size p + size n) = Val (size p + size n).
Proof.
  intros E L N. unfold turns. rewrite Nat.add_comm. cbn [trim_spaces Nat.add].
  rewrite (at_last body p n r c E L). cbn. by rewrite (proj2 (Ascii.eqb_neq c space)).
Qed.

(** A name without spaces at its ends. *)
Definition unspaced (n : bytes) : Prop :=
  (∃ c r, n = c :: r ∧ c ≠ space) ∧ ∃ d, last n = Some d ∧ d ≠ space.

Lemma named_here body t p n r :
  body = p ++ n ++ r → unspaced n →
  named body t (size p) (size p + size n) = Val (MkAction (size p) (size p + size n) 0 t).
Proof.
  intros E [(c & m & -> & Nc) (d & L & Nd)]. unfold named.
  rewrite (skip_spaces_here body p c (m ++ r)) by done. cbn [outcome_bind].
  by rewrite (trim_spaces_here body p (c :: m) r d).
Qed.

(** ** Tags *)

Definition sign (t : tag) : bytes :=
  match t with
  | Plain (Var Escaped _) => []
  | Plain (Var Ampersand _) => lit "&"
  | Plain (Var Triple _) => lit "{"
  | Plain (Comment _) => lit "!"
  | Opens false _ => lit "#"
  | Opens true _ => lit "^"
  | Closes _ => lit "/"
  end.
Definition inner (t : tag) : bytes :=
  match t with Plain (Var _ n) | Opens _ n | Closes n => n | Plain (Comment s) => s end.
Definition closer (t : tag) : bytes :=
  match t with Plain (Var Triple _) => lit "}" | _ => [] end.
Definition kind (t : tag) : ActionType :=
  match t with
  | Plain (Var Escaped _) => Tag
  | Plain (Var _ _) => UnescapeTag
  | Plain (Comment _) => Ignore
  | Opens false _ => OpenBlock
  | Opens true _ => ElseBlock
  | Closes _ => CloseBlock
  end.
Definition tag_ok (t : tag) : bool :=
  match t with Plain t => leaf_ok t | Opens _ n | Closes n => name_ok n end.

Lemma print_tag_parts t :
  print_tag t = lit "{{" ++ sign t ++ inner t ++ lit "}}" ++ closer t.
Proof. by destruct t as [[[] n|s]|[] n|n]. Qed.

Lemma lacks_all_spec cs s c : lacks_all cs s = true → c ∈ cs → c ∉ s.
Proof.
  unfold lacks_all. rewrite forallb_forall. intros H I. apply list_elem_of_In in I.
  by apply H, bool_decide_eq_true_1 in I.
Qed.

Record named_ok (n : bytes) : Prop := NamedOk {
  no_close : "}"%char ∉ n;
  no_spaces : unspaced n;
  no_sign : ∃ c r, n = c :: r ∧ c ∉ lit "#/^!>{&="
}.
Lemma name_ok_spec n : name_ok n = true → named_ok n.
Proof.
  unfold name_ok. rewrite !andb_true_iff. intros [[H1 H2] H3].
  destruct n as [|c r]; [done|].
  assert (c ∉ lit " #/^!>{&=") as Hc.
  { apply (lacks_all_spec _ _ _ H2). by left. }
  split.
  - apply (lacks_all_spec _ _ _ H1). right. by left.
  - split.
    + exists c, r. split; [done|]. intros ->. apply Hc. by left.
    + destruct (last (c :: r)) as [d|]; [|done]. exists d. split; [done|]. intros ->. done.
  - exists c, r. split; [done|]. intros I. apply Hc. by right.
Qed.

(** The action of a tag that is at [q], before its block is matched. *)
Definition action_of (q : Z) (t : tag) : Action :=
  let start := q + 2 + size (sign t) in MkAction start (start + size (inner t)) 0 (kind t).

Abbreviation state blocks cur frs acts := (MkParse (lit "{{") (lit "}}") blocks cur frs acts).

Lemma inner_ok t : tag_ok t = true →
  ends_at (lit "}}") (sign t ++ inner t) = true ∧ sign t ++ inner t ≠ [] ∧
  (kind t ≠ Ignore → unspaced (inner t)).
Proof.
  intros H. change (lit "}}") with ("}"%char :: lit "}").
  destruct t as [[s n|s]|i n|n]; cbn [tag_ok leaf_ok] in H;
    try (apply name_ok_spec in H as [N1 N2 _]; cbn [inner];
         (split; [apply ends_at_absent|split; [|done]])).
  3: { cbn [sign inner]. split; [by apply ends_at_cons|done]. }
  2,4,6: by destruct N2 as [(c & r & -> & _) _]; intros [_ ?]%app_nil.
  all: apply not_elem_of_app; split; [|done].
  all: cbn [sign]; repeat case_match; apply (bool_decide_unpack _); by vm_compute.
Qed.

(** Where the brackets that close a tag are found. *)
Lemma find_close body pre b t post :
  body = pre ++ b ++ print_tag t ++ post → tag_ok t = true →
  find_from body (lit "}}") (size pre + size b + 2) =
  size pre + size b + 2 + size (sign t ++ inner t).
Proof.
  intros E H. destruct (inner_ok t H) as (N & _). rewrite print_tag_parts in E.
  pose proof (find_from_here body (pre ++ b ++ lit "{{") (sign t ++ inner t) (lit "}}")
                (closer t ++ post)) as F.
  rewrite !size_app in F. rewrite !size_app. change (size (lit "{{")) with 2 in F.
  rewrite <- !Z.add_assoc in *. apply F; [|done].
  rewrite E, <- !app_assoc. done.
Qed.

Lemma at_sign body pre b t post c r :
  body = pre ++ b ++ print_tag t ++ post → sign t ++ inner t = c :: r →
  at_ body (size pre + size b + 2) = Val c.
Proof.
  intros E Es. rewrite print_tag_parts in E.
  pose proof (char_here body (pre ++ b ++ lit "{{") c (r ++ lit "}}" ++ closer t ++ post)) as F.
  rewrite !size_app in F. change (size (lit "{{")) with 2 in F. rewrite <- !Z.add_assoc in *.
  apply F. rewrite E, (app_assoc (sign t)), Es, <- !app_assoc. done.
Qed.

Lemma at_closer body pre b n post :
  let t := Plain (Var Triple n) in
  body = pre ++ b ++ print_tag t ++ post →
  at_ body (size pre + size b + 2 + size (sign t ++ inner t) + 2) = Val "}"%char.
Proof.
  intros t E. rewrite print_tag_parts in E.
  pose proof (char_here body (pre ++ b ++ lit "{{" ++ (sign t ++ inner t) ++ lit "}}") "}" post) as F.
  rewrite !size_app in F. rewrite size_app. change (size (lit "{{")) with 2 in F.
  change (size (lit "}}")) with 2 in F. rewrite <- !Z.add_assoc in *. apply F.
  rewrite E. cbn [closer]. rewrite <- !app_assoc. done.
Qed.

(** The name of a tag. *)
Lemma named_tag body pre b t post :
  body = pre ++ b ++ print_tag t ++ post → tag_ok t = true → kind t ≠ Ignore →
  let q := size pre + size b in
  named body (kind t) (q + 2 + size (sign t)) (q + 2 + size (sign t ++ inner t)) =
  Val (action_of q t).
Proof.
  intros E H Hk q. destruct (inner_ok t H) as (_ & _ & Hi). specialize (Hi Hk).
  rewrite print_tag_parts in E. unfold action_of, q.
  pose proof (named_here body (kind t) (pre ++ b ++ lit "{{" ++ sign t) (inner t)
                (lit "}}" ++ closer t ++ post)) as F.
  rewrite !size_app in *. change (size (lit "{{")) with 2 in *. rewrite <- !Z.add_assoc in *.
  apply F; [|done]. rewrite E, <- !app_assoc. done.
Qed.

Lemma slice_tag body pre b t post :
  body = pre ++ b ++ print_tag t ++ post → size body < 2 ^ 63 →
  let a := action_of (size pre + size b) t in slice body (a_start a) (a_end a) = Val (inner t).
Proof.
  intros E L. rewrite print_tag_parts in E.
  pose proof (slice_between body (pre ++ b ++ lit "{{" ++ sign t) (inner t)
                (lit "}}" ++ closer t ++ post)) as F.
  rewrite !size_app in F. change (size (lit "{{")) with 2 in F. cbn. rewrite <- !Z.add_assoc in *.
  apply F; [|done]. rewrite E, <- !app_assoc. done.
Qed.

(** The state after a tag, for the blocks and actions it leaves. *)
Definition after_tag (blocks : list Z) (acts : list Action) (pre b : bytes) (t : tag)
    (frs : list fragment) : parse_state :=
  let q := size pre + size b in
  state blocks (q + size (print_tag t)) (frs ++ [(size pre, q)]) acts.

Lemma parse_tag_here body pre b t post blocks frs acts :
  body = pre ++ b ++ print_tag t ++ post → size body < 2 ^ 63 → tag_ok t = true →
  parse_tag body (size pre + size b) (state blocks (size pre) frs acts) =
  let a := action_of (size pre + size b) t in
  match t with
  | Plain _ => Val (after_tag blocks (acts ++ [a]) pre b t frs)
  | Opens _ _ => Val (after_tag (Z.of_nat (length acts) :: blocks) (acts ++ [a]) pre b t frs)
  | Closes _ =>
      close_block body (a_start a) (a_end a) (after_tag blocks acts pre b t frs)
  end.
Proof.
  intros E L H. destruct (inner_ok t H) as (N & Nn & _).
  pose proof (find_close body pre b t post E H) as Hf.
  destruct (sign t ++ inner t) as [|c r] eqn:Es; [done|].
  pose proof (at_sign body pre b t post c r E Es) as Ha.
  pose proof (named_tag body pre b t post E H) as Hm. cbv zeta in Hm.
  assert (size (print_tag t) = 2 + size (sign t ++ inner t) + 2 + size (closer t)) as Ep.
  { rewrite print_tag_parts, !size_app. change (size (lit "{{")) with 2.
    change (size (lit "}}")) with 2. lia. }
  assert (size (sign t ++ inner t) > 0) as Hp by (rewrite Es, size_cons; pose proof (size_nonneg r); lia).
  assert (size pre + size b + size (print_tag t) <= size body) as Hb.
  { rewrite E, !size_app. pose proof (size_nonneg post). lia. }
  pose proof (size_nonneg (closer t)). rewrite <- Es in Hf.
  unfold parse_tag, push_fragment. cbn [tag_open tag_close current p_fragments p_actions blockPositions].
  change (size (lit "{{")) with 2. rewrite Hf.
  rewrite (proj2 (Z.eqb_neq _ (size pre + size b + 2))) by lia.
  rewrite (proj2 (Z.eqb_neq _ npos)) by (unfold npos; lia).
  rewrite Ha. cbn [outcome_bind set_current tag_open tag_close blockPositions p_fragments p_actions].
  assert (∀ x, Ascii.eqb c x = bool_decide (c = x)) as Hx.
  { intros x. by destruct (Ascii.eqb_spec c x); case_bool_decide. }
  assert (size pre + size b + size (print_tag t) =
          size pre + size b + 2 + size (sign t ++ inner t) + 2 + size (closer t)) as Eq by lia.
  unfold after_tag. rewrite Eq. clear Eq Ep Hb Hp Hf.
  change (size (lit "}}")) with 2.
  destruct t as [[[] n|s]|[] n|n]; cbn [sign inner closer kind] in *;
    try (specialize (Hm ltac:(done))).
  1: { apply name_ok_spec in H as [_ _ (d & m & -> & Nd)]. cbn in Es. injection Es as <- <-.
    rewrite !Hx, !bool_decide_eq_false_2
      by (intros ->; apply Nd; apply (bool_decide_unpack _); by vm_compute).
    revert Hm. change (size []) with 0. rewrite !Z.add_0_r. intros ->. done. }
  all: injection Es as <- <-; cbn [Ascii.eqb Bool.eqb].
  all: change (size (lit "&")) with 1 in *; change (size (lit "{")) with 1 in *;
    change (size (lit "^")) with 1 in *; change (size (lit "#")) with 1 in *.
  all: try (rewrite Hm; cbn [outcome_bind]; change (size []) with 0; by rewrite Z.add_0_r).
  - rewrite !bool_decide_eq_true_2 by done. cbn [negb orb].
    pose proof (at_closer body pre b n post E) as Hc. cbn [sign inner] in Hc. rewrite Hc. cbn [outcome_bind Ascii.eqb Bool.eqb negb].
    by rewrite Hm.
  - change (size []) with 0. rewrite Z.add_0_r. unfold action_of. cbn [sign inner kind].
    change (size (lit "!")) with 1. by rewrite size_app, Z.add_assoc.
  - change (size []) with 0. rewrite Z.add_0_r. unfold action_of. cbn [sign inner kind a_start a_end].
    change (size (lit "/")) with 1. by rewrite size_app, Z.add_assoc.
Qed.

(** The end of a block whose opening is the action [j]. *)
Lemma close_block_here body pre b n post st j blocks m :
  let t := Closes n in
  let a := action_of (size pre + size b) t in
  body = pre ++ b ++ print_tag t ++ post → size body < 2 ^ 63 → tag_ok t = true →
  blockPositions st = Z.of_nat j :: blocks → p_actions st !! j = Some m →
  slice body (a_start m) (a_end m) = Val n →
  close_block body (a_start a) (a_end a) st =
  Val (MkParse (tag_open st) (tag_close st) blocks (current st) (p_fragments st)
         (<[j := set_pos (Z.of_nat (length (p_actions st))) m]> (p_actions st) ++
          [set_pos (Z.of_nat j) a])).
Proof.
  intros t a E L H Hb Hj Hm. unfold close_block.
  pose proof (named_tag body pre b t post E H ltac:(done)) as Hn. cbv zeta in Hn.
  fold a in Hn. rewrite size_app, Z.add_assoc in Hn.
  change (a_start a) with (size pre + size b + 2 + size (sign t)) at 1.
  change (a_end a) with (size pre + size b + 2 + size (sign t) + size (inner t)).
  change CloseBlock with (kind t). rewrite Hn, Hb. cbn [outcome_bind].
  unfold action_at. rewrite (proj2 (Z.ltb_ge _ 0)), Nat2Z.id, Hj by lia. cbn [outcome_bind].
  pose proof (slice_tag body pre b t post E L) as Hs. cbv zeta in Hs. fold a in Hs.
  rewrite Hs, Hm. cbn [outcome_bind inner]. by rewrite bool_decide_eq_true_2.
Qed.

(** ** The loop *)

Lemma parse_tags_tag fuel body pre b t post blocks frs acts :
  body = pre ++ b ++ print_tag t ++ post → size body < 2 ^ 63 → text_ok b = true →
  parse_tags (S fuel) body (state blocks (size pre) frs acts) =
  outcome_bind (parse_tag body (size pre + size b) (state blocks (size pre) frs acts))
    (parse_tags fuel body).
Proof.
  intros E L N. cbn [parse_tags tag_open current].
  assert (find_from body (lit "{{") (size pre) = size pre + size b) as ->.
  { apply (find_from_here body pre b (lit "{{") (sign t ++ inner t ++ lit "}}" ++ closer t ++ post));
      [|done]. rewrite E, print_tag_parts, <- !app_assoc. done. }
  destruct (Z.eqb_spec (size pre + size b) npos) as [H|_]; [|done].
  rewrite E, !size_app in L. pose proof (size_nonneg (print_tag t)). pose proof (size_nonneg post).
  unfold npos in H. lia.
Qed.

Lemma parse_tags_end fuel body pre b blocks frs acts :
  body = pre ++ b → last_ok b = true →
  parse_tags (S fuel) body (state blocks (size pre) frs acts) =
  Val (state blocks (size pre) (frs ++ [(size pre, size body)]) (acts ++ [MkAction 0 0 0 Ignore])).
Proof.
  intros E N. cbn [parse_tags tag_open current].
  apply bool_decide_eq_true_1 in N. by rewrite (find_from_none body pre b (lit "{{")), Z.eqb_refl.
Qed.

(** ** What the parser makes of trees *)

(** No line end is divided between the fragment's text and what follows. *)
Definition at_text (body : bytes) (f : fragment) (b : bytes) : Prop :=
  ∃ pre post, body = pre ++ b ++ post ∧ f = (size pre, size pre + size b) ∧
    (last b = Some "013"%char → head post ≠ Some "010"%char).
Definition action_for (body : bytes) (a : Action) (t : tag) : Prop :=
  a_t a = kind t ∧ slice body (a_start a) (a_end a) = Val (inner t).

(** The actions from [i] on: one that opens a block has the index of the one that closes it. *)
Fixpoint matched (acts : list Action) (i : nat) (t : tree) : Prop :=
  match t with
  | Leaf _ _ => True
  | Node _ _ _ body _ =>
      (∃ a, acts !! i = Some a ∧ a_pos a = Z.of_nat (S i + length (flats body))) ∧
      (fix go (i : nat) (l : list tree) : Prop :=
         match l with
         | [] => True
         | t :: l => matched acts i t ∧ go (i + length (flat t))%nat l
         end) (S i) body
  end.
Fixpoint matched_list (acts : list Action) (i : nat) (l : list tree) : Prop :=
  match l with
  | [] => True
  | t :: l => matched acts i t ∧ matched_list acts (i + length (flat t)) l
  end.
Lemma matched_node acts i b inv n body last :
  matched acts i (Node b inv n body last) ↔
  (∃ a, acts !! i = Some a ∧ a_pos a = Z.of_nat (S i + length (flats body))) ∧
  matched_list acts (S i) body.
Proof.
  cbn [matched].
  assert (∀ i l, (fix go (i : nat) (l : list tree) : Prop :=
         match l with
         | [] => True
         | t :: l => matched acts i t ∧ go (i + length (flat t))%nat l
         end) i l ↔ matched_list acts i l) as ->; [|done].
  clear. intros i l. revert i. by induction l as [|t l IH]; intros i; cbn; rewrite ?IH.
Qed.

Lemma flats_cons t l : flats (t :: l) = flat t ++ flats l.
Proof. done. Qed.
Lemma flat_node b inv n body last :
  flat (Node b inv n body last) = (b, Opens inv n) :: flats body ++ [(last, Closes n)].
Proof. done. Qed.

(** It depends on the actions of the trees only. *)
Lemma matched_ext acts acts' i t :
  (∀ k, (i ≤ k < i + length (flat t))%nat → acts !! k = acts' !! k) →
  matched acts i t → matched acts' i t.
Proof.
  revert i. induction t as [|b inv n body last IH] using tree_ind'; intros i He; [done|].
  rewrite !matched_node. rewrite flat_node in He. cbn [length] in He. rewrite length_app in He.
  intros [(a & Ha & Hp) Hl]. split.
  { exists a. split; [|done]. rewrite <- He by lia. done. }
  assert (∀ k, (S i ≤ k < S i + length (flats body))%nat → acts !! k = acts' !! k) as He'.
  { intros k Hk. apply He. cbn. lia. }
  clear He Ha Hp. revert Hl He'. generalize (S i). induction IH as [|t l Ht _ IHl]; intros j; [done|].
  cbn [matched_list]. rewrite flats_cons, length_app. intros [H1 H2] He. split.
  - apply Ht; [|done]. intros k Hk. apply He. lia.
  - apply IHl; [done|]. intros k Hk. apply He. lia.
Qed.
Lemma matched_list_ext acts acts' i l :
  (∀ k, (i ≤ k < i + length (flats l))%nat → acts !! k = acts' !! k) →
  matched_list acts i l → matched_list acts' i l.
Proof.
  revert i. induction l as [|t l IH]; intros i; [done|]. cbn [matched_list].
  rewrite flats_cons, length_app. intros He [H1 H2]. split.
  - apply (matched_ext acts); [|done]. intros k Hk. apply He. lia.
  - apply IH; [|done]. intros k Hk. apply He. lia.
Qed.

(** What the parser has made of some tags between two states. *)
Definition parsed (body : bytes) (pre : bytes) (tags : list (bytes * tag)) (frs : list fragment)
    (acts new : list Action) (frs' : list fragment) (blocks : list Z) : Prop :=
  (∀ fuel, parse_tags (length tags + fuel) body (state blocks (size pre) frs acts) =
     parse_tags fuel body
       (state blocks (size (pre ++ print_flats tags)) (frs ++ frs') (acts ++ new))) ∧
  Forall2 (at_text body) frs' tags.*1 ∧ Forall2 (action_for body) new tags.*2.

Lemma print_flats_app l l' : print_flats (l ++ l') = print_flats l ++ print_flats l'.
Proof. unfold print_flats. by rewrite map_app, concat_app. Qed.
Lemma print_flats_one b t : print_flats [(b, t)] = b ++ print_tag t.
Proof. unfold print_flats. cbn. by rewrite app_nil_r. Qed.

Lemma parsed_app body pre l1 l2 frs acts new1 new2 frs1 frs2 blocks :
  parsed body pre l1 frs acts new1 frs1 blocks →
  parsed body (pre ++ print_flats l1) l2 (frs ++ frs1) (acts ++ new1) new2 frs2 blocks →
  parsed body pre (l1 ++ l2) frs acts (new1 ++ new2) (frs1 ++ frs2) blocks.
Proof.
  intros (P1 & T1 & A1) (P2 & T2 & A2). split_and!.
  - intros fuel. rewrite length_app, <- Nat.add_assoc, P1, P2, print_flats_app, !app_assoc. done.
  - rewrite fmap_app. by apply Forall2_app.
  - rewrite fmap_app. by apply Forall2_app.
Qed.

Lemma action_for_here body pre b t post :
  body = pre ++ b ++ print_tag t ++ post → size body < 2 ^ 63 →
  action_for body (action_of (size pre + size b) t) t.
Proof. intros E L. split; [done|]. by apply (slice_tag body pre b t post). Qed.
Lemma at_text_here body pre b post :
  body = pre ++ b ++ post → head post ≠ Some "010"%char →
  at_text body (size pre, size pre + size b) b.
Proof. intros -> H. by exists pre, post. Qed.
Lemma head_print_tag t post : head (print_tag t ++ post) ≠ Some "010"%char.
Proof. by rewrite print_tag_parts. Qed.
Lemma action_for_pos body a t p : action_for body (set_pos p a) t ↔ action_for body a t.
Proof. done. Qed.

Definition parses (body : bytes) (t : tree) : Prop :=
  ∀ pre post blocks frs acts,
    body = pre ++ print_flats (flat t) ++ post → tree_ok t = true →
    ∃ new frs', parsed body pre (flat t) frs acts new frs' blocks ∧
      matched (acts ++ new) (length acts) t.

Lemma parsed_length body pre l frs acts new frs' blocks :
  parsed body pre l frs acts new frs' blocks → length new = length l ∧ length frs' = length l.
Proof.
  intros (_ & T & A). apply Forall2_length in T, A. rewrite !length_fmap in *. done.
Qed.

Lemma parses_list body l :
  Forall (parses body) l →
  ∀ pre post blocks frs acts,
    body = pre ++ print_flats (flats l) ++ post → forallb tree_ok l = true →
    ∃ new frs', parsed body pre (flats l) frs acts new frs' blocks ∧
      matched_list (acts ++ new) (length acts) l.
Proof.
  induction 1 as [|t l Ht _ IH]; intros pre post blocks frs acts E H.
  { exists [], []. split; [|done]. split_and!; [|done..]. intros fuel. cbn.
    by rewrite !app_nil_r. }
  cbn [forallb] in H. apply andb_true_iff in H as [H1 H2].
  rewrite flats_cons, print_flats_app, <- app_assoc in E.
  destruct (Ht pre _ blocks frs acts E H1) as (new1 & frs1 & P1 & M1).
  rewrite app_assoc in E.
  destruct (IH _ post blocks (frs ++ frs1) (acts ++ new1) E H2) as (new2 & frs2 & P2 & M2).
  destruct (parsed_length _ _ _ _ _ _ _ _ P1) as [L1 _].
  exists (new1 ++ new2), (frs1 ++ frs2). rewrite app_assoc. split; [by rewrite flats_cons; eapply parsed_app|].
  cbn [matched_list]. rewrite length_app, L1 in M2. split; [|done].
  apply (matched_ext (acts ++ new1)); [|done]. intros k Hk. symmetry. apply lookup_app_l.
  rewrite length_app. lia.
Qed.

Lemma parses_leaf body b t : size body < 2 ^ 63 → parses body (Leaf b t).
Proof.
  intros L pre post blocks frs acts E H. cbn [tree_ok] in H. apply andb_true_iff in H as [Hb Ht].
  cbn [flat] in E. rewrite print_flats_one, <- app_assoc in E.
  exists [action_of (size pre + size b) (Plain t)], [(size pre, size pre + size b)].
  split; [|done]. split_and!.
  - intros fuel. cbn [flat length Nat.add]. rewrite (parse_tags_tag fuel body pre b (Plain t) post) by done.
    rewrite (parse_tag_here body pre b (Plain t) post) by done. cbn [outcome_bind].
    unfold after_tag. by rewrite print_flats_one, !size_app, Z.add_assoc.
  - constructor; [|done]. eapply at_text_here; [exact E|apply head_print_tag].
  - constructor; [|done]. by eapply action_for_here.
Qed.

Lemma insert_opening acts (a a' : Action) new :
  <[length acts := a']> ((acts ++ [a]) ++ new) = (acts ++ [a']) ++ new.
Proof.
  rewrite <- !app_assoc, insert_app_r_alt, Nat.sub_diag by lia. done.
Qed.

Lemma parses_node body b inv n l last :
  size body < 2 ^ 63 → Forall (parses body) l → parses body (Node b inv n l last).
Proof.
  intros L HF pre post blocks frs acts E H. cbn [tree_ok] in H.
  rewrite !andb_true_iff in H. destruct H as [[[Hb Hn] Hl] Hlast].
  rewrite flat_node in E. rewrite flat_node.
  set (o := Opens inv n) in *. set (c := Closes n) in *.
  change ((b, o) :: flats l ++ [(last, c)]) with ([(b, o)] ++ flats l ++ [(last, c)]) in *.
  rewrite !print_flats_app, !print_flats_one, <- !app_assoc in E.
  set (i := length acts). set (pre1 := pre ++ print_flats [(b, o)]).
  set (ao := action_of (size pre + size b) o).
  assert (body = pre1 ++ print_flats (flats l) ++ last ++ print_tag c ++ post) as E1.
  { unfold pre1. rewrite print_flats_one, <- !app_assoc. exact E. }
  destruct (parses_list body l HF pre1 _ (Z.of_nat i :: blocks) (frs ++ [(size pre, size pre + size b)])
              (acts ++ [ao]) E1 Hl) as (new & frs1 & P & M).
  destruct (parsed_length _ _ _ _ _ _ _ _ P) as [Ln _].
  set (pre2 := pre1 ++ print_flats (flats l)) in *.
  assert (body = pre2 ++ last ++ print_tag c ++ post) as E2.
  { unfold pre2. by rewrite <- app_assoc. }
  set (q := size pre2 + size last). set (ac := set_pos (Z.of_nat i) (action_of q c)).
  set (ao' := set_pos (Z.of_nat (length ((acts ++ [ao]) ++ new))) ao).
  exists ([ao'] ++ new ++ [ac]), ([(size pre, size pre + size b)] ++ frs1 ++ [(size pre2, q)]).
  destruct P as (P & T & A). split; [split_and!|].
  - intros fuel. rewrite !length_app. cbn [length Nat.add].
    rewrite (parse_tags_tag _ body pre b o _ blocks frs acts E L Hb).
    rewrite (parse_tag_here body pre b o _ blocks frs acts E L Hn). cbn [outcome_bind o].
    fold o ao. unfold after_tag. fold i.
    assert (size pre + size b + size (print_tag o) = size pre1) as ->.
    { unfold pre1. by rewrite print_flats_one, !size_app, Z.add_assoc. }
    rewrite <- Nat.add_assoc, P. cbn [Nat.add]. fold pre2.
    rewrite (parse_tags_tag _ body pre2 last c post _ _ _ E2 L Hlast).
    rewrite (parse_tag_here body pre2 last c post _ _ _ E2 L Hn). cbn [outcome_bind c]. fold c.
    rewrite (close_block_here body pre2 last n post _ i blocks ao E2 L Hn); [|done| |].
    + cbn [outcome_bind tag_open tag_close current p_fragments p_actions after_tag].
      unfold i at 1. rewrite insert_opening. fold i ao' q ac.
      assert (q + size (print_tag c) = size (pre ++ print_flats ([(b, o)] ++ flats l ++ [(last, c)]))) as ->.
      { unfold q, pre2, pre1. rewrite !print_flats_app, !print_flats_one, !size_app. lia. }
      rewrite <- !app_assoc. done.
    + cbn [p_actions after_tag]. unfold i. by rewrite <- app_assoc, lookup_app_r, Nat.sub_diag by lia.
    + apply (slice_tag body pre b o _ E L).
  - rewrite !fmap_app. repeat apply Forall2_app; [|done|]; (constructor; [|done]);
      (eapply at_text_here; [eassumption|apply head_print_tag]).
  - rewrite !fmap_app. repeat apply Forall2_app; [|done|]; (constructor; [|done]).
    + by apply (action_for_here body pre b o _ E L).
    + by apply (action_for_here body pre2 last c post E2 L).
  - apply matched_node. split.
    + exists ao'. fold i. split; [unfold i; by rewrite lookup_app_r, Nat.sub_diag by lia|].
      cbn [a_pos ao' set_pos]. rewrite !length_app, Ln. cbn. unfold i. lia.
    + rewrite length_app in M. cbn [length] in M. rewrite Nat.add_1_r in M. fold i in M |- *.
      apply (matched_list_ext ((acts ++ [ao]) ++ new)); [|done]. intros k Hk.
      rewrite !app_assoc. rewrite (lookup_app_l ((acts ++ [ao']) ++ new))
        by (rewrite !length_app, Ln; cbn; lia).
      rewrite !(lookup_app_r (acts ++ _)) by (rewrite length_app; cbn; lia).
      by rewrite !length_app.
Qed.

Lemma parses_tree body t : size body < 2 ^ 63 → parses body t.
Proof.
  intros L. induction t as [b t|b inv n l last IH] using tree_ind';
    [by apply parses_leaf|by apply parses_node].
Qed.

(** A turn for each tag, and one, is no more than the turns of the text. *)
Lemma tags_fit l : (length l ≤ length (print_flats l))%nat.
Proof.
  induction l as [|[b x] l IH]; [done|]. change ((b, x) :: l) with ([(b, x)] ++ l).
  rewrite print_flats_app, print_flats_one, print_tag_parts, !length_app. cbn. lia.
Qed.
Lemma turns_split l rest : ∃ k, turns (print_flats l ++ rest) = (length l + S k)%nat.
Proof.
  pose proof (tags_fit l) as F. exists (turns (print_flats l ++ rest) - S (length l))%nat.
  unfold turns. rewrite length_app. lia.
Qed.

(** The fragments and actions of a printed template, before its lines are looked at. *)
Lemma parse_tags_print t :
  template_ok t = true →
  let body := print t in
  ∃ acts frs,
    parse_tags (turns body) body (state [] 0 [] []) =
      Val (state [] (size (print_flats (flats (trees t)))) frs (acts ++ [MkAction 0 0 0 Ignore])) ∧
    Forall2 (at_text body) frs ((flats (trees t)).*1 ++ [last_text t]) ∧
    Forall2 (action_for body) acts (flats (trees t)).*2 ∧
    matched_list acts 0 (trees t).
Proof.
  unfold template_ok. rewrite !andb_true_iff. intros [[[H1 _] H2] H3]. set (body := print t).
  apply bool_decide_eq_true_1 in H3.
  assert (Forall (parses body) (trees t)) as HF.
  { apply Forall_true. intros x. by apply parses_tree. }
  destruct (parses_list body (trees t) HF [] (last_text t) [] [] [] eq_refl H1)
    as (acts & frs & P & M).
  destruct P as (P & T & A). exists acts, (frs ++ [(size (print_flats (flats (trees t))), size body)]).
  split_and!; [|..|done|done].
  - destruct (turns_split (flats (trees t)) (last_text t)) as [k Ek]. fold (print t) in Ek.
    fold body in Ek. rewrite Ek.
    change (state [] 0 [] []) with (state [] (size []) [] []). rewrite P. cbn [app].
    by rewrite (parse_tags_end _ body (print_flats (flats (trees t))) (last_text t)).
  - apply Forall2_app; [done|]. constructor; [|done].
    exists (print_flats (flats (trees t))), []. rewrite app_nil_r. split; [done|].
    unfold body, print. by rewrite size_app.
Qed.
