(* ===== verification/TemplateLines.v ===== *)
(** * Templates: lines that hold nothing but a tag

    The pass that removes standalone lines changes the bounds of the fragments as the specification
    changes the texts, and [compile] makes of a printed template what its trimmed trees describe. *)

From Stdlib Require Import ZArith Lia Ascii String.
From stdpp Require Import base tactics option strings list.
From S2P Require Import Prelude.
From S2P Require Import CppStd.
From S2P Require Import QueryString.
From S2P Require Import Json.
From S2P Require Import JsonWrite.
From S2P Require Import Multipart.
From S2P Require Import MultipartFacts.
From S2P Require Import Mustache.
From S2P Require Import Templates.
From S2P Require Import TemplateParse.

Local Open Scope Z_scope.

(** ** Stripping *)

Lemma strip_front_split s :
  ∃ k, s = repeat space k ++ strip_front s ∧ head (strip_front s) ≠ Some space.
Proof.
  induction s as [|c s (k & E & H)]; [by exists 0%nat|]. cbn [strip_front].
  destruct (Ascii.eqb_spec c space) as [->|N].
  - exists (S k). cbn. by rewrite <- E.
  - exists 0%nat. split; [done|]. by intros [= ->].
Qed.
Lemma strip_end_split s :
  ∃ k, s = strip_end s ++ repeat space k ∧ last (strip_end s) ≠ Some space.
Proof.
  destruct (strip_front_split (rev s)) as (k & E & H). exists k. unfold strip_end.
  split.
  - rewrite <- (rev_involutive s) at 1. rewrite E, rev_app_distr at 1. f_equal.
    clear. induction k as [|k IH]; [done|]. cbn. rewrite IH. clear. induction k; cbn; congruence.
  - intros L. apply H. revert L. generalize (strip_front (rev s)). intros [|c r]; [done|].
    cbn. by rewrite last_snoc.
Qed.

Lemma size_repeat c k : size (repeat c k) = Z.of_nat k.
Proof. unfold size. by rewrite repeat_length. Qed.

(** ** The loops over spaces *)

Lemma space_before_here body pre k r : ∀ s fuel,
  body = pre ++ s ++ repeat space k ++ r → last s ≠ Some space → (k < fuel)%nat →
  space_before fuel body (size pre) (size pre + size s + Z.of_nat k - 1) =
  Val (match s with [] => true | _ => false end, size pre + size s - 1).
Proof.
  induction k as [|k IH] in r |- *; intros s fuel E H F; (destruct fuel as [|fuel]; [lia|]);
    cbn [space_before].
  - destruct s as [|c s _] using rev_ind.
    + destruct (Z.ltb_spec (size pre + size [] + Z.of_nat 0 - 1) (size pre)) as [_|L];
        [|change (size []) with 0 in L; lia]. do 2 f_equal. change (size []) with 0. lia.
    + destruct (Z.ltb_spec (size pre + size (s ++ [c]) + Z.of_nat 0 - 1) (size pre)) as [L|_].
      { rewrite size_app, size_cons in L. pose proof (size_nonneg s). change (size []) with 0 in L. lia. }
      replace (size pre + size (s ++ [c]) + Z.of_nat 0 - 1) with (size pre + size (s ++ [c]) - 1) by lia.
      rewrite (at_last body pre (s ++ [c]) r c) by (rewrite ?last_snoc; done). cbn [outcome_bind].
      rewrite last_snoc in H. rewrite (proj2 (Ascii.eqb_neq c space)) by congruence.
      by destruct s.
  - destruct (Z.ltb_spec (size pre + size s + Z.of_nat (S k) - 1) (size pre)) as [L|_].
    { pose proof (size_nonneg s). lia. }
    assert (body = pre ++ s ++ repeat space k ++ space :: r) as E'.
    { rewrite E. do 2 f_equal. change (repeat space (S k)) with (space :: repeat space k).
      by rewrite repeat_cons, <- app_assoc. }
    replace (size pre + size s + Z.of_nat (S k) - 1) with (size (pre ++ s ++ repeat space k)).
    2:{ rewrite !size_app, size_repeat. lia. }
    rewrite (char_here body (pre ++ s ++ repeat space k) space r) by by rewrite E', <- !app_assoc.
    cbn [outcome_bind Ascii.eqb Bool.eqb space].
    replace (size (pre ++ s ++ repeat space k) - 1) with (size pre + size s + Z.of_nat k - 1).
    2:{ rewrite !size_app, size_repeat. lia. }
    apply (IH (space :: r)); [done|done|lia].
Qed.

Lemma space_after_here body k s r : ∀ pre fuel,
  body = pre ++ repeat space k ++ s ++ r → head s ≠ Some space → (k < fuel)%nat →
  space_after fuel body (size pre + Z.of_nat k + size s) (size pre) =
  Val (match s with [] => true | _ => false end, size pre + Z.of_nat k).
Proof.
  induction k as [|k IH]; intros pre fuel E H F; (destruct fuel as [|fuel]; [lia|]);
    cbn [space_after].
  - destruct s as [|c s].
    + change (size []) with 0. rewrite (proj2 (Z.ltb_ge (size pre) (size pre + Z.of_nat 0 + 0))) by lia.
      rewrite andb_false_r. cbn. by rewrite Z.add_0_r.
    + pose proof (size_nonneg s). pose proof (size_nonneg r).
      rewrite !(proj2 (Z.ltb_lt _ _)).
      2:{ rewrite size_cons. lia. }
      2:{ rewrite E, !size_app, size_cons. cbn [repeat]. change (size []) with 0. lia. }
      cbn [andb negb]. rewrite (char_here body pre c (s ++ r)) by done. cbn [outcome_bind].
      rewrite (proj2 (Ascii.eqb_neq c space)) by (cbn in H; congruence). by rewrite Z.add_0_r.
  - pose proof (size_nonneg s). pose proof (size_nonneg r).
    rewrite !(proj2 (Z.ltb_lt _ _)).
    2:{ lia. }
    2:{ rewrite E, !size_app, size_repeat. lia. }
    cbn [andb negb]. rewrite (char_here body pre space (repeat space k ++ s ++ r)) by done.
    cbn [outcome_bind Ascii.eqb Bool.eqb space].
    replace (size pre + 1) with (size (pre ++ [space])) by by rewrite size_app.
    replace (size pre + Z.of_nat (S k) + size s) with (size (pre ++ [space]) + Z.of_nat k + size s)
      by (rewrite size_app, size_cons; change (size []) with 0; lia).
    rewrite (IH (pre ++ [space])); [|by rewrite E, <- app_assoc|done|lia].
    do 2 f_equal. rewrite size_app, size_cons. change (size []) with 0. lia.
Qed.

(** ** The end of a line *)

(** A line's end at the beginning of a text. *)
Definition eol (s : bytes) : option bytes :=
  match s with
  | c :: r =>
      if Ascii.eqb c "010" then Some r
      else if Ascii.eqb c "013" then
        match r with d :: r => if Ascii.eqb d "010" then Some r else None | [] => None end
      else None
  | [] => None
  end.

Lemma line_break_here body pre s r c :
  body = pre ++ (c :: s) ++ r → (last (c :: s) = Some "013"%char → head r ≠ Some "010"%char) →
  line_break body (size pre) =
  Val ((λ rest, size pre + size (c :: s) - size rest) <$> eol (c :: s)).
Proof.
  intros E H. unfold line_break. rewrite (char_here body pre c (s ++ r)) by done. cbn [outcome_bind eol].
  destruct (Ascii.eqb c "010").
  { cbn. do 2 f_equal. rewrite size_cons. lia. }
  destruct (Ascii.eqb_spec c "013") as [->|N]; [|done]. cbn [andb].
  assert (size body = size pre + (1 + size s + size r)) as L.
  { rewrite E, !size_app, size_cons. lia. }
  pose proof (size_nonneg s). pose proof (size_nonneg r).
  assert (∀ d m, s ++ r = d :: m → at_ body (size pre + 1) = Val d) as Hd.
  { intros d m Em. replace (size pre + 1) with (size (pre ++ ["013"%char])) by by rewrite size_app.
    apply (char_here body (pre ++ ["013"%char]) d m). rewrite E, <- app_assoc. cbn. by rewrite Em. }
  destruct (Z.ltb_spec (size pre + 1) (size body)) as [Hlt|Hge].
  - destruct s as [|d s].
    + destruct r as [|d r]; [change (size []) with 0 in L; lia|]. rewrite (Hd d r) by done.
      cbn [outcome_bind]. rewrite (proj2 (Ascii.eqb_neq d "010")); [done|].
      intros ->. by apply H.
    + rewrite (Hd d (s ++ r)) by done. cbn [outcome_bind].
      destruct (Ascii.eqb d "010"); [|done]. cbn. do 2 f_equal. rewrite !size_cons. lia.
  - destruct s as [|d s]; [done|]. rewrite size_cons in L. pose proof (size_nonneg s). lia.
Qed.

Lemma ends_line_eol is_last after :
  ends_line is_last after =
  match strip_front after with
  | [] => if is_last then Some after else None
  | _ => eol (strip_front after)
  end.
Proof. unfold ends_line. by destruct (strip_front after). Qed.

Lemma eol_suffix s r : eol s = Some r → ∃ m, s = m ++ r.
Proof.
  destruct s as [|c s]; [done|]. cbn. destruct (Ascii.eqb c "010").
  { intros [= <-]. by exists [c]. }
  destruct (Ascii.eqb c "013"); [|done]. destruct s as [|d s]; [done|].
  destruct (Ascii.eqb d "010"); [|done]. intros [= <-]. by exists [c; d].
Qed.

(** A text after the end of a line, and one before its last spaces. *)
Lemma at_text_suffix body f m r :
  at_text body f (m ++ r) → at_text body (f.2 - size r, f.2) r.
Proof.
  intros (pre & post & E & -> & H). exists (pre ++ m), post. rewrite E, <- !app_assoc.
  split; [done|]. split; [cbn; rewrite !size_app; f_equal; lia|].
  intros L. apply H. by rewrite last_app, L.
Qed.
Lemma at_text_prefix body f s k :
  at_text body f (s ++ repeat space k) → last s ≠ Some "013"%char →
  at_text body (f.1, f.1 + size s) s.
Proof.
  intros (pre & post & E & -> & H) L. exists pre, (repeat space k ++ post).
  rewrite E, <- !app_assoc. by split_and!.
Qed.

Lemma keeps_line_kind t : is_tag (kind t) = keeps_line t.
Proof. by destruct t as [[[] n|s]|[] n|n]. Qed.
Lemma kind_not_partial t : kind t ≠ Partial.
Proof. by destruct t as [[[] n|s]|[] n|n]. Qed.

Lemma last_rev (s : bytes) : last s = head (rev s).
Proof. destruct s as [|c s _] using rev_ind; [done|]. by rewrite last_snoc, rev_app_distr. Qed.

(** One tag: the bounds change as the texts do. *)
Lemma standalone_here body n i a t f1 f2 b x :
  a_t a = kind t → at_text body f1 b → at_text body f2 x →
  ∃ f1' f2', standalone body n i a f1 f2 = Val (a, f1', f2') ∧
    let '(b', x') := stand (Nat.eqb i 0) (Nat.eqb i (n - 2)) t b x in
    at_text body f1' b' ∧ at_text body f2' x'.
Proof.
  intros Ha H1 H2. unfold standalone, stand. rewrite Ha, keeps_line_kind.
  destruct (keeps_line t); [by exists f1, f2|].
  destruct (strip_end_split b) as (k1 & Eb & Nb).
  destruct (strip_front_split x) as (k2 & Ex & Nx).
  pose proof H1 as (pre1 & post1 & E1 & Ef1 & _). pose proof H2 as (pre2 & post2 & E2 & Ef2 & C2).
  assert (length b < turns body)%nat as F1 by (rewrite E1; unfold turns; rewrite !length_app; lia).
  assert (length x < turns body)%nat as F2 by (rewrite E2; unfold turns; rewrite !length_app; lia).
  rewrite Ef1. cbn [fst snd].
  assert (space_before (turns body) body (size pre1) (size pre1 + size b - 1) =
          Val (match strip_end b with [] => true | _ => false end, size pre1 + size (strip_end b) - 1))
    as ->.
  { rewrite Eb at 1. rewrite size_app, size_repeat, Z.add_assoc.
    apply (space_before_here body pre1 k1 post1); [by rewrite E1, Eb at 1; rewrite <- app_assoc|done|].
    rewrite Eb, length_app, repeat_length in F1. lia. }
  cbn [outcome_bind].
  assert ((if match strip_end b with [] => true | _ => false end then Val (Nat.eqb i 0)
           else outcome_bind (at_ body (size pre1 + size (strip_end b) - 1)) (λ c, Val (Ascii.eqb c "010")))
          = Val (begins_line (Nat.eqb i 0) b)) as ->.
  { unfold begins_line. destruct (strip_end b) as [|d s] eqn:Es; [done|].
    destruct (last (d :: s)) as [c|] eqn:El; [|by apply last_None in El].
    rewrite (at_last body pre1 (d :: s) (repeat space k1 ++ post1) c)
      by (done || by rewrite E1, Eb at 1; rewrite <- app_assoc).
    rewrite last_rev in El. cbn [outcome_bind].
    destruct (rev (d :: s)) as [|c' r]; [done|]. by injection El as ->. }
  cbn [outcome_bind]. destruct (begins_line (Nat.eqb i 0) b) eqn:Hb; cbn [negb].
  2:{ exists (size pre1, size pre1 + size b), f2. rewrite <- Ef1. done. }
  assert (last (strip_end b) ≠ Some "013"%char) as Nl.
  { unfold begins_line in Hb. rewrite last_rev. destruct (rev (strip_end b)) as [|c r]; [done|].
    apply Ascii.eqb_eq in Hb as ->. done. }
  assert (at_text body (size pre1, size pre1 + size (strip_end b) - 1 + 1) (strip_end b)) as H1'.
  { rewrite Z.sub_add. rewrite Eb in H1. pose proof (at_text_prefix _ _ _ _ H1 Nl) as H1'.
    by rewrite Ef1 in H1'. }
  rewrite Ef2. cbn [fst snd].
  assert (space_after (turns body) body (size pre2 + size x) (size pre2) =
          Val (match strip_front x with [] => true | _ => false end, size pre2 + Z.of_nat k2)) as ->.
  { rewrite Ex at 1. rewrite size_app, size_repeat, Z.add_assoc.
    apply (space_after_here body k2 (strip_front x) post2);
      [by rewrite E2, Ex at 1; rewrite <- app_assoc|done|].
    rewrite Ex, length_app, repeat_length in F2. lia. }
  cbn [outcome_bind]. rewrite ends_line_eol.
  rewrite (bool_decide_eq_false_2 (kind t = Partial)) by apply kind_not_partial.
  destruct (strip_front x) as [|c s] eqn:Es; cbn [andb negb].
  - destruct (Nat.eqb i (n - 2)); cbn [negb outcome_bind].
    + eexists _, _. split; [done|]. split; [exact H1'|]. by rewrite <- Ef2.
    + exists (size pre1, size pre1 + size b), f2. by rewrite <- Ef1, <- Ef2.
  - replace (size pre2 + Z.of_nat k2) with (size (pre2 ++ repeat space k2))
      by by rewrite size_app, size_repeat.
    rewrite (line_break_here body _ s post2 c); cycle 1.
    { by rewrite E2, Ex at 1; rewrite <- !app_assoc. }
    { intros L. apply C2. rewrite Ex, last_app, L. done. }
    cbn [outcome_bind]. destruct (eol (c :: s)) as [rest|] eqn:Er; cbn [fmap option_fmap option_map].
    + eexists _, _. split; [done|]. split; [exact H1'|].
      destruct (eol_suffix _ _ Er) as [m Em]. revert Ex. rewrite Em, app_assoc. intros Ex.
      rewrite Ex in H2. pose proof (at_text_suffix _ _ _ _ H2) as H2'. rewrite Ef2 in H2'.
      cbn [snd] in H2'.
      assert (size (pre2 ++ repeat space k2) + size (m ++ rest) - size rest = size pre2 + size x - size rest) as ->.
      { rewrite Ex, !size_app. lia. }
      exact H2'.
    + exists (size pre1, size pre1 + size b), f2. by rewrite <- Ef1, <- Ef2.
Qed.

(** ** The pass *)

Lemma trimmed_length first l last : length (trimmed first l last).2 = length l.
Proof.
  revert first. induction l as [|[b t] l IH]; intros first; [done|]. cbn [trimmed].
  specialize (IH false). destruct (trimmed false l last) as [x xs]. destruct (stand _ _ _ _ _).
  cbn in *. by rewrite IH.
Qed.

Definition trimmed_list (first : bool) (l : list (bytes * tag)) (last : bytes) : list bytes :=
  let '(x, xs) := trimmed first l last in x :: xs.

Lemma trimmed_list_cons first b t l last :
  ∃ x xs, trimmed_list false l last = x :: xs ∧
    let '(b', x') := stand first (match l with [] => true | _ => false end) t b x in
    trimmed_list first ((b, t) :: l) last = b' :: x' :: xs.
Proof.
  unfold trimmed_list. cbn [trimmed]. destruct (trimmed false l last) as [x xs].
  exists x, xs. split; [done|]. by destruct (stand _ _ _ _ _).
Qed.

Lemma trimmed_nil first last : trimmed_list first [] last = [last].
Proof. done. Qed.

(** The pass from the tags in [l2], already done, to those in [l1]. *)
Lemma standalones_here body last : ∀ l1 l2 acts frs1 frs2,
  Forall2 (λ a t, a_t a = kind t) acts (l1 ++ l2).*2 →
  Forall2 (at_text body) frs1 l1.*1 →
  Forall2 (at_text body) frs2 (trimmed_list (match l1 with [] => true | _ => false end) l2 last) →
  ∃ frs, standalones body (length l1) (frs1 ++ frs2, acts ++ [MkAction 0 0 0 Ignore]) =
           Val (frs, acts ++ [MkAction 0 0 0 Ignore]) ∧
    Forall2 (at_text body) frs (trimmed_list true (l1 ++ l2) last).
Proof.
  intros l1. induction l1 as [|[b t] l1 IH] using rev_ind; intros l2 acts frs1 frs2 HA H1 H2.
  { apply Forall2_nil_inv_r in H1 as ->. by exists frs2. }
  rewrite length_app. cbn [length]. rewrite Nat.add_1_r. cbn [standalones].
  rewrite fmap_app in H1. apply Forall2_app_inv_r in H1 as (f1 & g1 & H1 & Hb & ->).
  apply Forall2_cons_inv_r in Hb as (fb & ? & Hb & Hnil & ->). apply Forall2_nil_inv_r in Hnil as ->.
  rewrite <- app_assoc in HA. cbn [app] in HA.
  assert (match l1 ++ [(b, t)] with [] => true | _ => false end = false) as Hf by by destruct l1.
  rewrite Hf in H2. clear Hf.
  destruct (trimmed_list_cons (match l1 with [] => true | _ => false end) b t l2 last)
    as (x & xs & Ex & Et).
  rewrite Ex in H2. apply Forall2_cons_inv_r in H2 as (f2 & g2 & Hx & H2 & ->).
  assert (length acts = length l1 + S (length l2))%nat as La.
  { apply Forall2_length in HA. by rewrite HA, length_fmap, length_app. }
  assert (length f1 = length l1) as Lf by (apply Forall2_length in H1; by rewrite H1, length_fmap).
  destruct (lookup_lt_is_Some_2 acts (length l1)) as [a Ha]; [lia|].
  assert (a_t a = kind t) as Hk.
  { eapply (Forall2_lookup_lr _ _ _ _ _ _ HA Ha). by rewrite fmap_app, lookup_app_r, length_fmap,
      Nat.sub_diag by (rewrite length_fmap; lia). }
  unfold standalone_at. rewrite (lookup_app_l_Some _ _ _ _ Ha).
  rewrite <- app_assoc. cbn [app].
  rewrite !(lookup_app_r f1) by lia. rewrite Lf, Nat.sub_diag, Nat.sub_succ_l, Nat.sub_diag by lia.
  cbn [lookup list_lookup].
  destruct (standalone_here body (length (acts ++ [MkAction 0 0 0 Ignore])) (length l1) a t fb f2 b x
              Hk Hb Hx) as (fb' & f2' & Es & Hs).
  rewrite Es. cbn [outcome_bind].
  assert (Nat.eqb (length l1) 0 = match l1 with [] => true | _ => false end) as E0 by by destruct l1.
  assert (Nat.eqb (length l1) (length (acts ++ [MkAction 0 0 0 Ignore]) - 2) =
          match l2 with [] => true | _ => false end) as E2.
  { rewrite length_app, La. cbn [length]. destruct l2; cbn [length];
      [apply Nat.eqb_eq|apply Nat.eqb_neq]; lia. }
  rewrite E0, E2 in Hs. destruct (stand _ _ t b x) as [b' x'] eqn:Est. destruct Hs as [Hb' Hx'].
  rewrite (list_insert_id (acts ++ _)) by by apply lookup_app_l_Some.
  replace (<[S (length l1) := f2']> (<[length l1 := fb']> (f1 ++ fb :: f2 :: g2)))
    with (f1 ++ fb' :: f2' :: g2).
  2:{ rewrite insert_app_r_alt by lia. rewrite Lf, Nat.sub_diag. cbn [insert list_insert].
      rewrite insert_app_r_alt by lia. rewrite Lf, Nat.sub_succ_l, Nat.sub_diag by lia. done. }
  destruct (IH ((b, t) :: l2) acts f1 (fb' :: f2' :: g2)) as (frs & Ev & HT); [done|done| |].
  { rewrite Et. by repeat constructor. }
  exists frs. rewrite Ev, <- app_assoc. done.
Qed.

(** ** What [compile] makes of a printed template *)

(** What the parser leaves, whatever blocks are open. *)
Lemma compile_parsed body tags last acts frs blocks cur :
  parse_tags (turns body) body (state [] 0 [] []) =
    Val (state blocks cur frs (acts ++ [MkAction 0 0 0 Ignore])) →
  Forall2 (at_text body) frs (tags.*1 ++ [last]) → Forall2 (action_for body) acts tags.*2 →
  ∃ frs', compile body = Val (MkTemplate frs' (acts ++ [MkAction 0 0 0 Ignore]) body) ∧
    Forall2 (at_text body) frs' (trimmed_list true tags last).
Proof.
  intros Ep HT HA. apply Forall2_app_inv_r in HT as (f1 & f2 & H1 & H2 & ->).
  destruct (standalones_here body last tags [] acts f1 f2) as (frs & Es & Hf); [|done..|].
  { rewrite app_nil_r. eapply Forall2_impl; [exact HA|]. by intros a x [? _]. }
  exists frs. rewrite app_nil_r in Hf. split; [|done].
  unfold compile, parse. rewrite Ep. cbn [outcome_bind p_actions p_fragments].
  assert (length acts = length tags) as La.
  { apply Forall2_length in HA. by rewrite HA, length_fmap. }
  rewrite length_app. cbn [length]. rewrite Nat.add_sub, La, Es. done.
Qed.

Lemma compile_print t :
  template_ok t = true →
  ∃ acts frs,
    compile (print t) = Val (MkTemplate frs (acts ++ [MkAction 0 0 0 Ignore]) (print t)) ∧
    Forall2 (at_text (print t)) frs (trimmed_list true (flats (trees t)) (last_text t)) ∧
    Forall2 (action_for (print t)) acts (flats (trees t)).*2 ∧
    matched_list acts 0 (trees t).
Proof.
  intros Ht. destruct (parse_tags_print t Ht) as (acts & frs & Ep & HT & HA & HM). cbv zeta in *.
  destruct (compile_parsed _ _ _ _ _ _ _ Ep HT HA) as (frs' & Ec & Hf). by exists acts, frs'.
Qed.
