(* ===== verification/TemplateRender.v ===== *)
(** * Templates: rendering

    [render_internal], on the fragments and actions of trees, writes what the trees denote, with a
    turn for each tag whatever the contexts; a printed template renders to its denotation. *)

From Stdlib Require Import ZArith Lia Ascii String.
From stdpp Require Import base tactics option strings list.
From S2P Require Import Prelude.
From S2P Require Import CppStd.
From S2P Require Import QueryString.
From S2P Require Import Json.
From S2P Require Import JsonWrite.
From S2P Require Import Multipart.
From S2P Require Import MultipartFacts.
From S2P Require Import Mustache.
From S2P Require Import Templates.
From S2P Require Import TemplateParse.
From S2P Require Import TemplateLines.

Local Open Scope Z_scope.

(** ** Trees with other texts *)

Lemma refill_node xs b inv n body last :
  refill xs (Node b inv n body last) =
  let '(body, ys) := refills (tail xs) body in
  (Node (default [] (head xs)) inv n body (default [] (head ys)), tail ys).
Proof. done. Qed.

Lemma refills_cons xs t l :
  refills xs (t :: l) =
  let '(t, ys) := refill xs t in let '(l, zs) := refills ys l in (t :: l, zs).
Proof.
  assert (∀ l acc ys,
    fold_left (λ acc t, let '(t, ys) := refill acc.2 t in (acc.1 ++ [t], ys)) l (acc, ys) =
    let '(l', zs) := refills ys l in (acc ++ l', zs)) as Hacc.
  { clear. intros l. unfold refills. induction l as [|t l IH]; intros acc ys; cbn [fold_left].
    { by rewrite app_nil_r. }
    cbn [fst snd]. destruct (refill ys t) as [t' ys']. rewrite IH. symmetry. rewrite IH.
    destruct (fold_left _ l ([], ys')) as [l' zs]. cbn. by rewrite <- app_assoc. }
  unfold refills at 1. cbn [fold_left fst snd]. destruct (refill xs t) as [t' ys].
  by rewrite Hacc.
Qed.

Lemma dots_node seen b i n body last :
  dots_ok seen (Node b i n body last) = dots_list (negb i) false body.
Proof.
  cbn [dots_ok]. generalize false. induction body as [|t l IH]; intros s; [done|].
  cbn [dots_list]. by rewrite IH.
Qed.

(** The texts are those given, the tags and their matching stay. *)
Definition refilled (xs ys : list bytes) (tags tags' : list (bytes * tag)) : Prop :=
  tags'.*1 = take (length tags) xs ∧ tags'.*2 = tags.*2 ∧ ys = drop (length tags) xs.

Lemma refilled_length xs ys tags tags' : refilled xs ys tags tags' → length tags' = length tags.
Proof. intros (_ & E & _). apply (f_equal length) in E. by rewrite !length_fmap in E. Qed.

Lemma refilled_app xs ys zs l1 l1' l2 l2' :
  refilled xs ys l1 l1' → refilled ys zs l2 l2' → refilled xs zs (l1 ++ l2) (l1' ++ l2').
Proof.
  intros (A1 & A2 & ->) (B1 & B2 & ->). unfold refilled. rewrite !fmap_app, length_app, A1, A2, B1, B2.
  split_and!; [by rewrite take_take_drop|done|by rewrite drop_drop].
Qed.

Definition alike (t t' : tree) : Prop :=
  (∀ acts i, matched acts i t → matched acts i t') ∧
  (∀ seen, dots_ok seen t' = dots_ok seen t) ∧ inverts t' = inverts t.
Definition alike_lists (l l' : list tree) : Prop :=
  (∀ acts i, matched_list acts i l → matched_list acts i l') ∧
  (∀ inside seen, dots_list inside seen l' = dots_list inside seen l) ∧
  existsb inverts l' = existsb inverts l.

Definition refill_keeps (t : tree) : Prop :=
  ∀ xs, (length (flat t) ≤ length xs)%nat →
    let '(t', ys) := refill xs t in refilled xs ys (flat t) (flat t') ∧ alike t t'.

Lemma refills_keep l : Forall refill_keeps l →
  ∀ xs, (length (flats l) ≤ length xs)%nat →
    let '(l', ys) := refills xs l in
    refilled xs ys (flats l) (flats l') ∧ alike_lists l l'.
Proof.
  induction 1 as [|t l Ht _ IH]; intros xs L; [done|].
  rewrite flats_cons, length_app in L. rewrite refills_cons.
  specialize (Ht xs ltac:(lia)). destruct (refill xs t) as [t' ys]. destruct Ht as [Rt (Mt & Dt & It)].
  specialize (IH ys). destruct (refills ys l) as [l' zs].
  destruct IH as [Rl (Ml & Dl & Il)]. { destruct Rt as (_ & _ & ->). rewrite length_drop. lia. }
  rewrite !flats_cons. split; [by eapply refilled_app|].
  split_and!.
  - intros acts i [M1 M2]. cbn [matched_list]. rewrite (refilled_length _ _ _ _ Rt). auto.
  - intros inside seen. cbn [dots_list]. by rewrite Dt, It, Dl.
  - cbn [existsb]. by rewrite It, Il.
Qed.

Lemma refill_keep t : refill_keeps t.
Proof.
  induction t as [b t|b inv n l last IH] using tree_ind'; intros xs L.
  - destruct xs as [|x xs]; [cbn in L; lia|]. cbn. split; [|done]. by split_and!.
  - rewrite flat_node in L. cbn [length] in L. rewrite length_app in L. cbn [length] in L.
    rewrite refill_node. destruct xs as [|x xs]; [cbn in L; lia|]. cbn [tail head default] in *.
    cbn [length] in L. pose proof (refills_keep l IH xs ltac:(lia)) as H.
    destruct (refills xs l) as [l' ys]. destruct H as [R (M & D & I)].
    pose proof (refilled_length _ _ _ _ R) as El. pose proof R as (_ & _ & Eys).
    destruct ys as [|y ys].
    { apply (f_equal length) in Eys. rewrite length_drop in Eys. cbn in Eys. lia. }
    split.
    + rewrite !flat_node.
      assert (refilled (x :: xs) xs [(b, Opens inv n)] [(x, Opens inv n)]) as R1 by by split_and!.
      assert (refilled (y :: ys) ys [(last, Closes n)] [(y, Closes n)]) as R2 by by split_and!.
      exact (refilled_app _ _ _ _ _ _ _ R1 (refilled_app _ _ _ _ _ _ _ R R2)).
    + split_and!.
      * intros acts i. rewrite !matched_node, El. intros [Ha Hm]. split; [done|auto].
      * intros seen. by rewrite !dots_node, D.
      * cbn [inverts]. by rewrite I.
Qed.

(** A trimmed template: its texts are those of the specification, the rest stays. *)
Lemma trim_flats t :
  let t' := trim t in
  (flats (trees t')).*1 ++ [last_text t'] = trimmed_list true (flats (trees t)) (last_text t) ∧
  (flats (trees t')).*2 = (flats (trees t)).*2 ∧
  alike_lists (trees t) (trees t').
Proof.
  cbv zeta. unfold trim, trimmed_list.
  pose proof (trimmed_length true (flats (trees t)) (last_text t)) as L.
  destruct (trimmed true (flats (trees t)) (last_text t)) as [x xs]. cbn [snd] in L.
  pose proof (refills_keep (trees t)) as H. specialize (H ltac:(apply Forall_true, refill_keep) (x :: xs)).
  cbn [length] in H. specialize (H ltac:(lia)).
  destruct (refills (x :: xs) (trees t)) as [l ys]. destruct H as [(E1 & E2 & E3) M].
  cbn [trees last_text]. split_and!; [|done|done].
  rewrite E1. rewrite <- (take_drop (length (flats (trees t))) (x :: xs)) at 2. rewrite <- E3.
  f_equal. apply (f_equal length) in E3. rewrite length_drop in E3. cbn in E3.
  destruct ys as [|y [|z ys]]; [cbn in E3; lia|done|cbn in E3; lia].
Qed.

(** ** Meeting a specification that may have no result *)

Definition meets {A} (o spec : outcome A) : Prop := spec ≠ OutOfFuel → o = spec.

Lemma meets_refl {A} (o : outcome A) : meets o o.
Proof. done. Qed.
Lemma meets_bind {A B} (o spec : outcome A) (f g : A → outcome B) :
  meets o spec → (∀ x, spec = Val x → meets (f x) (g x)) →
  meets (outcome_bind o f) (outcome_bind spec g).
Proof.
  intros Ho Hf Hn. destruct spec as [x|e|u| | |]; cbn in *; try done; rewrite Ho by done; try done.
  cbn. by apply Hf.
Qed.
Lemma outcome_bind_assoc {A B C} (o : outcome A) (f : A → outcome B) (g : B → outcome C) :
  outcome_bind (outcome_bind o f) g = outcome_bind o (λ x, outcome_bind (f x) g).
Proof. by destruct o. Qed.
Lemma outcome_bind_ext {A B} (o : outcome A) (f g : A → outcome B) :
  (∀ x, f x = g x) → outcome_bind o f = outcome_bind o g.
Proof. intros H. destruct o; cbn; auto. Qed.

(** What is written after [out], and then. *)
Definition then_ (spec : outcome bytes) (out : bytes) (K : bytes → outcome render_state) :
    outcome render_state := outcome_bind spec (λ x, K (out ++ x)).

Lemma then_val x out K : then_ (Val x) out K = K (out ++ x).
Proof. done. Qed.
Lemma then_app a b out K :
  then_ (outcome_app a b) out K = then_ a out (λ out, then_ b out K).
Proof.
  unfold then_, outcome_app. rewrite outcome_bind_assoc. apply outcome_bind_ext. intros x.
  rewrite outcome_bind_assoc. apply outcome_bind_ext. intros y. cbn. by rewrite app_assoc.
Qed.

(** ** Lookups *)

Lemma find_simple_lookup n stack :
  find_simple n stack =
  (bool_decide (is_Some (head (omap (member n) stack))), default empty_str (head (omap (member n) stack))).
Proof.
  induction stack as [|v stack IH]; [done|]. cbn. destruct (member n v) as [x|]; [|done].
  done.
Qed.

Lemma find_dotted_lookup names stack :
  find_dotted names stack false =
  (bool_decide (is_Some (head (omap (path_at names) stack))),
   default empty_str (head (omap (path_at names) stack))).
Proof.
  induction stack as [|v stack IH]; [done|]. cbn. by destruct (path_at names v) as [x|].
Qed.

Lemma split_dots_plain n : "."%char ∉ n → split_dots n = [n].
Proof.
  induction n as [|c n IH]; intros N; [done|]. apply not_elem_of_cons in N as [Nc N].
  cbn [split_dots]. rewrite IH by done. by rewrite (proj2 (Ascii.eqb_neq c ".")).
Qed.
Lemma path_at_one n v : path_at [n] v = member n v.
Proof. cbn [path_at]. by destruct (member n v). Qed.

Lemma find_context_lookup n stack :
  stack ≠ [] →
  find_context n stack false =
  Val (bool_decide (is_Some (lookup_name n stack)), default empty_str (lookup_name n stack)).
Proof.
  intros Hs. unfold find_context, lookup_name. destruct (bool_decide_reflect (n = lit ".")) as [_|_].
  { by destruct stack as [|v stack]. }
  destruct (bool_decide_reflect ("."%char ∈ n)) as [_|Hd]; [by rewrite find_dotted_lookup|].
  rewrite find_simple_lookup, split_dots_plain by done.
  assert (omap (path_at [n]) stack = omap (member n) stack) as ->; [|done].
  apply list_omap_ext. induction stack as [|v l IH]; constructor; [apply path_at_one|].
  destruct l; [constructor|by apply IH].
Qed.

(** The search of a variable: in an object, when its name is dotted, in this object only. *)
Lemma find_context_variable n v stack only_first :
  (dotted n = true → wt_ v = tObject → stack = [] ∨ only_first = true) →
  (wt_ v ≠ tObject → only_first = false) →
  ∃ found, find_context n (v :: stack) only_first =
    Val (found, default empty_str (lookup_variable n (v :: stack))).
Proof.
  intros H1 H2. unfold lookup_variable.
  destruct (dotted n) eqn:Hd; cycle 1.
  { exists (bool_decide (is_Some (lookup_name n (v :: stack)))). cbn [andb].
    rewrite <- (find_context_lookup n (v :: stack)) by done. unfold find_context.
    apply bool_decide_eq_false_1 in Hd. destruct (bool_decide_reflect (n = lit ".")); [done|].
    destruct (bool_decide_reflect ("."%char ∈ n)); [|done]. by destruct Hd. }
  destruct (bool_decide_reflect (wt_ v = tObject)) as [Ho|Ho]; cbn [andb]; cycle 1.
  { rewrite (H2 Ho), find_context_lookup by done. by eexists. }
  apply bool_decide_eq_true_1 in Hd as [Nd Id]. unfold find_context.
  rewrite (bool_decide_eq_false_2 _ Nd), (bool_decide_eq_true_2 _ Id). cbn [find_dotted].
  destruct (path_at (split_dots n) v) as [x|]; [by eexists|].
  destruct (H1 eq_refl Ho) as [-> | ->]; [|by eexists].
  destruct only_first; by eexists.
Qed.

(** *** Whether a tag is in the section of an object *)

Lemma inside_object_other before k v stack :
  wt_ v ≠ tObject → inside_object before k (v :: stack) = Val false.
Proof.
  intros N. revert k. induction before as [|a before IH]; intros k; cbn [inside_object]; [done|].
  destruct (a_t a); try apply IH. cbn [back]. destruct (k =? 0); cbn [outcome_bind andb]; [|apply IH].
  rewrite bool_decide_eq_false_2 by done. apply IH.
Qed.

Abbreviation of_tag := (λ (a : Action) (x : bytes * tag), a_t a = kind x.2).
(** Sections before a tag that are closed are counted up and down. *)
Lemma inside_object_balanced t : inverts t = false → ∀ acts before k stack,
  Forall2 of_tag acts (flat t) → 0 ≤ k →
  inside_object (rev acts ++ before) k stack = inside_object before k stack.
Proof.
  induction t as [b t|b inv n body last IH] using tree_ind'; intros Hi acts before k stack F Hk.
  - cbn [flat] in F. destruct acts as [|a [|? ?]]; inversion F as [|? ? ? ? Ha F']; subst; [|inversion F'].
    cbn [rev app inside_object]. rewrite Ha. by destruct t as [[] ?|?].
  - cbn [inverts] in Hi. apply orb_false_iff in Hi as [-> Hi].
    rewrite flat_node in F. apply Forall2_cons_inv_r in F as (o & acts' & Ho & F & ->).
    apply Forall2_app_inv_r in F as (l1 & l2 & F1 & F2 & ->).
    apply Forall2_cons_inv_r in F2 as (c & l3 & Hc & F3 & ->). inversion F3; subst.
    cbn [rev]. rewrite rev_app_distr. cbn [rev app]. rewrite <- app_assoc. cbn [app inside_object].
    rewrite Hc. cbn [kind snd].
    assert (∀ acts before, Forall2 of_tag acts (flats body) →
      inside_object (rev acts ++ before) (k + 1) stack = inside_object before (k + 1) stack) as Hb.
    { clear -IH Hi Hk. induction IH as [|t l Ht _ IHl]; intros acts before F.
      - by inversion F.
      - cbn [existsb] in Hi. apply orb_false_iff in Hi as [H1 H2]. rewrite flats_cons in F.
        apply Forall2_app_inv_r in F as (l1 & l2 & F1 & F2 & ->).
        rewrite rev_app_distr, <- app_assoc, (IHl H2) by done. apply Ht; [done..|lia]. }
    rewrite Hb by done. cbn [inside_object]. rewrite Ho. cbn [kind snd].
    destruct (Z.eqb_spec (k + 1) 0) as [E|_]; [lia|]. cbn [outcome_bind andb].
    by rewrite Z.add_simpl_r.
Qed.

Lemma inside_object_total before openedBlock stack :
  stack ≠ [] → ∃ b, inside_object before openedBlock stack = Val b.
Proof.
  intros Hs. destruct stack as [|v stack]; [done|].
  revert openedBlock. induction before as [|a before IH]; intros k; cbn [inside_object]; [by eexists|].
  destruct (a_t a); try apply IH. cbn [back]. destruct (k =? 0); cbn [outcome_bind andb]; [|apply IH].
  destruct (bool_decide _); [by eexists|apply IH].
Qed.

(** ** The loop *)

Section Loop.
Context (loader : bytes → outcome bytes) (tm : template_t).

Abbreviation loop fuel i e stack out := (render_loop loader fuel tm i e 0 (stack, out)).

(** The fragment [i] holds a text, and the action [i] is that of a tag. *)
Definition text_at (i : nat) (x : bytes) : Prop :=
  ∃ f, fragments_ tm !! i = Some f ∧ ∀ out, render_fragment tm f 0 out = Val (out ++ x).
Definition tag_at (i : nat) (t : tag) : Prop :=
  ∃ a, actions_ tm !! i = Some a ∧ a_t a = kind t ∧ tag_name tm a = Val (inner t).
Definition laid (i : nat) (tags : list (bytes * tag)) : Prop :=
  ∀ k b t, tags !! k = Some (b, t) → text_at (i + k) b ∧ tag_at (i + k) t.

Lemma laid_cons i b t l : laid i ((b, t) :: l) ↔ text_at i b ∧ tag_at i t ∧ laid (S i) l.
Proof.
  split.
  - intros H. destruct (H 0%nat b t eq_refl) as [H1 H2]. rewrite Nat.add_0_r in *.
    split_and!; [done|done|]. intros k b' t' Hk. specialize (H (S k) b' t' Hk).
    by rewrite Nat.add_succ_r in H.
  - intros (H1 & H2 & H3) [|k] b' t' Hk; cbn in Hk.
    + injection Hk as <- <-. by rewrite Nat.add_0_r.
    + rewrite Nat.add_succ_r. by apply (H3 k).
Qed.
Lemma laid_app i l l' : laid i (l ++ l') ↔ laid i l ∧ laid (i + length l) l'.
Proof.
  revert i. induction l as [|[b t] l IH]; intros i; cbn [app length].
  - rewrite Nat.add_0_r. split; [|by intros []]. intros H. split; [|done]. by intros k b t.
  - rewrite !laid_cons, IH, <- Nat.add_succ_comm. tauto.
Qed.

(** One turn of the loop. *)
Lemma loop_turn fuel i e stack out x a :
  text_at i x → actions_ tm !! i = Some a → Z.of_nat i < e →
  loop (S fuel) (Z.of_nat i) e stack out =
  outcome_bind
    (render_action
       (λ t b e indent (st : render_state),
          render_loop loader fuel t b e indent (st.1, indented indent st.2))
       loader fuel tm a (Z.of_nat i) 0 (stack, out ++ x))
    (λ '(cur, st), render_loop loader fuel tm (cur + 1) e 0 st).
Proof.
  intros (f & Hf & Hx) Ha Hi. cbn [render_loop fst snd]. rewrite (proj2 (Z.ltb_lt _ _) Hi).
  unfold fragment_at, action_at. rewrite !(proj2 (Z.ltb_ge (Z.of_nat i) 0)), !Nat2Z.id, Hf, Ha by lia.
  cbn [outcome_bind]. by rewrite Hx.
Qed.

Lemma loop_end fuel i stack out x :
  text_at i x → loop (S fuel) (Z.of_nat i) (Z.of_nat i) stack out = Val (stack, out ++ x).
Proof.
  intros (f & Hf & Hx). cbn [render_loop fst snd]. rewrite Z.ltb_irrefl.
  unfold fragment_at. rewrite (proj2 (Z.ltb_ge (Z.of_nat i) 0)), Nat2Z.id, Hf by lia.
  cbn [outcome_bind]. by rewrite Hx.
Qed.

(** What holds of the loop from [i] on, in terms of what follows at [j]. *)
Definition runs (i len m : nat) (e : Z) (stack : list context) (spec : outcome bytes) : Prop :=
  ∀ K,
    (∀ fuel out, (m ≤ fuel)%nat → meets (loop fuel (Z.of_nat (i + len)) e stack out) (K out)) →
    ∀ fuel out, (len + m ≤ fuel)%nat →
      meets (loop fuel (Z.of_nat i) e stack out) (then_ spec out K).

(** A dotted name at [i] is looked up in the nearest context only, if that is an object. *)
Definition inside_here (i : nat) (stack : list context) : Prop :=
  ∀ v s, stack = v :: s → wt_ v = tObject →
    s = [] ∨ inside_object (rev (take i (actions_ tm))) 0 stack = Val true.

Lemma taken i l : laid i l →
  ∃ acts, take (i + length l) (actions_ tm) = take i (actions_ tm) ++ acts ∧ Forall2 of_tag acts l.
Proof.
  revert i. induction l as [|[b t] l IH]; intros i Hl.
  { exists []. by rewrite Nat.add_0_r, app_nil_r. }
  apply laid_cons in Hl as (_ & (a & Ha & Ht & _) & Hl). destruct (IH _ Hl) as (acts & E & F).
  exists (a :: acts). split; [|by constructor]. cbn [length]. rewrite Nat.add_succ_r.
  rewrite Nat.add_succ_l in E. by rewrite E, (take_S_r _ _ a), <- app_assoc.
Qed.
(** It stays so after a tree without inverted sections, and is so in a section. *)
Lemma inside_after i t stack :
  laid i (flat t) → inverts t = false → inside_here i stack →
  inside_here (i + length (flat t)) stack.
Proof.
  intros Hl Hi H v s E Ho. destruct (H v s E Ho) as [?|Hin]; [by left|right].
  destruct (taken i _ Hl) as (acts & -> & F).
  by rewrite rev_app_distr, (inside_object_balanced t).
Qed.
Lemma inside_section i a stack :
  actions_ tm !! i = Some a → a_t a = OpenBlock → inside_here (S i) stack.
Proof.
  intros Ha Ht v s -> Ho. right. rewrite (take_S_r _ _ a Ha), rev_app_distr. cbn.
  rewrite Ht. cbn. by rewrite bool_decide_eq_true_2.
Qed.

Lemma render_tag_here fuel rec a s n stack out i :
  stack ≠ [] → a_t a = kind (Plain (Var s n)) → tag_name tm a = Val n →
  (dotted n = true → inside_here i stack) →
  let spec := outcome_bind (variable_text s (default empty_str (lookup_variable n stack)))
                (λ x, Val (stack, out ++ x)) in
  let o := render_tag rec fuel tm a (Z.of_nat i) (stack, out) in
  spec ≠ OutOfFuel → o = spec ∨ fuel = 0%nat ∧ o = OutOfFuel.
Proof.
  intros Hs Ht Hm Hd spec o. subst spec o. unfold render_tag, isTagInsideObjectBlock. rewrite Nat2Z.id.
  destruct (inside_object_total (rev (take i (actions_ tm))) 0 stack Hs) as [b Eb].
  rewrite Eb. cbn [outcome_bind]. rewrite Hm. cbn [outcome_bind].
  destruct stack as [|v0 stack0]; [done|].
  destruct (find_context_variable n v0 stack0 b) as [found ->].
  { intros Hn Ho. destruct (Hd Hn v0 stack0 eq_refl Ho) as [?|E]; [by left|right]. congruence. }
  { intros Ho. rewrite inside_object_other in Eb by done. congruence. }
  cbn [outcome_bind]. generalize (default empty_str (lookup_variable n (v0 :: stack0))). intros v.
  revert Hs. generalize (v0 :: stack0). clear v0 stack0 Hd Eb. intros stack Hs.
  unfold variable_text.
  assert (∀ x out, put (a_t a) x out = out ++ shown s x) as Hp.
  { intros x out'. unfold put. rewrite Ht. by destruct s. }
  destruct (wt_ v); try (by left).
  - left. cbn. by rewrite Hp.
  - rewrite outcome_bind_assoc. destruct (execute v []) as [r| | | | |]; cbn [outcome_bind]; try (by left).
    destruct (back (rev stack)) as [bottom| | | | |] eqn:Eb.
    2-6: destruct stack as [|x stack]; [done|]; cbn in Eb; by destruct (rev stack).
    cbn [outcome_bind]. destruct fuel as [|fuel]; [by right|]. cbn [plug].
    destruct (find r (lit "{{") =? npos); [|by intros []]. left. cbn. by rewrite Hp.
Qed.

Lemma runs_leaf i b t m e stack seen :
  laid i (flat (Leaf b t)) → stack ≠ [] → dots_ok seen (Leaf b t) = true →
  seen = true ∨ inside_here i stack → (0 < m)%nat → Z.of_nat i < e →
  runs i 1 m e stack (denote (Leaf b t) stack).
Proof.
  intros Hl Hs Hd Hin Hm He K HK fuel out Hf. destruct fuel as [|fuel]; [lia|].
  cbn [flat] in Hl. apply laid_cons in Hl as (Hx & (a & Ha & Ht & Hn) & _).
  rewrite (loop_turn fuel i e stack out b a Hx Ha He). unfold render_action. rewrite Ht.
  rewrite Nat.add_1_r in HK. rewrite Nat2Z.inj_succ in HK. fold (Z.of_nat i + 1) in HK.
  destruct t as [s n|c].
  - assert (dotted n = true → inside_here i stack) as Hn'.
    { cbn [dots_ok] in Hd. intros E. rewrite E in Hd. destruct Hin as [-> |]; done. }
    assert (kind (Plain (Var s n)) = Tag ∨ kind (Plain (Var s n)) = UnescapeTag) as Hk by (destruct s; auto).
    cbn [denote]. rewrite then_app, then_val. unfold then_.
    match goal with |- context [render_tag ?rec _ _ _ _ _] =>
      pose proof (render_tag_here fuel rec a s n stack (out ++ b) i Hs Ht Hn Hn') as Hr
    end.
    destruct Hk as [-> | ->]; rewrite outcome_bind_assoc; cbn [outcome_bind].
    all: match goal with |- meets _ (outcome_bind ?spec ?g) =>
      replace (outcome_bind spec g) with
        (outcome_bind (outcome_bind spec (λ x, Val (stack, (out ++ b) ++ x))) (λ st, K st.2))
        by by rewrite outcome_bind_assoc end.
    all: apply meets_bind; [intros Hne; by destruct (Hr Hne) as [?|[? _]]; [|lia]|]; intros st Est.
    all: assert (st.1 = stack) as <- by
      (destruct (variable_text _ _); [injection Est as <-|..]; done).
    all: destruct st as [stack' out']; cbn [outcome_bind fst snd]; apply HK; lia.
  - cbn [kind outcome_bind denote]. rewrite then_val. apply HK. lia.
Qed.

(** *** Trees *)

Definition tree_runs (t : tree) : Prop := ∀ seen i m e stack,
  laid i (flat t) → matched (actions_ tm) i t → dots_ok seen t = true →
  seen = true ∨ inside_here i stack → stack ≠ [] → (0 < m)%nat →
  Z.of_nat (i + length (flat t)) ≤ e → runs i (length (flat t)) m e stack (denote t stack).

(** Where no section is around, or none of an object, the context is the only one or no object. *)
Definition alone (stack : list context) : Prop :=
  ∀ v s, stack = v :: s → wt_ v = tObject → s = [].
Lemma alone_inside i stack : alone stack → inside_here i stack.
Proof. intros H v s E Ho. left. by apply (H v). Qed.

Lemma runs_list l : Forall tree_runs l → ∀ inside seen i m e stack,
  laid i (flats l) → matched_list (actions_ tm) i l → dots_list inside seen l = true →
  seen = true ∨ inside_here i stack → (inside = false → alone stack) → stack ≠ [] →
  (0 < m)%nat → Z.of_nat (i + length (flats l)) ≤ e →
  runs i (length (flats l)) m e stack (denotes l stack).
Proof.
  induction 1 as [|t l Ht _ IH];
    intros inside seen i m e stack Hl Hm Hd Hin Ha Hs Hpos He K HK fuel out Hf.
  - change (denotes [] stack) with (@Val bytes []). rewrite then_val, app_nil_r.
    rewrite <- (Nat.add_0_r i). by apply HK.
  - rewrite flats_cons, length_app in *. apply laid_app in Hl as [Hl1 Hl2].
    destruct Hm as [Hm1 Hm2]. cbn [dots_list] in Hd. apply andb_true_iff in Hd as [Hd1 Hd2].
    change (denotes (t :: l) stack) with (outcome_app (denote t stack) (denotes l stack)).
    rewrite then_app.
    apply (Ht seen i (length (flats l) + m)%nat e stack); [done..|lia|lia| |lia].
    intros fuel' out' Hf'. apply (IH inside _ _ m e stack Hl2 Hm2 Hd2); [|done..|lia| |lia].
    + destruct inside; cbn [andb]; [|right; by apply alone_inside, Ha].
      destruct Hin as [-> |Hin]; [by left|]. destruct (inverts t) eqn:Ei.
      * left. apply orb_true_r.
      * right. by apply inside_after.
    + intros fuel'' out'' Hf''. rewrite <- Nat.add_assoc. by apply HK.
Qed.

(** The text at the end of a block, and the end of a section that was entered. *)
Lemma close_turn fuel i e v stack out last n :
  laid i [(last, Closes n)] → Z.of_nat i < e →
  loop (S fuel) (Z.of_nat i) e (v :: stack) out =
  loop fuel (Z.of_nat (S i)) e stack (out ++ last).
Proof.
  intros Hl He. apply laid_cons in Hl as (Hx & (a & Ha & Ht & _) & _).
  rewrite (loop_turn fuel i e (v :: stack) out last a Hx Ha He).
  unfold render_action. rewrite Ht. cbn. by rewrite Nat2Z.inj_succ.
Qed.

Section Block.
Context (i : nat) (body : list tree) (last name : bytes).
Let j : nat := (S i + length (flats body))%nat.
Context (entered : context → Prop).
Hypothesis H_body : ∀ m e v stack, entered v → (0 < m)%nat → Z.of_nat j ≤ e →
  runs (S i) (length (flats body)) m e (v :: stack) (denotes body (v :: stack)).
Hypothesis H_last : laid j [(last, Closes name)].

(** A section that is entered: its context is pushed, and popped at its end. *)
Lemma block_entered m e v stack K :
  entered v → (0 < m)%nat → Z.of_nat j < e →
  (∀ fuel out, (m ≤ fuel)%nat → meets (loop fuel (Z.of_nat (S j)) e stack out) (K out)) →
  ∀ fuel out, (S (length (flats body)) + m ≤ fuel)%nat →
    meets (loop fuel (Z.of_nat (S i)) e (v :: stack) out)
      (then_ (outcome_app (denotes body (v :: stack)) (Val last)) out K).
Proof.
  intros Hv Hm He HK fuel out Hf. rewrite then_app.
  apply (H_body (S m) e v stack); [done|lia|lia| |lia].
  intros fuel' out' Hf'. destruct fuel' as [|fuel']; [lia|].
  fold j. rewrite (close_turn fuel' j e v stack out' last name H_last He), then_val. apply HK. lia.
Qed.

(** A section of a list: rendered once for each item. *)
Lemma block_item fuel v stack out :
  entered v → (S (length (flats body)) ≤ fuel)%nat →
  meets (loop fuel (Z.of_nat (S i)) (Z.of_nat j) (v :: stack) out)
    (then_ (outcome_app (denotes body (v :: stack)) (Val last)) out (λ out, Val (v :: stack, out))).
Proof.
  intros Hv Hf. rewrite then_app.
  apply (H_body 1 (Z.of_nat j) v stack); [done|lia|lia| |lia].
  intros fuel' out' Hf'. destruct fuel' as [|fuel']; [lia|].
  apply laid_cons in H_last as (Hx & _). fold j.
  by rewrite (loop_end fuel' j (v :: stack) out' last Hx), then_val.
Qed.

Definition items_denote (items stack : list context) : outcome bytes :=
  foldr (λ v acc, outcome_app (outcome_app (denotes body (v :: stack)) (Val last)) acc) (Val []) items.

Lemma block_items fuel items stack out :
  (∀ v, entered v) → (S (length (flats body)) ≤ fuel)%nat →
  meets
    (render_items
       (λ t b e indent (st : render_state),
          render_loop loader fuel t b e indent (st.1, indented indent st.2))
       tm (Z.of_nat i + 1) (Z.of_nat j) 0 items (stack, out))
    (then_ (items_denote items stack) out (λ out, Val (stack, out))).
Proof.
  intros Hv Hf. revert out. induction items as [|v items IH]; intros out; cbn [render_items].
  { change (items_denote [] stack) with (@Val bytes []). by rewrite then_val, app_nil_r. }
  change (items_denote (v :: items) stack) with
    (outcome_app (outcome_app (denotes body (v :: stack)) (Val last)) (items_denote items stack)).
  rewrite then_app. cbn [fst snd].
  replace (Z.of_nat i + 1) with (Z.of_nat (S i)) in * by lia.
  unfold indented at 1. cbn [Z.to_nat repeat]. rewrite app_nil_r.
  unfold then_ at 1.
  match goal with |- meets _ (outcome_bind ?spec ?g) =>
    replace (outcome_bind spec g) with
      (outcome_bind (then_ spec out (λ out, Val (v :: stack, out)))
         (λ st, then_ (items_denote items stack) st.2 (λ out, Val (stack, out))))
      by by unfold then_ at 1; rewrite outcome_bind_assoc end.
  apply meets_bind; [by apply block_item|]. intros st Est.
  assert (st.1 = v :: stack) as E1.
  { unfold then_ in Est. destruct (outcome_app _ _); [|done..]. by injection Est as <-. }
  destruct st as [stack' out']. cbn in E1. subst stack'. cbn [back outcome_bind tail fst snd].
  apply IH.
Qed.
End Block.

Lemma items_denote_one body last v stack out K :
  then_ (items_denote body last [v] stack) out K =
  then_ (outcome_app (denotes body (v :: stack)) (Val last)) out K.
Proof.
  change (items_denote body last [v] stack) with
    (outcome_app (outcome_app (denotes body (v :: stack)) (Val last)) (Val [])).
  rewrite then_app. unfold then_ at 1 3. apply outcome_bind_ext. intros x.
  by rewrite then_val, app_nil_r.
Qed.
Lemma items_denote_none body last stack out K :
  then_ (items_denote body last [] stack) out K = K out.
Proof. change (items_denote body last [] stack) with (@Val bytes []). by rewrite then_val, app_nil_r. Qed.

Lemma denote_node b inv n body last stack :
  denote (Node b inv n body last) stack =
  outcome_app (Val b)
    (outcome_bind (if inv : bool then Val (inverted_contexts (lookup_name n stack))
                   else section_contexts (lookup_name n stack))
       (λ contexts, items_denote body last contexts stack)).
Proof. done. Qed.

Lemma runs_node b inv n body last : Forall tree_runs body → tree_runs (Node b inv n body last).
Proof.
  intros HF seen i m e stack Hl Hm Hd _ Hs Hpos He K HK fuel out Hf.
  rewrite dots_node in Hd. rewrite flat_node in *. cbn [length] in *. rewrite length_app in *. cbn [length] in *.
  apply laid_cons in Hl as (Hx & (a & Ha & Ht & Hn) & Hl). apply laid_app in Hl as [Hlb Hlc].
  apply matched_node in Hm as [(a' & Ha' & Hp) Hm]. rewrite Ha in Ha'. injection Ha' as <-.
  set (entered := λ v : context, inv = true → v = wvalue_null).
  assert (∀ m e v stack, entered v → (0 < m)%nat → Z.of_nat (S i + length (flats body)) ≤ e →
    runs (S i) (length (flats body)) m e (v :: stack) (denotes body (v :: stack))) as HB.
  { intros m' e' v stack' Hv ? ?.
    assert (inv = true → alone (v :: stack')) as Hal.
    { intros Ei w s' [= <- <-] Ho. by rewrite (Hv Ei) in Ho. }
    apply (runs_list body HF (negb inv) false); [exact Hlb|exact Hm|exact Hd| |intros E; apply Hal; by destruct inv|done..].
    right. destruct inv; [by apply alone_inside, Hal|]. by apply (inside_section i a). }
  set (j := (S i + length (flats body))%nat) in *.
  replace (i + S (length (flats body) + 1))%nat with (S j) in * by lia.
  destruct fuel as [|fuel]; [lia|].
  rewrite (loop_turn fuel i e stack out b a Hx Ha ltac:(lia)).
  rewrite denote_node, then_app, then_val. unfold render_action. rewrite Ht.
  (* a block that is skipped, and one that is entered *)
  assert (∀ fuel, (m ≤ fuel)%nat →
    meets (loop fuel (a_pos a + 1) e stack (out ++ b))
      (then_ (items_denote body last [] stack) (out ++ b) K)) as Hskip.
  { intros fuel' Hf'. rewrite items_denote_none, Hp.
    replace (Z.of_nat j + 1) with (Z.of_nat (S j)) by lia. by apply HK. }
  assert (∀ v, entered v → meets (loop fuel (Z.of_nat i + 1) e (v :: stack) (out ++ b))
      (then_ (items_denote body last [v] stack) (out ++ b) K)) as Henter.
  { intros v Hv. rewrite items_denote_one. replace (Z.of_nat i + 1) with (Z.of_nat (S i)) by lia.
    by apply (block_entered i body last n entered HB Hlc m e v stack K); [..|lia|done|lia]. }
  destruct inv; cbn [kind inner] in *.
  - unfold render_else. rewrite Hn. cbn [outcome_bind]. rewrite find_context_lookup by done.
    specialize (Henter wvalue_null (λ _, eq_refl)). cbn [outcome_bind]. unfold inverted_contexts.
    destruct (lookup_name n stack) as [v|]; cycle 1.
    { rewrite bool_decide_eq_false_2 by by intros []. apply Henter. }
    rewrite bool_decide_eq_true_2 by done. cbn [negb]. change (default empty_str (Some v)) with v.
    destruct (wt_ v); cbn [outcome_bind]; try exact Henter; try (apply Hskip; lia).
    destruct (JsonWrite.l v) as [[|? ?]|]; cbn [outcome_bind]; [apply Henter|apply Hskip; lia|apply Henter].
  - unfold render_open. rewrite Hn. cbn [outcome_bind]. rewrite find_context_lookup by done.
    cbn [outcome_bind]. unfold section_contexts.
    destruct (lookup_name n stack) as [v|]; cycle 1.
    { rewrite bool_decide_eq_false_2 by by intros []. apply Hskip. lia. }
    rewrite bool_decide_eq_true_2 by done. cbn [negb]. change (default empty_str (Some v)) with v.
    destruct (wt_ v); cbn [outcome_bind]; try (by apply Henter); try (apply Hskip; lia); [|done].
    generalize (default [] (JsonWrite.l v)). intros items. rewrite Hp.
    pose proof (block_items i body last n entered HB Hlc fuel items stack (out ++ b) ltac:(done) ltac:(lia)) as Hi.
    fold j in Hi.
    match goal with |- meets _ (then_ ?spec ?o K) =>
      replace (then_ spec o K) with
        (outcome_bind (then_ spec o (λ out, Val (stack, out))) (λ st, K st.2))
        by by unfold then_; rewrite outcome_bind_assoc end.
    rewrite outcome_bind_assoc. apply meets_bind; [exact Hi|]. intros st Est.
    assert (st.1 = stack) as E1.
    { unfold then_ in Est. destruct (items_denote body last items stack); [|done..]. by injection Est as <-. }
    destruct st as [stack' out']. cbn in E1. subst stack'. cbn [outcome_bind fst snd].
    replace (Z.of_nat j + 1) with (Z.of_nat (S j)) by lia. apply HK. lia.
Qed.

Lemma tree_runs_all t : tree_runs t.
Proof.
  induction t as [b t|b inv n body last IH] using tree_ind'; [|by apply runs_node].
  intros seen i m e stack Hl _ Hd Hin Hs Hm He. cbn [flat length] in *.
  by apply (runs_leaf i b t m e stack seen); [..|lia].
Qed.

(** All the trees, and the text after them. *)
Lemma render_trees l last ctx fuel :
  laid 0 (flats l) → matched_list (actions_ tm) 0 l → dots_list false false l = true →
  text_at (length (flats l)) last → length (fragments_ tm) = S (length (flats l)) →
  (length (flats l) < fuel)%nat →
  meets (render_string loader fuel tm ctx) (outcome_app (denotes l [ctx]) (Val last)).
Proof.
  intros Hl Hm Hd Hx Hlen Hf. unfold render_string, render_string_with, render_internal.
  assert (last_fragment tm = Z.of_nat (length (flats l))) as ->.
  { unfold last_fragment. rewrite Hlen. lia. }
  cbn [fst snd]. unfold indented. cbn [Z.to_nat repeat app].
  replace (outcome_app (denotes l [ctx]) (Val last)) with
    (outcome_bind (then_ (denotes l [ctx]) [] (λ out, Val ([ctx], out ++ last)))
       (λ st : render_state, Val st.2))
    by by unfold then_, outcome_app; rewrite outcome_bind_assoc.
  apply meets_bind.
  - change 0 with (Z.of_nat 0).
    assert (alone [ctx]) as Hal by by intros v s [= <- <-] _.
    apply (runs_list l (Forall_true _ _ tree_runs_all) false false 0 1 _ [ctx]);
      [exact Hl|exact Hm|exact Hd|right; by apply alone_inside|done|done|lia|cbn; lia| |lia].
    intros fuel' out' Hf'. destruct fuel' as [|fuel']; [lia|]. cbn [Nat.add].
    by rewrite (loop_end fuel' _ [ctx] out' last Hx).
  - by intros [stack out] _.
Qed.
End Loop.

(** ** Printed templates *)

Lemma render_fragment_text body frs acts f x out :
  size body < 2 ^ 63 → at_text body f x →
  render_fragment (MkTemplate frs acts body) f 0 out = Val (out ++ x).
Proof.
  intros L (pre & post & E & -> & _). unfold render_fragment. cbn [Z.eqb negb fst snd body_].
  by rewrite (slice_between body pre x post).
Qed.

(** The fragments and actions that [compile] makes lie as the trimmed trees describe. *)
Lemma laid_compiled body frs acts tags last :
  size body < 2 ^ 63 → Forall2 (at_text body) frs (tags.*1 ++ [last]) →
  Forall2 (action_for body) acts tags.*2 →
  let tm := MkTemplate frs (acts ++ [MkAction 0 0 0 Ignore]) body in
  laid tm 0 tags ∧ text_at tm (length tags) last ∧ length frs = S (length tags).
Proof.
  intros L HT HA tm.
  assert (∀ k x, (tags.*1 ++ [last]) !! k = Some x → text_at tm k x) as Ht.
  { intros k x Hk. destruct (Forall2_lookup_r _ _ _ _ _ HT Hk) as (f & Hf & Hx).
    exists f. split; [done|]. intros out. by apply render_fragment_text. }
  split_and!.
  - intros k b t Hk. split.
    + cbn [Nat.add]. apply Ht. rewrite lookup_app_l; [by rewrite list_lookup_fmap, Hk|].
      rewrite length_fmap. by eapply lookup_lt_Some.
    + assert (tags.*2 !! k = Some t) as Hk2 by by rewrite list_lookup_fmap, Hk.
      destruct (Forall2_lookup_r _ _ _ _ _ HA Hk2) as (a & Ha & Hkind & Hname).
      exists a. split; [by apply lookup_app_l_Some|]. by split.
  - apply Ht. by rewrite lookup_app_r, length_fmap, Nat.sub_diag by (rewrite length_fmap; lia).
  - apply Forall2_length in HT. rewrite HT, length_app, length_fmap. cbn. lia.
Qed.

Lemma render_print loader t ctx fuel :
  template_ok t = true → (length (flats (trees t)) < fuel)%nat →
  ∃ tm, compile (print t) = Val tm ∧
    meets (render_string loader fuel tm ctx) (denotation (trim t) ctx).
Proof.
  intros Ht Hf. destruct (compile_print t Ht) as (acts & frs & Ec & HT & HA & HM).
  exists (MkTemplate frs (acts ++ [MkAction 0 0 0 Ignore]) (print t)). split; [done|].
  destruct (trim_flats t) as (E1 & E2 & M & D & _). rewrite <- E1 in HT. rewrite <- E2 in HA.
  assert (size (print t) < 2 ^ 63) as L.
  { unfold template_ok in Ht. rewrite !andb_true_iff in Ht. destruct Ht as [_ Ht]. by apply bool_decide_eq_true_1 in Ht. }
  destruct (laid_compiled _ _ _ _ _ L HT HA) as (Hl & Hx & Hn).
  assert (length (flats (trees (trim t))) = length (flats (trees t))) as El.
  { apply (f_equal length) in E2. by rewrite !length_fmap in E2. }
  apply render_trees; [done| | |done|done|lia].
  - cbn [actions_]. apply (matched_list_ext acts); [|by apply M]. intros k Hk.
    symmetry. apply lookup_app_l. apply Forall2_length in HA. rewrite length_fmap in HA. lia.
  - rewrite D. unfold template_ok in Ht. rewrite !andb_true_iff in Ht. by destruct Ht as [[[_ ?] _] _].
Qed.
