(* ===== verification/TemplateBlocks.v ===== *)
(** * Templates: blocks that are not balanced

    What the parser makes of the end of a block where none is open, and of a block that is not
    closed; and the loop that a block that is not closed makes of [render_internal]. *)

From Stdlib Require Import ZArith Lia Ascii String.
From stdpp Require Import base tactics option strings list.
From S2P Require Import Prelude.
From S2P Require Import CppStd.
From S2P Require Import QueryString.
From S2P Require Import Json.
From S2P Require Import JsonWrite.
From S2P Require Import Multipart.
From S2P Require Import MultipartFacts.
From S2P Require Import Mustache.
From S2P Require Import Templates.
From S2P Require Import TemplateParse.
From S2P Require Import TemplateLines.
From S2P Require Import TemplateRender.

Local Open Scope Z_scope.

(** ** The end of a block where none is open *)

(** Trees, and an end. *)
Definition unopened (l : list tree) (b n post : bytes) : bytes :=
  print_flats (flats l) ++ b ++ print_tag (Closes n) ++ post.

Lemma parse_trees body l post :
  body = print_flats (flats l) ++ post → size body < 2 ^ 63 → forallb tree_ok l = true →
  ∃ acts frs, parsed body [] (flats l) [] [] acts frs [] ∧ matched_list acts 0 l.
Proof.
  intros E L H. destruct (parses_list body l) with (pre := @nil ascii) (post := post)
    (blocks := @nil Z) (frs := @nil fragment) (acts := @nil Action) as (acts & frs & P & M).
  - apply Forall_true. intros x. by apply parses_tree.
  - done.
  - done.
  - by exists acts, frs.
Qed.

Lemma compile_unopened l b n post :
  let body := unopened l b n post in
  forallb tree_ok l = true → text_ok b = true → name_ok n = true → size body < 2 ^ 63 →
  compile body = Undef out_of_bounds.
Proof.
  intros body Hl Hb Hn L. set (rest := b ++ print_tag (Closes n) ++ post).
  destruct (parse_trees body l rest eq_refl L Hl) as (acts & frs & (P & _) & _).
  destruct (turns_split (flats l) rest) as [k Ek]. change (print_flats (flats l) ++ rest) with body in Ek.
  unfold compile, parse. rewrite Ek. change 0 with (size []). rewrite P. cbn [app].
  set (pre := print_flats (flats l)).
  rewrite (parse_tags_tag _ body pre b (Closes n) post) by done.
  rewrite (parse_tag_here body pre b (Closes n) post) by done. cbn [outcome_bind].
  unfold close_block, after_tag. cbn [blockPositions].
  pose proof (named_tag body pre b (Closes n) post eq_refl Hn ltac:(done)) as Hm. cbv zeta in Hm.
  rewrite size_app, Z.add_assoc in Hm. cbn [action_of a_start a_end].
  change CloseBlock with (kind (Closes n)). by rewrite Hm.
Qed.

(** ** A block that is not closed *)

Definition unclosed_tags (l : list tree) (b : bytes) (inv : bool) (n : bytes) (l' : list tree) :
    list (bytes * tag) := flats l ++ (b, Opens inv n) :: flats l'.
Definition unclosed l b inv n l' (last : bytes) : bytes :=
  print_flats (unclosed_tags l b inv n l') ++ last.

Lemma parse_unclosed l b inv n l' last :
  let tags := unclosed_tags l b inv n l' in
  let body := unclosed l b inv n l' last in
  forallb tree_ok l = true → text_ok b = true → name_ok n = true → forallb tree_ok l' = true →
  last_ok last = true → size body < 2 ^ 63 →
  ∃ acts frs blocks cur,
    parse_tags (turns body) body (state [] 0 [] []) =
      Val (state blocks cur frs (acts ++ [MkAction 0 0 0 Ignore])) ∧
    Forall2 (at_text body) frs (tags.*1 ++ [last]) ∧ Forall2 (action_for body) acts tags.*2 ∧
    ∃ a, acts !! length (flats l) = Some a ∧ a_pos a = 0.
Proof.
  intros tags body Hl Hb Hn Hl' Hlast L. set (o := Opens inv n). set (pre1 := print_flats (flats l)).
  assert (body = pre1 ++ b ++ print_tag o ++ print_flats (flats l') ++ last) as E1.
  { unfold body, unclosed, unclosed_tags. change ((b, Opens inv n) :: flats l') with ([(b, o)] ++ flats l').
    by rewrite !print_flats_app, print_flats_one, <- !app_assoc. }
  set (pre2 := pre1 ++ b ++ print_tag o).
  assert (body = pre2 ++ print_flats (flats l') ++ last) as E2.
  { unfold pre2. rewrite E1, <- !app_assoc. done. }
  destruct (parse_trees body l _ E1 L Hl) as (acts1 & frs1 & P1 & _).
  destruct (parsed_length _ _ _ _ _ _ _ _ P1) as [N1 _]. destruct P1 as (P1 & T1 & A1).
  set (ao := action_of (size pre1 + size b) o). set (f := (size pre1, size pre1 + size b)).
  destruct (parses_list body l') with (pre := pre2) (post := last)
    (blocks := [Z.of_nat (length acts1)]) (frs := frs1 ++ [f]) (acts := acts1 ++ [ao])
    as (acts2 & frs2 & (P2 & T2 & A2) & _).
  { apply Forall_true. intros x. by apply parses_tree. }
  { done. }
  { done. }
  exists (acts1 ++ ao :: acts2), ((frs1 ++ f :: frs2) ++ [(size (pre2 ++ print_flats (flats l')), size body)]).
  eexists _, _. split_and!.
  - destruct (turns_split tags last) as [k Ek]. change (print_flats tags ++ last) with body in Ek.
    rewrite Ek. unfold tags, unclosed_tags. rewrite length_app. cbn [length].
    replace (length (flats l) + S (length (flats l')) + S k)%nat
      with (length (flats l) + S (length (flats l') + S k))%nat by lia.
    change (state [] 0 [] []) with (state [] (size []) [] []). rewrite P1. cbn [app].
    fold pre1. rewrite (parse_tags_tag _ body pre1 b o _ _ _ _ E1 L Hb).
    rewrite (parse_tag_here body pre1 b o _ _ _ _ E1 L Hn). cbn [outcome_bind o]. fold o ao.
    unfold after_tag. fold f.
    replace (size pre1 + size b + size (print_tag o)) with (size pre2)
      by by unfold pre2; rewrite !size_app, Z.add_assoc.
    rewrite P2. rewrite (parse_tags_end _ body _ last) by (done || by rewrite E2, app_assoc).
    rewrite <- !app_assoc. done.
  - unfold tags, unclosed_tags. rewrite fmap_app. apply Forall2_app.
    + apply Forall2_app; [done|]. cbn [fmap list_fmap]. constructor; [|done].
      eapply at_text_here; [exact E1|apply head_print_tag].
    + constructor; [|done]. exists (pre2 ++ print_flats (flats l')), [].
      rewrite app_nil_r. split; [by rewrite E2, app_assoc|]. split; [|done].
      by rewrite E2, app_assoc, !size_app.
  - unfold tags, unclosed_tags. rewrite fmap_app. apply Forall2_app; [done|]. constructor; [|done].
    by apply (action_for_here body pre1 b o _ E1 L).
  - exists ao. split; [|done]. by rewrite <- N1, lookup_app_r, Nat.sub_diag by lia.
Qed.

(** ** The loop it makes *)

(** A section, plain or inverted, that is skipped. *)
Definition skips (inv : bool) (v : option context) : Prop :=
  (if inv then Val (inverted_contexts v) else section_contexts v) = Val [].
(** The variables among some tags have texts. *)
Definition texts_of (leaves : list (bytes * leaf)) (ctx : context) : Prop :=
  ∀ s n, Var s n ∈ leaves.*2 →
    ∃ x, variable_text s (default empty_str (lookup_variable n [ctx])) = Val x.

Lemma skip_turn rec tm a cur out inv n ctx :
  a_t a = kind (Opens inv n) → tag_name tm a = Val n → skips inv (lookup_name n [ctx]) →
  (if inv then render_else tm a cur ([ctx], out)
   else render_open rec tm a cur 0 ([ctx], out)) = Val (a_pos a, ([ctx], out)).
Proof.
  intros Ht Hn Hk. unfold skips in Hk. destruct inv.
  - unfold render_else. rewrite Hn. cbn [outcome_bind]. rewrite find_context_lookup by done.
    cbn [outcome_bind]. unfold inverted_contexts in Hk.
    destruct (lookup_name n [ctx]) as [v|]; [|done]. rewrite bool_decide_eq_true_2 by done.
    cbn [negb]. change (default empty_str (Some v)) with v.
    destruct (wt_ v); try done. by destruct (JsonWrite.l v) as [[|? ?]|].
  - unfold render_open. rewrite Hn. cbn [outcome_bind]. rewrite find_context_lookup by done.
    cbn [outcome_bind]. unfold section_contexts in Hk.
    destruct (lookup_name n [ctx]) as [v|]; [|by rewrite bool_decide_eq_false_2 by by intros []].
    rewrite bool_decide_eq_true_2 by done. cbn [negb]. change (default empty_str (Some v)) with v.
    destruct (wt_ v); try done. by injection Hk as ->.
Qed.

Section Loop.
Context (loader : bytes → outcome bytes) (tm : template_t) (ctx : context).
Context (leaves : list (bytes * leaf)) (inv : bool) (n : bytes) (a : Action) (e : Z).
Hypothesis H_texts : ∀ k, (k ≤ length leaves)%nat → ∃ x, text_at tm k x.
Hypothesis H_tags : ∀ k b t, leaves !! k = Some (b, t) → tag_at tm k (Plain t).
Hypothesis H_block : actions_ tm !! length leaves = Some a.
Hypothesis H_kind : a_t a = kind (Opens inv n).
Hypothesis H_name : tag_name tm a = Val n.
Hypothesis H_open : a_pos a = 0.
Hypothesis H_first : leaves ≠ [].
Hypothesis H_end : Z.of_nat (length leaves) < e.
Hypothesis H_values : texts_of leaves ctx.
Hypothesis H_skip : skips inv (lookup_name n [ctx]).

(** The block that is skipped goes to the action after the first, and never to the end. *)
Lemma unclosed_loops fuel k out :
  (k ≤ length leaves)%nat → render_loop loader fuel tm (Z.of_nat k) e 0 ([ctx], out) = OutOfFuel.
Proof.
  revert k out. induction fuel as [|fuel IH]; intros k out Hk; [done|].
  destruct (H_texts k Hk) as [x Hx].
  assert (Z.of_nat k < e) as He by lia.
  destruct (decide (k = length leaves)) as [->|Nk].
  - rewrite (loop_turn loader tm fuel _ e [ctx] out x a Hx H_block He).
    unfold render_action. rewrite H_kind.
    match goal with |- context [render_open ?rec] =>
      pose proof (skip_turn rec tm a (Z.of_nat (length leaves)) (out ++ x) inv n ctx H_kind H_name H_skip) as Hs
    end.
    assert (1 ≤ length leaves)%nat as H1 by (destruct leaves; [done|cbn; lia]).
    destruct inv; cbn [kind]; rewrite Hs; cbn [outcome_bind]; rewrite H_open; by apply (IH 1%nat).
  - destruct (lookup_lt_is_Some_2 leaves k ltac:(lia)) as [[b t] Hl].
    destruct (H_tags k b t Hl) as (a' & Ha & Ht & Hn).
    rewrite (loop_turn loader tm fuel k e [ctx] out x a' Hx Ha He).
    unfold render_action. rewrite Ht.
    assert (∀ out, render_loop loader fuel tm (Z.of_nat k + 1) e 0 ([ctx], out) = OutOfFuel) as Hnext.
    { intros out'. replace (Z.of_nat k + 1) with (Z.of_nat (S k)) by lia. apply IH. lia. }
    destruct t as [s m|c]; [|by cbn [kind outcome_bind]; rewrite Hnext].
    destruct (H_values s m) as [y Ey].
    { apply (list_elem_of_fmap_2' snd leaves (b, Var s m)); [|done]. by eapply list_elem_of_lookup_2. }
    assert (kind (Plain (Var s m)) = Tag ∨ kind (Plain (Var s m)) = UnescapeTag) as Hkd by (destruct s; auto).
    match goal with |- context [render_tag ?rec _ _ _ _ _] =>
      pose proof (render_tag_here tm fuel rec a' s m [ctx] (out ++ x) k) as Hr
    end.
    cbv zeta in Hr. rewrite Ey in Hr. cbn [outcome_bind] in Hr.
    destruct (Hr ltac:(done) Ht Hn ltac:(intros _ v l [= <- <-] _; by left) ltac:(done)) as [E|[_ E]];
      destruct Hkd as [-> | ->]; rewrite E; cbn [outcome_bind]; by rewrite ?Hnext.
Qed.
End Loop.

Definition leaf_trees (leaves : list (bytes * leaf)) : list tree :=
  map (λ x, Leaf x.1 x.2) leaves.
Lemma flats_leaf_trees leaves :
  flats (leaf_trees leaves) = map (λ x, (x.1, Plain x.2)) leaves.
Proof. induction leaves as [|x l IH]; [done|]. cbn. by rewrite <- IH. Qed.

(** A block that is not closed: accepted, and after variables and comments without end when it is
    skipped. *)
Lemma compile_unclosed l b inv n l' last :
  let body := unclosed l b inv n l' last in
  forallb tree_ok l = true → text_ok b = true → name_ok n = true → forallb tree_ok l' = true →
  last_ok last = true → size body < 2 ^ 63 →
  ∃ tm, compile body = Val tm ∧
    ∀ leaves loader fuel ctx,
      l = leaf_trees leaves → leaves ≠ [] → texts_of leaves ctx → skips inv (lookup_name n [ctx]) →
      render_string loader fuel tm ctx = OutOfFuel.
Proof.
  intros body Hl Hb Hn Hl' Hlast L.
  destruct (parse_unclosed l b inv n l' last Hl Hb Hn Hl' Hlast L)
    as (acts & frs & blocks & cur & Ep & HT & HA & a & Ha & Hp).
  destruct (compile_parsed _ _ _ _ _ _ _ Ep HT HA) as (frs' & Ec & Hf).
  eexists. split; [exact Ec|]. intros leaves loader fuel ctx -> Hne Hv Hs.
  set (tags := unclosed_tags (leaf_trees leaves) b inv n l') in *.
  set (tm := MkTemplate frs' (acts ++ [MkAction 0 0 0 Ignore]) _).
  assert (length (flats (leaf_trees leaves)) = length leaves) as El
    by by rewrite flats_leaf_trees, length_map.
  rewrite El in Ha.
  assert (length tags > length leaves)%nat as Lt.
  { unfold tags, unclosed_tags. rewrite length_app, El. cbn. lia. }
  assert (length (trimmed_list true tags last) = S (length tags)) as Ll.
  { unfold trimmed_list. pose proof (trimmed_length true tags last) as E.
    destruct (trimmed true tags last) as [x xs]. cbn in *. by rewrite E. }
  assert (∀ k t, tags.*2 !! k = Some t → tag_at tm k t) as Htag.
  { intros k t Hk. destruct (Forall2_lookup_r _ _ _ _ _ HA Hk) as (c & Hc & Hkind & Hname).
    exists c. split; [by apply lookup_app_l_Some|]. by split. }
  assert (tags.*2 !! length leaves = Some (Opens inv n)) as Ho.
  { unfold tags, unclosed_tags.
    by rewrite fmap_app, lookup_app_r, length_fmap, El, Nat.sub_diag by by rewrite length_fmap, El. }
  destruct (Htag _ _ Ho) as (a' & Ha' & Hk' & Hn'). cbn [actions_ tm] in Ha'.
  rewrite (lookup_app_l_Some _ _ _ _ Ha) in Ha'. injection Ha' as <-.
  unfold render_string, render_string_with, render_internal. unfold indented. cbn [Z.to_nat repeat app fst snd].
  change 0 with (Z.of_nat 0) at 1.
  rewrite (unclosed_loops loader tm ctx leaves inv n a); [done|..|done|done|lia].
  - intros k Hk. destruct (lookup_lt_is_Some_2 (trimmed_list true tags last) k ltac:(lia)) as [x Hx].
    destruct (Forall2_lookup_r _ _ _ _ _ Hf Hx) as (f & Hfk & Hat). exists x, f. split; [done|].
    intros out. by apply render_fragment_text.
  - intros k c t Hk. apply Htag. unfold tags, unclosed_tags. rewrite fmap_app, flats_leaf_trees.
    apply lookup_app_l_Some. rewrite !list_lookup_fmap, Hk. done.
  - by apply lookup_app_l_Some.
  - done.
  - done.
  - done.
  - done.
  - unfold last_fragment. cbn [fragments_ tm]. apply Forall2_length in Hf. rewrite Hf, Ll. lia.
Qed.
