(* ===== verification/TemplateProps.v ===== *)
(** * Templates: properties

    A printed template renders to its denotation; the parser ends on every text; a template whose
    blocks are not balanced reads outside a vector, or may be rendered without end. *)

From Stdlib Require Import ZArith Lia Ascii String.
From stdpp Require Import base tactics option strings list.
From S2P Require Import Prelude.
From S2P Require Import CppStd.
From S2P Require Import QueryString.
From S2P Require Import Json.
From S2P Require Import JsonWrite.
From S2P Require Import Multipart.
From S2P Require Import MultipartFacts.
From S2P Require Import Mustache.
From S2P Require Import Templates.
From S2P Require Import TemplateParse.
From S2P Require Import TemplateLines.
From S2P Require Import TemplateRender.
From S2P Require Import TemplateBlocks.

Local Open Scope Z_scope.

(** ** Rendering *)

(** C22: The parser accepts the template that a tree of variables, comments, sections and inverted
    sections is printed to, and rendering it in a context gives the text the specification gives
    the tree: each variable with the value of its name, escaped or not, each section once for each
    item or for its value, each inverted section when there is none, and the lines that hold
    nothing but a comment or the tag of a section without their spaces and end.  A turn for each
    tag, and one, is enough, whatever the context.

    The texts before tags hold no earlier brackets that open a tag, comments none that close one;
    names hold no brackets, have no spaces at their ends and begin with no sign that has a meaning;
    a variable with a dotted name does not come after an inverted section within a section; the
    template is shorter than 2^63 bytes; and the text of no function that is rendered is a template
    again, for which the specification has no result.  Partials and changed brackets are not
    printed. *)
Theorem templates_render_their_trees loader t ctx fuel :
  template_ok t = true → (length (flats (trees t)) < fuel)%nat →
  denotation (trim t) ctx ≠ OutOfFuel →
  ∃ tm, compile (print t) = Val tm ∧ render_string loader fuel tm ctx = denotation (trim t) ctx.
Proof.
  intros Ht Hf Hd. destruct (render_print loader t ctx fuel Ht Hf) as (tm & Ec & Hm).
  exists tm. split; [done|by apply Hm].
Qed.

Definition no_loader (_ : bytes) : outcome bytes := Val [].

Definition newline : bytes := ["010"%char].
(** A list of accounts, with a line for each. *)
Definition accounts_template : template :=
  MkTree
    [Leaf (lit "Accounts {of} ") (Var Escaped (lit "owner.full name"));
     Leaf newline (Comment (lit " one {line} each "));
     Node newline false (lit "accounts")
       [Leaf (newline ++ lit "- ") (Var Triple (lit "id.text"));
        Node [] false (lit "open") [Leaf (lit ": ") (Var Ampersand (lit "balance"))] [];
        Node [] true (lit "open") [] (lit " closed")] newline;
     Node newline true (lit "accounts") [] (newline ++ lit "none" ++ newline)] newline.
Definition account (id balance : string) (opened : bool) : wvalue :=
  wvalue_of_object
    [(lit "id", wvalue_of_object [(lit "text", wvalue_of_string (lit id))]);
     (lit "balance", wvalue_of_string (lit balance));
     (lit "open", wvalue_of_bool opened)].
Definition accounts_context : wvalue :=
  wvalue_of_object
    [(lit "owner", wvalue_of_object [(lit "full name", wvalue_of_string (lit "A & B"))]);
     (lit "accounts", wvalue_of_copies [account "id_1" "100" true; account "id_2" "0" false])].

Example accounts_denotation :
  outcome_map string_of_list_ascii (denotation (trim accounts_template) accounts_context) =
  Val (string_of_list_ascii
         (lit "Accounts {of} A &amp; B" ++ newline ++ lit "- id_1: 100" ++ newline ++
          lit "- id_2 closed" ++ newline)).
Proof. vm_compute. reflexivity. Qed.

Lemma templates_render_their_trees_witness :
  ∃ tm, compile (print accounts_template) = Val tm ∧
    render_string no_loader 20 tm accounts_context =
    denotation (trim accounts_template) accounts_context.
Proof.
  apply (templates_render_their_trees no_loader accounts_template accounts_context 20).
  - by vm_compute.
  - apply Nat.ltb_lt. by vm_compute.
  - by vm_compute.
Defined.

(** ** The parser ends *)

Definition ends {A} (o : outcome A) (P : A → Prop) : Prop :=
  match o with OutOfFuel => False | Val x => P x | _ => True end.

Lemma ends_bind {A B} (o : outcome A) (f : A → outcome B) P Q :
  ends o P → (∀ x, P x → ends (f x) Q) → ends (outcome_bind o f) Q.
Proof. destruct o; cbn; auto. Qed.
Lemma ends_impl {A} (o : outcome A) (P Q : A → Prop) : ends o P → (∀ x, P x → Q x) → ends o Q.
Proof. destruct o; cbn; auto. Qed.

Lemma at_ends body i : ends (at_ body i) (λ _, 0 ≤ i ≤ size body).
Proof.
  unfold at_. destruct (Z.ltb_spec i 0); [done|].
  destruct ((body ++ [nul]) !! Z.to_nat i) as [c|] eqn:E; [|done]. cbn.
  apply lookup_lt_Some in E. rewrite length_app in E. cbn in E. unfold size. lia.
Qed.
Lemma slice_ends body first last : ends (slice body first last) (λ _, True).
Proof. unfold slice, substr. by destruct (_ <? _). Qed.

Lemma skip_spaces_ends body fuel idx :
  size body + 1 - idx < Z.of_nat fuel → (0 < fuel)%nat → ends (skip_spaces fuel body idx) (λ _, True).
Proof.
  revert idx. induction fuel as [|fuel IH]; intros idx F N; [lia|]. cbn [skip_spaces].
  apply (ends_bind _ _ _ _ (at_ends body idx)). intros c Hc.
  destruct (Ascii.eqb c space); [|done]. apply IH; lia.
Qed.
Lemma trim_spaces_ends body fuel e :
  e < Z.of_nat fuel → (0 < fuel)%nat → ends (trim_spaces fuel body e) (λ e', e' ≤ e ∧ e' ≤ size body + 1).
Proof.
  revert e. induction fuel as [|fuel IH]; intros e F N; [lia|]. cbn [trim_spaces].
  apply (ends_bind _ _ _ _ (at_ends body (e - 1))). intros c Hc.
  destruct (Ascii.eqb c space); [|cbn; lia].
  eapply ends_impl; [apply IH; lia|]. cbn. lia.
Qed.

(** Positions outside the text end the loops at once. *)
Lemma skip_ends body idx : ends (skip_spaces (turns body) body idx) (λ _, True).
Proof.
  destruct (Z.ltb_spec idx 0) as [H|H].
  - unfold turns. rewrite Nat.add_comm. cbn [skip_spaces Nat.add]. unfold at_.
    by rewrite (proj2 (Z.ltb_lt _ _) H).
  - apply skip_spaces_ends; unfold turns, size in *; lia.
Qed.
Lemma trim_ends body e : ends (trim_spaces (turns body) body e) (λ e', e' ≤ size body + 1).
Proof.
  destruct (Z.ltb_spec (size body + 1) e) as [H|H].
  - unfold turns. rewrite Nat.add_comm. cbn [trim_spaces Nat.add].
    apply (ends_bind _ _ _ _ (at_ends body (e - 1))). intros c Hc. lia.
  - eapply ends_impl; [apply trim_spaces_ends; unfold turns, size in *; lia|]. cbn. lia.
Qed.

Lemma named_ends body t idx e : ends (named body t idx e) (λ _, True).
Proof.
  apply (ends_bind _ _ _ _ (skip_ends body idx)). intros i _.
  by apply (ends_bind _ _ _ _ (trim_ends body e)).
Qed.

Lemma new_tags_ends body idx e : ∀ fuel i,
  e ≤ size body + 1 → e - i < Z.of_nat fuel → (0 < fuel)%nat →
  ends (new_tags fuel body idx i e) (λ x, x.1 ≠ [] ∧ x.2 ≠ []).
Proof.
  induction fuel as [|fuel IH]; intros i He F N; [lia|]. cbn [new_tags].
  destruct (Z.ltb_spec i e) as [Hi|Hi]; cbn [negb]; [|done].
  apply (ends_bind _ _ _ _ (at_ends body i)). intros c Hc.
  destruct (Ascii.eqb c space); [|apply IH; lia].
  apply (ends_bind _ _ _ _ (slice_ends body idx i)). intros op _.
  apply (ends_bind _ _ _ _ (skip_ends body i)). intros k _.
  apply (ends_bind _ _ _ _ (slice_ends body k e)). intros cl _.
  destruct (bool_decide_reflect (op = [])); [done|].
  destruct (bool_decide_reflect (cl = [])); [done|]. by destruct (bool_decide _).
Qed.

Lemma change_tags_ends body idx e st :
  ends (change_tags body idx e st)
    (λ st', tag_open st' ≠ [] ∧ tag_close st' ≠ [] ∧ current st' = current st).
Proof.
  unfold change_tags. apply (ends_bind _ _ _ _ (at_ends body (e - 1))). intros c Hc.
  destruct (negb _).
  { by apply (ends_bind _ _ _ _ (slice_ends body idx (e - 1))). }
  apply (ends_bind _ _ _ _ (skip_ends body idx)). intros i _.
  apply (ends_bind _ _ _ _ (trim_ends body (e - 1))). intros e' He'.
  destruct (Z.ltb_spec i 0) as [Hi|Hi].
  { unfold turns. rewrite Nat.add_comm. cbn [Nat.add new_tags].
    destruct (Z.ltb_spec i e'); cbn [negb]; [|done].
    unfold at_. by rewrite (proj2 (Z.ltb_lt _ _) Hi). }
  eapply ends_bind; [apply new_tags_ends; unfold turns, size in *; lia|].
  intros [op cl] [H1 H2]. by split_and!.
Qed.

Lemma close_block_ends body idx e st :
  ends (close_block body idx e st)
    (λ st', tag_open st' = tag_open st ∧ tag_close st' = tag_close st ∧ current st' = current st).
Proof.
  unfold close_block. apply (ends_bind _ _ _ _ (named_ends body CloseBlock idx e)). intros a _.
  destruct (blockPositions st) as [|b blocks]; [done|].
  unfold action_at. destruct (b <? 0); [done|]. destruct (_ !! _) as [m|]; [|done]. cbn [outcome_bind].
  apply (ends_bind _ _ _ _ (slice_ends body _ _)). intros mine _.
  apply (ends_bind _ _ _ _ (slice_ends body _ _)). intros theirs _.
  by destruct (negb _).
Qed.

Lemma find_from_bounds s sub pos : find_from s sub pos = npos ∨ pos ≤ find_from s sub pos.
Proof.
  unfold find_from. destruct (_ <? _); [by left|]. destruct (find_index _ _); [right; lia|by left].
Qed.

(** A tag leaves the position after it, and brackets that are not empty. *)
Definition progress (st st' : parse_state) : Prop :=
  tag_open st' ≠ [] ∧ tag_close st' ≠ [] ∧ current st < current st'.

Lemma named_progress body t i e st (f : Action → parse_state) :
  (∀ a, progress st (f a)) → ends (outcome_bind (named body t i e) (λ a, Val (f a))) (progress st).
Proof. intros H. apply (ends_bind _ _ _ _ (named_ends body t i e)). intros a _. apply H. Qed.
Ltac advanced := cbn; split_and!; [done|done|cbn; lia].

Lemma parse_tag_ends body idx st :
  tag_open st ≠ [] → tag_close st ≠ [] → current st ≤ idx →
  ends (parse_tag body idx st) (progress st).
Proof.
  intros Ho Hc Hi. unfold parse_tag. cbn [push_fragment tag_open tag_close current].
  set (p := idx + size (tag_open st)).
  assert (current st < p) as Hp.
  { unfold p. destruct (tag_open st) as [|c r]; [done|]. rewrite size_cons. pose proof (size_nonneg r). lia. }
  destruct (Z.eqb_spec (find_from body (tag_close st) p) p); [done|].
  destruct (Z.eqb_spec (find_from body (tag_close st) p) npos) as [|Hn]; [done|].
  assert (p ≤ find_from body (tag_close st) p) as Hq by (destruct (find_from_bounds body (tag_close st) p); [done|lia]).
  set (q := find_from body (tag_close st) p) in *.
  pose proof (size_nonneg (tag_close st)) as Hs.
  apply (ends_bind _ _ _ _ (at_ends body p)). intros c Hc'.
  repeat match goal with |- ends (if _ then _ else _) _ => case_match end;
    try done; try apply named_progress; try (intros a); try advanced.
  - eapply ends_impl; [apply close_block_ends|]. intros st' (E1 & E2 & E3).
    unfold progress. rewrite E1, E2, E3. advanced.
  - apply (ends_bind _ _ _ _ (at_ends body _)). intros x _. destruct (negb (Ascii.eqb x "}")); [done|].
    apply named_progress. intros a. advanced.
  - eapply ends_impl; [apply change_tags_ends|]. intros st' (E1 & E2 & E3).
    unfold progress. rewrite E3. advanced.
Qed.

Lemma parse_tags_ends body fuel st :
  tag_open st ≠ [] → tag_close st ≠ [] → size body + 1 - current st < Z.of_nat fuel →
  (0 < fuel)%nat → ends (parse_tags fuel body st) (λ _, True).
Proof.
  revert st. induction fuel as [|fuel IH]; intros st Ho Hc F N; [lia|]. cbn [parse_tags].
  destruct (Z.eqb_spec (find_from body (tag_open st) (current st)) npos) as [|Hn]; [done|].
  destruct (find_from_bounds body (tag_open st) (current st)) as [|Hb]; [done|].
  assert (current st ≤ size body) as Hcur.
  { unfold find_from in Hn. destruct (Z.ltb_spec (size body) (current st)); [done|lia]. }
  eapply ends_bind; [by apply parse_tag_ends|]. intros st' (H1 & H2 & H3).
  apply IH; [done|done|lia|lia].
Qed.

Lemma space_before_ends body first fuel j :
  j + 1 < Z.of_nat fuel → (0 < fuel)%nat → ends (space_before fuel body first j) (λ _, True).
Proof.
  revert j. induction fuel as [|fuel IH]; intros j F N; [lia|]. cbn [space_before].
  destruct (j <? first); [done|]. apply (ends_bind _ _ _ _ (at_ends body j)). intros c Hc.
  destruct (Ascii.eqb c space); [|done]. apply IH; lia.
Qed.
Lemma before_ends body first j : ends (space_before (turns body) body first j) (λ _, True).
Proof.
  destruct (Z.ltb_spec (size body) j) as [H|H].
  - unfold turns. rewrite Nat.add_comm. cbn [space_before Nat.add]. destruct (j <? first); [done|].
    apply (ends_bind _ _ _ _ (at_ends body j)). intros c Hc. lia.
  - apply space_before_ends; unfold turns, size in *; lia.
Qed.
Lemma space_after_ends body last fuel k :
  size body - k < Z.of_nat fuel → (0 < fuel)%nat → ends (space_after fuel body last k) (λ _, True).
Proof.
  revert k. induction fuel as [|fuel IH]; intros k F N; [lia|]. cbn [space_after].
  destruct (Z.ltb_spec k (size body)) as [Hk|Hk]; cbn [andb negb]; [|done].
  destruct (k <? last); cbn [negb]; [|done]. apply (ends_bind _ _ _ _ (at_ends body k)). intros c Hc.
  destruct (Ascii.eqb c space); [|done]. apply IH; lia.
Qed.
Lemma after_ends body last k : ends (space_after (turns body) body last k) (λ _, True).
Proof.
  destruct (Z.ltb_spec k 0) as [H|H].
  - unfold turns. rewrite Nat.add_comm. cbn [space_after Nat.add]. destruct (negb _); [done|].
    unfold at_. by rewrite (proj2 (Z.ltb_lt _ _) H).
  - apply space_after_ends; unfold turns, size in *; lia.
Qed.

Lemma line_break_ends body k : ends (line_break body k) (λ _, True).
Proof.
  apply (ends_bind _ _ _ _ (at_ends body k)). intros c _. destruct (Ascii.eqb c "010"); [done|].
  destruct (_ && _); [|done]. by apply (ends_bind _ _ _ _ (at_ends body (k + 1))).
Qed.

Lemma standalone_ends body n i a f1 f2 : ends (standalone body n i a f1 f2) (λ _, True).
Proof.
  unfold standalone. destruct (is_tag _); [done|].
  apply (ends_bind _ _ _ _ (before_ends body _ _)). intros [all j] _.
  apply (ends_bind _ _ (λ _, True)).
  { destruct all; [done|]. by apply (ends_bind _ _ _ _ (at_ends body j)). }
  intros at_line _. destruct (negb at_line); [done|].
  apply (ends_bind _ _ _ _ (after_ends body _ _)). intros [all' k] _.
  destruct (_ && _); [done|].
  apply (ends_bind _ _ (λ _, True)); [destruct all'; [done|apply line_break_ends]|].
  by intros [first|] _.
Qed.

Lemma standalones_ends body i v : ends (standalones body i v) (λ _, True).
Proof.
  revert v. induction i as [|i IH]; intros v; [done|]. cbn [standalones].
  apply (ends_bind _ _ (λ _, True)); [|by intros].
  destruct v as [fragments actions]. cbn [standalone_at].
  repeat (destruct (_ !! _); [|done]).
  apply (ends_bind _ _ _ _ (standalone_ends body _ i _ _ _)). by intros [[] ?] _.
Qed.

Lemma compile_ends body : ends (compile body) (λ _, True).
Proof.
  unfold compile, parse.
  apply (ends_bind _ _ (λ _, True)).
  { apply parse_tags_ends; [done|done| |unfold turns; lia].
    cbn [current]. unfold turns, size. lia. }
  intros st _. apply (ends_bind _ _ _ _ (standalones_ends body _ _)). by intros [] _.
Qed.

(** ** Blocks that are not balanced *)

(** C40: The parser ends on every text.  But it does not check that blocks are balanced.  The end of
    a block where none is open, after any trees, reads the last element of an empty vector,
    whatever follows.  A block that is never closed, with any trees before and after it, is
    accepted.  When there are only variables and comments before it, one at least, and the context
    makes the block be skipped, rendering never ends: what skips the block goes to the action after
    the one that closes it, which for want of such an action is the first.  The variables have
    texts in the context; texts, names and comments are those of C22. *)
Theorem unbalanced_blocks_go_wrong :
  (∀ body, compile body ≠ OutOfFuel) ∧
  (∀ l b n post, forallb tree_ok l = true → text_ok b = true → name_ok n = true →
     size (unopened l b n post) < 2 ^ 63 → compile (unopened l b n post) = Undef out_of_bounds) ∧
  (∀ l b inv n l' last, forallb tree_ok l = true → text_ok b = true → name_ok n = true →
     forallb tree_ok l' = true → last_ok last = true → size (unclosed l b inv n l' last) < 2 ^ 63 →
     ∃ tm, compile (unclosed l b inv n l' last) = Val tm ∧
       ∀ leaves loader fuel ctx,
         l = leaf_trees leaves → leaves ≠ [] → texts_of leaves ctx →
         skips inv (lookup_name n [ctx]) → render_string loader fuel tm ctx = OutOfFuel).
Proof.
  split; [|split].
  - intros body E. pose proof (compile_ends body) as H. by rewrite E in H.
  - intros l b n post. apply compile_unopened.
  - intros l b inv n l' last. apply compile_unclosed.
Qed.

(** A greeting whose block is not closed, and one whose block was not opened. *)
Definition greeting : list (bytes * leaf) := [(lit "Dear {} ", Var Escaped (lit "o.name"))].
Definition greeting_context : wvalue :=
  wvalue_of_object [(lit "o", wvalue_of_object [(lit "name", wvalue_of_string (lit "A"))])].
Lemma greeting_texts : texts_of greeting greeting_context.
Proof.
  intros s n H. cbn in H. apply list_elem_of_singleton in H as [= -> ->].
  exists (lit "A"). by vm_compute.
Qed.

Lemma unbalanced_blocks_go_wrong_witness :
  compile (lit "{{#a}}{{/a}}}{{/b}}") = Undef out_of_bounds ∧
  ∃ tm, compile (lit "Dear {} {{o.name}}, {{#b}}you{{x}}") = Val tm ∧
    ∀ loader fuel, render_string loader fuel tm greeting_context = OutOfFuel.
Proof.
  destruct unbalanced_blocks_go_wrong as (_ & Hu & Hc). split.
  - apply (Hu [Node [] false (lit "a") [] []] (lit "}") (lit "b") []); by vm_compute.
  - destruct (Hc (leaf_trees greeting) (lit ", ") false (lit "b")
                [Leaf (lit "you") (Var Escaped (lit "x"))] []) as (tm & Ec & Hl); [by vm_compute..|].
    exists tm. split; [exact Ec|]. intros loader fuel.
    apply (Hl greeting loader fuel greeting_context); [done|done|exact greeting_texts|by vm_compute].
Defined.

(** It ends when the block comes first, or is entered. *)
Definition rendered (template : string) (ctx : wvalue) : outcome string :=
  outcome_bind (compile (lit template)) (λ tm,
    outcome_map string_of_list_ascii (render_string no_loader 20 tm ctx)).
Example unclosed_first : rendered "x{{#b}}y" wvalue_null = Val "xy"%string.
Proof. vm_compute. reflexivity. Qed.
Example unclosed_entered :
  rendered "{{a}}{{#b}}x"
    (wvalue_of_object [(lit "a", wvalue_of_string (lit "1")); (lit "b", wvalue_of_bool true)])
  = Val "1x"%string.
Proof. vm_compute. reflexivity. Qed.

(** ** Names with dots *)

(** A dotted name in a section of an object is looked up in the object only, but not after an
    inverted section, whose end is counted and whose beginning is not. *)
Definition dotted (template : string) : outcome string :=
  let outer := wvalue_of_object
    [(lit "b", wvalue_of_object [(lit "c", wvalue_of_string (lit "outer"))]);
     (lit "o", wvalue_of_object [(lit "b", wvalue_of_object [])])] in
  outcome_bind (compile (lit template)) (λ tm,
    outcome_map string_of_list_ascii (render_string no_loader 20 tm outer)).
Example dotted_name_in_section : dotted "{{#o}}[{{b.c}}]{{/o}}" = Val "[]"%string.
Proof. vm_compute. reflexivity. Qed.
Example dotted_name_after_inverted_section :
  dotted "{{#o}}{{^z}}{{/z}}[{{b.c}}]{{/o}}" = Val "[outer]"%string.
Proof. vm_compute. reflexivity. Qed.

(** A tag of spaces is a name that has no end: what follows in the template. *)
Example blank_tag_names_the_rest :
  outcome_bind (compile (lit "{{ }} x")) (λ tm,
    match actions_ tm with a :: _ => outcome_map string_of_list_ascii (tag_name tm a) | [] => Aborted end)
  = Val "}} x"%string.
Proof. vm_compute. reflexivity. Qed.
