(* ===== verification/Server.v ===== *)
(** * The wallet's server: connections over the wallet's application

    src/main.cpp, [app.port(...).multithreaded().run()], with [Server] and [Crow] of
    lib/crowapi/crow_all.h: each connection hands its requests to the application's router,
    which ends responses with the connection's completion handler. *)

From Stdlib Require Import ZArith Lia Ascii String.
From stdpp Require Import base tactics option strings list gmap.
From S2P Require Import Prelude.
From S2P Require Import CppStd.
From S2P Require Import Store.
From S2P Require Import World.
From S2P Require Import QueryString.
From S2P Require Import Crow.
From S2P Require Import HttpParser.
From S2P Require Import HttpExecute.
From S2P Require Import HttpSafe.
From S2P Require Import Trie.
From S2P Require Import StaticFiles.
From S2P Require Import Router.
From S2P Require Import Connection.
From S2P Require Import ConnectionFacts.
From S2P Require Import Instances.
From S2P Require Import Api.
From S2P Require Import Wallet.
From S2P Require Import Concurrent.
From S2P Require Import App.

Section Server.
Context `{Doubles} {db : Type} `{KVStore db} `{Platform}.
(** The configuration, the cached date, the file system as [stat] and [std::ifstream] see it,
    and the address of the read buffer. *)
Context (config : Config) (get_cached_date_str : prog (World db) string)
        (stat : string → prog (World db) (option Z)) (read_file : string → prog (World db) string)
        (buffer_address : Z).
Local Open Scope prog_scope.

(** [VERSION], the default [server_name_] and [res_stream_threshold_]. *)
Definition server_name_ : string := "Crow/" +:+ "1.0".
Definition stream_threshold : Z := 1048576.

Abbreviation state := (response * (connection * World db))%type.

(** [res.complete_request_handler_] *)
Definition complete : prog state unit :=
  call_completion server_name_ get_cached_date_str read_file stream_threshold.

Definition conn_stat (path : string) : prog (connection * World db) (option Z) := on_state (stat path).

(** [router_], once [run] has validated the application; [run] does not return otherwise. *)
Definition router_ : router :=
  match wallet_router config complete conn_stat with Val r => r | _ => new_router end.

(** [Crow::handle] and [Crow::handle_upgrade] *)
Definition app_handle (req : request) : prog state unit := Router.handle complete router_ req.
Definition app_upgrade (req : request) : prog state unit := handle_upgrade complete router_ req.

Abbreviation settings :=
  (callbacks app_handle app_upgrade server_name_ get_cached_date_str read_file stream_threshold).

(** The events of one connection. *)
Definition serve_event : event → state → outcome unit * state :=
  take_event app_handle app_upgrade server_name_ get_cached_date_str read_file buffer_address
    stream_threshold.
Definition serve_connection : list event → state → option (outcome unit * state) :=
  take_events app_handle app_upgrade server_name_ get_cached_date_str read_file buffer_address
    stream_threshold.
End Server.

(** ** What a router keeps of a connection *)

Section RouterKeeps.
Context `{Doubles} {db : Type} `{KVStore db} `{Platform}.
Context (I : connection → Prop) (complete : prog (response * (connection * World db)) unit)
        (config : Config) (stat : string → prog (World db) (option Z)).
Hypothesis Hcomplete : triple (of_conn I) complete (of_conn I).

Abbreviation keeps p := (triple (of_conn (V:=World db) I) p (of_conn I)).

Lemma respond_keeps c k : keeps k → keeps (respond complete c k).
Proof. intros Hk. unfold respond, assign_res. repeat step_keeps. Qed.

Lemma redirect_slash_keeps req : keeps (redirect_slash complete req).
Proof. apply respond_keeps. step_keeps. Qed.

Lemma call_rule_keeps (rule : BaseRule) req params :
  match handler_ rule with Some h => keeps (h req params) | None => True end →
  keeps (call_rule complete rule req params).
Proof.
  intros Hh. unfold call_rule. apply triple_catch; [|intros e; apply respond_keeps, triple_done].
  destruct (handler_ rule); [done|]. by intros ? ? ?.
Qed.

Lemma wallet_rule_keeps rt req params :
  keeps (call_rule complete (wallet_rule config complete rt) req params).
Proof.
  apply call_rule_keeps. cbn [handler_ wallet_rule with_handler]. unfold wrapped_handler_call, assign_res.
  step_keeps; [apply triple_app|]. repeat step_keeps.
Qed.

Lemma static_rule_keeps req params :
  keeps (call_rule complete (static_rule complete (λ p, on_state (stat p))) req params).
Proof.
  apply call_rule_keeps. cbn [handler_ static_rule with_handler]. unfold serve_static.
  destruct (string_params params) as [|file ?]; [by intros ? ? ?|].
  destruct (sanitize_filename file _); [|by intros ? ? ?].
  step_keeps; [apply triple_app|].
  apply (triple_bind _ (of_conn I)); [|intros call; repeat step_keeps|done].
  intros [r [c v]] Hc _. rewrite run_update. by destruct (Response.set_static_file_info_unsafe _ _ _).
Qed.

Lemma code_keeps code : keeps (prog_bind (res_do (Response.set_code code)) (λ _, res_end complete)).
Proof. repeat step_keeps. Qed.

Lemma wallet_get_keeps req :
  keeps (wallet_get config complete (λ p, on_state (stat p)) req).
Proof.
  unfold wallet_get. destruct (target_of _).
  - apply wallet_rule_keeps.
  - apply static_rule_keeps.
  - apply code_keeps.
Qed.

Lemma wallet_handle_keeps req :
  keeps (wallet_handle config complete (λ p, on_state (stat p)) req).
Proof.
  unfold wallet_handle. pose proof (wallet_get_keeps req) as Hget.
  assert (∀ k, keeps k → keeps (respond complete 204 k)) as Hok by (intros; by apply respond_keeps).
  assert (keeps (respond complete 404 (Done tt))) as Hno by apply respond_keeps, triple_done.
  destruct (req_method req); try exact Hget; destruct (target_of (req_url req));
    first [apply code_keeps | apply Hok, triple_res_do
          | apply (triple_bind _ (of_conn I)); [apply triple_res_do|done|done] | idtac].
  destruct (String.eqb (req_url req) _); [apply Hok, triple_res_do|exact Hno].
Qed.

Lemma handle_upgrade_keeps r req : keeps (handle_upgrade complete r req).
Proof.
  unfold handle_upgrade, rule_handle_upgrade.
  repeat first [apply respond_keeps | apply redirect_slash_keeps
               | apply triple_catch; [|intros ?] | step_keeps].
  by intros ? ? ?.
Qed.
End RouterKeeps.
