(* ===== verification/ServerFacts.v ===== *)
(** * What a client can make of a connection

    The theorems on whole connections of the wallet's server: what holds whatever the events
    are, and the sequences of bytes that a client can send to make the server misbehave. *)

From Stdlib Require Import ZArith Lia Ascii String.
From stdpp Require Import base tactics option strings list gmap.
From S2P Require Import Prelude.
From S2P Require Import CppStd.
From S2P Require Import Store.
From S2P Require Import World.
From S2P Require Import QueryString.
From S2P Require Import Crow.
From S2P Require Import HttpParser.
From S2P Require Import HttpExecute.
From S2P Require Import HttpSafe.
From S2P Require Import Trie.
From S2P Require Import Router.
From S2P Require Import TrieFacts.
From S2P Require Import Connection.
From S2P Require Import ConnectionFacts.
From S2P Require Import Instances.
From S2P Require Import Api.
From S2P Require Import Wallet.
From S2P Require Import Concurrent.
From S2P Require Import App.
From S2P Require Import Server.

Section ServerFacts.
Context `{Doubles} {db : Type} `{KVStore db} `{Platform}.
Context (config : Config) (date : prog (World db) string)
        (stat : string → prog (World db) (option Z)) (read_file : string → prog (World db) string)
        (buffer_address : Z).

Lemma app_handle_keeps (I : connection → Prop) req :
  triple (of_conn I) (complete date read_file) (of_conn I) →
  triple (of_conn I) (app_handle config date stat read_file req) (of_conn I).
Proof.
  intros Hc. unfold app_handle, router_.
  destruct (wallet_router_handles config (complete date read_file) (conn_stat stat))
    as (r & -> & Hr).
  rewrite (Hr req). by apply wallet_handle_keeps.
Qed.

Lemma app_upgrade_keeps (I : connection → Prop) req :
  triple (of_conn I) (complete date read_file) (of_conn I) →
  triple (of_conn I) (app_upgrade config date stat read_file req) (of_conn I).
Proof. intros Hc. by apply handle_upgrade_keeps. Qed.

Lemma serve_connection_between evs w s :
  serve_connection config date stat read_file buffer_address evs (accepted w) = Some (Val tt, s) →
  between_handlers s.2.1.
Proof.
  intros Hev. refine (take_events_keeps server_name_ date read_file buffer_address stream_threshold
    (app_handle config date stat read_file) (app_upgrade config date stat read_file) _ _ evs _ _ s (accepted_between w) Hev eq_refl).
  - intros req. apply app_handle_keeps, call_completion_keeps.
  - intros req. apply app_upgrade_keeps, call_completion_keeps.
Qed.

Lemma serve_connection_ok evs w s :
  Forall (λ ev, ∀ b, ev = ReadDone (Some b) → nul ∉ b) evs →
  serve_connection config date stat read_file buffer_address evs (accepted w) = Some (Val tt, s) →
  parser_ok (parser_ s.2.1).
Proof.
  intros Hn. refine (take_events_ok (app_handle config date stat read_file)
    (app_upgrade config date stat read_file) server_name_ date read_file buffer_address
    stream_threshold _ _ evs _ _ Hn _).
  - intros req I HI. by apply app_handle_keeps, call_completion_parser.
  - intros req I HI. by apply app_upgrade_keeps, call_completion_parser.
  - intros _. by repeat split; vm_compute.
Qed.
End ServerFacts.

(** C34: no completion handler runs on a freed connection, unless the server has started two
    writes on it at once: after any sequence of reads, writes and timeouts in which no two
    writes have overlapped, an operation that can still complete belongs to a connection that
    has not been freed. *)
Theorem connection_outlives_its_operations `{Doubles} {db} `{KVStore db} `{Platform}
    config date stat read_file buffer_address evs (w : World db) s ev :
  serve_connection config date stat read_file buffer_address evs (accepted w) = Some (Val tt, s) →
  overlapped s.2.1 = false → enabled ev s.2.1 = true → destroyed s.2.1 = false.
Proof. intros Hs. by apply between_handlers_enabled, (serve_connection_between _ _ _ _ _ _ _ _ Hs). Qed.

(** C35: no client can fail an assertion of the parser without sending a NUL byte: after any
    events whose reads hold none, whatever has been answered in between, the next read is
    parsed to an answer. *)
Theorem connection_parses_input `{Doubles} {db} `{KVStore db} `{Platform}
    config date stat read_file buffer_address evs (w : World db) s buffer :
  serve_connection config date stat read_file buffer_address evs (accepted w) = Some (Val tt, s) →
  Forall (λ ev, ∀ b, ev = ReadDone (Some b) → nul ∉ b) evs → nul ∉ buffer →
  ∃ n, (http_parser_execute
          (callbacks (app_handle config date stat read_file) (app_upgrade config date stat read_file)
             server_name_ date read_file stream_threshold)
          buffer buffer_address HTTP_MAX_HEADER_SIZE (parser_ s.2.1) (s, None)).2 = Parsed n.
Proof.
  intros Hs Hn Hb.
  pose proof (serve_connection_ok config date stat read_file buffer_address evs w s Hn Hs) as Hok.
  destruct (HttpSafe.execute_keeps
    (callbacks (app_handle config date stat read_file) (app_upgrade config date stat read_file)
       server_name_ date read_file stream_threshold)) with buffer buffer_address
    HTTP_MAX_HEADER_SIZE (parser_ s.2.1) (s, @None (outcome unit)) as (n & Hp & _); try done.
  - apply callbacks_restart.
    + intros req I HI. by apply app_handle_keeps, call_completion_parser.
    + intros req I HI. by apply app_upgrade_keeps, call_completion_parser.
  - by exists n.
Qed.

(** ** A connection to a fresh server

    The store, the clock and the disk of the tests: the date does not change, there are no
    static files. *)

Definition test_date : string := "Mon, 01 Jan 2024 00:00:00 GMT".
Abbreviation test_server evs :=
  (@serve_connection integer_doubles (gmap string string) _ _ Config.defaults (Done test_date)
     (λ _, Done None) (λ _, Done ""%string) 4096 evs (accepted fresh)).

(** A request with the [Host] header and more header lines; its bytes in one read. *)
Definition request_text (line more : string) : string :=
  line +:+ " HTTP/1.1" +:+ Connection.crlf +:+ "Host: localhost" +:+ Connection.crlf +:+ more +:+ Connection.crlf.
Definition received (text : string) : event := ReadDone (Some (list_ascii_of_string text)).

(** The text of an answer, as the server writes it: its head for a body of a length, and the
    body. *)
Definition answer_head (status : string) (n : nat) : string :=
  "HTTP/1.1 " +:+ status +:+ Connection.crlf +:+
  "Content-Length: " +:+ to_string (Z.of_nat n) +:+ Connection.crlf +:+
  "Server: Crow/1.0" +:+ Connection.crlf +:+
  "Date: " +:+ test_date +:+ Connection.crlf +:+
  "Connection: Keep-Alive" +:+ Connection.crlf +:+ Connection.crlf.
Definition answer_text (status body : string) : string :=
  answer_head status (String.length body) +:+ body.

(** What has been sent when the events are over. *)
Definition sent_after {R V} (r : option (outcome unit * (R * (connection * V)))) : option string :=
  match r with Some (Val _, (_, (c, _))) => Some (sent c) | _ => None end.

(** The events are all enabled and their handlers return, in a state that satisfies [f]. *)
Definition ends_in {S} (f : S → bool) (r : option (outcome unit * S)) : bool :=
  match r with Some (Val _, s) => f s | _ => false end.

Lemma ends_in_val {S} (f : S → bool) r :
  ends_in f r = true → ∃ s, r = Some (Val tt, s) ∧ f s = true.
Proof. destruct r as [[[[]| | | | |] s]|]; try done. intros Hf. by exists s. Qed.

Lemma connection_outlives_its_operations_witness :
  ∃ s, test_server [received (request_text "GET /api/1.0/wallet/events" "")] = Some (Val tt, s) ∧
       destroyed s.2.1 = false.
Proof.
  destruct (ends_in_val (λ s, negb (overlapped s.2.1) && enabled (WriteDone true) s.2.1)
              (test_server [received (request_text "GET /api/1.0/wallet/events" "")]))
    as (s & Hs & Hf); [vm_compute; reflexivity|].
  exists s. split; [exact Hs|]. apply andb_true_iff in Hf as [Ho He]. apply negb_true_iff in Ho.
  exact (connection_outlives_its_operations _ _ _ _ _ _ _ s (WriteDone true) Hs Ho He).
Defined.

Lemma connection_parses_input_witness :
  ∃ s n, test_server [received "GET /api/1.0/"] = Some (Val tt, s) ∧
    (http_parser_execute
       (callbacks
          (@app_handle integer_doubles (gmap string string) _ _ Config.defaults (Done test_date)
             (λ _, Done None) (λ _, Done ""))
          (@app_upgrade integer_doubles (gmap string string) _ _ Config.defaults (Done test_date)
             (λ _, Done None) (λ _, Done ""))
          server_name_ (Done test_date) (λ _, Done "") stream_threshold)
       (list_ascii_of_string "wallet/events") 4096 HTTP_MAX_HEADER_SIZE (parser_ s.2.1)
       (s, None)).2 = Parsed n.
Proof.
  destruct (ends_in_val (λ _, true) (test_server [received "GET /api/1.0/"]))
    as (s & Hs & _); [vm_compute; reflexivity|].
  exists s. assert (nul ∉ list_ascii_of_string "GET /api/1.0/") as H1 by
    (refine (bool_decide_unpack _ _); vm_compute; exact I).
  assert (nul ∉ list_ascii_of_string "wallet/events") as H2 by
    (refine (bool_decide_unpack _ _); vm_compute; exact I).
  destruct (@connection_parses_input integer_doubles (gmap string string) _ _ Config.defaults
    (Done test_date) (λ _, Done None) (λ _, Done ""%string) 4096 [received "GET /api/1.0/"] fresh s
    (list_ascii_of_string "wallet/events") Hs) as [n Hp]; [|exact H2|exists n; split; [exact Hs|exact Hp]].
  constructor; [|constructor]. by intros b [= <-].
Defined.

(** A client can make the server use a connection it has freed.  One byte after a request,
    a line feed, has the request answered twice: the two writes overlap, and the completion of
    the second runs on the connection the first has freed, here because the client asked to
    close it. *)
Theorem newline_after_request_uses_freed_connection :
  (λ r, (r.1, overlapped r.2.2.1)) <$>
    test_server [received (request_text "GET /api/1.0/wallet/events"
                             ("Connection: close" +:+ Connection.crlf) +:+ String lf "");
                 WriteDone true; WriteDone true] = Some (Undef use_after_free, true).
Proof. vm_compute. reflexivity. Qed.

(** A client can stop the server with one request: a NUL at the start of the value of
    [Connection] leads to the assertion that is said not to be reached. *)
Theorem nul_in_connection_header_aborts :
  fst <$> test_server [received (request_text "GET /api/1.0/wallet/events"
                         ("Connection: " +:+ String nul "x" +:+ Connection.crlf))] = Some Aborted.
Proof. vm_compute. reflexivity. Qed.

(** On one connection, a request is answered after the previous answer has been written,
    with the balance the earlier request has stored. *)
Theorem requests_in_turn_are_answered :
  sent_after (test_server [received (request_text "GET /api/1.0/wallet/create_account?startAmount=100" "");
                           WriteDone true;
                           received (request_text "GET /api/1.0/wallet/get_balance?accountID=700000001" "");
                           WriteDone true]) =
  Some (answer_text "200 OK" ("Account: 700000001 : Balance: 100" +:+ endl) +:+
        answer_text "200 OK" ("Account: 700000001 : Balance: 100" +:+ endl)).
Proof. vm_compute. reflexivity. Qed.

(** After a HEAD request, no answer on the same connection has a body, though its
    [Content-Length] announces one: [skip_body] is never reset. *)
Theorem head_request_empties_next_answer :
  sent_after (test_server [received (request_text "HEAD /api/1.0/wallet/get_balance?accountID=1" "");
                           WriteDone true;
                           received (request_text "GET /api/1.0/wallet/get_balance?accountID=1" "");
                           WriteDone true]) =
  Some (answer_head "200 OK" 18 +:+ answer_head "200 OK" 18).
Proof. vm_compute. reflexivity. Qed.

(** How the network divides a request decides its answer: when a read ends inside the
    path of the URL, the query counts as part of the path and the route is not found. *)
Theorem divided_url_is_not_found :
  let answer events := sent_after (test_server events) in
  answer [received (request_text "GET /api/1.0/wallet/get_balance?accountID=1" ""); WriteDone true] =
    Some (answer_text "200 OK" ("Account not found" +:+ endl)) ∧
  answer [received "GET /api/1.0/wallet/get_b";
          received (request_text "alance?accountID=1" ""); WriteDone true] =
    Some (answer_text "404 Not Found" ("404 Not Found" +:+ Connection.crlf)).
Proof. split; vm_compute; reflexivity. Qed.

(** A request with [Expect: 100-continue] is not served: the interim answer, once
    written, clears the parser, the body is then read as another request, and the connection
    is closed without an answer. *)
Theorem expect_continue_loses_request :
  let head := request_text "POST /api/1.0/wallet/get_balance?accountID=1"
                ("Expect: 100-continue" +:+ Connection.crlf +:+
                 "Content-Length: 5" +:+ Connection.crlf) in
  (λ r, (r.1, sent r.2.2.1, p_errno (parser_ r.2.2.1), destroyed r.2.2.1)) <$>
    test_server [received head; WriteDone true; received "hello"] =
  Some (Val tt, "HTTP/1.1 100 Continue" +:+ Connection.crlf +:+ Connection.crlf,
        CHPE_INVALID_METHOD, true).
Proof. vm_compute. reflexivity. Qed.

(** What arrives while an answer is being written is lost: once a message is complete,
    the bytes of the next read, whatever they are, change nothing but that another read is
    started. *)
Theorem early_bytes_are_lost `{Doubles} {db} `{KVStore db} `{Platform}
    config date stat read_file buffer_address (res : response) (c : connection) (w : World db) bytes :
  message_complete (msg c) = true → is_open c = true → close_connection_ c = false →
  need_to_call_after_handlers_ c = false → destroyed c = false →
  serve_event config date stat read_file buffer_address (ReadDone (Some bytes)) (res, (c, w)) =
  (Val tt, (res, (set_reads (S (reads c - 1)) (set_is_reading true (call_timer ScheduleTask (call_timer CancelTask c))), w))).
Proof.
  intros Hm Ho Hc Hn Hd. unfold serve_event, take_event. rewrite Hd.
  cbn [completion_program]. unfold read_done, feed, start_deadline, cancel_deadline_timer, do_read.
  run_simpl. unfold conn, conn_do. cbn. rewrite Hm. cbn. rewrite Ho, Hc. cbn. rewrite Hn. done.
Qed.

Lemma early_bytes_are_lost_witness :
  let c := set_msg (set_message_complete true new_message) (set_reads 1 new_connection) in
  message_complete (msg c) = true ∧
  @serve_event integer_doubles (gmap string string) _ _ Config.defaults (Done test_date)
    (λ _, Done None) (λ _, Done ""%string) 4096
    (received (request_text "GET /api/1.0/wallet/events" "")) (Response.empty, (c, fresh)) =
  (Val tt, (Response.empty, (set_reads 1 (set_is_reading true (call_timer ScheduleTask (call_timer CancelTask c))), fresh))).
Proof.
  intros c. split; [reflexivity|].
  exact (@early_bytes_are_lost integer_doubles (gmap string string) _ _ Config.defaults
    (Done test_date) (λ _, Done None) (λ _, Done ""%string) 4096 Response.empty c fresh
    (list_ascii_of_string (request_text "GET /api/1.0/wallet/events" ""))
    eq_refl eq_refl eq_refl eq_refl eq_refl).
Defined.
