(* ===== verification/Worker.v ===== *)
(** * The worker threads of the server

    lib/crowapi/crow_all.h, class [Server]: the acceptor, which gives each connection to the
    worker with the shortest queue, and the workers, each with its [io_service], the
    [task_timer] its connections share, and the length of its queue.

    A worker runs the handlers of its connections one at a time.  A connection logs the calls
    it makes to the timer (file Connection); [handler_ran] makes them on the worker's timer,
    where what a connection has stored as its [task_id_] decides which entry a cancellation
    erases.  The constructor does not set [task_id_]: its first value is what the memory of the
    connection holds, an argument of the event that allocates it.  The clock does not advance
    within a handler. *)

From Stdlib Require Import ZArith Lia Ascii String.
From stdpp Require Import base tactics option strings list gmap.
From S2P Require Import Prelude.
From S2P Require Import CppStd.
From S2P Require Import Store.
From S2P Require Import World.
From S2P Require Import Crow.
From S2P Require Import Trie.
From S2P Require Import Router.
From S2P Require Import TaskTimer.
From S2P Require Import Connection.
From S2P Require Import Server.

(** ** pick_io_service_idx *)

Local Open Scope Z_scope.

(** The loop from [i] on; [rest] holds the lengths from index [i]. *)
Fixpoint pick_loop (lengths : list Z) (i : nat) (rest : list Z) (min_queue_idx : nat) : nat :=
  match rest with
  | [] => min_queue_idx
  | length_i :: rest =>
      let length_min := default 0 (lengths !! min_queue_idx) in
      if 0 <? length_min then
        pick_loop lengths (S i) rest (if length_i <? length_min then i else min_queue_idx)
      else min_queue_idx
  end.
Definition pick_io_service_idx (lengths : list Z) : nat := pick_loop lengths 1 (tail lengths) 0.

(** ** The cached date of a worker

    [strftime] gives the date as a header has it, at a time. *)

Record date_cache : Type := MkDateCache { last : Z; date_str : string }.

Definition new_date_cache (strftime : Z → string) (now : Z) : date_cache :=
  MkDateCache now (strftime now).

(** The function in [get_cached_date_str_pool_]. *)
Definition get_cached_date_str (strftime : Z → string) (now : Z) (c : date_cache)
    : string * date_cache :=
  let c' := if seconds 1 <=? now - last c then MkDateCache now (strftime now) else c in
  (date_str c', c').

(** The date is that of a moment less than a second before. *)
Lemma cached_date_recent strftime now c :
  date_str c = strftime (last c) →
  let '(s, c') := get_cached_date_str strftime now c in
  s = strftime (last c') ∧ date_str c' = strftime (last c') ∧ now - last c' < seconds 1.
Proof.
  intros Hc. unfold get_cached_date_str. destruct (Z.leb_spec (seconds 1) (now - last c)); cbn.
  - split_and!; [done..|]. rewrite Z.sub_diag. by vm_compute.
  - by split_and!.
Qed.

(** ** The state of a worker *)

(** A connection with its response and its [task_id_]. *)
Record served : Type := MkServed { s_res : response; s_conn : connection; task_id_ : Z }.

Record worker : Type := MkWorker {
  timer : task_timer nat;
  conns : list served;
  posted : list nat;
  queue_length : Z
}.

(** What a thread of [run] starts with. *)
Definition new_worker (timeout_ : Z) : worker :=
  MkWorker (set_default_timeout timeout_ new_task_timer) [] [] 0.

Definition set_timer (t : task_timer nat) (w : worker) : worker :=
  MkWorker t (conns w) (posted w) (queue_length w).
Definition set_queue_length (n : Z) (w : worker) : worker :=
  MkWorker (timer w) (conns w) (posted w) n.

(** [std::atomic<unsigned int>] *)
Definition uint_incr (n : Z) : Z := (n + 1) mod 2 ^ 32.
Definition uint_decr (n : Z) : Z := (n - 1) mod 2 ^ 32.

(** *** The calls of a connection to the timer *)

Definition replay_call (now : Z) (k : nat) (call : timer_call) (s : task_timer nat * Z)
    : task_timer nat * Z :=
  match call with
  | CancelTask => (cancel s.2 s.1, s.2)
  | ScheduleTask => let '(id, t) := schedule now k s.1 in (t, id)
  | TaskRun => s
  end.
Definition replay (now : Z) (k : nat) (calls : list timer_call) (s : task_timer nat * Z)
    : task_timer nat * Z :=
  foldr (replay_call now k) s calls.

(** The calls logged since [c]. *)
Definition new_calls (c c' : connection) : list timer_call :=
  take (length (timer_calls c') - length (timer_calls c)) (timer_calls c').

(** The worker after a handler of connection [k] has made of [x] the response [r] and the
    connection [c]: the timer's calls are made, and [check_destroy] has counted the connection
    off when it has freed it. *)
Definition handler_ran (now : Z) (k : nat) (x : served) (r : response) (c : connection)
    (w : worker) : worker :=
  let '(t, id) := replay now k (new_calls (s_conn x) c) (timer w, task_id_ x) in
  MkWorker t (<[k := MkServed r c id]> (conns w)) (posted w)
    (if destroyed c && negb (destroyed (s_conn x)) then uint_decr (queue_length w)
     else queue_length w).

Section Worker.
Context `{Doubles} {db : Type} `{KVStore db} `{Platform}.
Context (config : Config) (cached_date : prog (World db) string)
        (stat : string → prog (World db) (option Z)) (read_file : string → prog (World db) string)
        (buffer_address : Z).


Abbreviation state := (response * (connection * World db))%type.
Abbreviation serve := (serve_event config cached_date stat read_file buffer_address).

Definition work : Type := worker * World db.

(** A handler of connection [k] is run. *)
Definition run_handler (now : Z) (k : nat) (f : state → outcome unit * state) (s : work)
    : outcome unit * work :=
  match conns s.1 !! k with
  | None => (Val tt, s)
  | Some x =>
      let '(o, (r, (c, v))) := f (s_res x, (s_conn x, s.2)) in
      (o, (handler_ran now k x r c s.1, v))
  end.

(** *** What a worker does

    The [start] of a connection that has been accepted, the completion of an operation, and
    the timer's tick. *)
Inductive work_event : Type :=
| Started (k : nat)
| Completed (k : nat) (ev : event)
| Tick.

Definition work_enabled (ev : work_event) (w : worker) : bool :=
  match ev with
  | Started k => bool_decide (k ∈ posted w)
  | Completed k ev =>
      match ev, conns w !! k with
      | DeadlineExpired, _ | _, None => false
      | ev, Some x => enabled ev (s_conn x)
      end
  | Tick => true
  end.

(** The function that [start_deadline] has scheduled. *)
Definition run_task (now : Z) (k : nat) : prog work unit :=
  Atom (λ s, let '(o, s') := run_handler now k (serve DeadlineExpired) s in (outcome_map Done o, s')).

(** [tick_handler] *)
Definition tick_handler (now : Z) : prog work unit :=
  process_tasks (λ s : work, timer s.1) (λ t s, (set_timer t s.1, s.2)) (run_task now) now.

Definition work_step (now : Z) (ev : work_event) (s : work) : outcome unit * work :=
  match ev with
  | Started k =>
      run_handler now k (run Connection.start)
        (MkWorker (timer s.1) (conns s.1) (filter (λ k', k' ≠ k) (posted s.1)) (queue_length s.1), s.2)
  | Completed k ev => run_handler now k (serve ev) s
  | Tick => run (tick_handler now) s
  end.

(** ** The server: the acceptor and its workers *)

Record pool : Type := MkPool {
  workers : list worker;
  (** The connection [async_accept] is to fill: its worker, and what its [task_id_] holds. *)
  accepting : option (nat * Z);
  world : World db
}.

(** [do_accept]; no value when there is no worker. *)
Definition do_accept (garbage : Z) (p : pool) : option pool :=
  let service_idx := pick_io_service_idx (queue_length <$> workers p) in
  w ← workers p !! service_idx;
  Some (MkPool (<[service_idx := set_queue_length (uint_incr (queue_length w)) w]> (workers p))
          (Some (service_idx, garbage)) (world p)).

(** The handler of [async_accept], up to its call of [do_accept]. *)
Definition accept_done (ok : bool) (p : pool) : option pool :=
  '(service_idx, id) ← accepting p;
  w ← workers p !! service_idx;
  let w' :=
    if ok then
      (** [is.post([p] { p->start(); });] *)
      MkWorker (timer w) (conns w ++ [MkServed Response.empty new_connection id])
        (posted w ++ [length (conns w)]) (queue_length w)
    else
      (** [delete p] cancels the deadline of the connection. *)
      MkWorker (cancel id (timer w)) (conns w) (posted w) (uint_decr (queue_length w))
  in Some (MkPool (<[service_idx := w']> (workers p)) None (world p)).

(** [run()], for [concurrency_] threads, up to its first [do_accept]. *)
Definition new_pool (concurrency_ timeout_ : Z) (v : World db) : pool :=
  MkPool (replicate (Z.to_nat (concurrency_ - 1)) (new_worker timeout_)) None v.

Inductive server_event : Type :=
| AcceptDone (ok : bool) (garbage : Z)
| Work (i : nat) (now : Z) (ev : work_event).

(** A step of the server: no value where the event cannot happen.  An exception that leaves a
    handler is caught by the worker's thread, which goes on. *)
Definition server_step (ev : server_event) (p : pool) : option (outcome unit * pool) :=
  match ev with
  | AcceptDone ok garbage => p ← accept_done ok p; p ← do_accept garbage p; Some (Val tt, p)
  | Work i now ev =>
      w ← workers p !! i;
      if work_enabled ev w then
        let '(o, (w', v')) := work_step now ev (w, world p) in
        Some (o, MkPool (<[i := w']> (workers p)) (accepting p) v')
      else None
  end.

(** The events of a run, as long as no handler has undefined behaviour or aborts. *)
Fixpoint server_run (evs : list server_event) (p : pool) : option pool :=
  match evs with
  | [] => Some p
  | ev :: evs =>
      '(o, p) ← server_step ev p;
      match o with Val _ | Throw _ => server_run evs p | _ => None end
  end.

(** The states a server comes to from its start. *)
Definition server_reaches (concurrency_ : Z) (garbage : Z) (v : World db) (evs : list server_event)
    (p : pool) : Prop :=
  ∃ p0, do_accept garbage (new_pool concurrency_ 5 v) = Some p0 ∧ server_run evs p0 = Some p.
End Worker.
