(* ===== verification/WorkerFacts.v ===== *)
(** * The workers: balanced queues, and deadlines

    The invariant of a worker and of the server's pool of workers: what the tasks in a timer say
    of the connections they belong to, and what the length of a queue counts; and that every
    step of the server keeps it. *)

From Stdlib Require Import ZArith Lia Ascii String.
From stdpp Require Import base tactics option strings list gmap sorting.
From S2P Require Import Prelude.
From S2P Require Import CppStd.
From S2P Require Import Store.
From S2P Require Import World.
From S2P Require Import Crow.
From S2P Require Import Trie.
From S2P Require Import TrieFacts.
From S2P Require Import Router.
From S2P Require Import TaskTimer.
From S2P Require Import Connection.
From S2P Require Import ConnectionFacts.
From S2P Require Import Instances.
From S2P Require Import Wallet.
From S2P Require Import Server.
From S2P Require Import ServerFacts.
From S2P Require Import Worker.

Local Open Scope Z_scope.

(** ** The shortest queue *)

Definition least (lengths : list Z) (r : nat) : Prop :=
  ∃ x, lengths !! r = Some x ∧ ∀ j y, lengths !! j = Some y → x ≤ y ∧ ((j < r)%nat → x < y).

Lemma pick_loop_least lengths i rest m :
  Forall (λ x, 0 ≤ x) lengths → drop i lengths = rest → (m < i)%nat → (i ≤ length lengths)%nat →
  (∀ x j y, lengths !! m = Some x → (j < i)%nat → lengths !! j = Some y →
     x ≤ y ∧ ((j < m)%nat → x < y)) →
  least lengths (pick_loop lengths i rest m).
Proof.
  intros Hpos. revert i m. induction rest as [|y rest IH]; intros i m Hrest Hmi Hi Hm; cbn [pick_loop].
  - assert (length lengths ≤ i)%nat by (apply (f_equal length) in Hrest; rewrite length_drop in Hrest; cbn in Hrest; lia).
    destruct (lookup_lt_is_Some_2 lengths m) as [x Hx]; [lia|]. exists x. split; [done|].
    intros j z Hz. apply (Hm x j z Hx); [|done]. apply lookup_lt_Some in Hz. lia.
  - assert (lengths !! i = Some y) as Hy.
    { by rewrite <- (Nat.add_0_r i), <- lookup_drop, Hrest. }
    apply lookup_lt_Some in Hy as Hlt.
    destruct (lookup_lt_is_Some_2 lengths m) as [x Hx]; [lia|]. rewrite Hx. cbn [default].
    unfold default, from_option, id.
    destruct (0 <? x) eqn:E0.
    + apply IH; [|destruct (y <? x); lia|lia|].
      { by rewrite <- Nat.add_1_r, <- drop_drop, Hrest. }
      intros x' j z Hx' Hj Hz. destruct (y <? x) eqn:Eyx.
      * apply Z.ltb_lt in Eyx. rewrite Hy in Hx'. injection Hx' as <-.
        destruct (decide (j = i)) as [->|]; [rewrite Hy in Hz; injection Hz as <-; lia|].
        destruct (Hm x j z Hx) as [? _]; [lia|done|]. lia.
      * apply Z.ltb_ge in Eyx. rewrite Hx in Hx'. injection Hx' as <-.
        destruct (decide (j = i)) as [->|].
        -- rewrite Hy in Hz. injection Hz as <-. lia.
        -- apply (Hm x j z Hx); [lia|done].
    + apply Z.ltb_ge in E0. exists x. split; [done|]. intros j z Hz.
      assert (0 ≤ z) by (eapply (Forall_lookup_1 _ lengths j); [exact Hpos|done]).
      assert (0 ≤ x) by (eapply (Forall_lookup_1 _ lengths m); [exact Hpos|done]).
      split; [lia|]. intros Hj. apply (Hm x j z Hx); [lia|done|done].
Qed.

Lemma pick_least lengths :
  lengths ≠ [] → Forall (λ x, 0 ≤ x) lengths → least lengths (pick_io_service_idx lengths).
Proof.
  intros Hne Hpos. destruct lengths as [|x lengths]; [done|].
  apply pick_loop_least; [done|done|lia|cbn; lia|].
  intros x' j y Hx' Hj Hy. assert (j = 0%nat) as -> by lia. cbn in *. split; [|lia].
  injection Hx' as ->. injection Hy as ->. lia.
Qed.

(** ** The calls of a handler *)

(** What a handler can log, newest first. *)
Inductive made : list timer_call → Prop :=
| made_nil : made []
| made_cancel n : made n → made (CancelTask :: n)
| made_start n : made n → made (ScheduleTask :: CancelTask :: n).

(** Logged since [t0]. *)
Definition made_since (t0 t : list timer_call) : Prop := ∃ n, t = n ++ t0 ∧ made n.

Lemma made_since_refl t0 : made_since t0 t0.
Proof. exists []. by repeat constructor. Qed.
Lemma made_since_cancel t0 t : made_since t0 t → made_since t0 (CancelTask :: t).
Proof. intros (n & -> & Hn). exists (CancelTask :: n). split; [done|by constructor]. Qed.
Lemma made_since_start t0 t : made_since t0 t → made_since t0 (ScheduleTask :: CancelTask :: t).
Proof. intros (n & -> & Hn). exists (ScheduleTask :: CancelTask :: n). split; [done|by constructor]. Qed.
#[local] Hint Resolve made_since_refl made_since_cancel made_since_start : core.

(** What a handler makes of the calls of [c] and of its record of overlapping writes. *)
Definition since (c : connection) (t : list timer_call) (o : bool) : Prop :=
  made_since (timer_calls c) t ∧ (overlapped c = true → o = true).

Lemma since_refl c : since c (timer_calls c) (overlapped c).
Proof. by split. Qed.
Lemma since_cancel c t o : since c t o → since c (CancelTask :: t) o.
Proof. intros []. split; auto. Qed.
Lemma since_start c t o : since c t o → since c (ScheduleTask :: CancelTask :: t) o.
Proof. intros []. split; auto. Qed.
Lemma since_overlap c t o o' : since c t o → since c t (o || o').
Proof. intros [? Ho]. split; [done|]. intros E. by rewrite Ho. Qed.
#[local] Hint Resolve since_refl since_cancel since_start since_overlap : core.

Lemma new_calls_app c c' n : timer_calls c' = n ++ timer_calls c → new_calls c c' = n.
Proof.
  intros E. unfold new_calls. rewrite E, length_app.
  replace (length n + length (timer_calls c) - length (timer_calls c))%nat with (length n) by lia.
  apply take_app_length.
Qed.

(** The last call is a [ScheduleTask]. *)
Definition last_schedules (t : list timer_call) : bool :=
  match head t with Some ScheduleTask => true | _ => false end.

(** Entries of connection [k] in the table, while it holds [id] and has made the calls [t]. *)
Definition entries_of (k : nat) (t : list timer_call) (id : Z) (m : list (Z * (Z * nat))) : Prop :=
  ∀ id' tm, (id', (tm, k)) ∈ m → id' = id ∧ last_schedules t = true.

Lemma replay_spec now k n t0 t id :
  made n → timer_wf t → entries_of k t0 id (tasks_ t) →
  highest_id_ t + Z.of_nat (length n) < 2 ^ 64 - 1 →
  let '(t', id') := replay now k n (t, id) in
  timer_wf t' ∧ entries_of k (n ++ t0) id' (tasks_ t') ∧
  highest_id_ t' ≤ highest_id_ t + Z.of_nat (length n) ∧
  (∀ e, e ∈ tasks_ t' → e.2.2 ≠ k → e ∈ tasks_ t).
Proof.
  assert (∀ k id t1 t', entries_of k t1 id (tasks_ t') → entries_of k (CancelTask :: t1) id (tasks_ (cancel id t'))) as Hcancel.
  { clear. intros k id t1 t' He id' tm [Hne Hin]%elem_of_map_erase. destruct (He _ _ Hin) as [-> _]. done. }
  intros Hn. revert t id. induction Hn as [|n Hn IH|n Hn IH]; intros t id Hwf He Hh.
  - cbn [replay foldr length app]. split_and!; [done|done|lia|done].
  - cbn [length] in Hh. specialize (IH t id Hwf He ltac:(lia)).
    unfold replay in *. cbn [foldr replay_call].
    destruct (foldr (replay_call now k) (t, id) n) as [t1 id1]. destruct IH as (H1 & H2 & H3 & H4).
    cbn [fst snd app length]. split_and!; [by apply cancel_wf|by apply Hcancel|cbn [highest_id_ cancel]; lia|].
    intros e [_ Hin]%elem_of_map_erase Hk. by apply H4.
  - cbn [length] in Hh. specialize (IH t id Hwf He ltac:(lia)).
    unfold replay in *. cbn [foldr replay_call].
    destruct (foldr (replay_call now k) (t, id) n) as [t1 id1]. destruct IH as (H1 & H2 & H3 & H4).
    cbn [fst snd app length]. set (t2 := cancel id1 t1).
    assert (timer_wf t2) as Hwf2 by by apply cancel_wf.
    assert (highest_id_ t2 < 2 ^ 64 - 1) as Hlt by (cbn [t2 highest_id_ cancel]; lia).
    pose proof (schedule_tasks now k (default_timeout_ t2) t2 Hwf2 Hlt) as Ht.
    pose proof (schedule_wf now k (default_timeout_ t2) t2 Hwf2 Hlt) as Hwf3.
    unfold schedule. destruct (schedule_after now k (default_timeout_ t2) t2) as [id3 t3] eqn:E3.
    cbn [snd] in Ht, Hwf3. assert (id3 = highest_id_ t2 + 1 ∧ highest_id_ t3 = highest_id_ t2 + 1) as [-> Hh3].
    { unfold schedule_after in E3. rewrite (next_id_eq t2 Hwf2 Hlt) in E3. by injection E3 as <- <-. }
    split_and!; [done| |rewrite Hh3; cbn [t2 highest_id_ cancel]; lia|].
    + intros id' tm Hin. rewrite Ht in Hin. apply elem_of_app in Hin as [Hin|Hin].
      * destruct (Hcancel _ _ _ _ H2 _ _ Hin) as [_ ?]. done.
      * apply list_elem_of_singleton in Hin. injection Hin as -> _. done.
    + intros e Hin Hk. rewrite Ht in Hin. apply elem_of_app in Hin as [Hin|Hin].
      * apply elem_of_map_erase in Hin as [_ Hin]. by apply H4.
      * apply list_elem_of_singleton in Hin as ->. done.
Qed.

(** ** The invariant of a worker *)

(** The calls its connections have made to the timer. *)
Definition calls_made (w : worker) : Z :=
  Z.of_nat (sum_list_with (λ x, length (timer_calls (s_conn x))) (conns w)).

(** The connections that have not been freed. *)
Definition live (w : worker) : Z :=
  Z.of_nat (sum_list_with (λ x, if destroyed (s_conn x) then 0%nat else 1%nat) (conns w)).

(** What a worker never forgets. *)
Definition grows (w w' : worker) : Prop :=
  calls_made w ≤ calls_made w' ∧
  ∀ k x, conns w !! k = Some x → ∃ x', conns w' !! k = Some x' ∧
    (overlapped (s_conn x) = true → overlapped (s_conn x') = true).

Record worker_ok (w : worker) : Prop := WorkerOk {
  ok_timer : timer_wf (timer w);
  ok_entries : ∀ id tm k, (id, (tm, k)) ∈ tasks_ (timer w) →
    ∃ x, conns w !! k = Some x ∧ task_id_ x = id ∧ deadline (s_conn x) = true;
  ok_highest : highest_id_ (timer w) ≤ calls_made w;
  ok_conns : Forall (λ x, between_handlers (s_conn x)) (conns w);
  ok_posted : ∀ k, k ∈ posted w → ∃ x, conns w !! k = Some x ∧ s_conn x = new_connection
}.

(** No connection has started a write while another was under way, and fewer calls have been
    made than there are identifiers. *)
Definition worker_fair (w : worker) : Prop :=
  Forall (λ x, overlapped (s_conn x) = false) (conns w) ∧ calls_made w < 2 ^ 64 - 1.

Lemma sum_list_insert {A} (f : A → nat) l k x y :
  l !! k = Some x → (sum_list_with f (<[k := y]> l) + f x = sum_list_with f l + f y)%nat.
Proof.
  revert k. induction l as [|z l IH]; intros [|k]; simpl; [done|done|..].
  - intros [= ->]. lia.
  - intros Hk. specialize (IH k Hk). unfold insert in *. lia.
Qed.

#[global] Instance grows_preorder : PreOrder grows.
Proof.
  split.
  - intros w. split; [done|]. intros k x Hx. by exists x.
  - intros w1 w2 w3 [? H12] [? H23]. split; [lia|]. intros k x Hx.
    destruct (H12 k x Hx) as (y & Hy & ?). destruct (H23 k y Hy) as (z & ? & ?). exists z. auto.
Qed.

Lemma grows_fair w w' : grows w w' → worker_fair w' → worker_fair w.
Proof.
  intros [Hc Hg] [Ho Hb]. split; [|lia]. apply Forall_lookup_2. intros k x Hx.
  destruct (Hg k x Hx) as (x' & Hx' & Hov). pose proof (Forall_lookup_1 _ _ _ _ Ho Hx') as Hf.
  cbn in Hf. destruct (overlapped (s_conn x)); [|done]. by rewrite Hov in Hf.
Qed.

(** One connection changes. *)
Lemma grows_insert w k x y t posted_ n :
  conns w !! k = Some x → (length (timer_calls (s_conn x)) ≤ length (timer_calls (s_conn y)))%nat →
  (overlapped (s_conn x) = true → overlapped (s_conn y) = true) →
  grows w (MkWorker t (<[k := y]> (conns w)) posted_ n).
Proof.
  intros Hx Hc Ho. split.
  - pose proof (sum_list_insert (λ x, length (timer_calls (s_conn x))) _ k x y Hx).
    unfold calls_made. cbn [conns]. lia.
  - intros k' x' Hx'. cbn [conns]. destruct (decide (k' = k)) as [->|].
    + rewrite list_lookup_insert_eq by by eapply lookup_lt_Some. exists y. split; [done|].
      rewrite Hx in Hx'. by injection Hx' as <-.
    + rewrite list_lookup_insert_ne by done. by exists x'.
Qed.

(** The length of the queue counts the connections, and [b] more. *)
Definition queue_ok (b : Z) (w : worker) : Prop := queue_length w = (live w + b) mod 2 ^ 32.

Lemma handler_ran_queue b now k x r c w :
  conns w !! k = Some x → destroyed (s_conn x) = false → queue_ok b w →
  queue_ok b (handler_ran now k x r c w).
Proof.
  unfold queue_ok, handler_ran. intros Hx Hd Hq. destruct (replay _ _ _ _) as [t id].
  pose proof (sum_list_insert (λ x, if destroyed (s_conn x) then 0%nat else 1%nat) _ k x
    (MkServed r c id) Hx) as Hs. unfold live in *. cbn [conns queue_length s_conn] in *.
  rewrite Hd in *. cbn [negb]. rewrite andb_true_r. destruct (destroyed c).
  - unfold uint_decr. rewrite Hq. rewrite Zminus_mod_idemp_l. f_equal. lia.
  - rewrite Hq. f_equal. lia.
Qed.

Lemma handler_ran_grows now k x r c n w :
  conns w !! k = Some x → timer_calls c = n ++ timer_calls (s_conn x) →
  (overlapped (s_conn x) = true → overlapped c = true) →
  grows w (handler_ran now k x r c w).
Proof.
  intros Hx Hn Ho. unfold handler_ran. destruct (replay _ _ _ _) as [t id].
  apply (grows_insert _ _ x); [done| |done]. cbn [s_conn]. rewrite Hn, length_app. lia.
Qed.

Lemma new_worker_ok timeout : worker_ok (new_worker timeout).
Proof.
  split; cbn; [by repeat constructor|by intros ? ? ? ?%elem_of_nil|done|by constructor|].
  by intros ? ?%elem_of_nil.
Qed.

Lemma entries_of_worker w k x :
  worker_ok w → conns w !! k = Some x →
  entries_of k (timer_calls (s_conn x)) (task_id_ x) (tasks_ (timer w)).
Proof.
  intros Hw Hx id' tm Hin. destruct (ok_entries w Hw _ _ _ Hin) as (x' & Hx' & <- & Hd).
  rewrite Hx in Hx'. injection Hx' as <-. done.
Qed.

(** A handler that keeps the invariant of its connection and makes calls keeps the worker's. *)
Lemma handler_ran_ok now k x r c n w :
  worker_ok w → conns w !! k = Some x → k ∉ posted w →
  timer_calls c = n ++ timer_calls (s_conn x) → made n → between_handlers c →
  calls_made (handler_ran now k x r c w) < 2 ^ 64 - 1 →
  worker_ok (handler_ran now k x r c w).
Proof.
  intros Hw Hx Hk Hn Hmade Hb. unfold handler_ran. rewrite (new_calls_app _ _ n Hn).
  pose proof (replay_spec now k n (timer_calls (s_conn x)) (timer w) (task_id_ x) Hmade
    (ok_timer w Hw) (entries_of_worker w k x Hw Hx)) as Hr.
  destruct (replay _ _ _ _) as [t id]. intros Hcalls.
  assert (calls_made w + Z.of_nat (length n) =
          calls_made (MkWorker t (<[k:=MkServed r c id]> (conns w)) (posted w) (queue_length w))) as Hsum.
  { unfold calls_made. cbn [conns].
    pose proof (sum_list_insert (λ x, length (timer_calls (s_conn x))) _ k x (MkServed r c id) Hx) as Hs.
    cbn [s_conn] in Hs. rewrite Hn, length_app in Hs. lia. }
  change (calls_made _) with
    (calls_made (MkWorker t (<[k:=MkServed r c id]> (conns w)) (posted w) (queue_length w))) in Hcalls.
  pose proof (ok_highest w Hw) as Hhigh. destruct Hr as (H1 & H2 & H3 & H4); [lia|].
  apply lookup_lt_Some in Hx as Hlt. split; cbn [timer conns posted].
  - done.
  - intros id' tm k' Hin. destruct (decide (k' = k)) as [->|Hne].
    + rewrite list_lookup_insert_eq by done. destruct (H2 _ _ Hin) as [-> Hl].
      eexists. split; [done|]. split; [done|]. cbn [s_conn]. unfold deadline. by rewrite Hn.
    + rewrite list_lookup_insert_ne by done. apply (ok_entries w Hw id' tm). by apply H4.
  - change (calls_made _) with
      (calls_made (MkWorker t (<[k:=MkServed r c id]> (conns w)) (posted w) (queue_length w))). lia.
  - by apply Forall_insert; [apply (ok_conns w Hw)|].
  - intros k' Hk'. destruct (decide (k' = k)) as [->|Hne]; [done|].
    rewrite list_lookup_insert_ne by done. by apply (ok_posted w Hw).
Qed.

Section Handlers.
Context `{Doubles} {db : Type} `{KVStore db} `{Platform}.
Context (config : Config) (date : prog (World db) string)
        (stat : string → prog (World db) (option Z)) (read_file : string → prog (World db) string)
        (buffer_address : Z).

Abbreviation serve := (serve_event config date stat read_file buffer_address).

(** *** What the handlers do to a connection *)

Lemma serve_calls ev r c v :
  goes_on (serve ev (r, (c, v))).1 = true →
  since (completed ev c) (timer_calls (serve ev (r, (c, v))).2.2.1)
    (overlapped (serve ev (r, (c, v))).2.2.1).
Proof.
  unfold serve_event, take_event. destruct (destroyed c); [done|].
  refine (completion_calls server_name_ date read_file buffer_address stream_threshold
    (since (completed ev c)) _ _ _ (app_handle config date stat read_file)
    (app_upgrade config date stat read_file) _ _ ev (r, (completed ev c, v)) _); auto.
  - intros req. apply (app_handle_keeps config date stat read_file
      (λ c', since (completed ev c) (timer_calls c') (overlapped c'))), call_completion_calls; auto.
  - intros req. apply (app_upgrade_keeps config date stat read_file
      (λ c', since (completed ev c) (timer_calls c') (overlapped c'))), call_completion_calls; auto.
  - apply since_refl.
Qed.

Lemma serve_between ev r c v :
  between_handlers c → enabled ev c = true → goes_on (serve ev (r, (c, v))).1 = true →
  between_handlers (serve ev (r, (c, v))).2.2.1.
Proof.
  intros Hc Hen.
  refine (take_event_keeps server_name_ date read_file buffer_address stream_threshold
    (app_handle config date stat read_file) (app_upgrade config date stat read_file) _ _ ev
    (r, (c, v)) Hc Hen).
  - intros req. apply app_handle_keeps, call_completion_keeps.
  - intros req. apply app_upgrade_keeps, call_completion_keeps.
Qed.

(** The connection after its deadline has expired. *)
Definition expired (c : connection) : connection := set_is_open false (call_timer TaskRun c).

Lemma serve_deadline r c v :
  destroyed c = false → serve DeadlineExpired (r, (c, v)) = (Val tt, (r, (expired c, v))).
Proof.
  intros Hd. unfold serve_event, take_event. rewrite Hd. cbn [completed completion_program].
  unfold deadline_expired, conn, conn_do, expired. run_simpl. cbn [is_open call_timer].
  destruct (is_open c) eqn:Ho; cbn [when]; [reflexivity|]. run_simpl.
  do 3 f_equal. destruct c. cbn in *. by rewrite Ho.
Qed.

(** The connection after [start]. *)
Lemma start_new r (v : World db) :
  ∃ c, run Connection.start (r, (new_connection, v)) = (Val tt, (r, (c, v))) ∧
    timer_calls c = [ScheduleTask; CancelTask] ∧ between_handlers c ∧ destroyed c = false.
Proof.
  eexists. split; [reflexivity|]. split; [reflexivity|]. split; [|done].
  intros _. cbn. split_and!; try done; auto.
Qed.

(** *** The tick *)

Definition expire_served (x : served) : served :=
  MkServed (s_res x) (expired (s_conn x)) (task_id_ x).
Definition set_conns (l : list served) (w : worker) : worker :=
  MkWorker (timer w) l (posted w) (queue_length w).

Lemma run_task_spec now k w v x :
  conns w !! k = Some x → destroyed (s_conn x) = false →
  run (run_task config date stat read_file buffer_address now k) (w, v) =
    (Val tt, (set_conns (<[k := expire_served x]> (conns w)) w, v)).
Proof.
  intros Hx Hd. unfold run_task, run_handler. cbn [run fst snd]. rewrite Hx, serve_deadline by done.
  cbn [outcome_map]. unfold handler_ran. rewrite (new_calls_app (s_conn x) (expired (s_conn x)) [TaskRun] eq_refl).
  cbn [replay foldr replay_call expired destroyed set_is_open call_timer]. by rewrite Hd.
Qed.

(** During a tick: the entries already run are in [finished]. *)
Definition tick_entry (finished : list Z) (w : worker) (id : Z) (k : nat) : Prop :=
  ∃ x, conns w !! k = Some x ∧ task_id_ x = id ∧ destroyed (s_conn x) = false ∧
    (id ∈ finished ∨ deadline (s_conn x) = true).

Record ticking (finished : list Z) (w0 w : worker) : Prop := Ticking {
  tk_entries : ∀ id tm k, (id, (tm, k)) ∈ tasks_ (timer w) → tick_entry finished w id k;
  tk_calls : calls_made w0 ≤ calls_made w;
  tk_conns : Forall (λ x, between_handlers (s_conn x)) (conns w);
  tk_same : timer w = timer w0 ∧ posted w = posted w0 ∧ queue_length w = queue_length w0 ∧
    live w = live w0;
  tk_done : ∀ id tm k x, (id, (tm, k)) ∈ tasks_ (timer w) → id ∈ finished →
    conns w !! k = Some x → is_open (s_conn x) = false;
  tk_others : ∀ k, (∀ id tm, (id, (tm, k)) ∈ tasks_ (timer w) → id ∉ finished) →
    conns w !! k = conns w0 !! k
}.

Lemma expired_between c : between_handlers c → destroyed c = false → between_handlers (expired c).
Proof.
  intros Hc Hd Ho. destruct (Hc Ho) as (_ & Hr & Hn & Hw). cbn in *. rewrite Hd. by split_and!.
Qed.

(** One more task is run. *)
Lemma ticking_step finished w0 w id tm k x :
  timer_wf (timer w) → ticking finished w0 w → (id, (tm, k)) ∈ tasks_ (timer w) →
  conns w !! k = Some x →
  ticking (finished ++ [id]) w0 (set_conns (<[k := expire_served x]> (conns w)) w).
Proof.
  intros Hwf [He Hc Hb Hs Hdone Ho] Hin Hx. apply lookup_lt_Some in Hx as Hlt.
  destruct (He _ _ _ Hin) as (x' & Hx' & Hid & Hd & _). rewrite Hx in Hx'. injection Hx' as <-.
  assert (∀ id' tm', (id', (tm', k)) ∈ tasks_ (timer w) → id' = id) as Hown.
  { intros id' tm' Hin'. destruct (He _ _ _ Hin') as (x' & Hx' & Hid' & _).
    rewrite Hx in Hx'. injection Hx' as <-. congruence. }
  split; cbn [timer conns posted queue_length set_conns].
  - intros id' tm' k' Hin'. unfold tick_entry. cbn [conns set_conns].
    destruct (decide (k' = k)) as [->|Hne].
    + rewrite list_lookup_insert_eq by done. exists (expire_served x).
      rewrite (Hown _ _ Hin'). split_and!; [done|done|done|]. left. set_solver.
    + rewrite list_lookup_insert_ne by done. destruct (He _ _ _ Hin') as (x' & ? & ? & ? & Hor).
      exists x'. split_and!; [done..|]. destruct Hor; [left; set_solver|by right].
  - pose proof (sum_list_insert (λ x, length (timer_calls (s_conn x))) _ k x (expire_served x) Hx) as Hl.
    unfold calls_made in *. cbn [conns set_conns]. cbn in Hl. lia.
  - apply Forall_insert; [done|]. apply expired_between; [|done].
    exact (Forall_lookup_1 _ _ _ _ Hb Hx).
  - destruct Hs as (? & ? & ? & Hl). split_and!; try done.
    pose proof (sum_list_insert (λ x, if destroyed (s_conn x) then 0%nat else 1%nat) _ k x
      (expire_served x) Hx) as Hsum. unfold live in *. cbn [conns set_conns].
    change (destroyed (s_conn (expire_served x))) with (destroyed (s_conn x)) in Hsum. lia.
  - intros id' tm' k' y Hin' Hfin Hy. destruct (decide (k' = k)) as [->|Hne].
    + rewrite list_lookup_insert_eq in Hy by done. by injection Hy as <-.
    + rewrite list_lookup_insert_ne in Hy by done. apply (Hdone id' tm' k' y Hin'); [|done].
      apply elem_of_app in Hfin as [|Hfin]; [done|]. apply list_elem_of_singleton in Hfin as ->.
      pose proof (wf_key_unique _ _ _ _ Hwf Hin Hin') as Heq. by injection Heq as _ ->.
  - intros k' Hk'. destruct (decide (k' = k)) as [->|Hne].
    + exfalso. apply (Hk' _ _ Hin). set_solver.
    + rewrite list_lookup_insert_ne by done. apply Ho. intros id' tm' Hin' Hfin.
      apply (Hk' _ _ Hin'). set_solver.
Qed.

Definition due (now : Z) (m : list (Z * (Z * nat))) : list (Z * (Z * nat)) :=
  filter (λ e, is_due now e = true) m.

Lemma run_due_spec now w0 v m finished w :
  timer_wf (timer w) → ticking finished w0 w → m ⊆ tasks_ (timer w) →
  ∃ w', run (run_due (run_task config date stat read_file buffer_address now) now m finished) (w, v) =
      (Val (finished ++ (due now m).*1), (w', v)) ∧
    ticking (finished ++ (due now m).*1) w0 w'.
Proof.
  revert finished w. induction m as [|[id [tm k]] m IH]; intros finished w Hwf Ht Hm.
  - exists w. cbn. by rewrite app_nil_r.
  - assert ((id, (tm, k)) ∈ tasks_ (timer w)) as Hin by (apply Hm; left).
    assert (m ⊆ tasks_ (timer w)) as Hm' by (intros e He; apply Hm; by right).
    unfold due in *. rewrite filter_cons. cbn [run_due fst snd].
    destruct (is_due now (id, (tm, k))) eqn:Hd.
    + rewrite decide_True by done. cbn [fmap list_fmap fst].
      destruct (tk_entries _ _ _ Ht _ _ _ Hin) as (x & Hx & _ & Hde & _).
      rewrite run_bind, (run_task_spec now k w v x Hx Hde). cbn [and_then].
      specialize (IH (finished ++ [id]) (set_conns (<[k := expire_served x]> (conns w)) w) Hwf).
      rewrite <- app_assoc in IH. apply IH; [by eapply ticking_step|done].
    + rewrite decide_False by done. by apply IH.
Qed.

(** What a tick does: the due tasks are run and erased; each closes its connection; the other
    entries and the other connections stay as they are. *)
Lemma tick_spec now w v :
  worker_ok w → Forall (λ x, overlapped (s_conn x) = false) (conns w) →
  ∃ w', run (tick_handler config date stat read_file buffer_address now) (w, v) = (Val tt, (w', v)) ∧
    worker_ok w' ∧
    (∀ e, e ∈ tasks_ (timer w') ↔ e ∈ tasks_ (timer w) ∧ is_due now e = false) ∧
    (∀ e x, e ∈ tasks_ (timer w) → is_due now e = true → conns w' !! e.2.2 = Some x →
       is_open (s_conn x) = false) ∧
    (∀ k, (∀ e, e ∈ tasks_ (timer w) → is_due now e = true → e.2.2 ≠ k) →
       conns w' !! k = conns w !! k) ∧
    live w' = live w ∧ queue_length w' = queue_length w ∧ posted w' = posted w.
Proof.
  intros Hw Ho.
  assert (ticking [] w w) as Ht.
  { split; [|done|apply (ok_conns w Hw)|by split_and!; eauto|by intros ? ? ? ? _ ?%elem_of_nil|done].
    intros id tm k Hin. destruct (ok_entries w Hw _ _ _ Hin) as (x & Hx & Hid & Hd).
    exists x. split_and!; [done|done| |by right].
    pose proof (Forall_lookup_1 _ _ _ _ (ok_conns w Hw) Hx) as Hb.
    pose proof (Forall_lookup_1 _ _ _ _ Ho Hx) as Hox. cbn in Hb, Hox.
    by eapply (between_handlers_enabled DeadlineExpired). }
  destruct (run_due_spec now w v (tasks_ (timer w)) [] w (ok_timer w Hw) Ht) as (w1 & Hrun & Ht1); [done|].
  destruct Ht1 as [He Hc Hb (Htm & Hpo & Hq & Hlive) Hdone Hoth].
  assert (∀ e, e ∈ tasks_ (timer w) → e.1 ∈ (due now (tasks_ (timer w))).*1 → is_due now e = true) as Hdue.
  { intros [id y] Hin [z Hz]%elem_of_fst. unfold due in Hz. apply list_elem_of_filter in Hz as [Hz1 Hz2].
    by rewrite (wf_key_unique _ _ _ _ (ok_timer w Hw) Hin Hz2). }
  assert (∀ e, e ∈ tasks_ (timer w) → is_due now e = true → e.1 ∈ (due now (tasks_ (timer w))).*1) as Hdue'.
  { intros [id y] Hin Hd. apply elem_of_fst. exists y. unfold due. by apply list_elem_of_filter. }
  exists (set_timer (erase_finished (due now (tasks_ (timer w))).*1 (timer w)) w1).
  split.
  { unfold tick_handler, process_tasks. run_simpl. rewrite Hrun. cbn [and_then]. run_simpl.
    cbn [fst snd]. by rewrite Htm. }
  assert (∀ e, e ∈ tasks_ (erase_finished (due now (tasks_ (timer w))).*1 (timer w)) ↔
               e ∈ tasks_ (timer w) ∧ is_due now e = false) as Hleft.
  { intros e. rewrite elem_of_erase_finished. split.
    - intros [Hnot Hin]. split; [done|]. destruct (is_due now e) eqn:Ed; [|done].
      exfalso. by apply Hnot, Hdue'.
    - intros [Hin Hd]. split; [|done]. intros Hfin. by rewrite (Hdue e Hin Hfin) in Hd. }
  split; [|split; [|split; [|split; [|done]]]].
  - split; cbn [timer conns posted set_timer].
    + by apply erase_finished_wf, (ok_timer w).
    + intros id tm k [Hin Hd]%Hleft. rewrite <- Htm in Hin.
      destruct (He _ _ _ Hin) as (x & Hx & Hid & _ & [Hfin|Hdl]); [|by exists x].
      rewrite Htm in Hin. by rewrite (Hdue _ Hin Hfin) in Hd.
    + assert (highest_id_ (erase_finished (due now (tasks_ (timer w))).*1 (timer w)) ≤ highest_id_ (timer w)) as Hhi.
      { cbn. pose proof (wf_highest _ (ok_timer w Hw)). by destruct (foldl _ _ _). }
      pose proof (ok_highest w Hw). change (calls_made (set_timer _ w1)) with (calls_made w1). lia.
    + done.
    + rewrite Hpo. intros k Hk. destruct (ok_posted w Hw k Hk) as (x & Hx & Hnew). exists x.
      split; [|done]. rewrite Hoth, Hx; [done|]. rewrite Htm. intros id tm Hin _.
      destruct (ok_entries w Hw _ _ _ Hin) as (x' & Hx' & _ & Hd). rewrite Hx in Hx'.
      injection Hx' as <-. by rewrite Hnew in Hd.
  - done.
  - intros [id [tm k]] x Hin Hd Hx. rewrite <- Htm in Hin. apply (Hdone id tm k x Hin); [|done].
    rewrite Htm in Hin. by apply (Hdue' (id, (tm, k))).
  - intros k Hk. apply Hoth. rewrite Htm. intros id tm Hin Hfin.
    by apply (Hk (id, (tm, k)) Hin); [apply Hdue|].
Qed.

Lemma run_due_grows now m finished w v :
  let r := run (run_due (run_task config date stat read_file buffer_address now) now m finished) (w, v) in
  goes_on r.1 = true → grows w r.2.1.
Proof.
  cbv zeta. revert finished w v.
  induction m as [|e m IH]; intros finished w v; cbn [run_due]; [done|].
  destruct (is_due now e); [|apply IH]. rewrite run_bind.
  destruct (conns w !! e.2.2) as [x|] eqn:Hx.
  - destruct (destroyed (s_conn x)) eqn:Hd.
    + unfold run_task, run_handler. cbn [run fst snd]. rewrite Hx.
      unfold serve_event, take_event. rewrite Hd. by cbn.
    + rewrite (run_task_spec now _ w v x Hx Hd). cbn [and_then]. intros Hr.
      etrans; [|by apply IH]. apply (grows_insert _ _ x); [done|cbn; lia|done].
  - unfold run_task, run_handler. cbn [run fst snd]. rewrite Hx. cbn [outcome_map and_then run].
    apply IH.
Qed.

Lemma tick_grows now w v :
  let r := run (tick_handler config date stat read_file buffer_address now) (w, v) in
  goes_on r.1 = true → grows w r.2.1.
Proof.
  unfold tick_handler, process_tasks. run_simpl.
  pose proof (run_due_grows now (tasks_ (timer w)) [] w v) as Hg. cbn [fst] in *.
  destruct (run _ _) as [[] [w' v']]; cbn in *; try done; intros Hr; by apply Hg.
Qed.

Lemma start_calls (r : response) c (v : World db) :
  ∃ c', run Connection.start (r, (c, v)) = (Val tt, (r, (c', v))) ∧
    timer_calls c' = [ScheduleTask; CancelTask] ++ timer_calls c ∧ overlapped c' = overlapped c.
Proof. eexists. split; [reflexivity|]. by split. Qed.

Lemma completed_since ev c t o :
  ev ≠ DeadlineExpired → since (completed ev c) t o → since c t o.
Proof. by destruct ev as [|[]|]. Qed.

(** *** A step of a worker keeps its invariant *)

Lemma work_step_grows now ev w v :
  work_enabled ev w = true →
  let r := work_step config date stat read_file buffer_address now ev (w, v) in
  goes_on r.1 = true → grows w r.2.1.
Proof.
  intros Hen r Hr. subst r. destruct ev as [k|k ev|]; cbn [work_step work_enabled] in *.
  - set (w0 := MkWorker _ _ _ _) in *. change (conns w) with (conns w0).
    assert (grows w w0) as Hg by (split; [done|by intros ? x ?; exists x]). etrans; [exact Hg|].
    unfold run_handler. cbn [fst snd]. destruct (conns w0 !! k) as [x|] eqn:Hx; [|done].
    destruct (start_calls (s_res x) (s_conn x) v) as (c & -> & Hc & Ho). cbn [fst snd].
    eapply handler_ran_grows; [done|exact Hc|by rewrite Ho].
  - destruct (conns w !! k) as [x|] eqn:Hx; [|by destruct ev].
    unfold run_handler in *. cbn [fst snd] in *. rewrite Hx in *.
    pose proof (serve_calls ev (s_res x) (s_conn x) v) as Hs.
    destruct (serve_event _ _ _ _ _ ev _) as [o [res [c v']]]. cbn [fst snd] in *.
    destruct (completed_since ev _ _ _ ltac:(by destruct ev) (Hs Hr)) as [(n & Hn & _) Ho].
    by eapply handler_ran_grows.
  - by apply tick_grows.
Qed.

Lemma posted_not_enabled w k x ev :
  worker_ok w → conns w !! k = Some x → enabled ev (s_conn x) = true → k ∉ posted w.
Proof.
  intros Hw Hx Hen Hk. destruct (ok_posted w Hw k Hk) as (x' & Hx' & Hnew).
  rewrite Hx in Hx'. injection Hx' as <-. rewrite Hnew in Hen. by destruct ev.
Qed.

Lemma work_step_ok b now ev w v :
  worker_ok w → queue_ok b w → work_enabled ev w = true →
  let r := work_step config date stat read_file buffer_address now ev (w, v) in
  goes_on r.1 = true → worker_fair r.2.1 →
  worker_ok r.2.1 ∧ queue_ok b r.2.1.
Proof.
  intros Hw Hq Hen r Hr Hf. subst r. destruct ev as [k|k ev|]; cbn [work_step work_enabled] in *.
  - set (w0 := MkWorker _ _ _ _) in *. apply bool_decide_eq_true in Hen.
    assert (worker_ok w0) as Hw0.
    { destruct Hw as [? ? ? ? Hp]. split; try done. intros k' [_ Hk']%list_elem_of_filter. by apply Hp. }
    destruct (ok_posted w Hw k Hen) as (x & Hx & Hnew). unfold run_handler in *. cbn [fst snd] in *.
    change (conns w0 !! k) with (conns w !! k) in *. rewrite Hx, Hnew in *.
    destruct (start_new (s_res x) v) as (c & Hs & Hcalls & Hb & Hd). rewrite Hs in *. cbn [fst snd] in *.
    assert (timer_calls c = [ScheduleTask; CancelTask] ++ timer_calls (s_conn x)) as Hc by by rewrite Hnew.
    split.
    + eapply handler_ran_ok; [done|exact Hx| |exact Hc|repeat constructor|done|apply Hf].
      cbn [posted w0]. rewrite list_elem_of_filter. tauto.
    + apply handler_ran_queue; [exact Hx|by rewrite Hnew|done].
  - destruct (conns w !! k) as [x|] eqn:Hx; [|by destruct ev].
    assert (enabled ev (s_conn x) = true) as Hen' by by destruct ev.
    unfold run_handler in *. cbn [fst snd] in *. rewrite Hx in *.
    pose proof (serve_calls ev (s_res x) (s_conn x) v) as Hs.
    pose proof (serve_between ev (s_res x) (s_conn x) v
                  (Forall_lookup_1 _ _ _ _ (ok_conns w Hw) Hx) Hen') as Hb.
    assert (destroyed (s_conn x) = true → goes_on (serve ev (s_res x, (s_conn x, v))).1 = false) as Hdes.
    { intros Hd. unfold serve_event, take_event. by rewrite Hd. }
    destruct (serve_event _ _ _ _ _ ev _) as [o [res [c v']]]. cbn [fst snd] in *.
    destruct (completed_since ev _ _ _ ltac:(by destruct ev) (Hs Hr)) as [(n & Hn & Hmade) Ho].
    specialize (Hb Hr). split.
    + eapply handler_ran_ok; [done|exact Hx| |exact Hn|done|done|apply Hf].
      by eapply posted_not_enabled.
    + apply handler_ran_queue; [exact Hx| |done].
      destruct (destroyed (s_conn x)); [|done]. by rewrite Hdes in Hr.
  - pose proof (tick_grows now w v Hr) as Hg. pose proof (grows_fair _ _ Hg Hf) as [Ho _].
    destruct (tick_spec now w v Hw Ho) as (w' & E & Hok & _ & _ & _ & Hl & Hql & _). rewrite E in *.
    cbn [fst snd] in *. split; [done|]. unfold queue_ok in *. by rewrite Hl, Hql.
Qed.

(** ** The invariant of the server *)

(** The connection [async_accept] is to fill counts in its worker's queue. *)
Definition pending (p : pool (db:=db)) (i : nat) : Z :=
  match accepting p with Some (j, _) => if decide (j = i) then 1 else 0 | None => 0 end.

Definition pool_ok (p : pool) : Prop :=
  ∀ i w, workers p !! i = Some w → worker_ok w ∧ queue_ok (pending p i) w.
Definition pool_fair (p : pool (db:=db)) : Prop := ∀ i w, workers p !! i = Some w → worker_fair w.
Definition pool_grows (p p' : pool (db:=db)) : Prop :=
  ∀ i w, workers p !! i = Some w → ∃ w', workers p' !! i = Some w' ∧ grows w w'.

#[local] Instance pool_grows_preorder : PreOrder pool_grows.
Proof.
  split.
  - intros p i w Hw. by exists w.
  - intros p1 p2 p3 H12 H23 i w Hw. destruct (H12 i w Hw) as (w' & Hw' & Hg).
    destruct (H23 i w' Hw') as (w'' & Hw'' & Hg'). exists w''. split; [done|]. by etrans.
Qed.

Lemma pool_grows_fair p p' : pool_grows p p' → pool_fair p' → pool_fair p.
Proof.
  intros Hg Hf i w Hw. destruct (Hg i w Hw) as (w' & Hw' & Hgw).
  by eapply grows_fair, (Hf i).
Qed.

Lemma pool_grows_insert p i w w' a v :
  workers p !! i = Some w → grows w w' → pool_grows p (MkPool (<[i := w']> (workers p)) a v).
Proof.
  intros Hw Hg j w1 Hw1. cbn [workers]. destruct (decide (j = i)) as [->|].
  - rewrite Hw in Hw1. injection Hw1 as <-. exists w'.
    by rewrite list_lookup_insert_eq by by eapply lookup_lt_Some.
  - exists w1. by rewrite list_lookup_insert_ne.
Qed.

(** Changing one worker. *)
Lemma pool_ok_insert p i w w' a v :
  pool_ok p → workers p !! i = Some w →
  let p' := MkPool (<[i := w']> (workers p)) a v in
  (worker_ok w' ∧ queue_ok (pending p' i) w') → (∀ j, j ≠ i → pending p' j = pending p j) → pool_ok p'.
Proof.
  intros Hp Hw p' Hi Hj j w1 Hw1. cbn [workers p'] in Hw1. destruct (decide (j = i)) as [->|Hne].
  - rewrite list_lookup_insert_eq in Hw1 by by eapply lookup_lt_Some. by injection Hw1 as <-.
  - rewrite list_lookup_insert_ne in Hw1 by done. rewrite Hj by done. by apply Hp.
Qed.

Lemma do_accept_inv garbage (p p' : pool (db:=db)) :
  do_accept garbage p = Some p' →
  ∃ i w, i = pick_io_service_idx (queue_length <$> workers p) ∧ workers p !! i = Some w ∧
    p' = MkPool (<[i := set_queue_length (uint_incr (queue_length w)) w]> (workers p))
           (Some (i, garbage)) (world p).
Proof.
  unfold do_accept. set (i := pick_io_service_idx _).
  destruct (workers p !! i) as [w|] eqn:Hw; [|done]. intros [= <-]. by exists i, w.
Qed.

Lemma do_accept_ok garbage (p p' : pool (db:=db)) :
  accepting p = None → do_accept garbage p = Some p' →
  (pool_ok p → pool_ok p') ∧ pool_grows p p'.
Proof.
  intros Ha (i & w & _ & Hw & ->)%do_accept_inv. split.
  - intros Hp. destruct (Hp i w Hw) as [Hok Hq]. eapply pool_ok_insert; [done|done| |].
    + split; [by destruct Hok|]. unfold queue_ok, pending in *. rewrite Ha in Hq.
      cbn [accepting queue_length set_queue_length]. rewrite decide_True by done.
      unfold uint_incr. rewrite Hq, Zplus_mod_idemp_l. f_equal. unfold live. cbn. lia.
    + intros j Hj. unfold pending. cbn [accepting]. by rewrite Ha, decide_False.
  - eapply pool_grows_insert; [done|]. split; [done|]. intros k x Hx. by exists x.
Qed.

Lemma accept_done_none ok (p p' : pool (db:=db)) : accept_done ok p = Some p' → accepting p' = None.
Proof.
  unfold accept_done. destruct (accepting p) as [[i id]|]; [|done]. cbn.
  destruct (workers p !! i); [|done]. by intros [= <-].
Qed.

Lemma accept_done_ok ok (p p' : pool (db:=db)) :
  accept_done ok p = Some p' → (pool_ok p → pool_ok p') ∧ pool_grows p p'.
Proof.
  unfold accept_done. destruct (accepting p) as [[i id]|] eqn:Ha; [|done]. cbn.
  destruct (workers p !! i) as [w|] eqn:Hw; [|done]. intros [= <-].
  set (x := MkServed Response.empty new_connection id).
  assert (calls_made (MkWorker (timer w) (conns w ++ [x]) (posted w ++ [length (conns w)]) (queue_length w)) =
          calls_made w) as Hcalls.
  { unfold calls_made. cbn [conns]. rewrite sum_list_with_app. cbn. lia. }
  split.
  - intros Hp. destruct (Hp i w Hw) as [Hok Hq]. unfold queue_ok, pending in Hq. rewrite Ha in Hq.
    rewrite decide_True in Hq by done. eapply pool_ok_insert; [done|done| |].
    + destruct ok; (split; [|unfold queue_ok, pending; cbn [accepting queue_length]]).
      * destruct Hok as [Ht He Hh Hb Hpo]. split; cbn [timer conns posted].
        -- done.
        -- intros id' tm k Hin. destruct (He _ _ _ Hin) as (y & Hy & ? & ?). exists y.
           split; [by apply lookup_app_l_Some|done].
        -- by rewrite Hcalls.
        -- apply Forall_app. split; [done|]. constructor; [|done]. intros _. cbn. split_and!; try done; auto.
        -- intros k [Hk|Hk]%elem_of_app.
           ++ destruct (Hpo k Hk) as (y & Hy & ?). exists y. split; [by apply lookup_app_l_Some|done].
           ++ apply list_elem_of_singleton in Hk as ->. exists x.
              by rewrite lookup_app_r, Nat.sub_diag by done.
      * rewrite Hq. f_equal. unfold live. cbn [conns]. rewrite sum_list_with_app. cbn. lia.
      * destruct Hok as [Ht He Hh Hb Hpo]. split; cbn [timer conns posted]; try done.
        -- by apply cancel_wf.
        -- intros id' tm k [_ Hin]%elem_of_map_erase. by apply (He id' tm).
      * unfold uint_decr. rewrite Hq, Zminus_mod_idemp_l. f_equal. unfold live. cbn [conns]. lia.
    + intros j Hj. unfold pending. cbn [accepting]. by rewrite Ha, decide_False.
  - eapply pool_grows_insert; [done|]. destruct ok.
    + split; [by rewrite Hcalls|]. intros k y Hy. exists y. split; [by apply lookup_app_l_Some|done].
    + split; [done|]. intros k y Hy. by exists y.
Qed.

Abbreviation step := (server_step config date stat read_file buffer_address).
Abbreviation serve_all := (server_run config date stat read_file buffer_address).

Lemma server_step_ok ev p o p' :
  step ev p = Some (o, p') → goes_on o = true →
  pool_grows p p' ∧ (pool_ok p → pool_fair p' → pool_ok p').
Proof.
  destruct ev as [ok garbage|i now ev]; cbn [server_step].
  - destruct (accept_done ok p) as [p1|] eqn:E1; [|done]. cbn.
    destruct (do_accept garbage p1) as [p2|] eqn:E2; [|done]. intros [= <- <-] _.
    destruct (accept_done_ok ok p p1 E1) as [Ho1 Hg1].
    destruct (do_accept_ok garbage p1 p2 (accept_done_none _ _ _ E1) E2) as [Ho2 Hg2].
    split; [by etrans|]. auto.
  - destruct (workers p !! i) as [w|] eqn:Hw; [|done]. cbn.
    destruct (work_enabled ev w) eqn:Hen; [|done].
    pose proof (work_step_grows now ev w (world p) Hen) as Hg.
    pose proof (λ b Hok Hq, work_step_ok b now ev w (world p) Hok Hq Hen) as Hok.
    destruct (work_step _ _ _ _ _ now ev (w, world p)) as [o' [w' v']]. intros [= <- <-] Hgo.
    cbn in Hg, Hok. split; [by eapply pool_grows_insert; [|apply Hg]|]. intros Hp Hf.
    destruct (Hp i w Hw) as [Hwok Hq]. eapply pool_ok_insert; [done|done| |done].
    apply Hok; [done|exact Hq|done|]. apply (Hf i). cbn [workers].
    by rewrite list_lookup_insert_eq by by eapply lookup_lt_Some.
Qed.

Lemma server_run_ok evs p p' :
  serve_all evs p = Some p' →
  pool_grows p p' ∧ (pool_ok p → pool_fair p' → pool_ok p').
Proof.
  revert p. induction evs as [|ev evs IH]; intros p; cbn [server_run]; [by intros [= <-]|].
  destruct (step ev p) as [[o p1]|] eqn:E; [|done]. cbn.
  assert (goes_on o = true → serve_all evs p1 = Some p' →
    pool_grows p p' ∧ (pool_ok p → pool_fair p' → pool_ok p')) as Hgo.
  { intros Hgo Hrun. destruct (server_step_ok ev p o p1 E Hgo) as [Hg1 Hok1].
    destruct (IH p1 Hrun) as [Hg2 Hok2]. split; [by etrans|]. intros Hp Hf.
    apply Hok2; [|done]. apply Hok1; [done|]. by eapply pool_grows_fair. }
  destruct o; try done; by apply Hgo.
Qed.

Lemma reached_ok concurrency_ garbage v evs p :
  server_reaches config date stat read_file buffer_address concurrency_ garbage v evs p →
  pool_fair p → pool_ok p.
Proof.
  intros (p0 & Ha & Hrun) Hf. destruct (server_run_ok evs p0 p Hrun) as [_ Hok].
  apply Hok; [|done]. eapply do_accept_ok; [|exact Ha|]; [done|]. intros i w Hw. cbn in Hw.
  apply lookup_replicate in Hw as [-> _]. split; [apply new_worker_ok|done].
Qed.
End Handlers.
