(* ===== verification/WorkerProps.v ===== *)
(** * What the workers promise, and a deadline that is lost

    The timer never runs a task of a connection that has been freed, and closes the connections
    whose tasks are due; the acceptor picks the worker with the fewest connections; but an
    identifier that is stale can cancel the deadline of another connection. *)

From Stdlib Require Import ZArith Lia Ascii String.
From stdpp Require Import base tactics option strings list gmap sorting.
From S2P Require Import Prelude.
From S2P Require Import CppStd.
From S2P Require Import Store.
From S2P Require Import World.
From S2P Require Import Crow.
From S2P Require Import Trie.
From S2P Require Import TrieFacts.
From S2P Require Import Router.
From S2P Require Import TaskTimer.
From S2P Require Import Connection.
From S2P Require Import ConnectionFacts.
From S2P Require Import Instances.
From S2P Require Import Wallet.
From S2P Require Import Server.
From S2P Require Import ServerFacts.
From S2P Require Import Worker.

From S2P Require Import WorkerFacts.

Local Open Scope Z_scope.

(** ** A run of a server with one worker *)

Abbreviation test_server_run evs :=
  (do_accept 0 (new_pool 2 5 fresh) ≫= λ p,
   @server_run integer_doubles (gmap string string) _ _ Config.defaults (Done test_date)
     (λ _, Done None) (λ _, Done ""%string) 4096 evs p).

(** The conditions of the theorems, decided. *)
Definition fairb (p : pool (db:=gmap string string)) : bool :=
  forallb (λ w, forallb (λ x, negb (overlapped (s_conn x))) (conns w) &&
                (calls_made w <? 2 ^ 64 - 1)) (workers p).

Lemma fairb_fair p : fairb p = true → pool_fair p.
Proof.
  unfold fairb. rewrite forallb_forall. intros Hf i w Hw.
  specialize (Hf w (proj1 (list_elem_of_In _ _) (list_elem_of_lookup_2 _ _ _ Hw))).
  apply andb_true_iff in Hf as [Hf Hc]. split; [|by apply Z.ltb_lt].
  apply Forall_forall. intros x Hx. rewrite forallb_forall in Hf.
  by apply negb_true_iff, Hf, list_elem_of_In.
Qed.

(** A server that has accepted one connection and started it. *)
Definition one_connection : list server_event := [AcceptDone true 0; Work 0 0 (Started 0)].

Lemma one_connection_reaches :
  ∃ p, @server_reaches integer_doubles (gmap string string) _ _ Config.defaults (Done test_date)
         (λ _, Done None) (λ _, Done ""%string) 4096 2 0 fresh one_connection p ∧
       pool_fair p ∧ ∃ w, workers p = [w] ∧ live w = 1 ∧ accepting p = Some (0%nat, 0).
Proof.
  assert (match do_accept 0 (new_pool 2 5 fresh) with
          | Some p0 =>
              match @server_run integer_doubles (gmap string string) _ _ Config.defaults
                      (Done test_date) (λ _, Done None) (λ _, Done ""%string) 4096 one_connection p0 with
              | Some p =>
                  fairb p && match workers p with [w] => live w =? 1 | _ => false end &&
                  bool_decide (accepting p = Some (0%nat, 0))
              | None => false
              end
          | None => false
          end = true) as Hb by (vm_compute; reflexivity).
  destruct (do_accept 0 (new_pool 2 5 fresh)) as [p0|] eqn:E0; [|discriminate Hb].
  destruct (server_run _ _ _ _ _ one_connection p0) as [p|] eqn:E; [|discriminate Hb].
  exists p. apply andb_true_iff in Hb as [Hb Ha]. apply andb_true_iff in Hb as [Hf Hl].
  apply bool_decide_eq_true in Ha.
  split; [by exists p0|]. split; [by apply fairb_fair|].
  destruct (workers p) as [|w [|]]; [discriminate Hl| |discriminate Hl]. exists w.
  by apply Z.eqb_eq in Hl.
Qed.

(** C36: the timer never runs a function of a connection that has been freed.  At any moment of
    a run of the server, as long as no connection has overlapped two writes and fewer calls
    have been made to a timer than there are identifiers, a tick runs to its end: it closes
    the connections whose tasks are due, erases these tasks and no others, and leaves the
    other connections, those yet to be started, the length of the queue and the world as they
    are. *)
Theorem tick_runs_live_connections `{Doubles} {db} `{KVStore db} `{Platform}
    config date stat read_file buffer_address concurrency_ garbage v evs (p : pool (db:=db)) i w now :
  server_reaches config date stat read_file buffer_address concurrency_ garbage v evs p →
  pool_fair p → workers p !! i = Some w →
  ∃ w', run (tick_handler config date stat read_file buffer_address now) (w, world p) =
      (Val tt, (w', world p)) ∧
    (∀ e, e ∈ tasks_ (timer w') ↔ e ∈ tasks_ (timer w) ∧ is_due now e = false) ∧
    (∀ e x, e ∈ tasks_ (timer w) → is_due now e = true → conns w' !! e.2.2 = Some x →
       is_open (s_conn x) = false) ∧
    (∀ k, (∀ e, e ∈ tasks_ (timer w) → is_due now e = true → e.2.2 ≠ k) →
       conns w' !! k = conns w !! k) ∧
    posted w' = posted w ∧ queue_length w' = queue_length w.
Proof.
  intros Hr Hf Hw. destruct (reached_ok _ _ _ _ _ _ _ _ _ _ Hr Hf i w Hw) as [Hok _].
  destruct (tick_spec config date stat read_file buffer_address now w (world p) Hok) as (w' & ? & _ & ? & ? & ? & _ & ? & ?);
    [by apply (Hf i)|].
  exists w'. by split_and!.
Qed.

Lemma tick_runs_live_connections_witness :
  ∃ p w w', @server_reaches integer_doubles (gmap string string) _ _ Config.defaults (Done test_date)
      (λ _, Done None) (λ _, Done ""%string) 4096 2 0 fresh one_connection p ∧ workers p = [w] ∧
    run (@tick_handler integer_doubles (gmap string string) _ _ Config.defaults (Done test_date)
           (λ _, Done None) (λ _, Done ""%string) 4096 (seconds 10)) (w, world p) =
      (Val tt, (w', world p)).
Proof.
  destruct one_connection_reaches as (p & Hr & Hf & w & Hw & _).
  assert (workers p !! 0%nat = Some w) as Hw0 by by rewrite Hw.
  destruct (@tick_runs_live_connections integer_doubles (gmap string string) _ _ Config.defaults
    (Done test_date) (λ _, Done None) (λ _, Done ""%string) 4096 2 0 fresh one_connection p 0 w
    (seconds 10) Hr Hf Hw0) as (w' & Hrun & _).
  exists p, w, w'. split; [exact Hr|]. split; [exact Hw|exact Hrun].
Defined.

(** C37: new connections go where the fewest are.  At any such moment, when the acceptor has
    handed over a connection or has failed to, the worker it picks for the next one has the
    fewest connections that have not been freed, and is the first such worker; and the length
    of every queue is the number of these connections, with the one to be accepted.  This holds
    as long as every worker has fewer than 2^32 - 1 of them. *)
Theorem acceptor_picks_least_loaded `{Doubles} {db} `{KVStore db} `{Platform}
    config date stat read_file buffer_address concurrency_ garbage v evs (p : pool (db:=db))
    ok next_garbage p1 p2 :
  server_reaches config date stat read_file buffer_address concurrency_ garbage v evs p →
  pool_fair p → accept_done ok p = Some p1 → do_accept next_garbage p1 = Some p2 →
  (∀ i w, workers p1 !! i = Some w → live w < 2 ^ 32 - 1) →
  ∃ i w, accepting p2 = Some (i, next_garbage) ∧ workers p1 !! i = Some w ∧
    (∀ j w', workers p1 !! j = Some w' → live w ≤ live w' ∧ ((j < i)%nat → live w < live w')) ∧
    (∀ j w', workers p2 !! j = Some w' → queue_length w' = live w' + pending p2 j).
Proof.
  intros Hr Hf E1 E2 Hlive. pose proof (reached_ok _ _ _ _ _ _ _ _ _ _ Hr Hf) as Hp.
  pose proof (proj1 (accept_done_ok ok p p1 E1) Hp) as Hp1.
  pose proof (accept_done_none _ _ _ E1) as Ha.
  pose proof (proj1 (do_accept_ok next_garbage p1 p2 Ha E2) Hp1) as Hp2.
  destruct (do_accept_inv _ _ _ E2) as (i & w & Hi & Hw & Hp2eq).
  assert (∀ j w', workers p1 !! j = Some w' → queue_length w' = live w') as Hq.
  { intros j w' Hw'. destruct (Hp1 j w' Hw') as [_ Hq]. unfold queue_ok, pending in Hq. rewrite Ha in Hq.
    rewrite Hq, Z.add_0_r. apply Z.mod_small. specialize (Hlive j w' Hw'). unfold live in *. lia. }
  exists i, w. split; [by rewrite Hp2eq|]. split; [done|]. split.
  - intros j w' Hw'. destruct (pick_least (queue_length <$> workers p1)) as (x & Hx & Hleast).
    + intros Hnil. apply fmap_nil_inv in Hnil. by rewrite Hnil in Hw.
    + apply Forall_fmap, Forall_lookup_2. intros j' w1 Hw1. cbn. rewrite (Hq j' w1 Hw1). unfold live. lia.
    + rewrite <- Hi, list_lookup_fmap, Hw in Hx. injection Hx as <-.
      specialize (Hleast j (queue_length w')). rewrite list_lookup_fmap, Hw' in Hleast.
      specialize (Hleast eq_refl).
      rewrite (Hq i w Hw), (Hq j w' Hw'), <- Hi in Hleast. exact Hleast.
  - intros j w' Hw'. destruct (Hp2 j w' Hw') as [_ Hq']. unfold queue_ok in Hq'. rewrite Hq'.
    assert (live w' < 2 ^ 32 - 1) as Hl.
    { rewrite Hp2eq in Hw'. cbn [workers] in Hw'. destruct (decide (j = i)) as [->|].
      - rewrite list_lookup_insert_eq in Hw' by by eapply lookup_lt_Some.
        injection Hw' as <-. apply (Hlive i w Hw).
      - rewrite list_lookup_insert_ne in Hw' by done. by apply (Hlive j). }
    apply Z.mod_small. unfold pending. rewrite Hp2eq. cbn [accepting].
    unfold live in *. destruct (decide (i = j)); lia.
Qed.

Lemma acceptor_picks_least_loaded_witness :
  ∃ p p1 p2 i w, @server_reaches integer_doubles (gmap string string) _ _ Config.defaults (Done test_date)
      (λ _, Done None) (λ _, Done ""%string) 4096 2 0 fresh one_connection p ∧
    accept_done true p = Some p1 ∧ do_accept 7 p1 = Some p2 ∧ accepting p2 = Some (i, 7) ∧
    workers p1 !! i = Some w ∧ live w = 2.
Proof.
  destruct one_connection_reaches as (p & Hr & Hf & w & Hw & Hl & Ha).
  destruct (accept_done true p) as [p1|] eqn:E1.
  2: { exfalso. unfold accept_done in E1. rewrite Ha in E1. cbn in E1. rewrite Hw in E1. discriminate E1. }
  assert (∃ w1, workers p1 = [w1] ∧ live w1 = 2) as (w1 & Hw1 & Hl1).
  { unfold accept_done in E1. rewrite Ha in E1. cbn in E1. rewrite Hw in E1. injection E1 as <-.
    eexists. split; [reflexivity|]. unfold live in *. cbn [conns]. rewrite sum_list_with_app. cbn. lia. }
  destruct (do_accept 7 p1) as [p2|] eqn:E2.
  2: { exfalso. unfold do_accept in E2. rewrite Hw1 in E2. discriminate E2. }
  assert (∀ i w, workers p1 !! i = Some w → live w < 2 ^ 32 - 1) as Hlive.
  { intros i w' Hw'. rewrite Hw1 in Hw'. destruct i as [|[]]; [|discriminate Hw'..].
    injection Hw' as <-. rewrite Hl1. reflexivity. }
  destruct (@acceptor_picks_least_loaded integer_doubles (gmap string string) _ _ Config.defaults
    (Done test_date) (λ _, Done None) (λ _, Done ""%string) 4096 2 0 fresh one_connection p true 7
    p1 p2 Hr Hf E1 E2 Hlive) as (i & w' & Hi & Hw' & _).
  exists p, p1, p2, i, w'. split; [exact Hr|]. split; [exact E1|]. split; [exact E2|].
  split; [exact Hi|]. split; [exact Hw'|]. rewrite Hw1 in Hw'.
  destruct i as [|[]]; [injection Hw' as <-; exact Hl1|discriminate Hw'..].
Defined.

(** ** A stale identifier *)

Section Stale.
Context `{Doubles} {db : Type} `{KVStore db} `{Platform}.
Context (config : Config) (date : prog (World db) string)
        (stat : string → prog (World db) (option Z)) (read_file : string → prog (World db) string)
        (buffer_address : Z).

Abbreviation tick now := (tick_handler config date stat read_file buffer_address now).
Abbreviation serve := (serve_event config date stat read_file buffer_address).
Abbreviation serve_all := (server_run config date stat read_file buffer_address).

(** A tick that finds no task: the identifiers begin again. *)
Definition idle (w : worker) : worker :=
  set_timer (MkTaskTimer (default_timeout_ (timer w)) [] 0) w.
Lemma tick_idle now w v : tasks_ (timer w) = [] → run (tick now) (w, v) = (Val tt, (idle w, v)).
Proof.
  intros E. unfold tick_handler, process_tasks. run_simpl. cbn [fst]. rewrite E. cbn [run_due].
  run_simpl. unfold erase_finished. cbn [fst snd foldl]. by rewrite E.
Qed.

(** The first task after that has the first identifier. *)
Lemma start_idle now k w v x :
  conns w !! k = Some x → s_conn x = new_connection → tasks_ (timer w) = [] → highest_id_ (timer w) = 0 →
  ∃ c, run_handler (db:=db) now k (run Connection.start) (w, v) =
      (Val tt, (MkWorker (MkTaskTimer (default_timeout_ (timer w))
                           [(1, (now + seconds (default_timeout_ (timer w)), k))] 1)
                  (<[k := MkServed (s_res x) c 1]> (conns w)) (posted w) (queue_length w), v)) ∧
    is_open c = true ∧ deadline c = true.
Proof.
  intros Hx Hn Ht Hh.
  assert (∃ c, run Connection.start (s_res x, (new_connection, v)) = (Val tt, (s_res x, (c, v))) ∧
    timer_calls c = [ScheduleTask; CancelTask] ∧ is_open c = true ∧ destroyed c = false)
    as (c & E & Hc & Ho & Hd) by (eexists; split; [reflexivity|by split_and!]).
  exists c. split; [|split; [done|by unfold deadline; rewrite Hc]].
  unfold run_handler. cbn [fst snd]. rewrite Hx, Hn, E. unfold handler_ran.
  rewrite (new_calls_app (s_conn x) c [ScheduleTask; CancelTask]) by by rewrite Hn, Hc.
  rewrite Hd. destruct w as [[d m h] cs ps q]. cbn in *. by subst m h.
Qed.

(** The last answer of a connection has been written: it is freed, and cancels its task. *)
Lemma last_write_done r c (v : World db) :
  destroyed c = false → close_connection_ c = true → is_reading c = false →
  ∃ r' c', serve (WriteDone true) (r, (c, v)) = (Val tt, (r', (c', v))) ∧
    timer_calls c' = CancelTask :: timer_calls c ∧ destroyed c' = true.
Proof.
  intros Hd Hc Hr. unfold serve_event, take_event. rewrite Hd. cbn [completed completion_program].
  unfold write_done, parser_clear, close_adaptor, check_destroy, conn, conn_do, res_do. run_simpl.
  match goal with |- context [close_connection_ ?x] => set (c1 := x) end.
  assert (close_connection_ c1 = true ∧ is_reading c1 = false ∧ is_writing c1 = false ∧
          timer_calls c1 = timer_calls c) as (E1 & E2 & E3 & E4) by by split_and!.
  clearbody c1. rewrite E1. cbn [when]. run_simpl. cbn [is_reading is_writing set_is_open].
  rewrite E2, E3. cbn [negb andb when]. run_simpl. eexists _, _. split; [reflexivity|].
  cbn [timer_calls call_timer set_destroyed set_is_open destroyed]. by rewrite E4.
Qed.

Lemma write_done_frees now k w v x :
  conns w !! k = Some x → destroyed (s_conn x) = false → close_connection_ (s_conn x) = true →
  is_reading (s_conn x) = false →
  ∃ y, run_handler now k (serve (WriteDone true)) (w, v) =
    (Val tt, (MkWorker (cancel (task_id_ x) (timer w)) (<[k := y]> (conns w)) (posted w)
                (uint_decr (queue_length w)), v)) ∧ destroyed (s_conn y) = true.
Proof.
  intros Hx Hd Hc Hr. destruct (last_write_done (s_res x) (s_conn x) v Hd Hc Hr) as (r & c & E & Et & Ed).
  exists (MkServed r c (task_id_ x)). split; [|exact Ed].
  unfold run_handler. cbn [fst snd]. rewrite Hx, E. unfold handler_ran.
  rewrite (new_calls_app (s_conn x) c [CancelTask] Et). by rewrite Ed, Hd.
Qed.
End Stale.

(** C38: a stale identifier cancels another connection's deadline.  Let a worker have no task left,
    one connection whose last answer is being written, which is not reading and had the first
    identifier, and another that has been accepted and not started.  When a tick comes, the second
    is started, and the first has written its answer, then the second is open and believes that its
    deadline runs, but no task is left, and whatever time passes a tick leaves all connections as
    they are.  For once no task is left the timer counts from zero again, and a connection does not
    forget the identifier of a task it has cancelled: its end cancels it once more.  No connection
    has overlapped two writes, and identifiers have not run out. *)
Theorem stale_identifier_cancels_another_deadline `{Doubles} {db} `{KVStore db} `{Platform}
    config date stat read_file buffer_address concurrency_ garbage v evs (p : pool (db:=db))
    i w k k' x t1 t2 t3 :
  server_reaches config date stat read_file buffer_address concurrency_ garbage v evs p →
  pool_fair p → workers p !! i = Some w → tasks_ (timer w) = [] →
  conns w !! k = Some x → enabled (WriteDone true) (s_conn x) = true →
  close_connection_ (s_conn x) = true → is_reading (s_conn x) = false → task_id_ x = 1 →
  k' ∈ posted w →
  ∃ p' w' y,
    server_run config date stat read_file buffer_address
      [Work i t1 Tick; Work i t2 (Started k'); Work i t3 (Completed k (WriteDone true))] p = Some p' ∧
    workers p' !! i = Some w' ∧ conns w' !! k' = Some y ∧
    is_open (s_conn y) = true ∧ deadline (s_conn y) = true ∧ tasks_ (timer w') = [] ∧
    ∀ t4, ∃ w'', run (tick_handler config date stat read_file buffer_address t4) (w', world p') =
      (Val tt, (w'', world p')) ∧ conns w'' = conns w'.
Proof.
  intros Hr Hf Hw Ht Hx Hen Hc Hrd Hid Hk'.
  destruct (reached_ok _ _ _ _ _ _ _ _ _ _ Hr Hf i w Hw) as [Hok _].
  destruct (Hf i w Hw) as [Hov _].
  assert (destroyed (s_conn x) = false) as Hd.
  { pose proof (Forall_lookup_1 _ _ _ _ (ok_conns w Hok) Hx) as Hb.
    pose proof (Forall_lookup_1 _ _ _ _ Hov Hx) as Hox. cbn in Hb, Hox.
    by eapply (between_handlers_enabled (WriteDone true)). }
  destruct (ok_posted w Hok k' Hk') as (x' & Hx' & Hnew).
  assert (k ≠ k') as Hne.
  { intros ->. rewrite Hx in Hx'. injection Hx' as <-. by rewrite Hnew in Hen. }
  set (w1 := idle w).
  set (w1' := MkWorker (timer w1) (conns w1) (filter (λ j, j ≠ k') (posted w1)) (queue_length w1)).
  destruct (start_idle t2 k' w1' (world p) x' Hx' Hnew eq_refl eq_refl) as (c & E2 & Ho & Hdl).
  set (w2 := MkWorker _ (<[k' := _]> _) _ _) in E2.
  assert (conns w2 !! k = Some x) as Hx2 by (cbn [w2 conns]; by rewrite list_lookup_insert_ne).
  destruct (write_done_frees config date stat read_file buffer_address t3 k w2 (world p) x Hx2 Hd Hc Hrd)
    as (y & E3 & _).
  set (w3 := MkWorker _ (<[k := y]> _) _ _) in E3.
  assert (tasks_ (timer w3) = []) as Ht3 by (cbn [w3 timer]; by rewrite Hid).
  set (q := λ w, MkPool (<[i := w]> (workers p)) (accepting p) (world p)).
  apply lookup_lt_Some in Hw as Hi.
  assert (∀ u, workers (q u) !! i = Some u) as Hq by (intros u; by apply list_lookup_insert_eq).
  assert (∀ u u', <[i := u']> (workers (q u)) = workers (q u')) as Hqq
    by (intros u u'; cbn; by rewrite list_insert_insert_eq).
  exists (q w3), w3, (MkServed (s_res x') c 1). split_and!; [|apply Hq| |done..|].
  - cbn [server_run server_step]. rewrite Hw. cbn [mbind option_bind work_enabled work_step].
    rewrite (tick_idle _ _ _ _ _ t1 w (world p) Ht). fold w1. fold (q w1). cbn [mbind option_bind].
    rewrite Hq. cbn [mbind option_bind]. change (posted w1) with (posted w) at 1.
    rewrite bool_decide_eq_true_2 by done. cbn [fst snd]. fold w1'. change (world (q w1)) with (world p).
    rewrite E2, Hqq. change (MkPool (workers (q w2)) (accepting (q w1)) (world p)) with (q w2).
    cbn [mbind option_bind]. rewrite Hq. cbn [mbind option_bind]. rewrite Hx2, Hen.
    change (world (q w2)) with (world p). by rewrite E3, Hqq.
  - cbn [w3 conns]. rewrite list_lookup_insert_ne by done. cbn [w2 conns].
    apply list_lookup_insert_eq. by eapply lookup_lt_Some.
  - intros t4. exists (idle w3). split; [by apply tick_idle|done].
Qed.

(** A client asks for one answer and takes it two seconds later; meanwhile a second connects. *)
Definition slow_reader : list server_event :=
  [AcceptDone true 0; Work 0 0 (Started 0);
   Work 0 (seconds 1) (Completed 0 (received
     ("GET /api/1.0/wallet/events HTTP/1.0" +:+ Connection.crlf +:+ Connection.crlf)));
   AcceptDone true 0].

Definition about_to_finish (x : served) : bool :=
  enabled (WriteDone true) (s_conn x) && close_connection_ (s_conn x) &&
  negb (is_reading (s_conn x)) && (task_id_ x =? 1).

Lemma slow_reader_reaches :
  ∃ p, @server_reaches integer_doubles (gmap string string) _ _ Config.defaults (Done test_date)
         (λ _, Done None) (λ _, Done ""%string) 4096 2 0 fresh slow_reader p ∧ pool_fair p ∧
    ∃ w x, workers p !! 0%nat = Some w ∧ tasks_ (timer w) = [] ∧ 1%nat ∈ posted w ∧
      conns w !! 0%nat = Some x ∧ about_to_finish x = true.
Proof.
  assert (match do_accept 0 (new_pool 2 5 fresh) with
          | Some p0 =>
              match @server_run integer_doubles (gmap string string) _ _ Config.defaults
                      (Done test_date) (λ _, Done None) (λ _, Done ""%string) 4096 slow_reader p0 with
              | Some p =>
                  fairb p &&
                  match workers p !! 0%nat with
                  | Some w =>
                      bool_decide (tasks_ (timer w) = []) && bool_decide (1%nat ∈ posted w) &&
                      match conns w !! 0%nat with Some x => about_to_finish x | None => false end
                  | None => false
                  end
              | None => false
              end
          | None => false
          end = true) as Hb by (vm_compute; reflexivity).
  destruct (do_accept 0 (new_pool 2 5 fresh)) as [p0|] eqn:E0; [|discriminate Hb].
  destruct (server_run _ _ _ _ _ slow_reader p0) as [p|] eqn:E; [|discriminate Hb].
  exists p. apply andb_true_iff in Hb as [Hf Hb]. split; [by exists p0|]. split; [by apply fairb_fair|].
  destruct (workers p !! 0%nat) as [w|] eqn:Hw; [|discriminate Hb].
  apply andb_true_iff in Hb as [Hb Hx]. apply andb_true_iff in Hb as [Ht Hp].
  apply bool_decide_eq_true in Ht, Hp.
  destruct (conns w !! 0%nat) as [x|] eqn:Ex; [|discriminate Hx]. by exists w, x.
Qed.

Lemma stale_identifier_cancels_another_deadline_witness :
  ∃ p p' w' y, @server_reaches integer_doubles (gmap string string) _ _ Config.defaults (Done test_date)
      (λ _, Done None) (λ _, Done ""%string) 4096 2 0 fresh slow_reader p ∧
    @server_run integer_doubles (gmap string string) _ _ Config.defaults (Done test_date)
      (λ _, Done None) (λ _, Done ""%string) 4096
      [Work 0 (seconds 2) Tick; Work 0 (seconds 2) (Started 1);
       Work 0 (seconds 3) (Completed 0 (WriteDone true))] p = Some p' ∧
    workers p' !! 0%nat = Some w' ∧ conns w' !! 1%nat = Some y ∧ is_open (s_conn y) = true ∧
    deadline (s_conn y) = true ∧ tasks_ (timer w') = [].
Proof.
  destruct slow_reader_reaches as (p & Hr & Hf & w & x & Hw & Ht & Hp & Hx & Hb).
  unfold about_to_finish in Hb. apply andb_true_iff in Hb as [Hb Hid].
  apply andb_true_iff in Hb as [Hb Hrd]. apply andb_true_iff in Hb as [Hen Hc].
  apply negb_true_iff in Hrd. apply Z.eqb_eq in Hid.
  destruct (@stale_identifier_cancels_another_deadline integer_doubles (gmap string string) _ _
    Config.defaults (Done test_date) (λ _, Done None) (λ _, Done ""%string) 4096 2 0 fresh slow_reader
    p 0 w 0 1 x (seconds 2) (seconds 2) (seconds 3) Hr Hf Hw Ht Hx Hen Hc Hrd Hid Hp)
    as (p' & w' & y & E & Hw' & Hy & Ho & Hd & Ht' & _).
  exists p, p', w', y. split; [exact Hr|]. split; [exact E|]. split; [exact Hw'|].
  split; [exact Hy|]. split; [exact Ho|]. split; [exact Hd|exact Ht'].
Defined.
