(* ===== verification/Requests.v ===== *)
(** * From the bytes of a request to its answer

    A request as a client prints it is the request the connection hands to the application;
    and for a request for a route of the wallet, the bytes the server starts to write are the
    answer of the route's handler. *)

From Stdlib Require Import ZArith Lia Ascii String.
From stdpp Require Import base tactics option strings list gmap.
From S2P Require Import Prelude.
From S2P Require Import CppStd.
From S2P Require Import Store.
From S2P Require Import World.
From S2P Require Import QueryString.
From S2P Require Import Crow.
From S2P Require Import HttpParser.
From S2P Require Import HttpExecute.
From S2P Require Import Trie.
From S2P Require Import Router.
From S2P Require Import Connection.
From S2P Require Import ConnectionFacts.
From S2P Require Import HttpRoundtrip.
From S2P Require Import Instances.
From S2P Require Import Api.
From S2P Require Import Wallet.
From S2P Require Import Concurrent.
From S2P Require Import App.
From S2P Require Import Server.
From S2P Require Import ServerFacts.

(** ** What a message gathers *)

Definition on_event (ev : data_event) : bytes → message → message :=
  match ev with
  | ev_url => on_url
  | ev_header_field => on_header_field
  | ev_header_value => on_header_value
  | ev_body => on_body
  end.

Definition header_strings (h : bytes * bytes) : string * string := (str h.1, str h.2).

(** The last header, which is in the map only when the headers are complete. *)
Definition flush (m : message) : message :=
  if String.eqb (Connection.header_field m) "" then m else emplace_header m.

(** Between two headers: no header is pending, or one whose parts are not empty. *)
Definition between_headers (m : message) : Prop :=
  header_building_state m = 0%Z ∧
  (Connection.header_field m = "" ↔ Connection.header_value m = "").

Lemma str_cons c b : str (c :: b) = String c (str b).
Proof. done. Qed.

Lemma message_gathers h m :
  header_ok h = true → between_headers m →
  let m' := on_event ev_header_value h.2 (on_event ev_header_field h.1 m) in
  between_headers m' ∧ msg_headers (flush m') = msg_headers (flush m) ++ [header_strings h] ∧
  msg_raw_url m' = msg_raw_url m ∧ msg_body m' = msg_body m.
Proof.
  destruct h as [[|n ns] [|c bs]]; try done. intros _ (Hb & Hp). cbn [fst snd on_event].
  unfold on_header_field, on_header_value, flush, emplace_header, header_strings.
  destruct m as [raw url b mc f v hs ps bd ka cl]; cbn in *. subst b. cbn.
  destruct (String.eqb_spec v "") as [->|Hv]; cbn.
  - assert (f = "") as -> by by apply Hp. cbn. by repeat split.
  - destruct (String.eqb_spec f "") as [->|Hf]; [by destruct Hv; apply Hp|]. cbn.
    by repeat split.
Qed.

Lemma message_gathers_all hs m :
  forallb header_ok hs = true → between_headers m →
  let m' := fold_left (λ m h, on_event ev_header_value h.2 (on_event ev_header_field h.1 m)) hs m in
  between_headers m' ∧ msg_headers (flush m') = msg_headers (flush m) ++ (header_strings <$> hs) ∧
  msg_raw_url m' = msg_raw_url m ∧ msg_body m' = msg_body m.
Proof.
  revert m. induction hs as [|h hs IH]; intros m Hh Hm; cbn [fold_left].
  - by rewrite app_nil_r.
  - cbn in Hh. apply andb_true_iff in Hh as [Hh Hhs].
    destruct (message_gathers h m Hh Hm) as (H1 & H2 & H3 & H4).
    destruct (IH _ Hhs H1) as (H5 & H6 & H7 & H8). split; [done|].
    rewrite H6, H2, H7, H3, H8, H4, <- app_assoc. done.
Qed.

Definition printed (m : HTTPMethod) (path : bytes) (query : option bytes)
    (hs : list (bytes * bytes)) (params : query_string) : request :=
  MkRequest m (str (print_target path query)) (str path) params (header_strings <$> hs) "" 1 1
    true false false.

Lemma str_app a b : str (a ++ b) = str a +:+ str b.
Proof. induction a as [|c a IH]; [done|]. exact (f_equal (String c) IH). Qed.
Lemma list_of_str b : list_ascii_of_string (str b) = b.
Proof. apply list_ascii_of_string_of_list_ascii. Qed.

Lemma url_of_target path query r :
  path_ok path = true → qs_point r = query_point path query →
  url_before_query r (str (print_target path query)) = str path.
Proof.
  intros Hp Hq. unfold url_before_query, print_target. rewrite Hq. destruct query as [q|]; cbn [query_point].
  - destruct path as [|c path]; [done|]. rewrite (proj2 (Z.eqb_neq _ _)) by (cbn; lia).
    rewrite list_of_str, Nat2Z.id, take_app_length. done.
  - by rewrite app_nil_r.
Qed.

Section Requests.
Context {V : Type} (server_name : string) (get_cached_date_str : prog V string)
        (read_file : string → prog V string) (buffer_address res_stream_threshold_ : Z)
        (app_handle app_upgrade : request → prog (response * (connection * V)) unit).
Local Open Scope prog_scope.

Abbreviation settings :=
  (callbacks app_handle app_upgrade server_name get_cached_date_str read_file
     res_stream_threshold_).
Abbreviation handle :=
  (Connection.handle app_handle app_upgrade server_name get_cached_date_str read_file
     res_stream_threshold_).
Abbreviation feed :=
  (feed app_handle app_upgrade server_name get_cached_date_str read_file buffer_address
     res_stream_threshold_).

Definition gather (ev : data_event) (b : bytes) (u : feeding (V:=V)) : feeding :=
  on_message (on_event ev b) u.
Definition headers_done (r : http_parser) (u : feeding (V:=V)) : feeding :=
  (run_callback handle_header r (on_message (headers_complete r) u)).2.

Lemma handle_header_returns (s : response * (connection * V)) : ∃ s', run handle_header s = (Val tt, s').
Proof.
  destruct s as [res [c v]]. unfold handle_header, do_write, starts_write. run_simpl. cbn.
  destruct (_ && _); by eexists.
Qed.

Lemma headers_done_spec r u :
  u.2 = None → HttpExecute.on_headers_complete settings r u = (0%Z, headers_done r u).
Proof.
  destruct u as [[res [c v]] o]. cbn [snd]. intros ->. unfold headers_done, callbacks.
  cbn [HttpExecute.on_headers_complete]. unfold run_callback, on_message.
  destruct (handle_header_returns (res, (set_parser r (set_msg (headers_complete r (msg c)) c), v)))
    as [[res' [c' v']] ->]. done.
Qed.

(** Without [Expect], the headers are only stored. *)
Lemma headers_done_quiet r res c v :
  get_header_value (msg_headers (headers_complete r (msg c))) "expect" ≠ "100-continue" →
  headers_done r ((res, (c, v)), None) =
  ((res, (set_parser r (set_msg (headers_complete r (msg c)) c), v)), None).
Proof.
  intros He. unfold headers_done. cbn -[headers_complete]. unfold handle_header. run_simpl.
  cbn -[headers_complete]. apply String.eqb_neq in He.
  rewrite He, andb_false_r. done.
Qed.

Lemma gather_message ev b res c v :
  gather ev b ((res, (c, v)), None) = ((res, (set_msg (on_event ev b (msg c)) c, v)), None).
Proof. done. Qed.

Lemma gather_request_message path query hs res c v :
  gather_request gather path query hs ((res, (c, v)), None) =
  ((res, (set_msg (fold_left (λ m h, on_event ev_header_value h.2 (on_event ev_header_field h.1 m)) hs
                     (on_url (print_target path query) (msg c))) c, v)), None).
Proof.
  unfold gather_request. rewrite gather_message. cbn [on_event].
  generalize (on_url (print_target path query) (msg c)). induction hs as [|h hs IH]; intros m; [done|].
  cbn [fold_left]. unfold gather_header at 2. rewrite !gather_message. apply IH.
Qed.

(** The message when it is complete. *)
Definition message_of (r : http_parser) (path : bytes) (query : option bytes)
    (hs : list (bytes * bytes)) : message :=
  headers_complete r
    (fold_left (λ m h, on_event ev_header_value h.2 (on_event ev_header_field h.1 m)) hs
       (on_url (print_target path query) new_message)).

Lemma message_of_headers r m q path query hs :
  forallb header_ok hs = true → plain m q 1 1 r →
  let m := message_of r path query hs in
  msg_headers m = header_strings <$> hs ∧ msg_raw_url m = str (print_target path query) ∧
  msg_body m = "" ∧ msg_keep_alive m = true ∧ msg_close_connection m = false.
Proof.
  intros Hh Hr. unfold message_of, headers_complete, set_connection_parameters.
  destruct (message_gathers_all hs (on_url (print_target path query) new_message) Hh)
    as (_ & H2 & H3 & H4); [by repeat split|].
  fold (flush (fold_left (λ m h, on_event ev_header_value h.2 (on_event ev_header_field h.1 m)) hs
          (on_url (print_target path query) new_message))).
  cbn [msg_headers set_msg_close_connection set_msg_keep_alive msg_raw_url msg_body msg_keep_alive
       msg_close_connection]. destruct Hr. rewrite pl_major, pl_minor, pl_flags.
  split; [exact H2|].
  assert (∀ m, msg_raw_url (flush m) = msg_raw_url m ∧ msg_body (flush m) = msg_body m) as Hfl.
  { intros m1. unfold flush. by destruct (String.eqb _ _). }
  rewrite (proj1 (Hfl _)), (proj2 (Hfl _)), H3, H4. done.
Qed.

Lemma printed_is_handled m path query hs params res c v :
  let text := print_request m path query hs in
  m ≠ Connect → path_ok path = true → query_ok query = true → forallb header_ok hs = true →
  (Z.of_nat (length text) ≤ HTTP_MAX_HEADER_SIZE)%Z →
  parse_url (str (print_target path query)) = Some params →
  get_header_value (header_strings <$> hs) "expect" ≠ "100-continue" →
  at_start (parser_ c) → msg c = new_message →
  ∃ r' msg', to_request r' msg' = printed m path query hs params ∧ p_errno r' = CHPE_OK ∧
    lenient_http_headers r' = false ∧
    ∀ s', run handle (res, (set_msg msg' (set_parser r' c), v)) = (Val tt, s') →
      p_errno (parser_ s'.2.1) = CHPE_OK →
      run (feed text) (res, (c, v)) =
      (Val true, (s'.1, (set_parser (set_nread 0 (parser_ s'.2.1)) s'.2.1, s'.2.2))).
Proof.
  intros text Hm Hp Hq Hh Hsize Hparams Hexp Hstart Hmsg.
  destruct (parse_request settings text buffer_address HTTP_MAX_HEADER_SIZE) with
    (gather := gather) (headers_done := headers_done) (J := λ u : feeding (V:=V), u.2 = None)
    (r := parser_ c) (u := ((res, (c, v)), @None (outcome unit))) (m := m) (path := path)
    (query := query) (hs := hs) as (r' & Hr' & Hex); try done.
  { intros ev r b u. by destruct ev. }
  { intros ev b [[? [? ?]] ?]. done. }
  { apply headers_done_spec. }
  rewrite gather_request_message, Hmsg in Hex.
  set (m1 := fold_left _ hs _) in Hex. set (r0 := at_headers_complete r') in *.
  assert (plain m (query_point path query) 1 1 r0) as Hr0 by (by destruct Hr').
  set (r1 := at_message_complete r') in *.
  assert (plain m (query_point path query) 1 1 r1) as Hr1 by (by destruct Hr').
  destruct (message_of_headers r0 _ _ path query hs Hh Hr0) as (M1 & M2 & M3 & M4 & M5).
  set (m2 := message_of r0 path query hs) in *.
  rewrite headers_done_quiet in Hex by (change (get_header_value (msg_headers m2) "expect" ≠ "100-continue");
    by rewrite M1).
  change (headers_complete r0 (msg (set_msg m1 c))) with m2 in Hex.
  set (m3 := set_msg_url_params params (set_msg_url (url_before_query r1 (msg_raw_url m2))
               (set_message_complete true m2))).
  exists r1, m3. split; [|split; [by destruct Hr1|split; [by destruct Hr1|]]].
  { unfold to_request, m3, printed. destruct Hr1.
    cbn [msg_raw_url msg_url msg_url_params msg_headers msg_body msg_keep_alive msg_close_connection
         set_msg_url_params set_msg_url set_message_complete].
    rewrite pl_method, pl_major, pl_minor, M1, M2, M3, M4, M5, url_of_target by done. done. }
  intros s' Hrun Ho. specialize (Hex (parser_ s'.2.1) (s', None)).
  assert (message_completed r1 m2 = Some m3) as Hcomplete.
  { unfold message_completed. rewrite M2, Hparams. cbn. unfold m3. by rewrite M2. }
  assert (on_notify settings ev_message_complete r1
            ((res, (set_parser r0 (set_msg m2 (set_msg m1 c)), v)), None) =
          (0%Z, parser_ s'.2.1, (s', None))) as Hnotify.
  { unfold callbacks. cbn [on_notify]. unfold run_callback, on_message_complete.
    assert (run (on_message_complete app_handle app_upgrade server_name get_cached_date_str read_file
              res_stream_threshold_)
              (res, (set_parser r1 (set_parser r0 (set_msg m2 (set_msg m1 c))), v)) = (Val tt, s')) as Hr.
    { unfold on_message_complete. unfold conn. run_simpl. cbn [parser_ msg set_parser set_msg].
      rewrite Hcomplete. rewrite run_bind. exact Hrun. }
    unfold on_message_complete in Hr. rewrite Hr. by destruct s' as [? [? ?]]. }
  specialize (Hex Hnotify Ho). unfold Connection.feed, conn. run_simpl. cbn [msg].
  rewrite Hmsg. cbn -[http_parser_execute text].
  change (http_parser_execute settings text buffer_address HTTP_MAX_HEADER_SIZE (parser_ c) (res, (c, v), None) =
    (set_nread 0 (parser_ s'.2.1), (s', None), Parsed (length text))) in Hex.
  rewrite Hex. destruct s' as [res' [c' v']]. cbn in *. rewrite Ho, Nat.eqb_refl. done.
Qed.
End Requests.

(** C17: printing and parsing a request are inverse.  A request without a body, of any method
    but [CONNECT], with any path and query of the bytes a URL may have and any header lines but
    [Connection], [Proxy-Connection], [Content-Length], [Upgrade], [Expect: 100-continue] and those
    whose names begin as [Transfer-Encoding], with values that are not empty and begin with no
    space or tab, not longer than the parser accepts and with a query the server can read, printed as a client prints it and read at once on a
    connection that waits for a request, is handed to
    [Connection::handle] as it was before it was printed: its method, its URL with and without
    its query, the parameters of its query, its header lines in their order with their case,
    no body, HTTP 1.1 kept alive.  The parser takes every byte, and what is left of the
    connection is what [handle] leaves of it, with the count of header bytes at zero. *)
Theorem printed_request_is_received {V : Type} server_name (get_cached_date_str : prog V string)
    read_file buffer_address res_stream_threshold_ app_handle app_upgrade
    m path query hs params res c (v : V) :
  let text := print_request m path query hs in
  m ≠ Connect → path_ok path = true → query_ok query = true → forallb header_ok hs = true →
  (Z.of_nat (length text) ≤ HTTP_MAX_HEADER_SIZE)%Z →
  parse_url (str (print_target path query)) = Some params →
  get_header_value (header_strings <$> hs) "expect" ≠ "100-continue" →
  at_start (parser_ c) → msg c = new_message →
  ∃ r' msg', to_request r' msg' = printed m path query hs params ∧ p_errno r' = CHPE_OK ∧
    lenient_http_headers r' = false ∧
    ∀ s', run (handle app_handle app_upgrade server_name get_cached_date_str read_file
                 res_stream_threshold_) (res, (set_msg msg' (set_parser r' c), v)) = (Val tt, s') →
      p_errno (parser_ s'.2.1) = CHPE_OK →
      run (feed app_handle app_upgrade server_name get_cached_date_str read_file buffer_address
             res_stream_threshold_ text) (res, (c, v)) =
      (Val true, (s'.1, (set_parser (set_nread 0 (parser_ s'.2.1)) s'.2.1, s'.2.2))).
Proof. apply printed_is_handled. Qed.

(** A request for a balance, and an application that answers with the URL it was asked for. *)
Definition balance_query : bytes := list_ascii_of_string "accountID=700000001&x=1".
Definition balance_headers : list (bytes * bytes) :=
  [(list_ascii_of_string "Host", list_ascii_of_string "localhost:18080");
   (list_ascii_of_string "User-Agent", list_ascii_of_string "curl/8.5.0");
   (list_ascii_of_string "Cookie", list_ascii_of_string "session=1");
   (list_ascii_of_string "Accept", list_ascii_of_string "*/*")].
Definition balance_params : query_string :=
  default query_string_empty
    (parse_url (str (print_target (list_ascii_of_string "/api/1.0/wallet/getBalance")
                       (Some balance_query)))).

Definition balance_text : bytes :=
  print_request Post (list_ascii_of_string "/api/1.0/wallet/getBalance") (Some balance_query)
    balance_headers.

Lemma printed_request_is_received_witness :
  ∃ r' msg',
    to_request r' msg' =
      printed Post (list_ascii_of_string "/api/1.0/wallet/getBalance") (Some balance_query)
        balance_headers balance_params ∧ p_errno r' = CHPE_OK ∧ lenient_http_headers r' = false ∧
    ∀ s', run (@handle unit (λ _, Done tt) (λ _, Done tt) "" (Done "") (λ _, Done "") 1048576)
            (Response.empty, (set_msg msg' (set_parser r' new_connection), tt)) = (Val tt, s') →
      p_errno (parser_ s'.2.1) = CHPE_OK →
      run (feed (λ _, Done tt) (λ _, Done tt) "" (Done "") (λ _, Done "") 4096 1048576
             balance_text) (Response.empty, (new_connection, tt)) =
      (Val true, (s'.1, (set_parser (set_nread 0 (parser_ s'.2.1)) s'.2.1, s'.2.2))).
Proof.
  apply (@printed_request_is_received unit "" (Done "") (λ _, Done "") 4096 1048576
    (λ _, Done tt) (λ _, Done tt) Post (list_ascii_of_string "/api/1.0/wallet/getBalance")
    (Some balance_query) balance_headers balance_params Response.empty new_connection tt).
  - discriminate.
  - vm_compute; reflexivity.
  - vm_compute; reflexivity.
  - vm_compute; reflexivity.
  - vm_compute; discriminate.
  - vm_compute; reflexivity.
  - vm_compute; discriminate.
  - repeat split.
  - reflexivity.
Defined.

(** A header with an empty value is dropped when another follows. *)
Definition keep_request (req : request) : prog (response * (connection * option request)) unit :=
  modify (λ '(r, (c, _)), (r, (c, Some req))).
Definition received_headers (input : bytes) : option (list (string * string)) :=
  match run (feed keep_request (λ _, Done tt) "" (Done "") (λ _, Done "") 4096 1048576 input)
          (Response.empty, (new_connection, None)) with
  | (Val true, (_, (_, Some req))) => Some (req_headers req)
  | _ => None
  end.
Example empty_value_dropped :
  received_headers
    (print_request Get [ "/"%char ] None
       [(text "Host", text "a"); (text "X-Mode", []); (text "Accept", text "b")]) =
    Some [("Host", "a"); ("Accept", "b")] ∧
  received_headers
    (print_request Get [ "/"%char ] None [(text "Host", text "a"); (text "X-Mode", [])]) =
    Some [("Host", "a"); ("X-Mode", "")].
Proof. split; vm_compute; reflexivity. Qed.
