(* ===== verification/Exchanges.v ===== *)
(** * Exchanges on one connection

    What a client that sends one request for a route at a time, and reads the answer, sees of
    the wallet: the bytes of the answers are those of the handlers' responses, in order. *)

From Stdlib Require Import ZArith Lia Ascii String.
From stdpp Require Import base tactics option strings list gmap.
From S2P Require Import Prelude.
From S2P Require Import CppStd.
From S2P Require Import Store.
From S2P Require Import World.
From S2P Require Import QueryString.
From S2P Require Import Crow.
From S2P Require Import HttpParser.
From S2P Require Import HttpExecute.
From S2P Require Import Trie.
From S2P Require Import TrieFacts.
From S2P Require Import Router.
From S2P Require Import Connection.
From S2P Require Import ConnectionFacts.
From S2P Require Import HttpRoundtrip.
From S2P Require Import Instances.
From S2P Require Import Service.
From S2P Require Import Api.
From S2P Require Import Wallet.
From S2P Require Import Concurrent.
From S2P Require Import App.
From S2P Require Import Server.
From S2P Require Import ServerFacts.
From S2P Require Import Requests.

(** ** The responses of the handlers

    All a handler chooses is the code and the body. *)

Definition plain_response (r : response) : Prop :=
  r = Response.of_code_body (code r) (body r) ∧ code r ∈ [200; 400; 500]%Z.

Lemma plain_of_code_body c b : c ∈ [200; 400; 500]%Z → plain_response (Response.of_code_body c b).
Proof. done. Qed.

Section Returns.
Context {W : Type}.
Local Open Scope prog_scope.

Definition returns {A} (P : A → Prop) (p : prog W A) : Prop :=
  ∀ w, match (run p w).1 with Val a => P a | _ => True end.

Lemma returns_done {A} (P : A → Prop) (a : A) : P a → returns P (Done a).
Proof. by intros Ha w. Qed.
Lemma returns_bind {A B} (P : B → Prop) (p : prog W A) (k : A → prog W B) :
  (∀ a, returns P (k a)) → returns P (prog_bind p k).
Proof. intros Hk w. rewrite run_bind. destruct (run p w) as [[] w']; try done. apply Hk. Qed.
Lemma returns_on_exit {A} (P : A → Prop) c (p : prog W A) : returns P p → returns P (on_exit c p).
Proof. intros Hp w. rewrite run_on_exit. specialize (Hp w). by destruct (run p w) as [[] w']. Qed.
Lemma returns_catch {A} (P : A → Prop) h (p : prog W A) :
  returns P p → (∀ e, returns P (h e)) → returns P (catch h p).
Proof.
  intros Hp Hh w. rewrite run_catch. specialize (Hp w). destruct (run p w) as [[] w']; try done.
  apply Hh.
Qed.
Lemma returns_throw {A} (P : A → Prop) e : returns P (throw (A:=A) e).
Proof. done. Qed.
Lemma returns_abort {A} (P : A → Prop) : returns P (abort (A:=A)).
Proof. done. Qed.
End Returns.

Ltac step_returns :=
  lazymatch goal with
  | |- returns _ (Done _) => apply returns_done
  | |- returns _ (prog_bind _ _) => apply returns_bind; intros ?
  | |- returns _ (on_exit _ _) => apply returns_on_exit
  | |- returns _ (catch _ _) => apply returns_catch; [|intros ?]
  | |- returns _ (throw _) => apply returns_throw
  | |- returns _ abort => apply returns_abort
  | |- returns _ (if ?b then _ else _) => destruct b
  | |- returns _ (match ?x with _ => _ end) => destruct x
  | |- returns _ (let _ := _ in _) => cbv zeta
  end.

Lemma handler_returns_plain {db} `{KVStore db} `{Platform} config rt req :
  returns plain_response (serve_request config rt req).
Proof.
  unfold serve_request, handler, internal_error. apply returns_catch;
    [|intros e; apply returns_done, (plain_of_code_body 500); repeat constructor].
  destruct rt;
    unfold create_account, balance_transfer, get_balance, events, missing_parameters, transfer_locked;
    repeat step_returns; first [apply (plain_of_code_body 400) | apply (plain_of_code_body 200)];
    repeat constructor.
Qed.

(** ** What the server writes *)

(** The bytes of the answer to a response of a handler, on a connection to be kept alive. *)
Definition answer_bytes (date : string) (r : response) : string :=
  let r := default_body (Response.set_code (normal_code (code r)) r) in
  String.concat "" (header_lines server_name_ true date r ++ [body r]).

Section Exchange.
Context `{Doubles} {db : Type} `{KVStore db} `{Platform}.
Context (config : Config) (date : prog (World db) string)
        (stat : string → prog (World db) (option Z)) (read_file : string → prog (World db) string)
        (buffer_address : Z) (today : string).
(** The clock shows the same date throughout. *)
Hypothesis Hdate : ∀ w, run date w = (Val today, w).
Local Open Scope prog_scope.

(** The response [prepare_buffers] leaves, once [end] has completed it. *)
Definition final_response (code0 : Z) (body0 : string) : response :=
  let r := default_body (Response.of_code_body (normal_code code0) body0) in
  MkResponse (code r) (body r) [] false false true no_file.

Lemma final_response_eq code0 body0 :
  default_body (Response.set_code (normal_code code0) (MkResponse code0 body0 [] false false true no_file)) =
  final_response code0 body0.
Proof.
  unfold final_response, default_body, Response.set_code. cbn [code body Response.of_code_body].
  by destruct (_ && _).
Qed.

Lemma answer_bytes_eq code0 body0 :
  answer_bytes today (Response.of_code_body code0 body0) =
  String.concat "" (header_lines server_name_ true today (final_response code0 body0) ++
                    [body (final_response code0 body0)]).
Proof.
  unfold answer_bytes, final_response, default_body. cbn [code body Response.of_code_body Response.set_code].
  by destruct (_ && _).
Qed.

(** The completion handler writes the response. *)
Lemma run_complete code0 body0 c (w : World db) :
  is_open c = true → completion c = CallCompleteRequest →
  need_to_start_read_after_complete_ c = false → in_flight c = [] → add_keep_alive_ c = true →
  (Z.of_nat (String.length (body (final_response code0 body0))) < stream_threshold)%Z →
  ∃ bs,
    run (res_end (complete date read_file)) (Response.of_code_body code0 body0, (c, w)) =
    (Val tt,
     (MkResponse (code (final_response code0 body0)) (res_body_copy_ c) [] false false true no_file,
      (set_in_flight [answer_bytes today (Response.of_code_body code0 body0)]
         (set_is_writing true (set_buffers bs (set_res_body_copy (body (final_response code0 body0))
            (set_completion NoHandler (set_need_to_call_after_handlers false c))))), w))).
Proof.
  intros Ho Hc Hn Hf Hk Hsize. exists (header_lines server_name_ true today (final_response code0 body0) ++
                    [body (final_response code0 body0)]).
  rewrite answer_bytes_eq. unfold res_end. run_simpl.
  cbn [Response.end_ completed_ Response.of_code_body skip_body code body headers manual_length_header file_info fst snd].
  unfold complete, call_completion, conn. run_simpl. cbn [snd fst]. rewrite Hc.
  unfold complete_request, prepare_buffers, conn, conn_do, response_of, res_do. run_simpl.
  cbn [complete_location headers get_header_value List.find]. unfold complete_location.
  cbn [headers get_header_value List.find String.eqb negb andb completion set_completion is_open
       set_need_to_call_after_handlers]. rewrite Ho. unfold when, app. run_simpl. rewrite final_response_eq.
  set (fr := final_response code0 body0) in *.
  assert (headers fr = []) as Hh by done. rewrite Hh. cbn [ci_count List.filter length Nat.eqb].
  unfold app. run_simpl. rewrite !run_on_state, Hdate. cbn [and_then]. run_simpl.
  assert (Response.is_static_type fr = false) as -> by done.
  unfold do_write_general, response_of, conn_do, conn. run_simpl. rewrite (proj2 (Z.ltb_lt _ _) Hsize).
  unfold do_write, starts_write, conn_do. run_simpl.
  cbn -[header_lines String.concat fr]. rewrite Hn. cbn -[header_lines String.concat fr].
  by rewrite Hf, Hk, orb_false_r.
Qed.

(** ** One exchange *)

Record exchange : Type := MkExchange {
  x_route : route;
  x_query : option bytes;
  x_headers : list (bytes * bytes)
}.

Definition x_path (x : exchange) : bytes := list_ascii_of_string (route_url (x_route x)).
Definition x_text (x : exchange) : bytes := print_request Get (x_path x) (x_query x) (x_headers x).

(** A request with [Host] and without [Expect], and with no line the parser acts on. *)
Definition exchange_ok (x : exchange) : bool :=
  query_ok (x_query x) && forallb header_ok (x_headers x) &&
  negb (Nat.eqb (ci_count (header_strings <$> x_headers x) "host") 0) &&
  negb (String.eqb (get_header_value (header_strings <$> x_headers x) "expect") "100-continue") &&
  (Z.of_nat (length (x_text x)) <=? HTTP_MAX_HEADER_SIZE)%Z.

(** The request the application is given; no value when its query is read out of bounds. *)
Definition x_request (x : exchange) : option request :=
  printed Get (x_path x) (x_query x) (x_headers x) <$>
    parse_url (str (print_target (x_path x) (x_query x))).

(** The answer fits what is written at once. *)
Definition small (r : response) : bool :=
  (Z.of_nat (String.length (body (final_response (code r) (body r)))) <? stream_threshold)%Z.

(** A connection that waits for a request, and one that writes an answer. *)
Record ready (c : connection) : Prop := Ready {
  rd_parser : at_start (parser_ c);
  rd_msg : msg c = new_message;
  rd_open : is_open c = true;
  rd_in_flight : in_flight c = [];
  rd_later : need_to_start_read_after_complete_ c = false;
  rd_destroyed : destroyed c = false;
  rd_reads : reads c = 1%nat
}.

Record answering (c : connection) (answer : string) (c' : connection) : Prop := Answering {
  an_parser : parser_ c' = parser_ c;
  an_msg : msg c' = msg c;
  an_open : is_open c' = true;
  an_close : close_connection_ c' = false;
  an_in_flight : in_flight c' = [answer];
  an_call : need_to_call_after_handlers_ c' = false;
  an_later : need_to_start_read_after_complete_ c' = false;
  an_destroyed : destroyed c' = false;
  an_reads : reads c' = reads c;
  an_sent : sent c' = sent c;
  an_overlapped : overlapped c' = overlapped c
}.

Abbreviation handle :=
  (Connection.handle (app_handle config date stat read_file) (app_upgrade config date stat read_file)
     server_name_ date read_file stream_threshold).

Lemma path_target rt : target_of (str (list_ascii_of_string (route_url rt))) = Api rt.
Proof. by destruct rt. Qed.

(** A route whose handler answers, and whose answer is written. *)
Lemma run_route rt req params res c (w : World db) resp w' s' :
  run (serve_request config rt req) w = (Val resp, w') →
  run (res_end (complete date read_file)) (Response.move_assign res resp, (c, w')) = (Val tt, s') →
  run (call_rule (complete date read_file) (wallet_rule config (complete date read_file) rt) req params)
    (res, (c, w)) = (Val tt, s').
Proof.
  intros Hs Hend. unfold serve_request in Hs. rewrite run_catch in Hs.
  unfold call_rule. rewrite run_catch.
  cbn [handler_ wallet_rule with_handler]. unfold wrapped_handler_call.
  rewrite run_bind, !run_on_state.
  destruct (run (Wallet.handler config rt req) w) as [[r|e| | | |] w1]; try done.
  - injection Hs as -> ->. cbn [and_then]. by rewrite run_assign_end, Hend.
  - injection Hs as <- <-. cbn [and_then]. unfold respond. rewrite run_bind. exact Hend.
Qed.

Lemma run_app_handle x req res c (w : World db) resp w' s' :
  x_request x = Some req → run (serve_request config (x_route x) req) w = (Val resp, w') →
  run (res_end (complete date read_file)) (Response.move_assign res resp, (c, w')) = (Val tt, s') →
  run (app_handle config date stat read_file req) (res, (c, w)) = (Val tt, s').
Proof.
  intros Hx Hs Hend. unfold app_handle, router_.
  destruct (wallet_router_handles config (complete date read_file) (conn_stat stat)) as (r & -> & Hr).
  rewrite (Hr req). unfold x_request in Hx.
  destruct (parse_url _) as [ps|]; [|done]. injection Hx as <-.
  unfold wallet_handle, wallet_get. cbn [req_method printed req_url].
  unfold x_path. rewrite path_target. by eapply run_route.
Qed.

Lemma run_handle x req c (w : World db) resp w' :
  exchange_ok x = true → x_request x = Some req → to_request (parser_ c) (msg c) = req →
  run (serve_request config (x_route x) req) w = (Val resp, w') → small resp = true →
  is_open c = true → in_flight c = [] → need_to_start_read_after_complete_ c = false →
  destroyed c = false →
  ∃ res' c', run handle (Response.empty, (c, w)) = (Val tt, (res', (c', w'))) ∧
    skip_body res' = false ∧ manual_length_header res' = false ∧
    answering c (answer_bytes today resp) c'.
Proof.
  intros Hok Hx Hreq Hs Hsmall Ho Hf Hl Hd.
  assert (plain_response resp) as Hplain.
  { pose proof (handler_returns_plain config (x_route x) req w) as Hp. by rewrite Hs in Hp. }
  destruct Hplain as [Hplain _]. unfold exchange_ok in Hok. rewrite !andb_true_iff, !negb_true_iff in Hok.
  destruct Hok as ((((_ & _) & Hhost) & _) & _).
  assert (∃ ps, req = printed Get (x_path x) (x_query x) (x_headers x) ps) as [ps Hps].
  { unfold x_request in Hx. destruct (parse_url _) as [ps|]; [|done]. injection Hx as <-. by exists ps. }
  set (c1 := set_need_to_call_after_handlers true (set_completion CallCompleteRequest
    (set_completion EmptyHandler (set_need_to_call_after_handlers false
      (set_close_connection false (set_add_keep_alive true (set_req req
        (set_add_keep_alive false (call_timer CancelTask c))))))))).
  destruct (run_complete (code resp) (body resp) c1 w') as [bs Hend]; try done; [by apply Z.ltb_lt|].
  rewrite <- Hplain in Hend.
  assert (Response.move_assign Response.empty resp = resp) as Hmove by (rewrite Hplain; done).
  rewrite <- Hmove in Hend at 1.
  pose proof (run_app_handle x req Response.empty c1 w resp w' _ Hx Hs Hend) as Happ.
  unfold Connection.handle, cancel_deadline_timer, conn_do, conn. run_simpl.
  cbn [parser_ msg set_add_keep_alive call_timer]. rewrite Hreq, Hps.
  cbn [req_ set_req set_add_keep_alive call_timer].
  change (check_version (printed _ _ _ _ _) 1 1) with true.
  cbn [req_headers printed upgrade andb keep_alive close_connection]. rewrite Hhost.
  unfold handle_request, conn_do, conn, response_of. run_simpl. cbn [completed_ Response.empty].
  run_simpl. cbn [req_ set_need_to_call_after_handlers set_completion set_close_connection
    set_add_keep_alive set_req]. rewrite <- Hps. fold c1. rewrite Happ. cbn [and_then]. run_simpl.
  cbn [add_keep_alive_ set_in_flight set_is_writing set_buffers set_res_body_copy set_completion
    set_need_to_call_after_handlers c1 set_close_connection set_add_keep_alive when].
  unfold res_do. run_simpl. do 2 eexists. split; [reflexivity|]. split; [done|]. split; [done|].
  by constructor.
Qed.

(** A connection whose answer is under way, after the read that has asked for it. *)
Record asked (c : connection) (answer : string) (c' : connection) : Prop := Asked {
  ak_errno : p_errno (parser_ c') = CHPE_OK;
  ak_nread : p_nread (parser_ c') = 0%Z;
  ak_lenient : lenient_http_headers (parser_ c') = false;
  ak_open : is_open c' = true;
  ak_close : close_connection_ c' = false;
  ak_in_flight : in_flight c' = [answer];
  ak_later : need_to_start_read_after_complete_ c' = false;
  ak_destroyed : destroyed c' = false;
  ak_reads : reads c' = 1%nat;
  ak_sent : sent c' = sent c
}.

Lemma read_request x req c (w : World db) resp w' :
  exchange_ok x = true → x_request x = Some req → ready c →
  run (serve_request config (x_route x) req) w = (Val resp, w') → small resp = true →
  ∃ res' c', serve_event config date stat read_file buffer_address (ReadDone (Some (x_text x)))
               (Response.empty, (c, w)) = (Val tt, (res', (c', w'))) ∧
    skip_body res' = false ∧ manual_length_header res' = false ∧
    asked c (answer_bytes today resp) c'.
Proof.
  intros Hok Hx [Hp Hm Ho Hf Hl Hd Hr] Hs Hsmall.
  pose proof Hok as Hok2. unfold exchange_ok in Hok2.
  rewrite !andb_true_iff, !negb_true_iff in Hok2.
  destruct Hok2 as ((((Hq & Hh) & _) & Hexp) & Hsize). apply Z.leb_le in Hsize.
  apply String.eqb_neq in Hexp. unfold x_request in Hx.
  destruct (parse_url _) as [params|] eqn:Hparams; [|done]. injection Hx as Hreq.
  destruct (printed_is_handled server_name_ date read_file buffer_address stream_threshold
    (app_handle config date stat read_file) (app_upgrade config date stat read_file)
    Get (x_path x) (x_query x) (x_headers x) params Response.empty (set_reads 0 c) w)
    as (r' & msg' & Hto & Herr & Hlen & Hfeed); try done; [by destruct x as [[]]|].
  rewrite Hreq in Hto.
  assert (x_request x = Some req) as Hx by (unfold x_request; by rewrite Hparams, <- Hreq).
  destruct (run_handle x req (set_msg msg' (set_parser r' (set_reads 0 c))) w resp w' Hok Hx Hto Hs
              Hsmall Ho Hf Hl Hd) as (res' & c' & Hrun & Hsk & Hml & []).
  specialize (Hfeed _ Hrun). cbn [fst snd] in Hfeed. rewrite an_parser0 in Hfeed.
  specialize (Hfeed Herr).
  unfold serve_event, take_event. rewrite Hd. cbn [completed completion_program]. rewrite Hr.
  change (1 - 1)%nat with 0%nat. unfold read_done, conn. run_simpl.
  change (x_text x) with (print_request Get (x_path x) (x_query x) (x_headers x)).
  rewrite Hfeed. cbn [and_then]. run_simpl. cbn [is_open set_parser]. rewrite an_open0. cbn [andb].
  cbn [close_connection_ need_to_call_after_handlers_ set_parser]. rewrite an_close0, an_call0. cbn [negb].
  unfold start_deadline, cancel_deadline_timer, do_read, conn_do. run_simpl.
  do 2 eexists. split; [reflexivity|]. split; [done|]. split; [done|].
  constructor; cbn; try done. by rewrite an_reads0.
Qed.

Lemma write_answer c0 answer c res (w : World db) :
  asked c0 answer c → skip_body res = false → manual_length_header res = false →
  ∃ c', serve_event config date stat read_file buffer_address (WriteDone true) (res, (c, w)) =
          (Val tt, (Response.empty, (c', w))) ∧
    ready c' ∧ sent c' = sent c0 +:+ answer.
Proof.
  intros [] Hsk Hml. unfold serve_event, take_event. rewrite ak_destroyed0.
  cbn [completed completion_program]. unfold write_done, res_do, conn_do, conn, parser_clear, conn_do.
  run_simpl. cbn [close_connection_ set_parser set_msg set_res_body_copy set_is_writing set_in_flight set_sent].
  rewrite ak_close0. cbn [when]. unfold Response.clear. rewrite Hsk, Hml.
  eexists. split; [reflexivity|]. split.
  - constructor; cbn; first [by rewrite ak_in_flight0|by repeat split|done].
  - cbn. by rewrite ak_in_flight0, ak_sent0.
Qed.

(** ** Exchanges in turn *)

(** The requests served one after the other: the responses, and the world that is left. *)
Fixpoint serve_in_turn (xs : list exchange) (w : World db) : option (list response * World db) :=
  match xs with
  | [] => Some ([], w)
  | x :: xs =>
      req ← x_request x;
      match run (serve_request config (x_route x) req) w with
      | (Val resp, w') => '(rs, w'') ← serve_in_turn xs w'; Some (resp :: rs, w'')
      | _ => None
      end
  end%stdpp.

(** The events of the exchanges: a request is read, its answer is written. *)
Definition exchange_events (xs : list exchange) : list event :=
  flat_map (λ x, [ReadDone (Some (x_text x)); WriteDone true]) xs.

Definition answers_bytes (rs : list response) : string :=
  foldr (λ r bs, answer_bytes today r +:+ bs) "" rs.

Lemma serve_event_cons ev evs r c w s1 :
  serve_event config date stat read_file buffer_address ev (r, (c, w)) = (Val tt, s1) →
  enabled ev c = true →
  serve_connection config date stat read_file buffer_address (ev :: evs) (r, (c, w)) =
  serve_connection config date stat read_file buffer_address evs s1.
Proof.
  intros Hev Hen. unfold serve_connection. cbn [take_events fst snd]. rewrite Hen.
  unfold serve_event in Hev. by rewrite Hev.
Qed.

Lemma exchanges_served xs c (w : World db) rs w' :
  forallb exchange_ok xs = true → ready c → serve_in_turn xs w = Some (rs, w') →
  forallb small rs = true →
  ∃ c', serve_connection config date stat read_file buffer_address (exchange_events xs)
          (Response.empty, (c, w)) = Some (Val tt, (Response.empty, (c', w'))) ∧
    ready c' ∧ sent c' = sent c +:+ answers_bytes rs.
Proof.
  revert c w rs. induction xs as [|x xs IH]; intros c w rs Hok Hc Hserve Hsmall.
  - injection Hserve as <- <-. exists c. by rewrite string_app_nil_r.
  - cbn [forallb] in Hok. apply andb_true_iff in Hok as [Hx Hok]. cbn [serve_in_turn] in Hserve.
    destruct (x_request x) as [req|] eqn:Hreq; [|done]. cbn [mbind option_bind] in Hserve.
    destruct (run (serve_request config (x_route x) req) w) as [[resp| | | | |] w1] eqn:Hs; try done.
    destruct (serve_in_turn xs w1) as [[rs1 w2]|] eqn:Hrest; [|done]. injection Hserve as <- <-.
    cbn [forallb] in Hsmall. apply andb_true_iff in Hsmall as [Hsm Hsmall].
    destruct (read_request x req c w resp w1 Hx Hreq Hc Hs Hsm) as (res1 & c1 & E1 & Hsk & Hml & Hask).
    destruct (write_answer c _ c1 res1 w1 Hask Hsk Hml) as (c2 & E2 & Hready & Hsent).
    destruct (IH c2 w1 rs1 Hok Hready Hrest Hsmall) as (c' & E3 & Hready' & Hsent').
    exists c'. split; [|split; [done|]].
    + change (exchange_events (x :: xs)) with
        (ReadDone (Some (x_text x)) :: WriteDone true :: exchange_events xs).
      rewrite (serve_event_cons _ _ _ _ _ _ E1) by (cbn; by rewrite (rd_reads _ Hc)).
      rewrite (serve_event_cons _ _ _ _ _ _ E2) by (cbn; by rewrite (ak_in_flight _ _ _ Hask)).
      exact E3.
    + rewrite Hsent', Hsent. cbn [answers_bytes foldr]. by rewrite string_app_assoc.
Qed.
End Exchange.

(** The concrete clock: one date. *)
Lemma accepted_ready {V} (v : V) :
  ∃ c, accepted v = (Response.empty, (c, v)) ∧ ready c ∧ sent c = "".
Proof. eexists. split; [reflexivity|]. split; [|done]. by repeat split. Qed.

(** C32: the handlers are of a plain type: whatever the request and the world, the response
    of a route is a code, which is 200, 400 or 500, and a body, without headers, not completed,
    not a file. *)
Theorem routes_return_plain_responses {db} `{KVStore db} `{Platform} config rt req (w : World db) resp w' :
  run (serve_request config rt req) w = (Val resp, w') → plain_response resp.
Proof. intros Hs. pose proof (handler_returns_plain config rt req w) as Hp. by rewrite Hs in Hp. Qed.

Lemma routes_return_plain_responses_witness :
  ∃ resp w', run (serve_request Config.defaults Events (get_request "/api/1.0/wallet/events")) fresh =
               (Val resp, w') ∧ plain_response resp.
Proof.
  assert (match run (serve_request Config.defaults Events (get_request "/api/1.0/wallet/events")) fresh with
          | (Val _, _) => true
          | _ => false
          end = true) as Hval by (vm_compute; reflexivity).
  destruct (run (serve_request Config.defaults Events (get_request "/api/1.0/wallet/events")) fresh)
    as [[resp| | | | |] w'] eqn:E; try discriminate Hval.
  exists resp, w'. split; [reflexivity|].
  exact (routes_return_plain_responses Config.defaults Events _ fresh resp w' E).
Defined.

(** C4: a connection serves the wallet.  To a client that sends GET requests for the routes in
    turn on a connection that is kept alive, each in one read, each once the answer to the
    previous one has been written, the server sends exactly the HTTP answers made of the
    responses the handlers give when they are run one after the other, and leaves the world
    they leave; and the connection is ready for the next request.  A request has no body, a
    [Host] line and any other lines but [Connection], [Proxy-Connection], [Content-Length],
    [Upgrade], [Expect: 100-continue] and those whose names begin as [Transfer-Encoding], with
    values that are not empty and begin with no space or tab, in the size the parser accepts; the
    server can read its query, the handlers answer, and their answers are shorter than what is
    written by pieces; the cached date stays the same meanwhile. *)
Theorem exchanges_are_answered `{Doubles} {db} `{KVStore db} `{Platform}
    config date stat read_file buffer_address today xs c (w : World db) rs w' :
  (∀ w, run date w = (Val today, w)) →
  forallb exchange_ok xs = true → ready c → serve_in_turn config xs w = Some (rs, w') →
  forallb small rs = true →
  ∃ c', serve_connection config date stat read_file buffer_address (exchange_events xs)
          (Response.empty, (c, w)) = Some (Val tt, (Response.empty, (c', w'))) ∧
    ready c' ∧ sent c' = sent c +:+ answers_bytes today rs.
Proof. intros Hd. by apply exchanges_served. Qed.

(** An account is created, its balance read, and the answer to a transfer without parameters. *)
Definition some_exchanges : list exchange :=
  [MkExchange CreateAccount (Some (text "startAmount=100")) [(text "Host", text "localhost")];
   MkExchange GetBalance (Some (text "accountID=700000001"))
     [(text "Host", text "localhost"); (text "User-Agent", text "curl/8.5.0");
      (text "Cookie", text "session=1"); (text "Accept", text "*/*")];
   MkExchange BalanceTransfer None [(text "Host", text "localhost")]].

Lemma exchanges_are_answered_witness :
  ∃ s, test_server (exchange_events some_exchanges) = Some (Val tt, s) ∧
    sent s.2.1 = answers_bytes test_date
      [Response.of_body ("Account: 700000001 : Balance: 100" +:+ endl);
       Response.of_body ("Account: 700000001 : Balance: 100" +:+ endl);
       Response.of_code_body 400
         ("Missing required parameters: fromAccount, toAccount, amount" +:+ endl)].
Proof.
  set (answers := answers_bytes _ _).
  assert (match serve_in_turn Config.defaults some_exchanges fresh with
          | Some (rs, _) => forallb small rs && String.eqb (answers_bytes test_date rs) answers
          | None => false
          end = true) as Hrun by (vm_compute; reflexivity).
  destruct (serve_in_turn Config.defaults some_exchanges fresh) as [[rs w']|] eqn:E; [|discriminate Hrun].
  apply andb_true_iff in Hrun as [Hsmall Hrs]. apply String.eqb_eq in Hrs.
  destruct (accepted_ready fresh) as (c & Hacc & Hc & Hsent).
  assert (forallb exchange_ok some_exchanges = true) as Hok by (vm_compute; reflexivity).
  destruct (@exchanges_are_answered integer_doubles (gmap string string) _ _ Config.defaults
    (Done test_date) (λ _, Done None) (λ _, Done ""%string) 4096 test_date some_exchanges c fresh rs w'
    (λ _, eq_refl) Hok Hc E Hsmall) as (c' & Hs & _ & Hsent').
  exists (Response.empty, (c', w')). split; [rewrite Hacc; exact Hs|].
  cbn [fst snd]. rewrite Hsent', Hsent, Hrs. reflexivity.
Defined.
